(** * Particle-Simulator: a shallow embedding of [src/main.cpp] and
    [src/builds.h]

    The falling-sand automaton of [ParticleGrid], its renderer [Draw], the
    controls of the main loop and the saved game of [builds.h] are
    embedded as pure functions over explicit state.  Conventions:

    - C++ [int] values (coordinates, temperatures, the frame counter) are
      integers of [Z].  Where the program computes on values that it does
      not bound (the sum of temperatures of the diffusion pass, the
      conversion of a [float], the step of the brush size) the result
      is the [int] that the compiled program leaves: a sum or product
      wraps modulo [2 ^ 32] and a conversion out of range gives
      [INT_MIN]; the increment of the frame counter wraps likewise.
      Coordinates stay far inside the range.
    - The three heap arrays are lists addressed by the flat index
      [y * width + x]; a raw access outside the array (undefined in C++)
      leaves the list unchanged.
    - [rand()] reads the next element of a fixed, arbitrary sequence of
      draws carried in the state together with the number of calls made;
      the simulation and the renderer share it.
    - [timeSpeed] is an IEEE-754 binary32 value ([SpecFloat] at precision
      24), as the [float] of the source, and its arithmetic rounds to
      nearest.
    - A file is the string of its contents; an input stream is the text
      still to be read.
    - A call of raylib's [DrawRectangle] is a record of its arguments. *)

From Stdlib Require Import ZArith Lia Ascii String DecimalString DecimalZ.
From Stdlib Require Import Floats.SpecFloat.
From stdpp Require Import base decidable numbers list list_numbers sorting.

Local Open Scope Z_scope.

(** ** Cell types and the symbol table *)

Inductive Particle :=
  | Empty | Sand | Water | Lava | Stone | Steam
  | Ice | Acid | Oil | Fire | Smoke | Obsidian.

#[global] Instance Particle_eq_dec : EqDecision Particle.
Proof. solve_decision. Defined.

#[global] Instance Particle_inhabited : Inhabited Particle := populate Empty.

(** [struct ColorMap] without its colour, which only the renderer reads. *)
Record ColorMap := mkColorMap {
  cm_type : Particle;
  cm_symbol : ascii;
  cm_name : string
}.

Definition colors : list ColorMap :=
  [ mkColorMap Empty    " "%char "Empty";
    mkColorMap Sand     "S"%char "Sand";
    mkColorMap Water    "W"%char "Water";
    mkColorMap Lava     "L"%char "Lava";
    mkColorMap Stone    "#"%char "Stone";
    mkColorMap Steam    "T"%char "Steam";
    mkColorMap Ice      "I"%char "Ice";
    mkColorMap Acid     "A"%char "Acid";
    mkColorMap Oil      "O"%char "Oil";
    mkColorMap Fire     "F"%char "Fire";
    mkColorMap Smoke    "M"%char "Smoke";
    mkColorMap Obsidian "B"%char "Obsidian" ].

(** The range-for with an early [return] is a search for the first match. *)
Fixpoint GetSymbolForParticle_scan (tbl : list ColorMap) (p : Particle) : ascii :=
  match tbl with
  | [] => " "%char
  | cm :: rest =>
      if bool_decide (cm_type cm = p) then cm_symbol cm
      else GetSymbolForParticle_scan rest p
  end.

Definition GetSymbolForParticle (p : Particle) : ascii :=
  GetSymbolForParticle_scan colors p.

Fixpoint ParticleFromSymbol_scan (tbl : list ColorMap) (c : ascii) : Particle :=
  match tbl with
  | [] => Empty
  | cm :: rest =>
      if Ascii.eqb (cm_symbol cm) c then cm_type cm
      else ParticleFromSymbol_scan rest c
  end.

Definition ParticleFromSymbol (c : ascii) : Particle :=
  ParticleFromSymbol_scan colors c.

(** ** Machine integers *)

(** The bounds of [int]. *)
Definition INT_MIN : Z := - 2 ^ 31.
Definition INT_MAX : Z := 2 ^ 31 - 1.

(** The [int] left by an addition or a multiplication whose mathematical
    value is [z]: the value of the range congruent to [z] modulo [2 ^ 32].
    The standard leaves signed overflow undefined; this is what the
    compiled program computes. *)
Definition wrap_int (z : Z) : Z := (z - INT_MIN) mod 2 ^ 32 + INT_MIN.

(** ** Clock state and grid state *)

(** binary32: 24 bits of precision, exponents below 128. *)
Definition f32_prec : Z := 24.
Definition f32_emax : Z := 128.

(** The fields of [struct GameState] that the grid reads. *)
Record GameState := mkGameState {
  isPaused : bool;
  timeSpeed : spec_float;
  frameCounter : Z
}.

Record ParticleGrid := mkGrid {
  grid : list Particle;
  nextGrid : list Particle;
  temperature : list Z;
  width : Z;
  height : Z;
  gameState : GameState;
  randSeq : nat -> Z;   (* the outputs of rand(), in call order *)
  randCalls : nat       (* how many of them have been consumed *)
}.

Definition with_grid (g : list Particle) (s : ParticleGrid) : ParticleGrid :=
  mkGrid g (nextGrid s) (temperature s) (width s) (height s)
         (gameState s) (randSeq s) (randCalls s).

Definition with_nextGrid (g : list Particle) (s : ParticleGrid) : ParticleGrid :=
  mkGrid (grid s) g (temperature s) (width s) (height s)
         (gameState s) (randSeq s) (randCalls s).

Definition with_temperature (t : list Z) (s : ParticleGrid) : ParticleGrid :=
  mkGrid (grid s) (nextGrid s) t (width s) (height s)
         (gameState s) (randSeq s) (randCalls s).

Definition with_gameState (g : GameState) (s : ParticleGrid) : ParticleGrid :=
  mkGrid (grid s) (nextGrid s) (temperature s) (width s) (height s)
         g (randSeq s) (randCalls s).

(** [rand()]: the next draw, and the state with one more call recorded. *)
Definition next_draw (s : ParticleGrid) : Z := randSeq s (randCalls s).

Definition advance (s : ParticleGrid) : ParticleGrid :=
  mkGrid (grid s) (nextGrid s) (temperature s) (width s) (height s)
         (gameState s) (randSeq s) (S (randCalls s)).

Definition rand (s : ParticleGrid) : Z * ParticleGrid :=
  (next_draw s, advance s).

(** Raw array write [a[i] = v]. *)
Definition store {A} (a : list A) (i : Z) (v : A) : list A :=
  if 0 <=? i then <[Z.to_nat i := v]> a else a.

(** Raw array read [a[i]]. *)
Definition load `{Inhabited A} (a : list A) (i : Z) : A := a !!! Z.to_nat i.

(** The test [x < 0 || x >= width || y < 0 || y >= height]. *)
Definition out_of_range (s : ParticleGrid) (x y : Z) : bool :=
  (x <? 0) || (x >=? width s) || (y <? 0) || (y >=? height s).

(** The test [y >= height - 2 || x == 0 || x == width - 1]. *)
Definition on_border (s : ParticleGrid) (x y : Z) : bool :=
  (y >=? height s - 2) || (x =? 0) || (x =? width s - 1).

Definition Get (s : ParticleGrid) (x y : Z) : Particle :=
  if out_of_range s x y then Stone
  else load (grid s) (y * width s + x).

Definition Set_ (x y : Z) (p : Particle) (s : ParticleGrid) : ParticleGrid :=
  if out_of_range s x y then s
  else if on_border s x y then s
  else with_grid (store (grid s) (y * width s + x) p) s.

Definition GetTemperature (s : ParticleGrid) (x y : Z) : Z :=
  if out_of_range s x y then 20
  else load (temperature s) (y * width s + x).

Definition SetTemperature (x y temp : Z) (s : ParticleGrid) : ParticleGrid :=
  if out_of_range s x y then s
  else with_temperature (store (temperature s) (y * width s + x) temp) s.

Definition SetNext (x y : Z) (p : Particle) (s : ParticleGrid) : ParticleGrid :=
  if out_of_range s x y then s
  else with_nextGrid (store (nextGrid s) (y * width s + x) p) s.

(** A counted loop [for (i = lo; i < lo + n; i++) body(i)]. *)
Definition for_each {S} (l : list Z) (body : Z -> S -> S) (s : S) : S :=
  foldl (fun acc i => body i acc) s l.

Definition CreateGround (s : ParticleGrid) : ParticleGrid :=
  let s1 :=
    for_each (seqZ 0 (width s)) (fun x s =>
      let s := with_grid (store (grid s) ((height s - 1) * width s + x) Stone) s in
      with_grid (store (grid s) ((height s - 2) * width s + x) Stone) s) s in
  for_each (seqZ 0 (height s - 1)) (fun y s =>
    let s := with_grid (store (grid s) (y * width s + 0) Stone) s in
    with_grid (store (grid s) (y * width s + (width s - 1)) Stone) s) s1.

Definition CreateGroundNext (s : ParticleGrid) : ParticleGrid :=
  let s1 :=
    for_each (seqZ 0 (width s)) (fun x s =>
      let s := with_nextGrid (store (nextGrid s) ((height s - 1) * width s + x) Stone) s in
      with_nextGrid (store (nextGrid s) ((height s - 2) * width s + x) Stone) s) s in
  for_each (seqZ 0 (height s - 1)) (fun y s =>
    let s := with_nextGrid (store (nextGrid s) (y * width s + 0) Stone) s in
    with_nextGrid (store (nextGrid s) (y * width s + (width s - 1)) Stone) s) s1.

Definition Clear (s : ParticleGrid) : ParticleGrid :=
  let s1 :=
    for_each (seqZ 0 (width s * height s)) (fun i s =>
      let s := with_grid (store (grid s) i Empty) s in
      let s := with_nextGrid (store (nextGrid s) i Empty) s in
      with_temperature (store (temperature s) i 20) s) s in
  CreateGround s1.

(** The constructor: three value-initialised arrays of [width * height]
    cells (enumerator 0 is [Empty], [int] 0), then [Clear] and
    [CreateGround]. *)
Definition ParticleGrid_new (w h : Z) (state : GameState)
    (draws : nat -> Z) : ParticleGrid :=
  let n := Z.to_nat (w * h) in
  CreateGround
    (Clear (mkGrid (replicate n Empty) (replicate n Empty) (replicate n 0)
                   w h state draws 0%nat)).

(** ** Neighbourhood scans *)

(** The values of [dx] and [dy] : -1, 0, 1. *)
Definition unit_offsets : list Z := seqZ (-1) 3.

(** The pairs [(dx, dy)] visited by
    [for dy in -1..1: for dx in -1..1: if (dx == 0 && dy == 0) continue; ...],
    in visiting order. *)
Definition neighbour_offsets : list (Z * Z) :=
  flat_map (fun dy =>
    flat_map (fun dx =>
      if (dx =? 0) && (dy =? 0) then [] else [(dx, dy)]) unit_offsets)
    unit_offsets.

Fixpoint CheckNeighbor_scan (offs : list (Z * Z)) (s : ParticleGrid)
    (x y : Z) (target : Particle) : bool :=
  match offs with
  | [] => false
  | (dx, dy) :: rest =>
      if bool_decide (Get s (x + dx) (y + dy) = target) then true
      else CheckNeighbor_scan rest s x y target
  end.

Definition CheckNeighbor (s : ParticleGrid) (x y : Z) (target : Particle) : bool :=
  CheckNeighbor_scan neighbour_offsets s x y target.

Fixpoint ReplaceNeighbor_scan (offs : list (Z * Z)) (x y : Z)
    (target replacement : Particle) (s : ParticleGrid) : ParticleGrid :=
  match offs with
  | [] => s
  | (dx, dy) :: rest =>
      let nx := x + dx in
      let ny := y + dy in
      if bool_decide (Get s nx ny = target) then SetNext nx ny replacement s
      else ReplaceNeighbor_scan rest x y target replacement s
  end.

Definition ReplaceNeighbor (x y : Z) (target replacement : Particle)
    (s : ParticleGrid) : ParticleGrid :=
  ReplaceNeighbor_scan neighbour_offsets x y target replacement s.

(** ** Reaction engine *)

(** The Acid case of [ProcessReactions]: the double loop over the
    neighbours, left by [return true] as soon as the acid is consumed. *)
Fixpoint Acid_scan (offs : list (Z * Z)) (x y : Z) (s : ParticleGrid)
    : bool * ParticleGrid :=
  match offs with
  | [] => (false, s)
  | (dx, dy) :: rest =>
      let nx := x + dx in
      let ny := y + dy in
      if (0 <? nx) && (nx <? width s - 1) && (0 <? ny) && (ny <? height s - 2) then
        let neighbor := Get s nx ny in
        if bool_decide (neighbor = Sand) || bool_decide (neighbor = Ice) then
          let s1 := SetNext nx ny Empty s in
          let '(r, s2) := rand s1 in
          if Z.rem r 8 =? 0 then (true, SetNext x y Empty s2)
          else Acid_scan rest x y s2
        else Acid_scan rest x y s
      else Acid_scan rest x y s
  end.

Definition ProcessReactions (x y : Z) (s : ParticleGrid) : bool * ParticleGrid :=
  match Get s x y with
  | Lava =>
      if CheckNeighbor s x y Water then
        (true, ReplaceNeighbor x y Water Steam (SetNext x y Obsidian s))
      else if GetTemperature s x y <? 500 then (true, SetNext x y Stone s)
      else (false, s)
  | Water =>
      if CheckNeighbor s x y Lava || CheckNeighbor s x y Fire
         || (100 <? GetTemperature s x y)
      then (true, SetNext x y Steam s)
      else if GetTemperature s x y <? 0 then (true, SetNext x y Ice s)
      else (false, s)
  | Ice =>
      if (0 <? GetTemperature s x y) || CheckNeighbor s x y Lava
         || CheckNeighbor s x y Fire
      then (true, SetNext x y Water s)
      else (false, s)
  | Steam =>
      if GetTemperature s x y <? 50 then
        let '(r, s1) := rand s in
        if Z.rem r 20 =? 0 then (true, SetNext x y Water s1) else (false, s1)
      else (false, s)
  | Fire =>
      if CheckNeighbor s x y Oil then
        let s1 := ReplaceNeighbor x y Oil Fire s in
        let '(r, s2) := rand s1 in
        if Z.rem r 30 =? 0 then (true, SetNext x y Smoke s2) else (false, s2)
      else if CheckNeighbor s x y Water then
        (true, ReplaceNeighbor x y Water Steam (SetNext x y Smoke s))
      else
        let '(r, s1) := rand s in
        if Z.rem r 50 =? 0 then (true, SetNext x y Smoke s1) else (false, s1)
  | Acid => Acid_scan neighbour_offsets x y s
  | Oil =>
      if CheckNeighbor s x y Fire || CheckNeighbor s x y Lava
      then (true, SetNext x y Fire s)
      else (false, s)
  | _ => (false, s)
  end.

(** ** Movement engine *)

Definition CanMoveDown (s : ParticleGrid) (x y : Z) : bool :=
  let below := Get s x (y + 1) in
  let current := Get s x y in
  if bool_decide (below = Empty) then true
  else if bool_decide (below = Steam)
          && (bool_decide (current = Water) || bool_decide (current = Lava)
              || bool_decide (current = Acid) || bool_decide (current = Oil))
  then true
  else false.

Definition CanMoveSide (s : ParticleGrid) (x y dir : Z) : bool :=
  let side := Get s (x + dir) y in
  bool_decide (side = Empty) || bool_decide (side = Steam).

(** [(rand() % 2) ? 1 : -1] *)
Definition rand_dir (s : ParticleGrid) : Z * ParticleGrid :=
  let '(r, s1) := rand s in
  (if Z.rem r 2 =? 0 then -1 else 1, s1).

Definition UpdateSand (x y : Z) (s : ParticleGrid) : ParticleGrid :=
  if CanMoveDown s x y then
    let s1 := SetNext x (y + 1) Sand s in
    if bool_decide (Get s1 x (y + 1) = Steam) then SetNext x y Steam s1
    else SetNext x y Empty s1
  else
    let '(dir, s1) := rand_dir s in
    if bool_decide (Get s1 (x + dir) (y + 1) = Empty)
       || bool_decide (Get s1 (x + dir) (y + 1) = Steam) then
      let s2 := SetNext (x + dir) (y + 1) Sand s1 in
      if bool_decide (Get s2 (x + dir) (y + 1) = Steam) then SetNext x y Steam s2
      else SetNext x y Empty s2
    else if bool_decide (Get s1 (x - dir) (y + 1) = Empty)
            || bool_decide (Get s1 (x - dir) (y + 1) = Steam) then
      let s2 := SetNext (x - dir) (y + 1) Sand s1 in
      if bool_decide (Get s2 (x - dir) (y + 1) = Steam) then SetNext x y Steam s2
      else SetNext x y Empty s2
    else s1.

Definition UpdateWater (x y : Z) (s : ParticleGrid) : ParticleGrid :=
  if CanMoveDown s x y then
    let s1 := SetNext x (y + 1) Water s in
    if bool_decide (Get s1 x (y + 1) = Steam) then SetNext x y Steam s1
    else SetNext x y Empty s1
  else
    let '(dir, s1) := rand_dir s in
    if CanMoveSide s1 x y dir then
      SetNext x y Empty (SetNext (x + dir) y Water s1)
    else if CanMoveSide s1 x y (- dir) then
      SetNext x y Empty (SetNext (x - dir) y Water s1)
    else s1.

Definition UpdateLava (x y : Z) (s : ParticleGrid) : ParticleGrid :=
  let s' :=
    if CanMoveDown s x y then
      let s1 := SetNext x (y + 1) Lava s in
      let s2 := SetTemperature x (y + 1) 1000 s1 in
      if bool_decide (Get s2 x (y + 1) = Steam) then SetNext x y Steam s2
      else SetNext x y Empty s2
    else
      let '(dir, s1) := rand_dir s in
      if CanMoveSide s1 x y dir then
        SetNext x y Empty
          (SetTemperature (x + dir) y 1000 (SetNext (x + dir) y Lava s1))
      else if CanMoveSide s1 x y (- dir) then
        SetNext x y Empty
          (SetTemperature (x - dir) y 1000 (SetNext (x - dir) y Lava s1))
      else s1 in
  SetTemperature x y 1000 s'.

Definition UpdateSteam (x y : Z) (s : ParticleGrid) : ParticleGrid :=
  if bool_decide (Get s x (y - 1) = Empty) then
    SetNext x y Empty (SetNext x (y - 1) Steam s)
  else
    let '(dir, s1) := rand_dir s in
    if bool_decide (Get s1 (x + dir) y = Empty) then
      SetNext x y Empty (SetNext (x + dir) y Steam s1)
    else if bool_decide (Get s1 (x - dir) y = Empty) then
      SetNext x y Empty (SetNext (x - dir) y Steam s1)
    else
      let '(r, s2) := rand s1 in
      if Z.rem r 100 =? 0 then SetNext x y Empty s2 else s2.

Definition UpdateIce (x y : Z) (s : ParticleGrid) : ParticleGrid := s.

Definition UpdateAcid (x y : Z) (s : ParticleGrid) : ParticleGrid :=
  if CanMoveDown s x y then
    let s1 := SetNext x (y + 1) Acid s in
    if bool_decide (Get s1 x (y + 1) = Steam) then SetNext x y Steam s1
    else SetNext x y Empty s1
  else
    let '(dir, s1) := rand_dir s in
    if CanMoveSide s1 x y dir then
      SetNext x y Empty (SetNext (x + dir) y Acid s1)
    else if CanMoveSide s1 x y (- dir) then
      SetNext x y Empty (SetNext (x - dir) y Acid s1)
    else s1.

Definition UpdateOil (x y : Z) (s : ParticleGrid) : ParticleGrid :=
  let '(r, s0) := rand s in
  if Z.rem r 2 =? 0 then
    if CanMoveDown s0 x y then
      let s1 := SetNext x (y + 1) Oil s0 in
      if bool_decide (Get s1 x (y + 1) = Steam) then SetNext x y Steam s1
      else SetNext x y Empty s1
    else
      let '(dir, s1) := rand_dir s0 in
      if CanMoveSide s1 x y dir then
        SetNext x y Empty (SetNext (x + dir) y Oil s1)
      else if CanMoveSide s1 x y (- dir) then
        SetNext x y Empty (SetNext (x - dir) y Oil s1)
      else s1
  else s0.

Definition UpdateFire (x y : Z) (s : ParticleGrid) : ParticleGrid :=
  let '(moved, s1) :=
    if bool_decide (Get s x (y - 1) = Empty) then
      let '(r, s0) := rand s in
      if Z.rem r 3 =? 0 then
        (true, SetTemperature x (y - 1) 800 (SetNext x (y - 1) Fire s0))
      else (false, s0)
    else (false, s) in
  let '(moved, s2) :=
    if moved then (true, s1)
    else
      let '(r, s0) := rand s1 in
      if Z.rem r 4 =? 0 then
        let '(dir, s0) := rand_dir s0 in
        if bool_decide (Get s0 (x + dir) y = Empty) then
          (true, SetTemperature (x + dir) y 800 (SetNext (x + dir) y Fire s0))
        else (false, s0)
      else (false, s0) in
  let s3 := if moved then SetNext x y Empty s2 else s2 in
  SetTemperature x y 800 s3.

Definition UpdateSmoke (x y : Z) (s : ParticleGrid) : ParticleGrid :=
  let '(rose, s1) :=
    if bool_decide (Get s x (y - 1) = Empty) then
      let '(r, s0) := rand s in (Z.rem r 3 =? 0, s0)
    else (false, s) in
  let s2 :=
    if rose then SetNext x y Empty (SetNext x (y - 1) Smoke s1)
    else
      let '(r, s0) := rand s1 in
      let dir := Z.rem r 3 - 1 in
      if negb (dir =? 0) && bool_decide (Get s0 (x + dir) y = Empty) then
        let '(r4, s0) := rand s0 in
        if Z.rem r4 4 =? 0 then SetNext x y Empty (SetNext (x + dir) y Smoke s0)
        else s0
      else s0 in
  let '(r, s3) := rand s2 in
  if Z.rem r 80 =? 0 then SetNext x y Empty s3 else s3.

(** ** Temperature field *)

(** The accumulation of [avgTemp] and [neighbors] over the 8 surrounding
    cells of [(x, y)]; [avgTemp += t] is an addition of [int]. *)
Definition neighbour_sum (s : ParticleGrid) (x y : Z) (acc : Z * Z) : Z * Z :=
  for_each unit_offsets (fun dy acc =>
    for_each unit_offsets (fun dx acc =>
      if (dx =? 0) && (dy =? 0) then acc
      else if negb (bool_decide (Get s (x + dx) (y + dy) = Empty)) then
        (wrap_int (fst acc + GetTemperature s (x + dx) (y + dy)), snd acc + 1)
      else acc) acc) acc.

(** [if (t > 20) t = max(20, t - 1); if (t < 20) t = min(20, t + 1);] *)
Definition relax (newTemp : Z) : Z :=
  let t1 := if 20 <? newTemp then Z.max 20 (newTemp - 1) else newTemp in
  if t1 <? 20 then Z.min 20 (t1 + 1) else t1.

(** The body of the double loop of [UpdateTemperature]. *)
Definition diffuse_cell (x y : Z) (s : ParticleGrid) : ParticleGrid :=
  if bool_decide (Get s x y = Empty) then s
  else
    let '(avgTemp, neighbors) := neighbour_sum s x y (GetTemperature s x y, 1) in
    SetTemperature x y (relax (Z.quot avgTemp neighbors)) s.

Definition UpdateTemperature (s : ParticleGrid) : ParticleGrid :=
  let w := width s in
  let h := height s in
  for_each (seqZ 1 (h - 2)) (fun y s =>
    for_each (seqZ 1 (w - 2)) (fun x s => diffuse_cell x y s) s) s.

(** ** The tick *)

Definition f32_one : spec_float := S754_finite false 8388608 (-23).

(** The conversion [(int)f]: truncation toward zero.  Converting a NaN, an
    infinity or a value outside the [int] range is undefined in C++; the
    compiled program gets [INT_MIN], the "integer indefinite" value of
    the conversion instruction, in each of these cases. *)
Definition float_to_int (f : spec_float) : Z :=
  match f with
  | S754_zero _ => 0
  | S754_finite sgn m e =>
      let mag := Z.shiftl (Z.pos m) e in
      let v := if sgn then - mag else mag in
      if (INT_MIN <=? v) && (v <=? INT_MAX) then v else INT_MIN
  | _ => INT_MIN
  end.

(** [std::max(1, (int)(1.0f / gameState->timeSpeed))] *)
Definition skipFrames (gs : GameState) : Z :=
  Z.max 1 (float_to_int (SFdiv f32_prec f32_emax f32_one (timeSpeed gs))).

(** The body of the scan of [Update] for the cell [(x, y)]. *)
Definition update_cell (x y : Z) (s : ParticleGrid) : ParticleGrid :=
  let p := Get s x y in
  if bool_decide (p = Empty) then s
  else
    let '(reacted, s1) := ProcessReactions x y s in
    if reacted then s1
    else
      match p with
      | Sand => UpdateSand x y s1
      | Water => UpdateWater x y s1
      | Lava => UpdateLava x y s1
      | Steam => UpdateSteam x y s1
      | Ice => UpdateIce x y s1
      | Acid => UpdateAcid x y s1
      | Oil => UpdateOil x y s1
      | Fire => UpdateFire x y s1
      | Smoke => UpdateSmoke x y s1
      | Obsidian => s1
      | _ => s1
      end.

(** The part of [Update] behind the pause and frame-skip gate: copy,
    border, scan from row [height - 3] up to row 0, diffusion, swap. *)
Definition tick (s : ParticleGrid) : ParticleGrid :=
  let s1 :=
    for_each (seqZ 0 (width s * height s)) (fun i s =>
      with_nextGrid (store (nextGrid s) i (load (grid s) i)) s) s in
  let s2 := CreateGroundNext s1 in
  let s3 :=
    for_each (reverse (seqZ 0 (height s - 2))) (fun y s' =>
      for_each (seqZ 1 (width s - 2)) (fun x s' => update_cell x y s') s') s2 in
  let s4 := UpdateTemperature s3 in
  mkGrid (nextGrid s4) (grid s4) (temperature s4) (width s4) (height s4)
         (gameState s4) (randSeq s4) (randCalls s4).

(** [frameCounter++] is an increment of [int]. *)
Definition Update (s : ParticleGrid) : ParticleGrid :=
  if isPaused (gameState s) then s
  else
    let gs := gameState s in
    let gs1 := mkGameState (isPaused gs) (timeSpeed gs)
                           (wrap_int (frameCounter gs + 1)) in
    let s1 := with_gameState gs1 s in
    if negb (Z.rem (frameCounter gs1) (skipFrames gs1) =? 0) then s1
    else tick s1.

(** ** Brush *)

(** The loop body of [AddParticle] at offset [(dx, dy)]. *)
Definition paint_body (x y : Z) (p : Particle) (brushRadius dx dy : Z)
    (s : ParticleGrid) : ParticleGrid :=
  let nx := x + dx in
  let ny := y + dy in
  if dx * dx + dy * dy <=? brushRadius * brushRadius then
    if (0 <? nx) && (nx <? width s - 1) && (0 <=? ny) && (ny <? height s - 2) then
      if bool_decide (p = Empty) || bool_decide (Get s nx ny = Empty)
         || bool_decide (Get s nx ny = Steam) then
        let s1 := Set_ nx ny p s in
        match p with
        | Lava | Fire => SetTemperature nx ny 1000 s1
        | Ice => SetTemperature nx ny (-10) s1
        | Steam => SetTemperature nx ny 100 s1
        | _ => SetTemperature nx ny 20 s1
        end
      else s
    else s
  else s.

(** [brush] is the integer value of the [BrushSize] enumerator. *)
Definition AddParticle (x y : Z) (p : Particle) (brush : Z)
    (s : ParticleGrid) : ParticleGrid :=
  let brushRadius := Z.quot brush 2 in
  for_each (seqZ (- brushRadius) (2 * brushRadius + 1)) (fun dy s =>
    for_each (seqZ (- brushRadius) (2 * brushRadius + 1)) (fun dx s =>
      paint_body x y p brushRadius dx dy s) s) s.

(** ** Persistence *)

Definition newline : ascii := ascii_of_nat 10.

(** [file << n] for an [int]. *)
Definition print_int (n : Z) : string :=
  DecimalString.NilZero.string_of_int (Z.to_int n).

(** The text written by [SaveToFile] (when the file can be opened). *)
Definition SaveToFile (s : ParticleGrid) : string :=
  let out := ("# Particle Simulator Save File" ++ String newline "")%string in
  let out := (out ++ ("# Width: " ++ print_int (width s) ++ " Height: "
                      ++ print_int (height s) ++ String newline ""))%string in
  for_each (seqZ 0 (height s)) (fun y out =>
    let out :=
      for_each (seqZ 0 (width s)) (fun x out =>
        (out ++ String (GetSymbolForParticle (Get s x y)) "")%string) out in
    (out ++ String newline "")%string) out.

(** The successive results of [std::getline] on a stream holding [input]:
    a line ends at a newline, which is dropped, or at the end of the file;
    at the end of the file [getline] fails. *)
Fixpoint getlines (input : string) : list string :=
  match input with
  | EmptyString => []
  | String c rest =>
      if Ascii.eqb c newline then EmptyString :: getlines rest
      else match getlines rest with
           | [] => [String c EmptyString]
           | l :: ls => String c l :: ls
           end
  end.

(** [line[x]] *)
Definition char_at (line : string) (x : Z) : ascii :=
  default Ascii.zero (String.get (Z.to_nat x) line).

(** The inner loop of [LoadFromFile] over the characters of one line. *)
Definition load_row (line : string) (y : Z) (s : ParticleGrid) : ParticleGrid :=
  for_each (seqZ 0 (Z.min (Z.of_nat (String.length line)) (width s))) (fun x s =>
    let p := ParticleFromSymbol (char_at line x) in
    if on_border s x y then Set_ x y Stone s else Set_ x y p s) s.

(** The [while (std::getline(file, line) && y < height)] loop. *)
Fixpoint load_lines (lines : list string) (y : Z) (s : ParticleGrid) : ParticleGrid :=
  match lines with
  | [] => s
  | line :: rest =>
      if negb (y <? height s) then s
      else if (String.length line =? 0)%nat || Ascii.eqb (char_at line 0) "#"%char
      then load_lines rest y s
      else load_lines rest (y + 1) (load_row line y s)
  end.

(** [file] is [None] when the file cannot be opened. *)
Definition LoadFromFile (file : option string) (s : ParticleGrid) : ParticleGrid :=
  match file with
  | None => s
  | Some contents => load_lines (getlines contents) 0 (Clear s)
  end.

(** ** Names of the particles *)

Fixpoint GetParticleName_scan (tbl : list ColorMap) (p : Particle) : string :=
  match tbl with
  | [] => "Unknown"
  | cm :: rest =>
      if bool_decide (cm_type cm = p) then cm_name cm
      else GetParticleName_scan rest p
  end.

Definition GetParticleName (p : Particle) : string :=
  GetParticleName_scan colors p.

(** ** Rendering *)

Definition CELL_SIZE : Z := 8.

(** raylib's [Color]: four [unsigned char] channels. *)
Record Color := mkColor {
  col_r : Z;
  col_g : Z;
  col_b : Z;
  col_a : Z
}.

#[global] Instance Color_eq_dec : EqDecision Color.
Proof. solve_decision. Defined.

(** raylib's [BLACK]. *)
Definition BLACK : Color := mkColor 0 0 0 255.

(** The [color] column of the table [colors], row by row. *)
Definition color_column : list Color :=
  [ BLACK;
    mkColor 194 178 128 255;
    mkColor 64 164 223 255;
    mkColor 255 100 0 255;
    mkColor 128 128 128 255;
    mkColor 220 220 220 180;
    mkColor 173 216 230 255;
    mkColor 0 255 0 255;
    mkColor 139 69 19 255;
    mkColor 255 140 0 255;
    mkColor 105 105 105 200;
    mkColor 50 50 50 255 ].

Fixpoint GetColorForParticle_scan (tbl : list ColorMap) (cols : list Color)
    (p : Particle) : Color :=
  match tbl, cols with
  | cm :: rest, c :: cols' =>
      if bool_decide (cm_type cm = p) then c
      else GetColorForParticle_scan rest cols' p
  | _, _ => BLACK
  end.

Definition GetColorForParticle (p : Particle) : Color :=
  GetColorForParticle_scan colors color_column p.

(** The conversion of an [int] to [unsigned char], on assignment to a
    channel. *)
Definition to_uchar (v : Z) : Z := v mod 256.

(** One call [DrawRectangle(posX, posY, width, height, color)]. *)
Record Rectangle := mkRectangle {
  rect_x : Z;
  rect_y : Z;
  rect_w : Z;
  rect_h : Z;
  rect_color : Color
}.

(** The body of the double loop of [Draw]: the calls made so far and the
    state, whose stream of draws the colour variations consume. *)
Definition draw_cell (x y : Z) (acc : list Rectangle * ParticleGrid)
    : list Rectangle * ParticleGrid :=
  let '(out, s) := acc in
  let p := Get s x y in
  if bool_decide (p = Empty) then acc
  else
    let c := GetColorForParticle p in
    let '(c, s) :=
      match p with
      | Fire =>
          let '(r, s1) := rand s in
          let variation := Z.rem r 50 in
          let c := mkColor (to_uchar (Z.min 255 (col_r c + variation)))
                           (col_g c) (col_b c) (col_a c) in
          let c := mkColor (col_r c)
                           (to_uchar (Z.max 0 (col_g c - Z.quot variation 2)))
                           (col_b c) (col_a c) in
          (c, s1)
      | Lava =>
          let '(r, s1) := rand s in
          let variation := Z.rem r 30 in
          (mkColor (to_uchar (Z.max 200 (col_r c - variation)))
                   (col_g c) (col_b c) (col_a c), s1)
      | Steam =>
          let '(r, s1) := rand s in
          (mkColor (col_r c) (col_g c) (col_b c) (to_uchar (100 + Z.rem r 80)), s1)
      | Smoke =>
          let '(r, s1) := rand s in
          (mkColor (col_r c) (col_g c) (col_b c) (to_uchar (150 + Z.rem r 50)), s1)
      | _ => (c, s)
      end in
    (out ++ [mkRectangle (x * CELL_SIZE) (y * CELL_SIZE) CELL_SIZE CELL_SIZE c], s).

(** [Draw]: the calls of [DrawRectangle] in order, and the state after
    the draws. *)
Definition Draw (s : ParticleGrid) : list Rectangle * ParticleGrid :=
  for_each (seqZ 0 (height s)) (fun y acc =>
    for_each (seqZ 0 (width s)) (fun x acc => draw_cell x y acc) acc) ([], s).

(** ** The controls of the main loop *)

(** The binary32 constants [0.25f], [4.0f] and [0.1f]. *)
Definition f32_quarter : spec_float := S754_finite false 8388608 (-25).
Definition f32_four : spec_float := S754_finite false 8388608 (-21).
Definition f32_tenth : spec_float := S754_finite false 13421773 (-27).

(** [std::min(a, b)] and [std::max(a, b)] on [float]: [b] when it
    compares below, respectively above, [a], else [a]. *)
Definition f32_min (a b : spec_float) : spec_float := if SFltb b a then b else a.
Definition f32_max (a b : spec_float) : spec_float := if SFltb a b then b else a.

(** The key [+]: [timeSpeed = std::min(4.0f, timeSpeed + 0.25f)]. *)
Definition speed_up (ts : spec_float) : spec_float :=
  f32_min f32_four (SFadd f32_prec f32_emax ts f32_quarter).

(** The key [-]: [timeSpeed = std::max(0.1f, timeSpeed - 0.25f)]. *)
Definition speed_down (ts : spec_float) : spec_float :=
  f32_max f32_tenth (SFsub f32_prec f32_emax ts f32_quarter).

(** The mouse wheel, on the integer value of [brushSize]:
    [if (wheelMove != 0 && !showMenu) {
       currentSize = (int)brushSize + (int)wheelMove * 2;
       brushSize = (BrushSize)std::max(1, std::min(7, currentSize)); }] *)
Definition wheel_brush (wheelMove : spec_float) (showMenu : bool)
    (brushSize : Z) : Z :=
  if negb (SFeqb wheelMove (S754_zero false)) && negb showMenu then
    let currentSize := brushSize in
    let currentSize := wrap_int (currentSize + wrap_int (float_to_int wheelMove * 2)) in
    Z.max 1 (Z.min 7 currentSize)
  else brushSize.

(** ** A frame of the main loop *)

(** A frame of the main loop without input: [grid.Update()], then
    [grid.Draw()]. *)
Definition idle_frame (s : ParticleGrid) : ParticleGrid := snd (Draw (Update s)).

(** ** The saved game of [builds.h] *)

Record Build := mkBuild {
  name : string;
  cost : Z;
  count : Z;
  unlockScore : Z;
  cps : Z
}.

(** The text written by [SaveGame] (when the file can be opened): the
    score, then the count of each build, one number on each line. *)
Definition SaveGame (score : Z) (builds : list Build) : string :=
  foldl (fun out b => (out ++ print_int (count b) ++ String newline "")%string)
        (print_int score ++ String newline "")%string builds.

(** [std::isspace] in the classic locale: space, tab, line feed, vertical
    tab, form feed, carriage return. *)
Definition isspace (c : ascii) : bool :=
  let n := Z.of_nat (nat_of_ascii c) in
  (n =? 32) || ((9 <=? n) && (n <=? 13)).

Fixpoint skipws (input : string) : string :=
  match input with
  | EmptyString => EmptyString
  | String c rest => if isspace c then skipws rest else input
  end.

Definition digit_value (c : ascii) : option Z :=
  let n := Z.of_nat (nat_of_ascii c) in
  if (48 <=? n) && (n <=? 57) then Some (n - 48) else None.

(** The decimal digits at the head of [input], accumulated from the left. *)
Fixpoint read_digits (input : string) (acc : Z) : Z * string :=
  match input with
  | EmptyString => (acc, input)
  | String c rest =>
      match digit_value c with
      | Some d => read_digits rest (10 * acc + d)
      | None => (acc, input)
      end
  end.

Definition starts_with_digit (input : string) : bool :=
  match input with
  | EmptyString => false
  | String c _ => match digit_value c with Some _ => true | None => false end
  end.

(** [file >> v] for an [int] [v].  The stream is the text still to be
    read, or [None] once [failbit] is set.  A stream that has failed, or
    that holds only white space, leaves [v] as it is; a field that is not
    a number stores 0 and fails; a number outside the range of [int]
    stores the nearest bound and fails. *)
Definition extract_int (stream : option string) (v : Z) : Z * option string :=
  match stream with
  | None => (v, None)
  | Some input =>
      match skipws input with
      | EmptyString => (v, None)
      | String c rest as field =>
          let '(negative, digits) :=
            if Ascii.eqb c "-" then (true, rest)
            else if Ascii.eqb c "+" then (false, rest)
            else (false, field) in
          if starts_with_digit digits then
            let '(n, rest') := read_digits digits 0 in
            let n := if negative : bool then - n else n in
            if n <? INT_MIN then (INT_MIN, None)
            else if INT_MAX <? n then (INT_MAX, None)
            else (n, Some rest')
          else (0, None)
      end
  end.

(** The loop [for (auto& b : builds) file >> b.count;]. *)
Fixpoint load_counts (stream : option string) (builds : list Build)
    : list Build :=
  match builds with
  | [] => []
  | b :: rest =>
      let '(c, stream') := extract_int stream (count b) in
      mkBuild (name b) (cost b) c (unlockScore b) (cps b)
      :: load_counts stream' rest
  end.

(** [file] is [None] when the file cannot be opened.  The result is the
    score and the builds after the call. *)
Definition LoadGame (score : Z) (builds : list Build) (file : option string)
    : Z * list Build :=
  match file with
  | None => (score, builds)
  | Some contents =>
      let '(score', stream) := extract_int (Some contents) score in
      (score', load_counts stream builds)
  end.

(** * Vocabulary of the statements *)

(** ** Loops, well-formed states, shapes *)

(** The cells of a double loop, in visiting order: [ys] outside, [xs]
    inside. *)
Definition cells (ys xs : list Z) : list (Z * Z) :=
  flat_map (fun y => map (fun x => (x, y)) xs) ys.

(** The arrays have [width * height] cells, as allocated by the
    constructor, and the grid is large enough for the raw writes of
    [CreateGround] to stay inside it. *)
Record wf (s : ParticleGrid) : Prop := mk_wf {
  wf_width : 1 <= width s;
  wf_height : 2 <= height s;
  wf_grid : Z.of_nat (length (grid s)) = width s * height s;
  wf_next : Z.of_nat (length (nextGrid s)) = width s * height s;
  wf_temp : Z.of_nat (length (temperature s)) = width s * height s
}.

(** [(x, y)] is a cell of the grid. *)
Definition in_range (s : ParticleGrid) (x y : Z) : Prop :=
  0 <= x < width s /\ 0 <= y < height s.

(** [(x, y)] is one of the protected cells: the bottom two rows and the
    leftmost and rightmost columns. *)
Definition protected (s : ParticleGrid) (x y : Z) : Prop :=
  height s - 2 <= y \/ x = 0 \/ x = width s - 1.

(** The cell of the next buffer at [(x, y)]; a reading used in statements
    only, the program never reads the next buffer by coordinates. *)
Definition GetNext (s : ParticleGrid) (x y : Z) : Particle :=
  if out_of_range s x y then Stone
  else load (nextGrid s) (y * width s + x).

(** [s'] has the dimensions and array sizes of [s]. *)
Record same_shape (s s' : ParticleGrid) : Prop := mk_same_shape {
  shape_width : width s' = width s;
  shape_height : height s' = height s;
  shape_grid : length (grid s') = length (grid s);
  shape_next : length (nextGrid s') = length (nextGrid s);
  shape_temp : length (temperature s') = length (temperature s)
}.

(** ** Painting *)

(** The temperature stamped on a painted cell. *)
Definition initial_temperature (p : Particle) : Z :=
  match p with
  | Lava | Fire => 1000
  | Ice => -10
  | Steam => 100
  | _ => 20
  end.

(** [(i, j)] lies in the circular brush of [AddParticle x y _ brush]. *)
Definition in_brush (x y brush i j : Z) : Prop :=
  let r := Z.quot brush 2 in
  (- r <= i - x <= r /\ - r <= j - y <= r)
  /\ (i - x) * (i - x) + (j - y) * (j - y) <= r * r.

(** [(i, j)] lies in the paintable interior. *)
Definition paintable (s : ParticleGrid) (i j : Z) : Prop :=
  0 < i < width s - 1 /\ 0 <= j < height s - 2.

(** [AddParticle x y p brush] writes the cell [(i, j)] of [s]. *)
Definition painted (s : ParticleGrid) (x y : Z) (p : Particle) (brush : Z)
    (i j : Z) : Prop :=
  in_brush x y brush i j /\ paintable s i j
  /\ (p = Empty \/ Get s i j = Empty \/ Get s i j = Steam).

#[global] Instance painted_dec s x y p brush i j :
  Decision (painted s x y p brush i j).
Proof. unfold painted, in_brush, paintable. apply _. Defined.

(** ** Diffusion *)

(** [a] is visited before [b] by a row-major scan: rows top to bottom,
    columns left to right. *)
Definition earlier (a b : Z * Z) : Prop :=
  snd a < snd b \/ (snd a = snd b /\ fst a < fst b).

(** The sum of a list of integers. *)
Definition Zsum (l : list Z) : Z := foldr Z.add 0 l.

(** The offsets of the surrounding cells of [(x, y)] that are not Empty. *)
Definition occupied_neighbours (s : ParticleGrid) (x y : Z) : list (Z * Z) :=
  filter (fun c => Get s (x + fst c) (y + snd c) <> Empty) neighbour_offsets.

(** The mean, with the truncating division of [int], of the reading
    [temp] at [(x, y)] and at its occupied neighbours. *)
Definition mean_temperature (s : ParticleGrid) (temp : Z -> Z -> Z)
    (x y : Z) : Z :=
  let occ := occupied_neighbours s x y in
  Z.quot (temp x y + Zsum (map (fun c => temp (x + fst c) (y + snd c)) occ))
         (1 + Z.of_nat (length occ)).

(** The sum formed by the visit of [(x, y)] under the reading [temp]: the
    cell and its occupied neighbours, as a mathematical integer. *)
Definition temperature_sum (s : ParticleGrid) (temp : Z -> Z -> Z)
    (x y : Z) : Z :=
  temp x y
  + Zsum (map (fun c => temp (x + fst c) (y + snd c)) (occupied_neighbours s x y)).

(** The mean as the [int] arithmetic of the pass computes it: the sum
    wrapped into the range of [int], then the truncating division. *)
Definition int_mean_temperature (s : ParticleGrid) (temp : Z -> Z -> Z)
    (x y : Z) : Z :=
  Z.quot (wrap_int (temperature_sum s temp x y))
         (1 + Z.of_nat (length (occupied_neighbours s x y))).

(** Every temperature of [s] lies between [lo] and [hi]. *)
Definition temperatures_within (lo hi : Z) (s : ParticleGrid) : Prop :=
  forall x y, lo <= GetTemperature s x y <= hi.

(** The temperature reading met by the visit of [(x, y)]: cells visited
    earlier hold their new value [after], the others their old value
    [before]. *)
Definition reading_at_visit (before after : Z -> Z -> Z) (x y : Z)
    : Z -> Z -> Z :=
  fun i j => if decide (earlier (i, j) (x, y)) then after i j else before i j.

(** [(x, y)] is visited by the diffusion pass. *)
Definition diffused (s : ParticleGrid) (x y : Z) : Prop :=
  (1 <= x <= width s - 2 /\ 1 <= y <= height s - 2) /\ Get s x y <> Empty.

(** ** The scan of a tick *)

(** [writes A s s'] : [s'] is reached from [s] by writes to the next
    buffer that satisfy [A], writes to the temperature field, and draws. *)
Inductive writes (A : Z -> Z -> Particle -> Prop) (s : ParticleGrid)
    : ParticleGrid -> Prop :=
  | writes_refl : writes A s s
  | writes_next x y p s' :
      writes A s s' -> A x y p -> writes A s (SetNext x y p s')
  | writes_temp x y t s' :
      writes A s s' -> writes A s (SetTemperature x y t s')
  | writes_rand s' : writes A s s' -> writes A s (advance s').

(** The writes allowed to the rule of the cell [(x0, y0)]: its own cell;
    a cell that is Empty or Steam in the snapshot; Steam over Water; Fire
    over Oil; Empty over Sand or Ice. *)
Definition may_write (s : ParticleGrid) (x0 y0 : Z)
    (x y : Z) (p : Particle) : Prop :=
  (x = x0 /\ y = y0)
  \/ Get s x y = Empty \/ Get s x y = Steam
  \/ (Get s x y = Water /\ p = Steam)
  \/ (Get s x y = Oil /\ p = Fire)
  \/ ((Get s x y = Sand \/ Get s x y = Ice) /\ p = Empty).

(** The cells written by the two loops of [CreateGround], on an array. *)
Definition stone_border (w h : Z) (a : list Particle) : list Particle :=
  for_each (seqZ 0 (h - 1)) (fun y a =>
      store (store a (y * w + 0) Stone) (y * w + (w - 1)) Stone)
    (for_each (seqZ 0 w) (fun x a =>
       store (store a ((h - 1) * w + x) Stone) ((h - 2) * w + x) Stone) a).

(** The array reached by storing [v] at every index of [0 .. n - 1]. *)
Definition fill {A} (n : Z) (v : A) (a : list A) : list A :=
  for_each (seqZ 0 n) (fun i a => store a i v) a.

(** The state after the first loop of the tick:
    [nextGrid[i] = grid[i]] for every index. *)
Definition copy_grid (s : ParticleGrid) : ParticleGrid :=
  for_each (seqZ 0 (width s * height s)) (fun i s =>
    with_nextGrid (store (nextGrid s) i (load (grid s) i)) s) s.

(** The two loops of the tick over the cells, for a grid [w] wide and [h]
    high: rows [h - 3] down to 0, columns 1 to [w - 2]. *)
Definition scan_loops (w h : Z) (s : ParticleGrid) : ParticleGrid :=
  for_each (reverse (seqZ 0 (h - 2))) (fun y s' =>
    for_each (seqZ 1 (w - 2)) (fun x s' => update_cell x y s') s') s.

(** The cells visited by the scan of [Update], in visiting order. *)
Definition scan_cells (s : ParticleGrid) : list (Z * Z) :=
  cells (reverse (seqZ 0 (height s - 2))) (seqZ 1 (width s - 2)).

(** The state at the start of the scan: the next buffer holds the current
    one with the border stamped again. *)
Definition snapshot (s : ParticleGrid) : ParticleGrid :=
  with_nextGrid (stone_border (width s) (height s) (grid s)) s.

(** The state after the scan of the tick, before diffusion and swap. *)
Definition scan (s : ParticleGrid) : ParticleGrid :=
  foldl (fun acc c => update_cell (fst c) (snd c) acc) (snapshot s) (scan_cells s).

(** [std::swap(grid, nextGrid)] *)
Definition swap_buffers (s : ParticleGrid) : ParticleGrid :=
  mkGrid (nextGrid s) (grid s) (temperature s) (width s) (height s)
         (gameState s) (randSeq s) (randCalls s).

(** The writes allowed to the scan as a whole. *)
Definition scan_may_write (s : ParticleGrid) (i j : Z) (p : Particle) : Prop :=
  exists x y, (x, y) ∈ scan_cells s /\ may_write s x y i j p.

(** ** Border, clock, reachable states *)

(** Every protected cell of the current buffer is Stone. *)
Definition border_stone (s : ParticleGrid) : Prop :=
  forall x y, in_range s x y -> protected s x y -> Get s x y = Stone.

(** Every protected cell of the next buffer is Stone. *)
Definition next_border_stone (s : ParticleGrid) : Prop :=
  forall x y, in_range s x y -> protected s x y -> GetNext s x y = Stone.

(** The next buffer is entirely Empty. *)
Definition next_all_empty (s : ParticleGrid) : Prop :=
  forall x y, in_range s x y -> GetNext s x y = Empty.

(** [Update] passes its pause and frame-skip gate in state [s]. *)
Definition tick_due (s : ParticleGrid) : bool :=
  negb (isPaused (gameState s))
  && (Z.rem (wrap_int (frameCounter (gameState s) + 1))
            (skipFrames (gameState s)) =? 0).

(** The clock state after the increment of [frameCounter]. *)
Definition count_frame (s : ParticleGrid) : ParticleGrid :=
  with_gameState
    (mkGameState (isPaused (gameState s)) (timeSpeed (gameState s))
                 (wrap_int (frameCounter (gameState s) + 1))) s.

(** The states of a run: the constructor, then any sequence of calls of
    the public operations and of changes made by the main loop to the
    pause flag and the time scale. *)
Inductive reachable : ParticleGrid -> Prop :=
  | reach_new w h gs draws :
      1 <= w -> 2 <= h -> reachable (ParticleGrid_new w h gs draws)
  | reach_Update s : reachable s -> reachable (Update s)
  | reach_AddParticle x y p brush s :
      reachable s -> reachable (AddParticle x y p brush s)
  | reach_Clear s : reachable s -> reachable (Clear s)
  | reach_LoadFromFile file s : reachable s -> reachable (LoadFromFile file s)
  | reach_Set x y p s : reachable s -> reachable (Set_ x y p s)
  | reach_SetTemperature x y t s :
      reachable s -> reachable (SetTemperature x y t s)
  | reach_clock paused speed s :
      reachable s ->
      reachable (with_gameState
                   (mkGameState paused speed (frameCounter (gameState s))) s).

(** The number of the next [n] calls of [Update] that perform a tick. *)
Fixpoint ticks_in (n : nat) (s : ParticleGrid) : nat :=
  match n with
  | O => O
  | S n' => ((if tick_due s then 1 else 0) + ticks_in n' (Update s))%nat
  end.

(** The least integer not below [1 / f], for a positive finite [f]: the
    period of the gate as the specification words it. *)
Definition ceil_inverse (f : spec_float) : Z :=
  match f with
  | S754_finite false m e =>
      if 0 <=? e then 1
      else (2 ^ (- e) + Z.pos m - 1) / Z.pos m
  | _ => 0
  end.

(** ** Reactions *)

(** The first offset, in the order of the neighbour loops, whose cell
    holds [target]. *)
Definition first_neighbour (s : ParticleGrid) (x y : Z) (target : Particle)
    : option (Z * Z) :=
  List.find (fun c => bool_decide (Get s (x + fst c) (y + snd c) = target))
            neighbour_offsets.

(** The window in which the Acid rule looks at a neighbour. *)
Definition acid_window (s : ParticleGrid) (nx ny : Z) : Prop :=
  0 < nx < width s - 1 /\ 0 < ny < height s - 2.

(** [c] is the offset of a neighbour that the Acid at [(x, y)] dissolves
    when its scan reaches it. *)
Definition acid_target (s : ParticleGrid) (x y : Z) (c : Z * Z) : Prop :=
  acid_window s (x + fst c) (y + snd c)
  /\ (Get s (x + fst c) (y + snd c) = Sand \/ Get s (x + fst c) (y + snd c) = Ice).

#[global] Instance acid_target_dec s x y c : Decision (acid_target s x y c).
Proof. unfold acid_target, acid_window. apply _. Defined.

(** The offsets of those neighbours, in scan order. *)
Definition acid_targets (s : ParticleGrid) (x y : Z) : list (Z * Z) :=
  filter (acid_target s x y) neighbour_offsets.

(** The course of the Acid scan over [n] targets with the draws from
    position [pos] on: how many targets are dissolved (one draw follows
    each), and whether a draw consumed the acid. *)
Fixpoint acid_run (draws : nat -> Z) (pos : nat) (n : nat) : nat * bool :=
  match n with
  | O => (O, false)
  | S n' =>
      if Z.rem (draws pos) 8 =? 0 then (1%nat, true)
      else (S (fst (acid_run draws (S pos) n')), snd (acid_run draws (S pos) n'))
  end.

(** ** Counting cells, liquids, sand *)

(** The number of cells of an array that hold [p]. *)
Definition count_of (p : Particle) (a : list Particle) : nat :=
  length (filter (fun q => q = p) a).

(** 1 if [P] holds, else 0. *)
Definition indicator (P : Prop) `{Decision P} : nat := if decide P then 1 else 0.

(** The side a liquid flows to when it cannot fall: the drawn direction if
    the cell there is Empty or Steam, else the opposite one under the same
    test, else none. *)
Definition flow_side (s : ParticleGrid) (x y : Z) : option Z :=
  let dir := if Z.rem (next_draw s) 2 =? 0 then -1 else 1 in
  if CanMoveSide s x y dir then Some dir
  else if CanMoveSide s x y (- dir) then Some (- dir)
  else None.

(** What a sideways flow of [L] from [(x, y)] to [(x + d, y)] does to the
    next buffer of [s], giving [s']. *)
Definition overwrites_side (s : ParticleGrid) (x y d : Z) (L : Particle)
    (s' : ParticleGrid) : Prop :=
  GetNext s' (x + d) y = L
  /\ GetNext s' x y = Empty
  /\ (forall i j, ~ (i = x /\ j = y) -> ~ (i = x + d /\ j = y) ->
        GetNext s' i j = GetNext s i j)
  /\ (GetNext s (x + d) y = Steam ->
        (count_of Steam (nextGrid s') < count_of Steam (nextGrid s))%nat).

(** Outside the protected border the grid holds only Sand and Empty. *)
Definition sand_only (s : ParticleGrid) : Prop :=
  forall x y, in_range s x y -> ~ protected s x y ->
    Get s x y = Sand \/ Get s x y = Empty.

(** The number of Sand cells of the current buffer. *)
Definition sand_count (s : ParticleGrid) : nat := count_of Sand (grid s).

(** Where the rule of Sand sends the grain at [(x, y)] of a grid without
    Steam when the next draw is [r]: straight down if the cell below is
    Empty; else to the diagonal cell below on the drawn side if that one
    is Empty, else to the other one under the same test; else nowhere. *)
Definition sand_target (s : ParticleGrid) (r : Z) (x y : Z) : Z * Z :=
  if bool_decide (Get s x (y + 1) = Empty) then (x, y + 1)
  else
    let dir := if Z.rem r 2 =? 0 then -1 else 1 in
    if bool_decide (Get s (x + dir) (y + 1) = Empty) then (x + dir, y + 1)
    else if bool_decide (Get s (x - dir) (y + 1) = Empty) then (x - dir, y + 1)
    else (x, y).

(** The visit of the cell [c] in the account of a scan over Sand: the
    position in the sequence of draws and the destinations so far.  A
    grain that cannot fall straight takes one draw. *)
Definition sand_step (s : ParticleGrid) (acc : nat * list (Z * Z))
    (c : Z * Z) : nat * list (Z * Z) :=
  if bool_decide (Get s (fst c) (snd c) = Sand) then
    (if bool_decide (Get s (fst c) (snd c + 1) = Empty) then fst acc
     else S (fst acc),
     snd acc ++ [sand_target s (randSeq s (fst acc)) (fst c) (snd c)])
  else acc.

(** The destinations of the grains of [s] in one tick, in the order of
    the scan. *)
Definition sand_destinations (s : ParticleGrid) : list (Z * Z) :=
  snd (foldl (sand_step s) (randCalls s, []) (scan_cells s)).

(** The number of elements of [l] beyond the distinct ones. *)
Definition merges (l : list (Z * Z)) : nat :=
  (length l - length (remove_dups l))%nat.

(** ** The saved file *)

(** [t] holds no newline character. *)
Fixpoint no_newline (t : string) : Prop :=
  match t with
  | EmptyString => True
  | String c rest => c <> newline /\ no_newline rest
  end.

(** [LoadFromFile] skips a line with this property. *)
Definition skipped_line (line : string) : bool :=
  (String.length line =? 0)%nat || Ascii.eqb (char_at line 0) "#"%char.

(** The text of row [y] in the file. *)
Definition row_text (s : ParticleGrid) (y : Z) : string :=
  string_of_list_ascii
    (map (fun x => GetSymbolForParticle (Get s x y)) (seqZ 0 (width s))).

(** The first comment line of the file. *)
Definition header1 : string := "# Particle Simulator Save File".

(** The second of them, with the dimensions. *)
Definition header2 (s : ParticleGrid) : string :=
  ("# Width: " ++ print_int (width s) ++ " Height: " ++ print_int (height s))%string.

(** The text of the rows [ys], each ended by a newline. *)
Fixpoint rows_text (s : ParticleGrid) (ys : list Z) : string :=
  match ys with
  | [] => EmptyString
  | y :: ys => (row_text s y ++ String newline (rows_text s ys))%string
  end.

(** ** States of the concrete runs *)

(** A running clock at time scale 1.0. *)
Definition clock0 : GameState := mkGameState false f32_one 0.

(** The constant sequence of draws 0. *)
Definition zero_draws : nat -> Z := fun _ => 0.

(** A fresh grid 5 wide and 4 high: its interior is [1..3] x [0..1]. *)
Definition small_grid : ParticleGrid := ParticleGrid_new 5 4 clock0 zero_draws.

(** A fresh grid 5 wide and 5 high: its interior is [1..3] x [0..2]. *)
Definition tall_grid : ParticleGrid := ParticleGrid_new 5 5 clock0 zero_draws.

(** One grain of sand painted at the top left of the interior. *)
Definition one_grain : ParticleGrid := AddParticle 1 0 Sand 1 small_grid.

(** Three grains: two side by side in row 0, one below the left one. *)
Definition three_grains : ParticleGrid :=
  AddParticle 1 1 Sand 1 (AddParticle 2 0 Sand 1 (AddParticle 1 0 Sand 1 small_grid)).

(** Lava painted in row 0. *)
Definition hot_top : ParticleGrid := AddParticle 2 0 Lava 1 small_grid.

(** Lava painted in row 1, on the Stone floor. *)
Definition hot_floor : ParticleGrid := AddParticle 2 1 Lava 1 small_grid.

(** Sand on the Stone floor, its temperature set to the largest [int]. *)
Definition overheated : ParticleGrid :=
  SetTemperature 2 1 INT_MAX (AddParticle 2 1 Sand 1 small_grid).

(** 0.75 as a binary32 value. *)
Definition f32_three_quarters : spec_float := S754_finite false 12582912 (-24).

Definition slow_clock : GameState := mkGameState false f32_three_quarters 0.

(** The tall grid with a grain of sand, at time scale 0.25. *)
Definition quarter_grain : ParticleGrid :=
  AddParticle 1 0 Sand 1
    (ParticleGrid_new 5 5 (mkGameState false f32_quarter 0) zero_draws).

(** The tall grid at time scale 0.1, its frame counter eight calls from
    the largest [int]. *)
Definition late_grid : ParticleGrid :=
  ParticleGrid_new 5 5 (mkGameState false f32_tenth (INT_MAX - 7)) zero_draws.

(** The tall grid with a grain of sand, at time scale 0.75. *)
Definition slow_grain : ParticleGrid :=
  AddParticle 1 0 Sand 1 (ParticleGrid_new 5 5 slow_clock zero_draws).

(** Lava with Water to its left and to its right. *)
Definition lava_between_water : ParticleGrid :=
  AddParticle 3 0 Water 1 (AddParticle 1 0 Water 1 (AddParticle 2 0 Lava 1 small_grid)).

(** Acid at (2, 1) with Sand above it, to its left and to its right. *)
Definition acid_among_sand : ParticleGrid :=
  AddParticle 3 1 Sand 1
    (AddParticle 1 1 Sand 1
       (AddParticle 2 0 Sand 1 (AddParticle 2 1 Acid 1 tall_grid))).

(** Steam at (1, 1) under an Empty cell, Water to its right at (2, 1). *)
Definition steam_beside_water : ParticleGrid :=
  AddParticle 2 1 Water 1 (AddParticle 1 1 Steam 1 small_grid).

(** * Vocabulary of the further properties *)

(** ** The effects of one rule *)

(** [(x, y)] is one of the 8 cells around [(x0, y0)]. *)
Definition adjacent (x0 y0 x y : Z) : Prop :=
  (-1 <= x - x0 <= 1 /\ -1 <= y - y0 <= 1) /\ ~ (x = x0 /\ y = y0).

(** [effects A B s s'] : [s'] is reached from [s] by writes to the next
    buffer that satisfy [A], writes to the temperature field that satisfy
    [B], and draws. *)
Inductive effects (A : Z -> Z -> Particle -> Prop) (B : Z -> Z -> Z -> Prop)
    (s : ParticleGrid) : ParticleGrid -> Prop :=
  | effects_refl : effects A B s s
  | effects_next x y p s' :
      effects A B s s' -> A x y p -> effects A B s (SetNext x y p s')
  | effects_temp x y t s' :
      effects A B s s' -> B x y t -> effects A B s (SetTemperature x y t s')
  | effects_rand s' : effects A B s s' -> effects A B s (advance s').

(** The writes to the next buffer made by the rule of the cell
    [(x0, y0)], with their cause: its own cell; a cell that is Empty or
    Steam in the snapshot; Steam over an adjacent Water, by Lava or Fire;
    Fire over an adjacent Oil, by Fire; Empty over an adjacent Sand or
    Ice, by Acid. *)
Definition rule_write (s : ParticleGrid) (x0 y0 : Z)
    (x y : Z) (p : Particle) : Prop :=
  (x = x0 /\ y = y0)
  \/ Get s x y = Empty \/ Get s x y = Steam
  \/ (adjacent x0 y0 x y
      /\ ((Get s x y = Water /\ p = Steam
           /\ (Get s x0 y0 = Lava \/ Get s x0 y0 = Fire))
          \/ (Get s x y = Oil /\ p = Fire /\ Get s x0 y0 = Fire)
          \/ ((Get s x y = Sand \/ Get s x y = Ice) /\ p = Empty
              /\ Get s x0 y0 = Acid))).

(** The writes to the temperature field made by the rule of the cell
    [(x0, y0)]: 1000 by Lava, 800 by Fire, on its own cell or on a cell
    that is Empty or Steam in the snapshot. *)
Definition rule_heat (s : ParticleGrid) (x0 y0 : Z) (x y t : Z) : Prop :=
  ((Get s x0 y0 = Lava /\ t = 1000) \/ (Get s x0 y0 = Fire /\ t = 800))
  /\ ((x = x0 /\ y = y0) \/ Get s x y = Empty \/ Get s x y = Steam).

(** ** Movement and the order of the scan *)

(** [a] is visited before [b] by the scan of [Update]: rows from the
    bottom up, columns from left to right. *)
Definition scanned_before (a b : Z * Z) : Prop :=
  snd b < snd a \/ (snd a = snd b /\ fst a < fst b).

(** The cells that the movement of a particle of kind [p] at [(x0, y0)]
    can enter: for Sand the three cells below; for a liquid the cell below
    or a cell of its row; for a gas the cell above or a cell of its row. *)
Definition moves_to (p : Particle) (x0 y0 i j : Z) : Prop :=
  match p with
  | Sand => j = y0 + 1 /\ -1 <= i - x0 <= 1
  | Water | Lava | Acid | Oil => (i = x0 /\ j = y0 + 1) \/ j = y0
  | Steam | Fire | Smoke => (i = x0 /\ j = y0 - 1) \/ j = y0
  | _ => False
  end.

(** What the rule of the cell [(x0, y0)] writes into another cell that
    is Empty in the snapshot: its own particle, entering that cell. *)
Definition rule_enter (s : ParticleGrid) (x0 y0 : Z)
    (i j : Z) (p : Particle) : Prop :=
  (i = x0 /\ j = y0)
  \/ Get s i j <> Empty
  \/ (p = Get s x0 y0 /\ moves_to (Get s x0 y0) x0 y0 i j).

(** ** Locality *)

(** [(x, y)] is [(x0, y0)] or one of the 8 cells around it. *)
Definition within_reach (x0 y0 x y : Z) : Prop :=
  -1 <= x - x0 <= 1 /\ -1 <= y - y0 <= 1.

(** A particle that no rule moves or changes. *)
Definition inert (p : Particle) : Prop := p = Empty \/ p = Stone \/ p = Obsidian.

(** ** Runs of the main loop, temperatures *)

(** The states of a run of [main]: the constructor, then calls of
    [LoadFromFile], [Clear], [AddParticle] and [Update], and changes of
    the pause flag and of the time scale. *)
Inductive simulated : ParticleGrid -> Prop :=
  | sim_new w h gs draws :
      1 <= w -> 2 <= h -> simulated (ParticleGrid_new w h gs draws)
  | sim_Update s : simulated s -> simulated (Update s)
  | sim_AddParticle x y p brush s :
      simulated s -> simulated (AddParticle x y p brush s)
  | sim_Clear s : simulated s -> simulated (Clear s)
  | sim_LoadFromFile file s : simulated s -> simulated (LoadFromFile file s)
  | sim_clock paused speed s :
      simulated s ->
      simulated (with_gameState
                   (mkGameState paused speed (frameCounter (gameState s))) s).

(** ** The loaded file *)

(** The lines of a file that [LoadFromFile] reads as rows: those it does
    not skip, in order. *)
Definition data_lines (contents : string) : list string :=
  filter (fun line => skipped_line line = false) (getlines contents).

(** The cell that [LoadFromFile] reads at column [x] of the row [line]. *)
Definition cell_of_line (line : string) (x : Z) : option Particle :=
  if decide (0 <= x < Z.of_nat (String.length line))
  then Some (ParticleFromSymbol (char_at line x)) else None.

(** ** Rendering *)

(** The state after [k] further draws. *)
Definition skip_draws (k : nat) (s : ParticleGrid) : ParticleGrid :=
  mkGrid (grid s) (nextGrid s) (temperature s) (width s) (height s)
         (gameState s) (randSeq s) (randCalls s + k).

(** The particles drawn with a random variation of their colour. *)
Definition flickers (p : Particle) : Prop :=
  p = Fire \/ p = Lava \/ p = Steam \/ p = Smoke.

(** The cells of the grid, in the order of the loops of [Draw]. *)
Definition all_cells (s : ParticleGrid) : list (Z * Z) :=
  cells (seqZ 0 (height s)) (seqZ 0 (width s)).

(** The cells that [Draw] paints: those that are not Empty. *)
Definition drawn_cells (s : ParticleGrid) : list (Z * Z) :=
  filter (fun c => Get s (fst c) (snd c) <> Empty) (all_cells s).

(** The colour in which [Draw] paints the particle [p] when the draw for
    its variation, if it has one, is [r]. *)
Definition drawn_color (p : Particle) (r : Z) : Color :=
  let c := GetColorForParticle p in
  match p with
  | Fire =>
      mkColor (to_uchar (Z.min 255 (col_r c + Z.rem r 50)))
              (to_uchar (Z.max 0 (col_g c - Z.quot (Z.rem r 50) 2)))
              (col_b c) (col_a c)
  | Lava =>
      mkColor (to_uchar (Z.max 200 (col_r c - Z.rem r 30)))
              (col_g c) (col_b c) (col_a c)
  | Steam => mkColor (col_r c) (col_g c) (col_b c) (to_uchar (100 + Z.rem r 80))
  | Smoke => mkColor (col_r c) (col_g c) (col_b c) (to_uchar (150 + Z.rem r 50))
  | _ => c
  end.

(** The colours in which a particle can be drawn. *)
Definition shade_of (p : Particle) (c : Color) : Prop :=
  match p with
  | Fire => col_r c = 255 /\ 116 <= col_g c <= 140 /\ col_b c = 0 /\ col_a c = 255
  | Lava => 226 <= col_r c <= 255 /\ col_g c = 100 /\ col_b c = 0 /\ col_a c = 255
  | Steam => col_r c = 220 /\ col_g c = 220 /\ col_b c = 220
             /\ 100 <= col_a c <= 179
  | Smoke => col_r c = 105 /\ col_g c = 105 /\ col_b c = 105
             /\ 150 <= col_a c <= 199
  | _ => c = GetColorForParticle p
  end.

(** The rectangle [rect] is the square of the cell [c], in a shade of the
    particle there. *)
Definition paints (s : ParticleGrid) (c : Z * Z) (rect : Rectangle) : Prop :=
  rect_x rect = fst c * CELL_SIZE /\ rect_y rect = snd c * CELL_SIZE
  /\ rect_w rect = CELL_SIZE /\ rect_h rect = CELL_SIZE
  /\ shade_of (Get s (fst c) (snd c)) (rect_color rect).

(** The draws are those of [rand()]: none is negative. *)
Definition draws_nonnegative (s : ParticleGrid) : Prop :=
  forall n, 0 <= randSeq s n.

(** The cells drawn with a random variation. *)
Definition flickering_cells (s : ParticleGrid) : list (Z * Z) :=
  filter (fun c => flickers (Get s (fst c) (snd c))) (all_cells s).

(** ** The controls *)

#[global] Instance spec_float_eq_dec : EqDecision spec_float.
Proof. solve_decision. Defined.

(** The time scales that the speed keys reach from the initial [1.0f]. *)
Inductive speed_reachable : spec_float -> Prop :=
  | speed_initial : speed_reachable f32_one
  | speed_plus ts : speed_reachable ts -> speed_reachable (speed_up ts)
  | speed_minus ts : speed_reachable ts -> speed_reachable (speed_down ts).

(** One more key press on each time scale of a list. *)
Definition press_keys (l : list spec_float) : list spec_float :=
  remove_dups (l ++ map speed_up l ++ map speed_down l).

(** The time scales reached with at most 40 key presses. *)
Definition key_speeds : list spec_float := Nat.iter 40 press_keys [f32_one].

(** The value of a [BrushSize] enumerator: 1, 3, 5 or 7. *)
Definition named_brush (b : Z) : Prop := b = 1 \/ b = 3 \/ b = 5 \/ b = 7.

(** The brush sizes that the mouse wheel reaches from the initial
    [BrushSize::Small]. *)
Inductive brush_reachable : Z -> Prop :=
  | brush_initial : brush_reachable 1
  | brush_wheel wheelMove showMenu b :
      brush_reachable b -> brush_reachable (wheel_brush wheelMove showMenu b).

(** ** The saved game *)

(** The lines of the counts in the saved text. *)
Fixpoint counts_text (builds : list Build) : string :=
  match builds with
  | [] => EmptyString
  | b :: rest => (print_int (count b) ++ String newline (counts_text rest))%string
  end.

(** The build [b] with the count [c]. *)
Definition with_count (c : Z) (b : Build) : Build :=
  mkBuild (name b) (cost b) c (unlockScore b) (cps b).

(** The builds [current] with the counts of [saved], as far as [saved]
    goes. *)
Fixpoint restore_counts (saved current : list Build) : list Build :=
  match current, saved with
  | b :: rest, sb :: srest => with_count (count sb) b :: restore_counts srest rest
  | _, _ => current
  end.

(** ** States of the further concrete runs *)

(** Ice at (1, 0) beside Lava at (2, 0). *)
Definition ice_beside_lava : ParticleGrid :=
  AddParticle 1 0 Ice 1 (AddParticle 2 0 Lava 1 small_grid).

(** Lava on the floor, cooled to 400 degrees. *)
Definition cool_lava : ParticleGrid := SetTemperature 2 1 400 hot_floor.

(** Oil at (1, 0) beside Fire at (2, 0). *)
Definition oil_beside_fire : ParticleGrid :=
  AddParticle 1 0 Oil 1 (AddParticle 2 0 Fire 1 small_grid).

(** Water at (1, 0) beside Fire at (2, 0). *)
Definition water_beside_fire : ParticleGrid :=
  AddParticle 1 0 Water 1 (AddParticle 2 0 Fire 1 small_grid).

(** A file of three lines: a comment, a row with Lava at column 2 and a
    row with Sand at column 1. *)
Definition lava_file : string :=
  ("# map" ++ String newline (" .L" ++ String newline (" S" ++ String newline "")))%string.

(** One cell of each flickering kind, and a grain of sand. *)
Definition fireworks : ParticleGrid :=
  AddParticle 1 1 Smoke 1
    (AddParticle 3 0 Steam 1
       (AddParticle 2 0 Lava 1
          (AddParticle 1 0 Fire 1 (AddParticle 2 1 Sand 1 small_grid)))).

(** The grid with one cell of each flickering kind, paused. *)
Definition paused_fireworks : ParticleGrid :=
  with_gameState (mkGameState true f32_one 0) fireworks.

(** Sand at (1, 0) in the tall grid: the cell (3, 2) is out of its reach. *)
Definition far_grain : ParticleGrid := AddParticle 1 0 Sand 1 tall_grid.

(** A grain of sand on the Stone floor of the small grid. *)
Definition resting_grain : ParticleGrid := AddParticle 2 1 Sand 1 small_grid.

(** Two builds of a game. *)
Definition cursor : Build := mkBuild "Cursor" 15 3 0 1.
Definition farm : Build := mkBuild "Farm" 100 0 50 8.

(** * Properties *)

(** ** Arrays and loops *)

Lemma store_length {A} (a : list A) i v : length (store a i v) = length a.
Proof. unfold store. destruct (0 <=? i); [apply length_insert | reflexivity]. Qed.

Lemma load_store_eq `{Inhabited A} (a : list A) i v :
  0 <= i < Z.of_nat (length a) -> load (store a i v) i = v.
Proof.
  intros Hi. unfold load, store.
  destruct (Z.leb_spec 0 i); [|lia].
  apply list_lookup_total_insert_eq. lia.
Qed.

Lemma load_store_ne `{Inhabited A} (a : list A) i j v :
  0 <= j -> i <> j -> load (store a i v) j = load a j.
Proof.
  intros Hj Hne. unfold load, store.
  destruct (Z.leb_spec 0 i); [|reflexivity].
  apply list_lookup_total_insert_ne. lia.
Qed.

Lemma load_store `{Inhabited A} (a : list A) i j v :
  0 <= j < Z.of_nat (length a) ->
  load (store a i v) j = if decide (i = j) then v else load a j.
Proof.
  intros Hj. destruct (decide (i = j)) as [->|Hne].
  - by apply load_store_eq.
  - apply load_store_ne; [lia | done].
Qed.

Lemma for_each_nil {S} (body : Z -> S -> S) s : for_each [] body s = s.
Proof. reflexivity. Qed.

Lemma for_each_cons {S} i l (body : Z -> S -> S) s :
  for_each (i :: l) body s = for_each l body (body i s).
Proof. reflexivity. Qed.

Lemma for_each_app {S} l1 l2 (body : Z -> S -> S) s :
  for_each (l1 ++ l2) body s = for_each l2 body (for_each l1 body s).
Proof. unfold for_each. apply foldl_app. Qed.

(** Loop invariant rule: [P done s] holds of the state reached after the
    iterations [done]. *)
Lemma for_each_invariant {S} (P : list Z -> S -> Prop) l (body : Z -> S -> S) s :
  P [] s ->
  (forall done i rest s', l = done ++ i :: rest ->
     P done s' -> P (done ++ [i]) (body i s')) ->
  P l (for_each l body s).
Proof.
  intros H0 Hstep.
  enough (Hgen : forall rest done s', l = done ++ rest -> P done s' ->
                   P (done ++ rest) (for_each rest body s')).
  { apply (Hgen l [] s); [reflexivity | exact H0]. }
  induction rest as [|i rest IH]; intros done s' Hl HP.
  - rewrite app_nil_r. exact HP.
  - rewrite for_each_cons.
    replace (done ++ i :: rest) with ((done ++ [i]) ++ rest)
      by (rewrite <- app_assoc; reflexivity).
    apply IH.
    + rewrite <- app_assoc. exact Hl.
    + eapply Hstep; eauto.
Qed.

(** The simpler rule for an invariant that ignores the position. *)
Lemma for_each_preserves {S} (P : S -> Prop) l (body : Z -> S -> S) s :
  P s -> (forall i s', i ∈ l -> P s' -> P (body i s')) ->
  P (for_each l body s).
Proof.
  intros H0 Hstep.
  apply (for_each_invariant (fun _ => P)); [exact H0|].
  intros done i rest s' -> HP. apply Hstep; [|exact HP].
  apply elem_of_app. right. apply list_elem_of_here.
Qed.

Lemma for_each_nested {S} ys xs (body : Z -> Z -> S -> S) s :
  for_each ys (fun y s => for_each xs (fun x s => body x y s) s) s
  = foldl (fun acc c => body (fst c) (snd c) acc) s (cells ys xs).
Proof.
  revert s. induction ys as [|y ys IH]; intros s; [reflexivity|].
  rewrite for_each_cons, IH. unfold cells. simpl. rewrite foldl_app.
  f_equal. clear. revert s. induction xs as [|x xs IH]; intros s; [reflexivity|].
  rewrite for_each_cons. simpl. apply IH.
Qed.

Lemma elem_of_cells ys xs x y : (x, y) ∈ cells ys xs <-> x ∈ xs /\ y ∈ ys.
Proof.
  unfold cells. rewrite list_elem_of_In, in_flat_map. split.
  - intros (y' & Hy & Hin). apply in_map_iff in Hin as (x' & Heq & Hx).
    inversion Heq; subst. by rewrite !list_elem_of_In.
  - intros [Hx Hy]. exists y. rewrite <- list_elem_of_In. split; [done|].
    apply in_map_iff. exists x. by rewrite <- list_elem_of_In.
Qed.

Lemma NoDup_cells ys xs : NoDup ys -> NoDup xs -> NoDup (cells ys xs).
Proof.
  intros Hys Hxs. induction Hys as [|y ys Hy Hys IH]; [constructor|].
  unfold cells. simpl. apply NoDup_app. split; [|split].
  - apply NoDup_fmap_2; [|done]. intros a b Hab. by inversion Hab.
  - intros [x' y'] Hin Hin'.
    apply list_elem_of_fmap in Hin as (x0 & Heq & _). inversion Heq; subst.
    apply (elem_of_cells ys xs) in Hin' as [_ ?]. done.
  - exact IH.
Qed.

(** Invariant rule for a fold over cells without repetition. *)
Lemma foldl_invariant {S C} (P : list C -> S -> Prop) (f : S -> C -> S) l s :
  P [] s ->
  (forall done c rest s', l = done ++ c :: rest ->
     P done s' -> P (done ++ [c]) (f s' c)) ->
  P l (foldl f s l).
Proof.
  intros H0 Hstep.
  enough (Hgen : forall rest done s', l = done ++ rest -> P done s' ->
                   P (done ++ rest) (foldl f s' rest)).
  { apply (Hgen l [] s); [reflexivity | exact H0]. }
  induction rest as [|c rest IH]; intros done s' Hl HP.
  - rewrite app_nil_r. exact HP.
  - simpl.
    replace (done ++ c :: rest) with ((done ++ [c]) ++ rest)
      by (rewrite <- app_assoc; reflexivity).
    apply IH.
    + rewrite <- app_assoc. exact Hl.
    + eapply Hstep; eauto.
Qed.

(** Two arrays of [w * h] cells that agree at every coordinate pair are
    equal. *)
Lemma array_ext `{Inhabited A} (w h : Z) (a b : list A) :
  1 <= w -> Z.of_nat (length a) = w * h -> Z.of_nat (length b) = w * h ->
  (forall x y, 0 <= x < w -> 0 <= y < h ->
     load a (y * w + x) = load b (y * w + x)) ->
  a = b.
Proof.
  intros Hw Ha Hb Hload.
  apply list_eq_same_length with (length a); [lia | done |].
  intros i u v Hi Hu Hv.
  apply list_lookup_total_correct in Hu, Hv. rewrite <- Hu, <- Hv.
  pose proof (Z.div_mod (Z.of_nat i) w ltac:(lia)) as Hdm.
  pose proof (Z.mod_pos_bound (Z.of_nat i) w ltac:(lia)) as Hm.
  assert (0 <= Z.of_nat i / w < h) as Hq.
  { split; [apply Z.div_pos; lia|]. apply Z.div_lt_upper_bound; lia. }
  specialize (Hload (Z.of_nat i mod w) (Z.of_nat i / w) Hm Hq).
  replace (Z.of_nat i / w * w + Z.of_nat i mod w) with (Z.of_nat i) in Hload by lia.
  unfold load in Hload. by rewrite Nat2Z.id in Hload.
Qed.

(** ** Well-formed states and the accessors *)

Lemma out_of_range_false s x y : out_of_range s x y = false <-> in_range s x y.
Proof. unfold out_of_range, in_range. lia. Qed.

Lemma out_of_range_true s x y : out_of_range s x y = true <-> ~ in_range s x y.
Proof. unfold out_of_range, in_range. lia. Qed.

Lemma on_border_true s x y : on_border s x y = true <-> protected s x y.
Proof. unfold on_border, protected. lia. Qed.

Lemma on_border_false s x y : on_border s x y = false <-> ~ protected s x y.
Proof. unfold on_border, protected. lia. Qed.

Lemma index_bound w h x y :
  0 <= x < w -> 0 <= y < h -> 0 <= y * w + x < w * h.
Proof. intros Hx Hy. nia. Qed.

Lemma index_inj w x y x' y' :
  0 <= x < w -> 0 <= x' < w -> y * w + x = y' * w + x' -> x = x' /\ y = y'.
Proof. intros Hx Hx' Heq. assert (y = y') by nia. subst. lia. Qed.

Ltac case_range s x y :=
  let H := fresh "Hrange" in
  destruct (out_of_range s x y) eqn:H;
  [apply out_of_range_true in H | apply out_of_range_false in H].

Section accessors.
Context (s : ParticleGrid).

Lemma Get_out x y : ~ in_range s x y -> Get s x y = Stone.
Proof. intros H. unfold Get. apply out_of_range_true in H. by rewrite H. Qed.

Lemma Get_in x y :
  in_range s x y -> Get s x y = load (grid s) (y * width s + x).
Proof. intros H. unfold Get. apply out_of_range_false in H. by rewrite H. Qed.

Lemma Get_not_Stone_in_range x y : Get s x y <> Stone -> in_range s x y.
Proof.
  intros H. destruct (decide (in_range s x y)) as [|Hn]; [done|].
  by rewrite Get_out in H.
Qed.

Lemma Get_with_nextGrid g x y : Get (with_nextGrid g s) x y = Get s x y.
Proof. reflexivity. Qed.

Lemma Get_with_temperature t x y : Get (with_temperature t s) x y = Get s x y.
Proof. reflexivity. Qed.

Lemma Get_advance x y : Get (advance s) x y = Get s x y.
Proof. reflexivity. Qed.

Lemma Get_SetNext x y p x' y' : Get (SetNext x y p s) x' y' = Get s x' y'.
Proof. unfold SetNext. by destruct (out_of_range s x y). Qed.

Lemma Get_SetTemperature x y t x' y' :
  Get (SetTemperature x y t s) x' y' = Get s x' y'.
Proof. unfold SetTemperature. by destruct (out_of_range s x y). Qed.

Lemma GetTemperature_advance x y :
  GetTemperature (advance s) x y = GetTemperature s x y.
Proof. reflexivity. Qed.

Lemma GetTemperature_SetNext x y p x' y' :
  GetTemperature (SetNext x y p s) x' y' = GetTemperature s x' y'.
Proof. unfold SetNext. by destruct (out_of_range s x y). Qed.

Lemma Get_Set_ x y p x' y' :
  Z.of_nat (length (grid s)) = width s * height s ->
  Get (Set_ x y p s) x' y'
  = if decide (x' = x /\ y' = y /\ in_range s x y /\ ~ protected s x y)
    then p else Get s x' y'.
Proof.
  intros Hlen. unfold Set_. case_range s x y.
  { rewrite decide_False; [done | tauto]. }
  destruct (on_border s x y) eqn:Hb.
  { apply on_border_true in Hb. rewrite decide_False; [done | tauto]. }
  apply on_border_false in Hb.
  unfold Get at 1. change (out_of_range (with_grid _ s) x' y')
    with (out_of_range s x' y'). simpl.
  case_range s x' y'.
  { rewrite (Get_out x' y') by done. case_decide; [|done].
    destruct_and!; subst; done. }
  destruct Hrange as [Hx Hy], Hrange0 as [Hx' Hy'].
  rewrite load_store by (rewrite Hlen; by apply index_bound).
  rewrite (Get_in x' y') by done.
  destruct (decide (x' = x /\ y' = y)) as [[-> ->]|Hne].
  - rewrite !decide_True; [done | unfold in_range; tauto | done].
  - rewrite !decide_False; [done | tauto |].
    intros Heq. destruct (index_inj (width s) x y x' y'); auto.
Qed.

Lemma GetTemperature_Set_ x y p x' y' :
  GetTemperature (Set_ x y p s) x' y' = GetTemperature s x' y'.
Proof.
  unfold Set_. destruct (out_of_range s x y); [done|].
  by destruct (on_border s x y).
Qed.

Lemma GetTemperature_SetTemperature x y t x' y' :
  Z.of_nat (length (temperature s)) = width s * height s ->
  GetTemperature (SetTemperature x y t s) x' y'
  = if decide (x' = x /\ y' = y /\ in_range s x y) then t
    else GetTemperature s x' y'.
Proof.
  intros Hlen. unfold SetTemperature. case_range s x y.
  { rewrite decide_False; [done | tauto]. }
  unfold GetTemperature at 1.
  change (out_of_range (with_temperature _ s) x' y')
    with (out_of_range s x' y'). simpl.
  case_range s x' y'.
  { unfold GetTemperature. apply out_of_range_true in Hrange0.
    rewrite Hrange0. case_decide; [|done].
    destruct_and!; subst. by apply out_of_range_true in Hrange0. }
  destruct Hrange as [Hx Hy], Hrange0 as [Hx' Hy'].
  rewrite load_store by (rewrite Hlen; by apply index_bound).
  unfold GetTemperature.
  replace (out_of_range s x' y') with false
    by (symmetry; by apply out_of_range_false).
  destruct (decide (x' = x /\ y' = y)) as [[-> ->]|Hne].
  - rewrite !decide_True; [done | unfold in_range; tauto | done].
  - rewrite !decide_False; [done | tauto |].
    intros Heq. destruct (index_inj (width s) x y x' y'); auto.
Qed.

Lemma GetNext_SetNext x y p x' y' :
  Z.of_nat (length (nextGrid s)) = width s * height s ->
  GetNext (SetNext x y p s) x' y'
  = if decide (x' = x /\ y' = y /\ in_range s x y) then p
    else GetNext s x' y'.
Proof.
  intros Hlen. unfold SetNext. case_range s x y.
  { rewrite decide_False; [done | tauto]. }
  unfold GetNext at 1.
  change (out_of_range (with_nextGrid _ s) x' y')
    with (out_of_range s x' y'). simpl.
  case_range s x' y'.
  { unfold GetNext. apply out_of_range_true in Hrange0.
    rewrite Hrange0. case_decide; [|done].
    destruct_and!; subst. by apply out_of_range_true in Hrange0. }
  destruct Hrange as [Hx Hy], Hrange0 as [Hx' Hy'].
  rewrite load_store by (rewrite Hlen; by apply index_bound).
  unfold GetNext.
  replace (out_of_range s x' y') with false
    by (symmetry; by apply out_of_range_false).
  destruct (decide (x' = x /\ y' = y)) as [[-> ->]|Hne].
  - rewrite !decide_True; [done | unfold in_range; tauto | done].
  - rewrite !decide_False; [done | tauto |].
    intros Heq. destruct (index_inj (width s) x y x' y'); auto.
Qed.
End accessors.

(** ** Shape preservation *)

Lemma same_shape_refl s : same_shape s s.
Proof. by constructor. Qed.

Lemma same_shape_trans s1 s2 s3 :
  same_shape s1 s2 -> same_shape s2 s3 -> same_shape s1 s3.
Proof. intros [] []. constructor; congruence. Qed.

Lemma same_shape_wf s s' : same_shape s s' -> wf s -> wf s'.
Proof. intros [] []. constructor; congruence. Qed.

Lemma same_shape_in_range s s' x y :
  same_shape s s' -> in_range s' x y <-> in_range s x y.
Proof. intros []. unfold in_range. by rewrite shape_width0, shape_height0. Qed.

Lemma same_shape_protected s s' x y :
  same_shape s s' -> protected s' x y <-> protected s x y.
Proof. intros []. unfold protected. by rewrite shape_width0, shape_height0. Qed.

Lemma same_shape_advance s : same_shape s (advance s).
Proof. by constructor. Qed.

Lemma same_shape_with_gameState g s : same_shape s (with_gameState g s).
Proof. by constructor. Qed.

Lemma same_shape_Set_ x y p s : same_shape s (Set_ x y p s).
Proof.
  unfold Set_. destruct (out_of_range s x y); [by constructor|].
  destruct (on_border s x y); constructor; simpl; try done.
  apply store_length.
Qed.

Lemma same_shape_SetTemperature x y t s : same_shape s (SetTemperature x y t s).
Proof.
  unfold SetTemperature. destruct (out_of_range s x y); constructor; simpl;
    try done. apply store_length.
Qed.

Lemma same_shape_SetNext x y p s : same_shape s (SetNext x y p s).
Proof.
  unfold SetNext. destruct (out_of_range s x y); constructor; simpl;
    try done. apply store_length.
Qed.

Create HintDb shape.

#[local] Hint Resolve same_shape_refl same_shape_advance same_shape_Set_
  same_shape_SetTemperature same_shape_SetNext same_shape_with_gameState
  : shape.

(** ** Brush placement *)

Lemma AddParticle_unfold x y p brush s :
  AddParticle x y p brush s
  = let r := Z.quot brush 2 in
    foldl (fun acc c => paint_body x y p r (fst c) (snd c) acc) s
      (cells (seqZ (- r) (2 * r + 1)) (seqZ (- r) (2 * r + 1))).
Proof.
  unfold AddParticle. cbv zeta.
  rewrite <- (for_each_nested _ _ (paint_body x y p (Z.quot brush 2))).
  reflexivity.
Qed.

Lemma paint_body_stamp x y p r dx dy s :
  paint_body x y p r dx dy s
  = if decide (dx * dx + dy * dy <= r * r /\ paintable s (x + dx) (y + dy)
               /\ (p = Empty \/ Get s (x + dx) (y + dy) = Empty
                   \/ Get s (x + dx) (y + dy) = Steam))
    then SetTemperature (x + dx) (y + dy) (initial_temperature p)
           (Set_ (x + dx) (y + dy) p s)
    else s.
Proof.
  unfold paint_body, paintable. cbv zeta.
  destruct (Z.leb_spec (dx * dx + dy * dy) (r * r)).
  2: { rewrite decide_False; [done | lia]. }
  destruct ((0 <? x + dx) && (x + dx <? width s - 1) && (0 <=? y + dy)
            && (y + dy <? height s - 2)) eqn:Hp.
  2: { rewrite decide_False; [done | lia]. }
  destruct (bool_decide (p = Empty) || bool_decide (Get s (x + dx) (y + dy) = Empty)
            || bool_decide (Get s (x + dx) (y + dy) = Steam)) eqn:Hw.
  - rewrite decide_True.
    + by destruct p.
    + rewrite !orb_true_iff, !bool_decide_eq_true in Hw. split; [lia|].
      split; [lia | tauto].
  - rewrite decide_False; [done|].
    rewrite !orb_false_iff, !bool_decide_eq_false in Hw. tauto.
Qed.

Lemma paint_body_shape x y p r dx dy s : same_shape s (paint_body x y p r dx dy s).
Proof.
  rewrite paint_body_stamp. case_decide; [|auto with shape].
  eapply same_shape_trans;
    [apply same_shape_Set_ | apply same_shape_SetTemperature].
Qed.

(** What one iteration does to the cell [(i, j)]. *)
Lemma paint_body_at x y p r dx dy s i j :
  wf s ->
  let s' := paint_body x y p r dx dy s in
  let hit := i = x + dx /\ j = y + dy
             /\ dx * dx + dy * dy <= r * r /\ paintable s i j
             /\ (p = Empty \/ Get s i j = Empty \/ Get s i j = Steam) in
  (hit -> Get s' i j = p /\ GetTemperature s' i j = initial_temperature p)
  /\ (~ hit -> Get s' i j = Get s i j
               /\ GetTemperature s' i j = GetTemperature s i j).
Proof.
  intros Hwf. cbv zeta. rewrite paint_body_stamp.
  pose proof (same_shape_Set_ (x + dx) (y + dy) p s) as Hsh.
  pose proof (same_shape_wf _ _ Hsh Hwf) as Hwf'.
  destruct Hwf as [? ? Hg Hn Ht], Hwf' as [? ? Hg' Hn' Ht'].
  case_decide as Hc.
  - rewrite Get_SetTemperature, Get_Set_ by done.
    rewrite GetTemperature_SetTemperature by done.
    rewrite GetTemperature_Set_.
    assert (in_range s (x + dx) (y + dy) /\ ~ protected s (x + dx) (y + dy))
      as [Hin Hnp].
    { destruct Hc as (_ & Hp & _). unfold paintable, in_range, protected in *. lia. }
    assert (in_range (Set_ (x + dx) (y + dy) p s) (x + dx) (y + dy)) as Hin'.
    { by apply (same_shape_in_range s). }
    split.
    + intros (-> & -> & _). rewrite !decide_True by done. done.
    + intros Hnh. rewrite !decide_False; [done | |].
      * intros (-> & -> & _). apply Hnh. tauto.
      * intros (-> & -> & _). apply Hnh. tauto.
  - split; [|done]. intros (-> & -> & ?). tauto.
Qed.

Lemma AddParticle_shape x y p brush s : same_shape s (AddParticle x y p brush s).
Proof.
  rewrite AddParticle_unfold. cbv zeta.
  apply (foldl_invariant (fun _ s' => same_shape s s')); [auto with shape|].
  intros done c rest s' _ Hs. eapply same_shape_trans; [exact Hs|].
  apply paint_body_shape.
Qed.

Lemma AddParticle_cells x y p brush s i j :
  wf s ->
  let s' := AddParticle x y p brush s in
  (painted s x y p brush i j ->
     Get s' i j = p /\ GetTemperature s' i j = initial_temperature p)
  /\ (~ painted s x y p brush i j ->
     Get s' i j = Get s i j /\ GetTemperature s' i j = GetTemperature s i j).
Proof.
  intros Hwf. cbv zeta. rewrite AddParticle_unfold. cbv zeta.
  set (r := Z.quot brush 2).
  set (core := fun i j : Z =>
         (i - x) * (i - x) + (j - y) * (j - y) <= r * r /\ paintable s i j
         /\ (p = Empty \/ Get s i j = Empty \/ Get s i j = Steam)).
  set (l := cells (seqZ (- r) (2 * r + 1)) (seqZ (- r) (2 * r + 1))).
  assert (NoDup l) as Hnd by (apply NoDup_cells; apply NoDup_seqZ).
  enough (Hinv :
    (fun done s' => same_shape s s' /\ forall i j,
       ((i - x, j - y) ∈ done /\ core i j ->
          Get s' i j = p /\ GetTemperature s' i j = initial_temperature p)
       /\ (~ ((i - x, j - y) ∈ done /\ core i j) ->
          Get s' i j = Get s i j /\ GetTemperature s' i j = GetTemperature s i j))
    l (foldl (fun acc c => paint_body x y p r (fst c) (snd c) acc) s l)).
  { destruct Hinv as [_ Hinv]. specialize (Hinv i j).
    assert (painted s x y p brush i j <-> (i - x, j - y) ∈ l /\ core i j) as Heq.
    { unfold painted, in_brush, core, l. fold r. cbv zeta.
      rewrite elem_of_cells, !elem_of_seqZ. intuition lia. }
    rewrite Heq. exact Hinv. }
  apply foldl_invariant.
  { split; [auto with shape|]. intros i' j'. split; [|done].
    intros [Hin _]. by apply elem_of_nil in Hin. }
  intros done [dx dy] rest s' Hl [Hsh IH]. simpl fst. simpl snd.
  assert ((dx, dy) ∉ done) as Hfresh.
  { rewrite Hl in Hnd. apply NoDup_app in Hnd as (_ & Hnd & _).
    intros Hin. apply (Hnd _ Hin). apply list_elem_of_here. }
  split.
  { eapply same_shape_trans; [exact Hsh | apply paint_body_shape]. }
  intros i' j'.
  pose proof (same_shape_wf _ _ Hsh Hwf) as Hwf'.
  pose proof (paint_body_at x y p r dx dy s' i' j' Hwf') as [Hhit Hmiss].
  cbv zeta in Hhit, Hmiss.
  destruct (IH i' j') as [IHp IHn].
  destruct (decide (i' = x + dx /\ j' = y + dy)) as [[-> ->]|Hne].
  - (* the cell visited by this iteration: not visited before *)
    replace (x + dx - x) with dx in * by lia.
    replace (y + dy - y) with dy in * by lia.
    destruct IHn as [HG HT]; [tauto|].
    assert (paintable s' (x + dx) (y + dy) <-> paintable s (x + dx) (y + dy)) as Hpt.
    { unfold paintable. destruct Hsh. by rewrite shape_width0, shape_height0. }
    split.
    + intros [_ Hcore]. apply Hhit. unfold core in Hcore.
      replace (x + dx - x) with dx in Hcore by lia.
      replace (y + dy - y) with dy in Hcore by lia.
      rewrite HG, Hpt. tauto.
    + intros Hno. rewrite <- HG, <- HT. apply Hmiss.
      intros (_ & _ & Hc & Hp & Hw). apply Hno. split.
      * apply elem_of_app. right. apply list_elem_of_here.
      * unfold core.
        replace (x + dx - x) with dx by lia.
        replace (y + dy - y) with dy by lia.
        rewrite <- HG, <- Hpt. tauto.
  - (* another cell: this iteration leaves it alone *)
    destruct Hmiss as [HG HT]; [tauto|]. rewrite HG, HT.
    assert ((i' - x, j' - y) ∈ done ++ [(dx, dy)] <-> (i' - x, j' - y) ∈ done) as Hin.
    { rewrite elem_of_app, list_elem_of_singleton. split; [|tauto].
      intros [?|Heq]; [done|]. inversion Heq. exfalso. apply Hne. lia. }
    rewrite Hin. split; [apply IHp | apply IHn].
Qed.

(** ** Scan order *)

Lemma seqZ_sorted m n : StronglySorted Z.lt (seqZ m n).
Proof.
  destruct (Z.le_gt_cases n 0) as [Hn|Hn].
  { rewrite seqZ_nil by done. constructor. }
  rewrite <- (Z2Nat.id n) by lia.
  generalize (Z.to_nat n) as k. clear. intros k. revert m.
  induction k as [|k IH]; intros m; [constructor|].
  rewrite seqZ_cons by lia. constructor.
  - replace (Z.pred (Z.of_nat (S k))) with (Z.of_nat k) by lia. apply IH.
  - apply Forall_forall. intros z Hz. apply elem_of_seqZ in Hz. lia.
Qed.

Lemma cells_sorted ys xs :
  StronglySorted Z.lt ys -> StronglySorted Z.lt xs ->
  StronglySorted earlier (cells ys xs).
Proof.
  intros Hys Hxs. induction Hys as [|y ys Hys IH Hy]; [constructor|].
  change (cells (y :: ys) xs) with (map (fun x => (x, y)) xs ++ cells ys xs).
  apply StronglySorted_app_2; [| |exact IH].
  - intros [a b] [c d] Hin1 Hin2.
    apply list_elem_of_fmap in Hin1 as (x0 & Heq & _). inversion Heq; subst.
    apply elem_of_cells in Hin2 as [_ Hd].
    left. simpl. rewrite Forall_forall in Hy. by apply Hy.
  - clear -Hxs. induction Hxs as [|x xs Hxs IH Hx]; [constructor|].
    simpl. constructor; [exact IH|].
    apply Forall_forall. intros [a b] Hin.
    apply list_elem_of_fmap in Hin as (x0 & Heq & Hx0). inversion Heq; subst.
    right. simpl. split; [done|]. rewrite Forall_forall in Hx. by apply Hx.
Qed.

Lemma earlier_asym a b : earlier a b -> earlier b a -> False.
Proof. unfold earlier. lia. Qed.

Lemma earlier_irrefl a : ~ earlier a a.
Proof. unfold earlier. lia. Qed.

(** In a sorted scan, everything already visited is earlier than the cell
    being visited. *)
Lemma scan_done_earlier l done c rest d :
  StronglySorted earlier l -> l = done ++ c :: rest -> d ∈ done -> earlier d c.
Proof.
  intros Hs -> Hd.
  eapply StronglySorted_app_1_elem_of; [exact Hs | exact Hd |].
  apply list_elem_of_here.
Qed.

(** ** Machine integers *)

Lemma wrap_int_range z : INT_MIN <= wrap_int z <= INT_MAX.
Proof.
  unfold wrap_int, INT_MIN, INT_MAX.
  pose proof (Z.mod_pos_bound (z - - 2 ^ 31) (2 ^ 32) ltac:(lia)). lia.
Qed.

Lemma wrap_int_id z : INT_MIN <= z <= INT_MAX -> wrap_int z = z.
Proof.
  unfold wrap_int, INT_MIN, INT_MAX. intros H.
  rewrite Z.mod_small by lia. lia.
Qed.

Lemma wrap_int_add a b : wrap_int (wrap_int a + b) = wrap_int (a + b).
Proof.
  unfold wrap_int. f_equal.
  replace ((a - INT_MIN) mod 2 ^ 32 + INT_MIN + b - INT_MIN)
    with ((a - INT_MIN) mod 2 ^ 32 + b) by lia.
  replace (a + b - INT_MIN) with (a - INT_MIN + b) by lia.
  apply Zplus_mod_idemp_l.
Qed.

Lemma wrap_int_add_r a b : wrap_int (a + wrap_int b) = wrap_int (a + b).
Proof. by rewrite Z.add_comm, wrap_int_add, Z.add_comm. Qed.

Lemma wrap_int_even z : Z.even (wrap_int z) = Z.even z.
Proof.
  unfold wrap_int, INT_MIN.
  pose proof (Z.div_mod (z - - 2 ^ 31) (2 ^ 32) ltac:(lia)) as Hdm.
  replace ((z - - 2 ^ 31) mod 2 ^ 32 + - 2 ^ 31)
    with (z + 2 * (- 2 ^ 31 * ((z - - 2 ^ 31) / 2 ^ 32))) by lia.
  by rewrite Z.even_add_mul_2.
Qed.

(** ** Temperature diffusion *)

Lemma neighbour_sum_fold s x y acc :
  neighbour_sum s x y acc
  = foldl (fun acc c =>
             if negb (bool_decide (Get s (x + fst c) (y + snd c) = Empty))
             then (wrap_int (fst acc + GetTemperature s (x + fst c) (y + snd c)),
                   snd acc + 1)
             else acc) acc neighbour_offsets.
Proof. reflexivity. Qed.

(** The accumulated sum is the mathematical one, wrapped once. *)
Lemma neighbour_sum_spec s x y t n :
  INT_MIN <= t <= INT_MAX ->
  neighbour_sum s x y (t, n)
  = (wrap_int (t + Zsum (map (fun c => GetTemperature s (x + fst c) (y + snd c))
                             (occupied_neighbours s x y))),
     n + Z.of_nat (length (occupied_neighbours s x y))).
Proof.
  rewrite neighbour_sum_fold. unfold occupied_neighbours.
  generalize neighbour_offsets as l. intros l. revert t n.
  induction l as [|c l IH]; intros t n Ht.
  - simpl. rewrite Z.add_0_r, wrap_int_id by done. f_equal; lia.
  - simpl foldl. rewrite filter_cons. case_bool_decide as Hc; simpl negb; cbv iota.
    + rewrite decide_False by tauto. by apply IH.
    + rewrite decide_True by done. rewrite IH by apply wrap_int_range.
      cbn [fst snd map length]. change (Zsum (?v :: ?r)) with (v + Zsum r).
      rewrite wrap_int_add. f_equal; [f_equal|]; lia.
Qed.

Lemma diffuse_cell_cases x y s :
  diffuse_cell x y s = s \/ exists v, diffuse_cell x y s = SetTemperature x y v s.
Proof.
  unfold diffuse_cell. case_bool_decide; [by left|]. right.
  destruct (neighbour_sum s x y (GetTemperature s x y, 1)) as [a n]. by eexists.
Qed.

Lemma diffuse_cell_spec x y s :
  INT_MIN <= GetTemperature s x y <= INT_MAX ->
  diffuse_cell x y s
  = if decide (Get s x y = Empty) then s
    else SetTemperature x y
           (relax (int_mean_temperature s (GetTemperature s) x y)) s.
Proof.
  intros Ht. unfold diffuse_cell. case_bool_decide; [by rewrite decide_True|].
  rewrite decide_False by done. by rewrite neighbour_sum_spec.
Qed.

Lemma temperature_sum_ext s temp1 temp2 x y :
  temp1 x y = temp2 x y ->
  (forall c, c ∈ neighbour_offsets ->
     temp1 (x + fst c) (y + snd c) = temp2 (x + fst c) (y + snd c)) ->
  temperature_sum s temp1 x y = temperature_sum s temp2 x y.
Proof.
  intros H0 Hn. unfold temperature_sum. rewrite H0. do 2 f_equal.
  apply map_ext_in. intros c Hc. apply Hn.
  apply list_elem_of_In in Hc. unfold occupied_neighbours in Hc.
  by apply list_elem_of_filter in Hc as [_ ?].
Qed.

Lemma mean_temperature_sum s temp x y :
  mean_temperature s temp x y
  = Z.quot (temperature_sum s temp x y)
           (1 + Z.of_nat (length (occupied_neighbours s x y))).
Proof. reflexivity. Qed.

Lemma mean_temperature_ext s temp1 temp2 x y :
  temp1 x y = temp2 x y ->
  (forall c, c ∈ neighbour_offsets ->
     temp1 (x + fst c) (y + snd c) = temp2 (x + fst c) (y + snd c)) ->
  mean_temperature s temp1 x y = mean_temperature s temp2 x y.
Proof.
  intros H0 Hn. rewrite !mean_temperature_sum.
  by rewrite (temperature_sum_ext s temp1 temp2).
Qed.

Lemma int_mean_temperature_ext s temp1 temp2 x y :
  temp1 x y = temp2 x y ->
  (forall c, c ∈ neighbour_offsets ->
     temp1 (x + fst c) (y + snd c) = temp2 (x + fst c) (y + snd c)) ->
  int_mean_temperature s temp1 x y = int_mean_temperature s temp2 x y.
Proof.
  intros H0 Hn. unfold int_mean_temperature.
  by rewrite (temperature_sum_ext s temp1 temp2).
Qed.

Lemma diffuse_cell_shape x y s : same_shape s (diffuse_cell x y s).
Proof. destruct (diffuse_cell_cases x y s) as [->|[v ->]]; auto with shape. Qed.

Lemma diffuse_cell_Get x y s i j : Get (diffuse_cell x y s) i j = Get s i j.
Proof.
  destruct (diffuse_cell_cases x y s) as [->|[v ->]]; [done|].
  apply Get_SetTemperature.
Qed.

Lemma UpdateTemperature_unfold s :
  UpdateTemperature s
  = foldl (fun acc c => diffuse_cell (fst c) (snd c) acc) s
      (cells (seqZ 1 (height s - 2)) (seqZ 1 (width s - 2))).
Proof. unfold UpdateTemperature. cbv zeta. by rewrite for_each_nested. Qed.

Lemma occupied_neighbours_ext s1 s2 x y :
  (forall i j, Get s1 i j = Get s2 i j) ->
  occupied_neighbours s1 x y = occupied_neighbours s2 x y.
Proof.
  intros H. unfold occupied_neighbours.
  apply list_filter_iff. intros c. by rewrite H.
Qed.

Lemma mean_temperature_Get_ext s1 s2 temp x y :
  (forall i j, Get s1 i j = Get s2 i j) ->
  mean_temperature s1 temp x y = mean_temperature s2 temp x y.
Proof.
  intros H. unfold mean_temperature.
  by rewrite (occupied_neighbours_ext s1 s2 x y H).
Qed.

Lemma int_mean_temperature_Get_ext s1 s2 temp x y :
  (forall i j, Get s1 i j = Get s2 i j) ->
  int_mean_temperature s1 temp x y = int_mean_temperature s2 temp x y.
Proof.
  intros H. unfold int_mean_temperature, temperature_sum.
  by rewrite (occupied_neighbours_ext s1 s2 x y H).
Qed.

Lemma reading_at_visit_agree before after after' x y i j :
  (earlier (i, j) (x, y) -> after i j = after' i j) ->
  reading_at_visit before after x y i j = reading_at_visit before after' x y i j.
Proof. intros H. unfold reading_at_visit. case_decide; auto. Qed.

(** *** Bounds *)

Lemma quot_mean_bounds (lo hi total n : Z) :
  1 <= n -> n * lo <= total <= n * hi -> lo <= Z.quot total n <= hi.
Proof.
  intros Hn Hs.
  destruct (Z_lt_le_dec total 0) as [Hneg|Hpos].
  - pose proof (Z.quot_opp_l total n ltac:(lia)) as Hopp.
    pose proof (Z.quot_rem' (- total) n) as Hqr.
    pose proof (Z.rem_bound_pos (- total) n ltac:(lia) ltac:(lia)). nia.
  - pose proof (Z.quot_rem' total n) as Hqr.
    pose proof (Z.rem_bound_pos total n ltac:(lia) ltac:(lia)). nia.
Qed.

Lemma Zsum_bounds (lo hi : Z) (l : list Z) :
  Forall (fun t => lo <= t <= hi) l ->
  Z.of_nat (length l) * lo <= Zsum l <= Z.of_nat (length l) * hi.
Proof.
  induction 1 as [|t l Ht _ IH]; [simpl; lia|].
  change (Zsum (t :: l)) with (t + Zsum l). rewrite length_cons. lia.
Qed.

Lemma occupied_neighbours_length s x y :
  (length (occupied_neighbours s x y) <= 8)%nat.
Proof.
  unfold occupied_neighbours. etransitivity; [apply length_filter|]. done.
Qed.

(** The sum of the readings of a cell and of its [k] occupied neighbours
    lies between [(1 + k) * lo] and [(1 + k) * hi]. *)
Lemma temperature_sum_bounds lo hi s temp x y :
  (forall i j, lo <= temp i j <= hi) ->
  let n := 1 + Z.of_nat (length (occupied_neighbours s x y)) in
  n * lo <= temperature_sum s temp x y <= n * hi.
Proof.
  intros Hall. cbv zeta. unfold temperature_sum.
  set (occ := occupied_neighbours s x y).
  pose proof (Zsum_bounds lo hi
    (map (fun c => temp (x + fst c) (y + snd c)) occ)) as Hsum.
  rewrite length_map in Hsum.
  pose proof (Hall x y).
  assert (Z.of_nat (length occ) * lo
          <= Zsum (map (fun c => temp (x + fst c) (y + snd c)) occ)
          <= Z.of_nat (length occ) * hi) as Hs.
  { apply Hsum. apply Forall_map. apply Forall_forall. intros c _. apply Hall. }
  lia.
Qed.

Lemma mean_temperature_bounds lo hi s temp x y :
  (forall i j, lo <= temp i j <= hi) ->
  lo <= mean_temperature s temp x y <= hi.
Proof.
  intros Hall. rewrite mean_temperature_sum.
  apply quot_mean_bounds; [lia|]. by apply temperature_sum_bounds.
Qed.

(** Nine temperatures of a range [lo .. hi] with [9 * lo] and [9 * hi]
    inside the range of [int] cannot overflow: the mean the pass computes
    is the arithmetic mean. *)
Lemma int_mean_temperature_exact lo hi s temp x y :
  lo <= hi -> INT_MIN <= 9 * lo -> 9 * hi <= INT_MAX ->
  (forall i j, lo <= temp i j <= hi) ->
  int_mean_temperature s temp x y = mean_temperature s temp x y.
Proof.
  intros Hlh Hlo Hhi Hall. rewrite mean_temperature_sum.
  unfold int_mean_temperature. f_equal. apply wrap_int_id.
  pose proof (temperature_sum_bounds lo hi s temp x y Hall) as Hs.
  cbv zeta in Hs. pose proof (occupied_neighbours_length s x y).
  unfold INT_MIN, INT_MAX in *. nia.
Qed.

Lemma int_mean_temperature_range s temp x y :
  INT_MIN <= int_mean_temperature s temp x y <= INT_MAX.
Proof.
  unfold int_mean_temperature.
  pose proof (wrap_int_range (temperature_sum s temp x y)) as Hw.
  apply quot_mean_bounds; [lia|]. unfold INT_MIN, INT_MAX in *. nia.
Qed.

Lemma relax_bounds lo hi t :
  lo <= 20 <= hi -> lo <= t <= hi -> lo <= relax t <= hi.
Proof.
  intros Hamb Ht. unfold relax.
  destruct (Z.ltb_spec 20 t);
    match goal with |- context [?a <? 20] => destruct (Z.ltb_spec a 20) end; lia.
Qed.

Lemma SetTemperature_within lo hi x y t s :
  wf s -> lo <= t <= hi -> temperatures_within lo hi s ->
  temperatures_within lo hi (SetTemperature x y t s).
Proof.
  intros Hwf Ht Hall i j.
  rewrite GetTemperature_SetTemperature by (by destruct Hwf).
  case_decide; [done | apply Hall].
Qed.

(** The pass keeps the temperatures in the range of [int]. *)
Lemma UpdateTemperature_int s :
  wf s -> temperatures_within INT_MIN INT_MAX s ->
  temperatures_within INT_MIN INT_MAX (UpdateTemperature s).
Proof.
  intros Hwf Hall. rewrite UpdateTemperature_unfold.
  enough ((fun _ s' => same_shape s s' /\ temperatures_within INT_MIN INT_MAX s')
            (cells (seqZ 1 (height s - 2)) (seqZ 1 (width s - 2)))
            (foldl (fun acc c => diffuse_cell (fst c) (snd c) acc) s
               (cells (seqZ 1 (height s - 2)) (seqZ 1 (width s - 2)))))
    as [_ H] by exact H.
  apply foldl_invariant; [split; [auto with shape | done]|].
  intros done c rest s' _ [Hsh Hall'].
  split; [eapply same_shape_trans; [exact Hsh | apply diffuse_cell_shape]|].
  rewrite diffuse_cell_spec by apply Hall'. case_decide; [done|].
  apply SetTemperature_within; [by apply (same_shape_wf s) | | done].
  apply relax_bounds; [by vm_compute | apply int_mean_temperature_range].
Qed.

(** The pass keeps the temperatures in a range that holds the ambient 20
    and whose ninefold does not leave the range of [int]. *)
Lemma UpdateTemperature_within lo hi s :
  wf s -> lo <= 20 <= hi -> INT_MIN <= 9 * lo -> 9 * hi <= INT_MAX ->
  temperatures_within lo hi s ->
  temperatures_within lo hi (UpdateTemperature s).
Proof.
  intros Hwf Hamb Hlo Hhi Hall. rewrite UpdateTemperature_unfold.
  enough ((fun _ s' => same_shape s s' /\ temperatures_within lo hi s')
            (cells (seqZ 1 (height s - 2)) (seqZ 1 (width s - 2)))
            (foldl (fun acc c => diffuse_cell (fst c) (snd c) acc) s
               (cells (seqZ 1 (height s - 2)) (seqZ 1 (width s - 2)))))
    as [_ H] by exact H.
  apply foldl_invariant; [split; [auto with shape | done]|].
  intros done c rest s' _ [Hsh Hall'].
  split; [eapply same_shape_trans; [exact Hsh | apply diffuse_cell_shape]|].
  rewrite diffuse_cell_spec.
  2: { pose proof (Hall' (fst c) (snd c)). unfold INT_MIN, INT_MAX in *. lia. }
  case_decide; [done|].
  apply SetTemperature_within; [by apply (same_shape_wf s) | | done].
  rewrite (int_mean_temperature_exact lo hi) by (done || lia).
  apply relax_bounds; [done|]. by apply mean_temperature_bounds.
Qed.

(** *** The pass, cell by cell *)

Lemma UpdateTemperature_cells s :
  wf s -> temperatures_within INT_MIN INT_MAX s ->
  let s' := UpdateTemperature s in
  same_shape s s' /\ (forall i j, Get s' i j = Get s i j)
  /\ forall x y,
       (diffused s x y ->
          GetTemperature s' x y
          = relax (int_mean_temperature s
                     (reading_at_visit (GetTemperature s) (GetTemperature s') x y)
                     x y))
       /\ (~ diffused s x y -> GetTemperature s' x y = GetTemperature s x y).
Proof.
  intros Hwf Hint. cbv zeta. rewrite UpdateTemperature_unfold.
  set (l := cells (seqZ 1 (height s - 2)) (seqZ 1 (width s - 2))).
  assert (StronglySorted earlier l) as Hsorted
    by (apply cells_sorted; apply seqZ_sorted).
  assert (NoDup l) as Hnd by (apply NoDup_cells; apply NoDup_seqZ).
  assert (forall x y, (x, y) ∈ l <->
            1 <= x <= width s - 2 /\ 1 <= y <= height s - 2) as Hl.
  { intros x y. unfold l. rewrite elem_of_cells, !elem_of_seqZ. lia. }
  enough (Hinv :
    (fun done s' =>
       same_shape s s' /\ (forall i j, Get s' i j = Get s i j)
       /\ temperatures_within INT_MIN INT_MAX s'
       /\ forall x y,
            ((x, y) ∈ done /\ Get s x y <> Empty ->
               GetTemperature s' x y
               = relax (int_mean_temperature s
                   (reading_at_visit (GetTemperature s) (GetTemperature s') x y)
                   x y))
            /\ (~ ((x, y) ∈ done /\ Get s x y <> Empty) ->
               GetTemperature s' x y = GetTemperature s x y))
    l (foldl (fun acc c => diffuse_cell (fst c) (snd c) acc) s l)).
  { destruct Hinv as (Hsh & HG & _ & HT). split; [done|]. split; [done|].
    intros x y. unfold diffused. rewrite <- Hl. apply HT. }
  apply foldl_invariant.
  { split; [auto with shape|]. split; [done|]. split; [done|].
    intros x y. split; [|done].
    intros [Hin _]. by apply elem_of_nil in Hin. }
  intros done [cx cy] rest s' Hsplit (Hsh & HG & Hint' & IH). simpl fst. simpl snd.
  assert ((cx, cy) ∉ done) as Hfresh.
  { rewrite Hsplit in Hnd. apply NoDup_app in Hnd as (_ & Hnd & _).
    intros Hin. apply (Hnd _ Hin). apply list_elem_of_here. }
  assert (forall d, d ∈ done -> earlier d (cx, cy)) as Hearlier.
  { intros d. by apply (scan_done_earlier l done (cx, cy) rest). }
  split; [eapply same_shape_trans; [exact Hsh | apply diffuse_cell_shape]|].
  split; [intros i j; by rewrite diffuse_cell_Get|].
  assert (in_range s' cx cy) as Hin.
  { apply (same_shape_in_range s); [done|].
    assert ((cx, cy) ∈ l) as Hc.
    { rewrite Hsplit. apply elem_of_app. right. apply list_elem_of_here. }
    apply Hl in Hc. unfold in_range. lia. }
  pose proof (same_shape_wf _ _ Hsh Hwf) as Hwf'.
  pose proof Hwf' as [_ _ _ _ Htemp].
  rewrite diffuse_cell_spec by apply Hint'. rewrite HG.
  destruct (decide (Get s cx cy = Empty)) as [Hempty|Hfull].
  { (* an Empty cell: skipped *)
    split; [done|].
    intros x y. destruct (IH x y) as [IHp IHn]. split.
    - intros [Hd Hne]. apply IHp. split; [|done].
      apply elem_of_app in Hd as [?|Hd]; [done|].
      apply list_elem_of_singleton in Hd. by inversion Hd; subst.
    - intros Hno. apply IHn. intros [Hd Hne]. apply Hno. split; [|done].
      apply elem_of_app. by left. }
  (* an occupied cell: its temperature is replaced *)
  rewrite (int_mean_temperature_Get_ext s' s) by done.
  set (v := relax (int_mean_temperature s (GetTemperature s') cx cy)).
  split.
  { apply SetTemperature_within; [done | | done].
    apply relax_bounds; [by vm_compute | apply int_mean_temperature_range]. }
  assert (forall i j,
    GetTemperature (SetTemperature cx cy v s') i j
    = if decide (i = cx /\ j = cy) then v else GetTemperature s' i j) as HT.
  { intros i j. rewrite GetTemperature_SetTemperature by done.
    destruct (decide (i = cx /\ j = cy)) as [[-> ->]|Hne].
    - by rewrite decide_True.
    - rewrite decide_False; [done | tauto]. }
  intros x y. destruct (IH x y) as [IHp IHn].
  destruct (decide (x = cx /\ y = cy)) as [[-> ->]|Hne].
  - split; [|intros Hno; exfalso; apply Hno; split; [|done];
             apply elem_of_app; right; apply list_elem_of_here].
    intros _. rewrite HT, decide_True by done. unfold v at 1. f_equal.
    assert (forall i j, (i, j) ∉ done ->
              GetTemperature s' i j = GetTemperature s i j) as Hold.
    { intros i j Hij. apply IH. tauto. }
    assert (forall i j,
      GetTemperature s' i j
      = reading_at_visit (GetTemperature s)
          (GetTemperature (SetTemperature cx cy v s')) cx cy i j) as Hread.
    { intros i j. unfold reading_at_visit. case_decide as He.
      - rewrite HT, decide_False; [done|]. intros [-> ->].
        by apply earlier_irrefl in He.
      - apply Hold. intros Hd. apply He. by apply Hearlier. }
    apply int_mean_temperature_ext; [apply Hread | intros c _; apply Hread].
  - rewrite HT, decide_False by done.
    assert ((x, y) ∈ done ++ [(cx, cy)] <-> (x, y) ∈ done) as Hdone.
    { rewrite elem_of_app, list_elem_of_singleton. split; [|tauto].
      intros [?|Heq]; [done|]. inversion Heq; subst. tauto. }
    rewrite Hdone. split; [|exact IHn].
    intros Hd. rewrite IHp by done. f_equal.
    assert (forall i j,
      reading_at_visit (GetTemperature s) (GetTemperature s') x y i j
      = reading_at_visit (GetTemperature s)
          (GetTemperature (SetTemperature cx cy v s')) x y i j) as Hread.
    { intros i j. apply reading_at_visit_agree. intros He.
      rewrite HT, decide_False; [done|]. intros [-> ->].
      destruct Hd as [Hd _]. apply Hearlier in Hd.
      by apply (earlier_asym (cx, cy) (x, y)). }
    apply int_mean_temperature_ext; [apply Hread | intros c _; apply Hread].
Qed.

(** ** The write discipline of the scan *)

Lemma writes_mono (A B : Z -> Z -> Particle -> Prop) s s' :
  (forall x y p, A x y p -> B x y p) -> writes A s s' -> writes B s s'.
Proof. intros HAB H. induction H; econstructor; eauto. Qed.

Lemma writes_trans A s1 s2 s3 :
  writes A s1 s2 -> writes A s2 s3 -> writes A s1 s3.
Proof. intros H12 H23. induction H23; [done | by constructor..]. Qed.

Lemma writes_shape A s s' : writes A s s' -> same_shape s s'.
Proof.
  induction 1; [auto with shape | | |];
    (eapply same_shape_trans; [eassumption | auto with shape]).
Qed.

Lemma writes_Get A s s' : writes A s s' -> forall i j, Get s' i j = Get s i j.
Proof.
  induction 1; intros i j; [done | | |].
  - by rewrite Get_SetNext.
  - by rewrite Get_SetTemperature.
  - by rewrite Get_advance.
Qed.

Lemma writes_grid A s s' :
  writes A s s' ->
  grid s' = grid s /\ gameState s' = gameState s /\ randSeq s' = randSeq s.
Proof.
  induction 1 as [|x y p s' _ IH _|x y t s' _ IH|s' _ IH]; [done | | |done].
  - unfold SetNext. by destruct (out_of_range s' x y).
  - unfold SetTemperature. by destruct (out_of_range s' x y).
Qed.

(** Every cell of the next buffer is either as before or holds a value
    written under [A]. *)
Lemma writes_GetNext A s s' :
  wf s -> writes A s s' ->
  forall i j, GetNext s' i j = GetNext s i j \/ A i j (GetNext s' i j).
Proof.
  intros Hwf H. induction H as [|x y p s' H IH HA|x y t s' H IH|s' H IH];
    intros i j.
  - by left.
  - pose proof (same_shape_wf _ _ (writes_shape _ _ _ H) Hwf) as [_ _ _ Hn _].
    rewrite GetNext_SetNext by done. case_decide as Hc; [|apply IH].
    destruct Hc as (-> & -> & _). by right.
  - replace (GetNext (SetTemperature x y t s') i j) with (GetNext s' i j);
      [apply IH|].
    unfold SetTemperature. by destruct (out_of_range s' x y).
  - apply IH.
Qed.

Lemma may_write_ext s1 s2 x0 y0 x y p :
  (forall i j, Get s1 i j = Get s2 i j) ->
  may_write s1 x0 y0 x y p -> may_write s2 x0 y0 x y p.
Proof. intros H. unfold may_write. by rewrite !H. Qed.

Ltac bool_hyps :=
  repeat match goal with
  | H : _ || _ = true |- _ => apply orb_true_iff in H; destruct H
  | H : _ || _ = false |- _ => apply orb_false_iff in H; destruct H
  | H : _ && _ = true |- _ => apply andb_true_iff in H; destruct H
  | H : negb _ = true |- _ => apply negb_true_iff in H
  | H : negb _ = false |- _ => apply negb_false_iff in H
  | H : bool_decide _ = true |- _ => apply bool_decide_eq_true in H
  | H : bool_decide _ = false |- _ => apply bool_decide_eq_false in H
  end.

Ltac norm_Get :=
  repeat progress
    (rewrite ?Get_advance, ?Get_SetNext, ?Get_SetTemperature in * ).

Ltac writes_steps :=
  repeat first
    [ apply writes_refl
    | apply writes_rand
    | apply writes_temp
    | apply writes_next ].

(** Case analysis on a condition that contains no other condition. *)
Ltac case_condition :=
  match goal with
  | |- context [if ?b then _ else _] =>
      lazymatch b with
      | context [if _ then _ else _] => fail
      | context [match _ with _ => _ end] => fail
      | _ => destruct b eqn:?
      end
  end.

Ltac movement_writes :=
  cbv beta iota zeta; norm_Get;
  repeat (case_condition; cbv beta iota zeta; norm_Get); bool_hyps; try done;
  writes_steps; unfold may_write; norm_Get; first [done | tauto | intuition congruence].

Lemma UpdateWater_writes x y s : writes (may_write s x y) s (UpdateWater x y s).
Proof. unfold UpdateWater, CanMoveDown, CanMoveSide, rand_dir, rand. movement_writes. Qed.

Lemma UpdateSand_writes x y s : writes (may_write s x y) s (UpdateSand x y s).
Proof. unfold UpdateSand, CanMoveDown, rand_dir, rand. movement_writes. Qed.

Lemma UpdateLava_writes x y s : writes (may_write s x y) s (UpdateLava x y s).
Proof. unfold UpdateLava, CanMoveDown, CanMoveSide, rand_dir, rand. movement_writes. Qed.

Lemma UpdateSteam_writes x y s : writes (may_write s x y) s (UpdateSteam x y s).
Proof. unfold UpdateSteam, rand_dir, rand. movement_writes. Qed.

Lemma UpdateAcid_writes x y s : writes (may_write s x y) s (UpdateAcid x y s).
Proof. unfold UpdateAcid, CanMoveDown, CanMoveSide, rand_dir, rand. movement_writes. Qed.

Lemma UpdateOil_writes x y s : writes (may_write s x y) s (UpdateOil x y s).
Proof. unfold UpdateOil, CanMoveDown, CanMoveSide, rand_dir, rand. movement_writes. Qed.

Lemma UpdateFire_writes x y s : writes (may_write s x y) s (UpdateFire x y s).
Proof. unfold UpdateFire, rand_dir, rand. movement_writes. Qed.

Lemma UpdateSmoke_writes x y s : writes (may_write s x y) s (UpdateSmoke x y s).
Proof. unfold UpdateSmoke, rand_dir, rand. movement_writes. Qed.

Lemma ReplaceNeighbor_scan_writes A offs x y target replacement s s' :
  (forall i j, Get s' i j = target -> A i j replacement) ->
  writes A s s' ->
  writes A s (ReplaceNeighbor_scan offs x y target replacement s').
Proof.
  intros HA Hw. induction offs as [|[dx dy] offs IH]; simpl; [done|].
  case_bool_decide; [|done]. constructor; auto.
Qed.

Lemma Acid_scan_writes offs x y s0 s :
  (forall i j, Get s i j = Get s0 i j) ->
  writes (may_write s0 x y) s0 s ->
  writes (may_write s0 x y) s0 (snd (Acid_scan offs x y s)).
Proof.
  revert s. induction offs as [|[dx dy] offs IH]; intros s HG Hw; simpl; [done|].
  destruct ((0 <? x + dx) && (x + dx <? width s - 1) && (0 <? y + dy)
            && (y + dy <? height s - 2)); [|by apply IH].
  destruct (bool_decide (Get s (x + dx) (y + dy) = Sand)
            || bool_decide (Get s (x + dx) (y + dy) = Ice)) eqn:Hm;
    [|by apply IH].
  bool_hyps.
  - assert (may_write s0 x y (x + dx) (y + dy) Empty)
      by (unfold may_write; rewrite <- HG; tauto).
    destruct (Z.rem _ 8 =? 0); simpl.
    + writes_steps; [done.. | unfold may_write; tauto].
    + apply IH; [intros; norm_Get; apply HG | by writes_steps].
  - assert (may_write s0 x y (x + dx) (y + dy) Empty)
      by (unfold may_write; rewrite <- HG; tauto).
    destruct (Z.rem _ 8 =? 0); simpl.
    + writes_steps; [done.. | unfold may_write; tauto].
    + apply IH; [intros; norm_Get; apply HG | by writes_steps].
Qed.

Lemma ReplaceNeighbor_writes A x y target replacement s s' :
  (forall i j, Get s' i j = target -> A i j replacement) ->
  writes A s s' ->
  writes A s (ReplaceNeighbor x y target replacement s').
Proof. apply ReplaceNeighbor_scan_writes. Qed.

Lemma ProcessReactions_writes x y s :
  writes (may_write s x y) s (snd (ProcessReactions x y s)).
Proof.
  unfold ProcessReactions, rand.
  destruct (Get s x y) eqn:Hcur; cbv beta iota zeta;
    try apply writes_refl;
    try (apply Acid_scan_writes; [done | apply writes_refl]);
    repeat (case_condition; cbv beta iota zeta); cbn [snd];
    repeat first
      [ apply writes_refl
      | apply writes_rand
      | apply writes_next
      | apply ReplaceNeighbor_writes;
        [intros i j Hij; norm_Get; unfold may_write; tauto|] ];
    unfold may_write; tauto.
Qed.

Lemma update_cell_writes x y s : writes (may_write s x y) s (update_cell x y s).
Proof.
  unfold update_cell. cbv zeta. case_bool_decide; [apply writes_refl|].
  pose proof (ProcessReactions_writes x y s) as Hr.
  destruct (ProcessReactions x y s) as [reacted s1]. simpl in Hr.
  destruct reacted; [done|].
  pose proof (writes_Get _ _ _ Hr) as HG.
  assert (forall s2, writes (may_write s1 x y) s1 s2 ->
                     writes (may_write s x y) s s2) as Hlift.
  { intros s2 H2. eapply writes_trans; [exact Hr|].
    eapply writes_mono; [|exact H2]. intros i j p. by apply may_write_ext. }
  destruct (Get s x y); try done; apply Hlift.
  - apply UpdateSand_writes.
  - apply UpdateWater_writes.
  - apply UpdateLava_writes.
  - apply UpdateSteam_writes.
  - apply UpdateAcid_writes.
  - apply UpdateOil_writes.
  - apply UpdateFire_writes.
  - apply UpdateSmoke_writes.
Qed.

(** ** Whole-array loops: [Clear], [CreateGround], the copy of the tick *)

(** A loop that stores [v i] at each index [i] of [l]. *)
Lemma for_each_store `{Inhabited A} (l : list Z) (v : Z -> A) (a : list A) :
  let a' := for_each l (fun i a => store a i (v i)) a in
  length a' = length a
  /\ forall k, 0 <= k < Z.of_nat (length a) ->
       (k ∈ l -> load a' k = v k) /\ (k ∉ l -> load a' k = load a k).
Proof.
  cbv zeta.
  apply (for_each_invariant (fun done a' =>
    length a' = length a
    /\ forall k, 0 <= k < Z.of_nat (length a) ->
         (k ∈ done -> load a' k = v k) /\ (k ∉ done -> load a' k = load a k))).
  { split; [done|]. intros k _. split; [|done]. intros Hk. by apply elem_of_nil in Hk. }
  intros done i rest a' _ [Hlen IH]. split; [by rewrite store_length|].
  intros k Hk. destruct (IH k Hk) as [IHin IHout].
  rewrite load_store by lia. case_decide as Hik.
  - subst i. split; [done|]. intros Hn. exfalso. apply Hn.
    apply elem_of_app. right. apply list_elem_of_here.
  - rewrite elem_of_app, list_elem_of_singleton. split.
    + intros [?|?]; [auto | congruence].
    + intros Hn. apply IHout. tauto.
Qed.

(** A loop that stores the constant [v] at the indices [f i] and [g i]. *)
Lemma for_each_store2 `{Inhabited A} (l : list Z) (f g : Z -> Z) (v : A)
    (a : list A) :
  let a' := for_each l (fun i a => store (store a (f i) v) (g i) v) a in
  length a' = length a
  /\ forall k, 0 <= k < Z.of_nat (length a) ->
       ((exists i, i ∈ l /\ (k = f i \/ k = g i)) -> load a' k = v)
       /\ (~ (exists i, i ∈ l /\ (k = f i \/ k = g i)) -> load a' k = load a k).
Proof.
  cbv zeta.
  apply (for_each_invariant (fun done a' =>
    length a' = length a
    /\ forall k, 0 <= k < Z.of_nat (length a) ->
         ((exists i, i ∈ done /\ (k = f i \/ k = g i)) -> load a' k = v)
         /\ (~ (exists i, i ∈ done /\ (k = f i \/ k = g i)) ->
              load a' k = load a k))).
  { split; [done|]. intros k _. split; [|done].
    intros (i & Hi & _). by apply elem_of_nil in Hi. }
  intros done i rest a' _ [Hlen IH]. split; [by rewrite !store_length|].
  intros k Hk. destruct (IH k Hk) as [IHin IHout].
  rewrite !load_store by (rewrite ?store_length; lia).
  destruct (decide (g i = k)) as [Hg|Hg];
    [|destruct (decide (f i = k)) as [Hf|Hf]].
  - split; [done|]. intros Hn. exfalso. apply Hn. exists i. split; [|auto].
    apply elem_of_app. right. apply list_elem_of_here.
  - split; [done|]. intros Hn. exfalso. apply Hn. exists i. split; [|auto].
    apply elem_of_app. right. apply list_elem_of_here.
  - split.
    + intros (i' & Hi' & Hk'). apply IHin.
      apply elem_of_app in Hi' as [Hi'|Hi']; [by exists i'|].
      apply list_elem_of_singleton in Hi'. subst i'. lia.
    + intros Hn. apply IHout. intros (i' & Hi' & Hk'). apply Hn.
      exists i'. split; [|done]. apply elem_of_app. by left.
Qed.

Lemma stone_border_length w h a : length (stone_border w h a) = length a.
Proof.
  unfold stone_border.
  pose proof (for_each_store2 (seqZ 0 w) (fun x => (h - 1) * w + x)
                (fun x => (h - 2) * w + x) Stone a) as [H1 _].
  cbv beta in H1.
  match goal with |- length (for_each _ _ ?b) = _ =>
    pose proof (for_each_store2 (seqZ 0 (h - 1)) (fun y => y * w + 0)
                  (fun y => y * w + (w - 1)) Stone b) as [H2 _] end.
  cbv beta in H2. congruence.
Qed.

Lemma stone_border_load w h a x y :
  1 <= w -> 2 <= h -> Z.of_nat (length a) = w * h ->
  0 <= x < w -> 0 <= y < h ->
  load (stone_border w h a) (y * w + x)
  = if decide (h - 2 <= y \/ x = 0 \/ x = w - 1) then Stone
    else load a (y * w + x).
Proof.
  intros Hw Hh Hlen Hx Hy. unfold stone_border.
  pose proof (index_bound w h x y Hx Hy) as Hk.
  pose proof (for_each_store2 (seqZ 0 w) (fun x => (h - 1) * w + x)
                (fun x => (h - 2) * w + x) Stone a) as [Hl1 H1].
  cbv beta in Hl1, H1.
  set (a1 := for_each (seqZ 0 w) _ a) in *.
  pose proof (for_each_store2 (seqZ 0 (h - 1)) (fun y => y * w + 0)
                (fun y => y * w + (w - 1)) Stone a1) as [Hl2 H2].
  cbv beta in Hl2, H2.
  destruct (H1 (y * w + x)) as [H1in H1out]; [lia|].
  destruct (H2 (y * w + x)) as [H2in H2out]; [lia|].
  destruct (decide (y < h - 1 /\ (x = 0 \/ x = w - 1))) as [Hwall|Hnowall].
  { rewrite H2in.
    - rewrite decide_True; [done | lia].
    - exists y. rewrite elem_of_seqZ. split; [lia|].
      destruct Hwall as [_ [-> | ->]]; auto. }
  rewrite H2out.
  2: { intros (i & Hi & Heq). apply elem_of_seqZ in Hi.
       destruct Heq as [Heq|Heq]; apply (index_inj w) in Heq; lia. }
  destruct (decide (h - 2 <= y)) as [Hlow|Hhigh].
  { rewrite H1in.
    - rewrite decide_True; [done | lia].
    - exists x. rewrite elem_of_seqZ. split; [lia|].
      assert (y = h - 1 \/ y = h - 2) as [-> | ->] by lia; auto. }
  rewrite H1out.
  2: { intros (i & Hi & Heq). apply elem_of_seqZ in Hi.
       destruct Heq as [Heq|Heq]; apply (index_inj w) in Heq; lia. }
  rewrite decide_False; [done | lia].
Qed.

Lemma with_grid_id s : with_grid (grid s) s = s.
Proof. by destruct s. Qed.

Lemma with_nextGrid_id s : with_nextGrid (nextGrid s) s = s.
Proof. by destruct s. Qed.

(** A loop whose body rewrites the current buffer only. *)
Lemma for_each_grid l (F : Z -> list Particle -> list Particle)
    (body : Z -> ParticleGrid -> ParticleGrid) s :
  (forall i s', width s' = width s -> height s' = height s ->
     body i s' = with_grid (F i (grid s')) s') ->
  for_each l body s = with_grid (for_each l F (grid s)) s.
Proof.
  intros Hbody. revert s Hbody. induction l as [|i l IH]; intros s Hbody.
  - by rewrite !for_each_nil, with_grid_id.
  - rewrite !for_each_cons, Hbody by done. rewrite IH; [done|].
    intros j s' Hw Hh. apply Hbody; [by rewrite Hw | by rewrite Hh].
Qed.

(** A loop whose body rewrites the next buffer only. *)
Lemma for_each_nextGrid l (F : Z -> list Particle -> list Particle)
    (body : Z -> ParticleGrid -> ParticleGrid) s :
  (forall i s', width s' = width s -> height s' = height s ->
     grid s' = grid s ->
     body i s' = with_nextGrid (F i (nextGrid s')) s') ->
  for_each l body s = with_nextGrid (for_each l F (nextGrid s)) s.
Proof.
  intros Hbody. revert s Hbody. induction l as [|i l IH]; intros s Hbody.
  - by rewrite !for_each_nil, with_nextGrid_id.
  - rewrite !for_each_cons, Hbody by done. rewrite IH; [done|].
    intros j s' Hw Hh Hg. apply Hbody; [by rewrite Hw | by rewrite Hh | by rewrite Hg].
Qed.

Lemma CreateGround_eq s :
  CreateGround s = with_grid (stone_border (width s) (height s) (grid s)) s.
Proof.
  unfold CreateGround, stone_border. cbv zeta.
  rewrite (for_each_grid (seqZ 0 (width s))
             (fun x a => store (store a ((height s - 1) * width s + x) Stone)
                               ((height s - 2) * width s + x) Stone)).
  2: { intros i s' Hw Hh. by rewrite <- Hw, <- Hh. }
  rewrite (for_each_grid (seqZ 0 (height s - 1))
             (fun y a => store (store a (y * width s + 0) Stone)
                               (y * width s + (width s - 1)) Stone)).
  2: { intros i s' Hw Hh. simpl in Hw, Hh. by rewrite <- Hw. }
  reflexivity.
Qed.

Lemma CreateGroundNext_eq s :
  CreateGroundNext s
  = with_nextGrid (stone_border (width s) (height s) (nextGrid s)) s.
Proof.
  unfold CreateGroundNext, stone_border. cbv zeta.
  rewrite (for_each_nextGrid (seqZ 0 (width s))
             (fun x a => store (store a ((height s - 1) * width s + x) Stone)
                               ((height s - 2) * width s + x) Stone)).
  2: { intros i s' Hw Hh _. by rewrite <- Hw, <- Hh. }
  rewrite (for_each_nextGrid (seqZ 0 (height s - 1))
             (fun y a => store (store a (y * width s + 0) Stone)
                               (y * width s + (width s - 1)) Stone)).
  2: { intros i s' Hw Hh _. simpl in Hw, Hh. by rewrite <- Hw. }
  reflexivity.
Qed.

Lemma fill_replicate `{Inhabited A} (n : Z) (v : A) (a : list A) :
  Z.of_nat (length a) = n -> fill n v a = replicate (length a) v.
Proof.
  intros Hn. unfold fill.
  pose proof (for_each_store (seqZ 0 n) (fun _ => v) a) as [Hlen Hload].
  cbv beta in Hlen, Hload.
  apply list_eq_same_length with (length a);
    [by rewrite length_replicate | done |].
  intros i x y Hi Hx Hy.
  apply lookup_replicate in Hy as [-> _].
  destruct (Hload (Z.of_nat i)) as [Hin _]; [lia|].
  unfold load in Hin. rewrite Nat2Z.id in Hin.
  apply list_lookup_total_correct in Hx. rewrite <- Hx.
  apply Hin. apply elem_of_seqZ. lia.
Qed.

Lemma Clear_loop l s :
  for_each l (fun i s =>
      let s := with_grid (store (grid s) i Empty) s in
      let s := with_nextGrid (store (nextGrid s) i Empty) s in
      with_temperature (store (temperature s) i 20) s) s
  = mkGrid (for_each l (fun i a => store a i Empty) (grid s))
           (for_each l (fun i a => store a i Empty) (nextGrid s))
           (for_each l (fun i a => store a i 20) (temperature s))
           (width s) (height s) (gameState s) (randSeq s) (randCalls s).
Proof.
  revert s. induction l as [|i l IH]; intros s; [by destruct s|].
  rewrite !for_each_cons, IH. reflexivity.
Qed.

Lemma Clear_eq s :
  wf s ->
  Clear s
  = mkGrid (stone_border (width s) (height s) (replicate (length (grid s)) Empty))
           (replicate (length (nextGrid s)) Empty)
           (replicate (length (temperature s)) 20)
           (width s) (height s) (gameState s) (randSeq s) (randCalls s).
Proof.
  intros [_ _ Hg Hn Ht]. unfold Clear. cbv zeta.
  rewrite Clear_loop, CreateGround_eq. simpl.
  fold (fill (width s * height s) Empty (grid s)).
  fold (fill (width s * height s) Empty (nextGrid s)).
  fold (fill (width s * height s) 20 (temperature s)).
  by rewrite !fill_replicate.
Qed.

(** The copy loop at the start of a tick. *)
Lemma copy_loop_eq s :
  wf s ->
  for_each (seqZ 0 (width s * height s)) (fun i s =>
      with_nextGrid (store (nextGrid s) i (load (grid s) i)) s) s
  = with_nextGrid (grid s) s.
Proof.
  intros [_ _ Hg Hn _].
  rewrite (for_each_nextGrid _ (fun i a => store a i (load (grid s) i))).
  2: { intros i s' _ _ Hgrid. by rewrite Hgrid. }
  f_equal.
  pose proof (for_each_store (seqZ 0 (width s * height s))
                (fun i => load (grid s) i) (nextGrid s)) as [Hlen Hload].
  cbv beta in Hlen, Hload.
  apply list_eq_same_length with (length (grid s)); [done | lia |].
  intros i x y Hi Hx Hy.
  destruct (Hload (Z.of_nat i)) as [Hin _]; [lia|].
  unfold load in Hin. rewrite Nat2Z.id in Hin.
  apply list_lookup_total_correct in Hx, Hy. rewrite <- Hx, <- Hy.
  apply Hin. apply elem_of_seqZ. lia.
Qed.

(** ** The structure of a tick *)

Lemma tick_unfold s :
  wf s -> tick s = swap_buffers (UpdateTemperature (scan s)).
Proof.
  intros Hwf. unfold tick. cbv zeta.
  rewrite copy_loop_eq by done. rewrite CreateGroundNext_eq.
  rewrite for_each_nested. reflexivity.
Qed.

Lemma elem_of_scan_cells s x y :
  (x, y) ∈ scan_cells s <-> 1 <= x <= width s - 2 /\ 0 <= y <= height s - 3.
Proof.
  unfold scan_cells. rewrite elem_of_cells, elem_of_reverse, !elem_of_seqZ. lia.
Qed.

Lemma NoDup_scan_cells s : NoDup (scan_cells s).
Proof.
  apply NoDup_cells; [rewrite reverse_Permutation|]; apply NoDup_seqZ.
Qed.

Lemma snapshot_shape s : wf s -> same_shape s (snapshot s).
Proof.
  intros [_ _ Hg Hn _]. constructor; simpl; try done.
  rewrite stone_border_length. lia.
Qed.

Lemma snapshot_Get s i j : Get (snapshot s) i j = Get s i j.
Proof. reflexivity. Qed.

Lemma snapshot_GetNext s i j :
  wf s -> in_range s i j ->
  GetNext (snapshot s) i j = if decide (protected s i j) then Stone else Get s i j.
Proof.
  intros [Hw Hh Hg _ _] Hin. unfold GetNext.
  change (out_of_range (snapshot s) i j) with (out_of_range s i j).
  rewrite (proj2 (out_of_range_false s i j) Hin), (Get_in s i j Hin).
  change (width (snapshot s)) with (width s).
  change (nextGrid (snapshot s))
    with (stone_border (width s) (height s) (grid s)).
  destruct Hin. by rewrite stone_border_load.
Qed.

Lemma scan_prefix_writes s done rest :
  scan_cells s = done ++ rest ->
  writes (scan_may_write s) (snapshot s)
    (foldl (fun acc c => update_cell (fst c) (snd c) acc) (snapshot s) done).
Proof.
  revert rest. induction done as [|c done IH] using rev_ind; intros rest Hsplit.
  { apply writes_refl. }
  rewrite foldl_app. simpl.
  rewrite <- app_assoc in Hsplit. specialize (IH _ Hsplit).
  eapply writes_trans; [exact IH|].
  eapply writes_mono; [|apply update_cell_writes].
  intros i j p Hm. exists (fst c), (snd c). split.
  - rewrite Hsplit. apply elem_of_app. right. destruct c. apply list_elem_of_here.
  - eapply may_write_ext; [|exact Hm].
    intros i' j'. by rewrite (writes_Get _ _ _ IH).
Qed.

Lemma scan_writes s : writes (scan_may_write s) (snapshot s) (scan s).
Proof. apply (scan_prefix_writes s (scan_cells s) []). by rewrite app_nil_r. Qed.

Lemma writes_nothing_nextGrid s s' :
  writes (fun _ _ _ => False) s s' -> nextGrid s' = nextGrid s.
Proof.
  induction 1 as [|x y p s' _ IH HA|x y t s' _ IH|s' _ IH]; [done|done| |done].
  unfold SetTemperature. by destruct (out_of_range s' x y).
Qed.

Lemma UpdateTemperature_writes s :
  writes (fun _ _ _ => False) s (UpdateTemperature s).
Proof.
  rewrite UpdateTemperature_unfold.
  apply (foldl_invariant (fun _ s' => writes (fun _ _ _ => False) s s')).
  { apply writes_refl. }
  intros done c rest s' _ Hs.
  destruct (diffuse_cell_cases (fst c) (snd c) s') as [->|[v ->]];
    [done | by constructor].
Qed.

Lemma GetNext_eq s s' i j :
  nextGrid s' = nextGrid s -> width s' = width s -> height s' = height s ->
  GetNext s' i j = GetNext s i j.
Proof. intros Hn Hw Hh. unfold GetNext, out_of_range. by rewrite Hn, Hw, Hh. Qed.

Lemma Get_swap_buffers s i j : Get (swap_buffers s) i j = GetNext s i j.
Proof. reflexivity. Qed.

Lemma GetNext_swap_buffers s i j : GetNext (swap_buffers s) i j = Get s i j.
Proof. reflexivity. Qed.

(** After a tick the current buffer is the next buffer of the scan, and
    the next buffer is the old current one. *)
Lemma tick_buffers s :
  wf s ->
  same_shape s (tick s)
  /\ (forall i j, Get (tick s) i j = GetNext (scan s) i j)
  /\ (forall i j, GetNext (tick s) i j = Get s i j).
Proof.
  intros Hwf. rewrite tick_unfold by done.
  pose proof (scan_writes s) as Hscan.
  pose proof (UpdateTemperature_writes (scan s)) as Hut.
  pose proof (writes_shape _ _ _ Hscan) as Hsh1.
  pose proof (writes_shape _ _ _ Hut) as Hsh2.
  pose proof (same_shape_trans _ _ _ (snapshot_shape s Hwf)
                (same_shape_trans _ _ _ Hsh1 Hsh2)) as [Hw Hh Hg Hn Ht].
  pose proof (writes_grid _ _ _ Hscan) as (Hg1 & _).
  pose proof (writes_grid _ _ _ Hut) as (Hg2 & _).
  assert (grid (UpdateTemperature (scan s)) = grid s) as Hgrid
    by (rewrite Hg2, Hg1; reflexivity).
  split; [|split].
  - constructor; simpl; try done.
    + rewrite Hn. destruct Hwf. lia.
    + rewrite Hg. destruct Hwf. lia.
  - intros i j. rewrite Get_swap_buffers. apply GetNext_eq.
    + by apply writes_nothing_nextGrid.
    + by destruct Hsh2.
    + by destruct Hsh2.
  - intros i j. rewrite GetNext_swap_buffers.
    unfold Get, out_of_range. by rewrite Hgrid, Hw, Hh.
Qed.

(** ** The Stone border *)

Lemma Update_eq s :
  Update s
  = if isPaused (gameState s) then s
    else if tick_due s then tick (count_frame s) else count_frame s.
Proof.
  unfold Update, tick_due, count_frame. cbv zeta.
  destruct (isPaused (gameState s)); [done|]. simpl.
  change (skipFrames (mkGameState false _ _)) with (skipFrames (gameState s)).
  destruct (Z.rem _ _ =? 0); reflexivity.
Qed.

Lemma scan_border s :
  wf s -> border_stone s -> next_border_stone (scan s).
Proof.
  intros Hwf Hb x y Hin Hp.
  pose proof (snapshot_shape s Hwf) as Hsh0.
  pose proof (same_shape_wf _ _ Hsh0 Hwf) as Hwf0.
  pose proof (scan_writes s) as Hscan.
  pose proof (writes_shape _ _ _ Hscan) as Hsh.
  assert (in_range s x y) as Hin0.
  { apply (same_shape_in_range s (snapshot s)); [done|].
    by apply (same_shape_in_range (snapshot s) (scan s)). }
  assert (protected s x y) as Hp0.
  { apply (same_shape_protected s (snapshot s)); [done|].
    by apply (same_shape_protected (snapshot s) (scan s)). }
  destruct (writes_GetNext _ _ _ Hwf0 Hscan x y) as [Hsame|Hwritten].
  - rewrite Hsame, snapshot_GetNext by done. by rewrite decide_True.
  - destruct Hwritten as (cx & cy & Hc & Hm).
    apply elem_of_scan_cells in Hc.
    specialize (Hb x y Hin0 Hp0). unfold may_write in Hm. rewrite Hb in Hm.
    unfold protected in Hp0. destruct Hm as [[-> ->]|Hm]; [lia|].
    intuition congruence.
Qed.

Lemma tick_border s :
  wf s -> border_stone s ->
  wf (tick s) /\ border_stone (tick s) /\ next_border_stone (tick s).
Proof.
  intros Hwf Hb. destruct (tick_buffers s Hwf) as (Hsh & HG & HN).
  pose proof (scan_border s Hwf Hb) as Hscan.
  pose proof (same_shape_trans _ _ _ (snapshot_shape s Hwf)
                (writes_shape _ _ _ (scan_writes s))) as Hsh'.
  split; [by apply (same_shape_wf s)|]. split.
  - intros x y Hin Hp. rewrite HG. apply Hscan.
    + apply (same_shape_in_range s); [done|].
      by apply (same_shape_in_range s (tick s)).
    + apply (same_shape_protected s); [done|].
      by apply (same_shape_protected s (tick s)).
  - intros x y Hin Hp. rewrite HN. apply Hb.
    + by apply (same_shape_in_range s (tick s)).
    + by apply (same_shape_protected s (tick s)).
Qed.

Lemma count_frame_Get s i j : Get (count_frame s) i j = Get s i j.
Proof. reflexivity. Qed.

Lemma count_frame_wf s : wf s -> wf (count_frame s).
Proof. intros []. by constructor. Qed.

Lemma Set__protected x y p s : protected s x y -> Set_ x y p s = s.
Proof.
  intros Hp. unfold Set_. destruct (out_of_range s x y); [done|].
  apply on_border_true in Hp. by rewrite Hp.
Qed.

Lemma Set__border x y p s : wf s -> border_stone s -> border_stone (Set_ x y p s).
Proof.
  intros Hwf Hb i j Hin Hp. pose proof (same_shape_Set_ x y p s) as Hsh.
  apply (same_shape_in_range _ _ _ _ Hsh) in Hin.
  apply (same_shape_protected _ _ _ _ Hsh) in Hp.
  destruct Hwf. rewrite Get_Set_ by done.
  rewrite decide_False; [by apply Hb|]. intros (-> & -> & _ & Hn). done.
Qed.

Lemma GetNext_Set_ x y p s i j : GetNext (Set_ x y p s) i j = GetNext s i j.
Proof.
  unfold Set_. destruct (out_of_range s x y); [done|].
  by destruct (on_border s x y).
Qed.

Lemma GetNext_SetTemperature x y t s i j :
  GetNext (SetTemperature x y t s) i j = GetNext s i j.
Proof. unfold SetTemperature. by destruct (out_of_range s x y). Qed.

Lemma AddParticle_GetNext x y p brush s i j :
  GetNext (AddParticle x y p brush s) i j = GetNext s i j.
Proof.
  rewrite AddParticle_unfold. cbv zeta.
  apply (foldl_invariant (fun _ s' => GetNext s' i j = GetNext s i j)); [done|].
  intros done c rest s' _ Hs. rewrite paint_body_stamp.
  case_decide; [|done]. by rewrite GetNext_SetTemperature, GetNext_Set_.
Qed.

Lemma AddParticle_border x y p brush s :
  wf s -> border_stone s -> border_stone (AddParticle x y p brush s).
Proof.
  intros Hwf Hb i j Hin Hp. pose proof (AddParticle_shape x y p brush s) as Hsh.
  apply (same_shape_in_range _ _ _ _ Hsh) in Hin.
  apply (same_shape_protected _ _ _ _ Hsh) in Hp.
  destruct (AddParticle_cells x y p brush s i j Hwf) as [_ Hmiss].
  destruct Hmiss as [-> _]; [|by apply Hb].
  intros (_ & Hpaint & _). unfold paintable, protected in *. lia.
Qed.

Lemma load_replicate `{Inhabited A} (n : nat) (v : A) k :
  0 <= k < Z.of_nat n -> load (replicate n v) k = v.
Proof. intros Hk. unfold load. apply lookup_total_replicate_2. lia. Qed.

Lemma Clear_wf s : wf s -> wf (Clear s).
Proof.
  intros Hwf. rewrite Clear_eq by done. destruct Hwf.
  constructor; simpl; rewrite ?stone_border_length, ?length_replicate; done.
Qed.

Lemma Clear_shape s : wf s -> same_shape s (Clear s).
Proof.
  intros Hwf. rewrite Clear_eq by done.
  constructor; simpl; rewrite ?stone_border_length, ?length_replicate; done.
Qed.

Lemma Clear_Get s x y :
  wf s -> in_range s x y ->
  Get (Clear s) x y = if decide (protected s x y) then Stone else Empty.
Proof.
  intros Hwf Hin. pose proof (Clear_shape s Hwf) as Hsh.
  rewrite Get_in by (by apply (same_shape_in_range s)).
  rewrite Clear_eq by done. simpl. destruct Hwf as [? ? Hg _ _], Hin as [Hx Hy].
  rewrite stone_border_load by (rewrite ?length_replicate; done).
  unfold protected. case_decide; [done|].
  apply load_replicate. rewrite Hg. by apply index_bound.
Qed.

Lemma Clear_GetNext s x y :
  wf s -> in_range s x y -> GetNext (Clear s) x y = Empty.
Proof.
  intros Hwf Hin. pose proof (Clear_shape s Hwf) as Hsh.
  unfold GetNext.
  rewrite (proj2 (out_of_range_false (Clear s) x y))
    by (by apply (same_shape_in_range s)).
  rewrite Clear_eq by done. simpl. destruct Hwf as [? ? _ Hn _], Hin as [Hx Hy].
  apply load_replicate. rewrite Hn. by apply index_bound.
Qed.

Lemma Clear_GetTemperature s x y :
  wf s -> in_range s x y -> GetTemperature (Clear s) x y = 20.
Proof.
  intros Hwf Hin. pose proof (Clear_shape s Hwf) as Hsh.
  unfold GetTemperature.
  rewrite (proj2 (out_of_range_false (Clear s) x y))
    by (by apply (same_shape_in_range s)).
  rewrite Clear_eq by done. simpl. destruct Hwf as [? ? _ _ Ht], Hin as [Hx Hy].
  apply load_replicate. rewrite Ht. by apply index_bound.
Qed.

Lemma Clear_border s : wf s -> border_stone (Clear s).
Proof.
  intros Hwf x y Hin Hp. pose proof (Clear_shape s Hwf) as Hsh.
  apply (same_shape_in_range _ _ _ _ Hsh) in Hin.
  apply (same_shape_protected _ _ _ _ Hsh) in Hp.
  rewrite Clear_Get by done. by rewrite decide_True.
Qed.

Lemma Clear_next_empty s : wf s -> next_all_empty (Clear s).
Proof.
  intros Hwf x y Hin. apply Clear_GetNext; [done|].
  by apply (same_shape_in_range s (Clear s)); [apply Clear_shape|].
Qed.

Lemma CreateGround_shape s : same_shape s (CreateGround s).
Proof.
  rewrite CreateGround_eq. constructor; simpl; try done.
  apply stone_border_length.
Qed.

Lemma CreateGround_GetNext s x y : GetNext (CreateGround s) x y = GetNext s x y.
Proof. by rewrite CreateGround_eq. Qed.

Lemma CreateGround_border s : wf s -> border_stone (CreateGround s).
Proof.
  intros Hwf x y Hin Hp. pose proof (CreateGround_shape s) as Hsh.
  rewrite Get_in by done.
  apply (same_shape_in_range _ _ _ _ Hsh) in Hin.
  apply (same_shape_protected _ _ _ _ Hsh) in Hp.
  rewrite CreateGround_eq. simpl. destruct Hwf as [? ? Hg _ _], Hin as [Hx Hy].
  rewrite stone_border_load by done. by rewrite decide_True.
Qed.

Lemma raw_arrays_wf w h gs draws :
  1 <= w -> 2 <= h ->
  wf (mkGrid (replicate (Z.to_nat (w * h)) Empty)
             (replicate (Z.to_nat (w * h)) Empty)
             (replicate (Z.to_nat (w * h)) 0) w h gs draws 0%nat).
Proof. intros Hw Hh. constructor; simpl; rewrite ?length_replicate; nia. Qed.

Lemma ParticleGrid_new_inv w h gs draws :
  1 <= w -> 2 <= h ->
  let s := ParticleGrid_new w h gs draws in
  wf s /\ border_stone s /\ next_all_empty s.
Proof.
  intros Hw Hh. cbv zeta. unfold ParticleGrid_new. cbv zeta.
  pose proof (raw_arrays_wf w h gs draws Hw Hh) as Hraw.
  set (raw := mkGrid _ _ _ w h gs draws 0%nat) in *.
  pose proof (Clear_wf raw Hraw) as Hwf1.
  pose proof (CreateGround_shape (Clear raw)) as Hsh.
  split; [by apply (same_shape_wf (Clear raw))|]. split.
  - by apply CreateGround_border.
  - intros x y Hin. rewrite CreateGround_GetNext.
    apply Clear_next_empty; [done|]. by apply (same_shape_in_range _ _ _ _ Hsh).
Qed.

(** [LoadFromFile] writes through [Set] only. *)
Lemma load_row_inv line y s :
  wf s -> border_stone s ->
  let s' := load_row line y s in
  same_shape s s' /\ border_stone s'
  /\ (forall i j, GetNext s' i j = GetNext s i j).
Proof.
  intros Hwf Hb. cbv zeta. unfold load_row.
  apply (for_each_preserves (fun s' =>
    same_shape s s' /\ border_stone s'
    /\ (forall i j, GetNext s' i j = GetNext s i j))).
  { split; [auto with shape|]. done. }
  intros x s' _ (Hsh & Hb' & Hn).
  pose proof (same_shape_wf _ _ Hsh Hwf) as Hwf'.
  destruct (on_border s' x y).
  - split; [eapply same_shape_trans; [exact Hsh | apply same_shape_Set_]|].
    split; [by apply Set__border|]. intros i j. by rewrite GetNext_Set_.
  - split; [eapply same_shape_trans; [exact Hsh | apply same_shape_Set_]|].
    split; [by apply Set__border|]. intros i j. by rewrite GetNext_Set_.
Qed.

Lemma load_lines_inv lines y s :
  wf s -> border_stone s ->
  let s' := load_lines lines y s in
  same_shape s s' /\ border_stone s'
  /\ (forall i j, GetNext s' i j = GetNext s i j).
Proof.
  revert y s. induction lines as [|line lines IH]; intros y s Hwf Hb; cbv zeta.
  { split; [auto with shape | done]. }
  simpl. destruct (negb (y <? height s)); [split; [auto with shape | done]|].
  destruct ((String.length line =? 0)%nat || Ascii.eqb (char_at line 0) "#");
    [by apply IH|].
  destruct (load_row_inv line y s Hwf Hb) as (Hsh & Hb' & Hn).
  destruct (IH (y + 1) (load_row line y s)) as (Hsh2 & Hb2 & Hn2);
    [by apply (same_shape_wf s) | done |].
  split; [by eapply same_shape_trans|]. split; [done|].
  intros i j. by rewrite Hn2, Hn.
Qed.

Lemma LoadFromFile_inv file s :
  wf s -> border_stone s -> next_border_stone s \/ next_all_empty s ->
  let s' := LoadFromFile file s in
  wf s' /\ border_stone s' /\ (next_border_stone s' \/ next_all_empty s').
Proof.
  intros Hwf Hb Hn. cbv zeta. destruct file as [contents|]; [|done]. simpl.
  pose proof (Clear_wf s Hwf) as Hwf1.
  destruct (load_lines_inv (getlines contents) 0 (Clear s) Hwf1
              (Clear_border s Hwf)) as (Hsh & Hb' & Hnext).
  split; [by apply (same_shape_wf (Clear s))|]. split; [done|]. right.
  intros x y Hin. rewrite Hnext. apply Clear_next_empty; [done|].
  by apply (same_shape_in_range _ _ _ _ Hsh).
Qed.

(** ** Reachable states *)

Lemma Update_inv s :
  wf s -> border_stone s -> next_border_stone s \/ next_all_empty s ->
  wf (Update s) /\ border_stone (Update s)
  /\ (next_border_stone (Update s) \/ next_all_empty (Update s))
  /\ (tick_due s = true -> next_border_stone (Update s)).
Proof.
  intros Hwf Hb Hn. rewrite Update_eq. unfold tick_due.
  destruct (isPaused (gameState s)); [done|]. simpl.
  destruct (Z.rem _ _ =? 0).
  - destruct (tick_border (count_frame s)) as (? & ? & ?);
      [by apply count_frame_wf | exact Hb | auto].
  - split; [by apply count_frame_wf|]. split; [exact Hb|]. split; [exact Hn|done].
Qed.

Lemma reachable_inv s :
  reachable s ->
  wf s /\ border_stone s /\ (next_border_stone s \/ next_all_empty s).
Proof.
  induction 1 as [w h gs draws Hw Hh|s _ IH|x y p brush s _ IH|s _ IH
                 |file s _ IH|x y p s _ IH|x y t s _ IH|paused speed s _ IH].
  - destruct (ParticleGrid_new_inv w h gs draws Hw Hh) as (? & ? & ?). auto.
  - destruct IH as (Hwf & Hb & Hn).
    destruct (Update_inv s Hwf Hb Hn) as (? & ? & ? & _). auto.
  - destruct IH as (Hwf & Hb & Hn).
    split; [apply (same_shape_wf s); [apply AddParticle_shape | done]|].
    split; [by apply AddParticle_border|].
    pose proof (AddParticle_shape x y p brush s) as Hsh.
    destruct Hn as [Hn|Hn]; [left|right]; intros i j Hin; intros;
      rewrite AddParticle_GetNext; apply Hn;
      try (by apply (same_shape_in_range _ _ _ _ Hsh));
      by apply (same_shape_protected _ _ _ _ Hsh).
  - destruct IH as (Hwf & _ & _).
    split; [by apply Clear_wf|]. split; [by apply Clear_border|].
    right. by apply Clear_next_empty.
  - destruct IH as (Hwf & Hb & Hn). by apply LoadFromFile_inv.
  - destruct IH as (Hwf & Hb & Hn).
    split; [apply (same_shape_wf s); [apply same_shape_Set_ | done]|].
    split; [by apply Set__border|].
    pose proof (same_shape_Set_ x y p s) as Hsh.
    destruct Hn as [Hn|Hn]; [left|right]; intros i j Hin; intros;
      rewrite GetNext_Set_; apply Hn;
      try (by apply (same_shape_in_range _ _ _ _ Hsh));
      by apply (same_shape_protected _ _ _ _ Hsh).
  - destruct IH as (Hwf & Hb & Hn).
    pose proof (same_shape_SetTemperature x y t s) as Hsh.
    split; [by apply (same_shape_wf s)|]. split.
    + intros i j Hin Hp. rewrite Get_SetTemperature. apply Hb.
      * by apply (same_shape_in_range _ _ _ _ Hsh).
      * by apply (same_shape_protected _ _ _ _ Hsh).
    + destruct Hn as [Hn|Hn]; [left|right]; intros i j Hin; intros;
        rewrite GetNext_SetTemperature; apply Hn;
        try (by apply (same_shape_in_range _ _ _ _ Hsh));
        by apply (same_shape_protected _ _ _ _ Hsh).
  - destruct IH as (Hwf & Hb & Hn).
    split; [destruct Hwf; by constructor|]. split; [exact Hb | exact Hn].
Qed.

(** The phases of the tick, as [Update] runs them. *)
Lemma tick_phases s :
  tick s
  = swap_buffers
      (UpdateTemperature
         (scan_loops (width s) (height s) (CreateGroundNext (copy_grid s)))).
Proof. reflexivity. Qed.

(** Whatever the two buffers hold, the rules start from a next buffer
    that is the current one with Stone on every protected cell. *)
Lemma restamp s :
  wf s ->
  next_border_stone (CreateGroundNext (copy_grid s))
  /\ (forall i j, in_range s i j -> ~ protected s i j ->
        GetNext (CreateGroundNext (copy_grid s)) i j = Get s i j)
  /\ (forall i j, Get (CreateGroundNext (copy_grid s)) i j = Get s i j).
Proof.
  intros Hwf. unfold copy_grid. rewrite copy_loop_eq by done.
  rewrite CreateGroundNext_eq. change (with_nextGrid _ _) with (snapshot s).
  split; [|split].
  - intros x y Hin Hp. rewrite snapshot_GetNext by done. by rewrite decide_True.
  - intros i j Hin Hnp. rewrite snapshot_GetNext by done.
    by rewrite decide_False.
  - intros i j. apply snapshot_Get.
Qed.

(** C3 (as amended).  In every reachable state the protected cells (the
    bottom two rows and the leftmost and rightmost columns) are Stone in
    the current buffer, before and after [Update].  The next buffer is
    entirely Empty after construction, [Clear] and [LoadFromFile], and
    stays as it is under [AddParticle], [Set], [SetTemperature] and an
    [Update] that does not perform its tick; an [Update] that performs
    its tick leaves in it the previous current buffer, with its Stone
    border.  The tick stamps Stone on the protected cells of the next
    buffer after the copy and before the rules, whatever the buffers
    hold.  [Set] on a protected cell changes nothing. *)
Theorem border_invariant (s : ParticleGrid) :
  reachable s ->
  border_stone s /\ border_stone (Update s)
  /\ (next_border_stone s \/ next_all_empty s)
  /\ (tick_due s = true ->
      next_border_stone (Update s)
      /\ forall i j, GetNext (Update s) i j = Get s i j)
  /\ (tick_due s = false ->
      forall i j, GetNext (Update s) i j = GetNext s i j)
  /\ (forall t, wf t ->
        tick t
        = swap_buffers
            (UpdateTemperature
               (scan_loops (width t) (height t) (CreateGroundNext (copy_grid t))))
        /\ next_border_stone (CreateGroundNext (copy_grid t))
        /\ (forall i j, in_range t i j -> ~ protected t i j ->
              GetNext (CreateGroundNext (copy_grid t)) i j = Get t i j)
        /\ (forall i j, Get (CreateGroundNext (copy_grid t)) i j = Get t i j))
  /\ (forall w h gs draws, 1 <= w -> 2 <= h ->
        next_all_empty (ParticleGrid_new w h gs draws))
  /\ next_all_empty (Clear s)
  /\ (forall contents, next_all_empty (LoadFromFile (Some contents) s))
  /\ (forall x y p brush i j,
        GetNext (AddParticle x y p brush s) i j = GetNext s i j)
  /\ (forall x y p i j, GetNext (Set_ x y p s) i j = GetNext s i j)
  /\ (forall x y t i j, GetNext (SetTemperature x y t s) i j = GetNext s i j)
  /\ (forall x y p, protected s x y -> Set_ x y p s = s).
Proof.
  intros Hr. destruct (reachable_inv s Hr) as (Hwf & Hb & Hn).
  destruct (Update_inv s Hwf Hb Hn) as (_ & Hb' & _ & Hn').
  split; [done|]. split; [done|]. split; [done|].
  split; [|split; [|split; [|split; [|split; [|split]]]]].
  - intros Hd. split; [by apply Hn'|].
    rewrite Update_eq, Hd.
    assert (isPaused (gameState s) = false) as ->.
    { unfold tick_due in Hd. by destruct (isPaused (gameState s)). }
    intros i j. by destruct (tick_buffers _ (count_frame_wf s Hwf)) as (_ & _ & ->).
  - intros Hd i j. rewrite Update_eq, Hd.
    by destruct (isPaused (gameState s)).
  - intros t Hwft. split; [apply tick_phases | by apply restamp].
  - intros w h gs draws Hw Hh.
    by destruct (ParticleGrid_new_inv w h gs draws Hw Hh) as (_ & _ & ?).
  - by apply Clear_next_empty.
  - intros contents. simpl.
    destruct (load_lines_inv (getlines contents) 0 (Clear s) (Clear_wf s Hwf)
                (Clear_border s Hwf)) as (Hsh & _ & Hnext).
    intros x y Hin. rewrite Hnext. apply Clear_next_empty; [done|].
    by apply (same_shape_in_range _ _ _ _ Hsh).
  - split; [intros; apply AddParticle_GetNext|].
    split; [intros; apply GetNext_Set_|].
    split; [intros; apply GetNext_SetTemperature|].
    intros x y p. apply Set__protected.
Qed.

(** ** The frame-skip gate *)

Lemma skipFrames_pos gs : 1 <= skipFrames gs.
Proof. unfold skipFrames. lia. Qed.

Lemma tick_wf s : wf s -> wf (tick s).
Proof. intros Hwf. apply (same_shape_wf s); [|done]. by apply tick_buffers. Qed.

Lemma tick_gameState s : wf s -> gameState (tick s) = gameState s.
Proof.
  intros Hwf. rewrite tick_unfold by done.
  destruct (writes_grid _ _ _ (UpdateTemperature_writes (scan s))) as (_ & Hg & _).
  destruct (writes_grid _ _ _ (scan_writes s)) as (_ & Hg' & _).
  simpl. by rewrite Hg, Hg'.
Qed.

Lemma Update_wf s : wf s -> wf (Update s).
Proof.
  intros Hwf. rewrite Update_eq. destruct (isPaused (gameState s)); [done|].
  destruct (tick_due s); [apply tick_wf|]; by apply count_frame_wf.
Qed.

Lemma Update_gameState s :
  wf s -> isPaused (gameState s) = false ->
  gameState (Update s)
  = mkGameState false (timeSpeed (gameState s))
      (wrap_int (frameCounter (gameState s) + 1)).
Proof.
  intros Hwf Hp. rewrite Update_eq, Hp.
  destruct (tick_due s).
  - rewrite tick_gameState by (by apply count_frame_wf). simpl. by rewrite Hp.
  - simpl. by rewrite Hp.
Qed.

(** A call that does not pass the gate leaves the three arrays alone. *)
Lemma Update_gated s :
  tick_due s = false ->
  grid (Update s) = grid s /\ nextGrid (Update s) = nextGrid s
  /\ temperature (Update s) = temperature s.
Proof.
  intros Hd. rewrite Update_eq, Hd. by destruct (isPaused (gameState s)).
Qed.

(** As long as the frame counter does not leave the range of [int], [n]
    calls add [n] to it. *)
Lemma iter_Update_clock s n :
  wf s -> isPaused (gameState s) = false ->
  INT_MIN <= frameCounter (gameState s) ->
  frameCounter (gameState s) + Z.of_nat n <= INT_MAX ->
  wf (Nat.iter n Update s)
  /\ gameState (Nat.iter n Update s)
     = mkGameState false (timeSpeed (gameState s))
         (frameCounter (gameState s) + Z.of_nat n).
Proof.
  intros Hwf Hp Hlo Hhi. induction n as [|n IH].
  - split; [done|]. simpl. destruct (gameState s). simpl in *. subst.
    f_equal. lia.
  - destruct IH as [IHwf IHgs]; [lia|].
    simpl. split; [by apply Update_wf|].
    rewrite Update_gameState by (by rewrite ?IHgs). rewrite IHgs. simpl.
    f_equal. rewrite wrap_int_id by lia. lia.
Qed.

Lemma tick_due_iff s :
  isPaused (gameState s) = false ->
  INT_MIN <= frameCounter (gameState s) + 1 <= INT_MAX ->
  tick_due s = true
  <-> Z.rem (frameCounter (gameState s) + 1) (skipFrames (gameState s)) = 0.
Proof.
  intros Hp Hr. unfold tick_due. rewrite Hp, wrap_int_id by done. simpl.
  apply Z.eqb_eq.
Qed.

Lemma succ_mod (k c : Z) :
  1 <= k ->
  (c + 1) mod k = if decide (c mod k = k - 1) then 0 else c mod k + 1.
Proof.
  intros Hk. pose proof (Z.mod_pos_bound c k ltac:(lia)) as Hr.
  pose proof (Z.div_mod c k ltac:(lia)) as Hc.
  case_decide as Hlast.
  - apply Z.mod_divide; [lia|]. exists (c / k + 1). lia.
  - symmetry. apply (Z.mod_unique_pos _ _ (c / k)); lia.
Qed.

(** Among the next [n <= k] calls, with [k] the skip count, one performs a
    tick if the window reaches the next multiple of [k], else none. *)
Lemma ticks_in_window n s :
  wf s -> isPaused (gameState s) = false ->
  INT_MIN <= frameCounter (gameState s) ->
  frameCounter (gameState s) + Z.of_nat n <= INT_MAX ->
  let k := skipFrames (gameState s) in
  Z.of_nat n <= k ->
  ticks_in n s
  = if decide (k - frameCounter (gameState s) mod k <= Z.of_nat n)
    then 1%nat else 0%nat.
Proof.
  intros Hwf Hp. cbv zeta. revert s Hwf Hp.
  induction n as [|n IH]; intros s Hwf Hp Hlo Hhi Hn.
  { simpl. pose proof (skipFrames_pos (gameState s)).
    pose proof (Z.mod_pos_bound (frameCounter (gameState s))
                  (skipFrames (gameState s)) ltac:(lia)).
    rewrite decide_False; [done | lia]. }
  simpl ticks_in.
  pose proof (Update_gameState s Hwf Hp) as Hgs.
  assert (skipFrames (gameState (Update s)) = skipFrames (gameState s)) as Hk
    by (by rewrite Hgs).
  assert (wrap_int (frameCounter (gameState s) + 1)
          = frameCounter (gameState s) + 1) as Hw by (apply wrap_int_id; lia).
  rewrite Hw in Hgs.
  rewrite IH; [|by apply Update_wf | by rewrite Hgs
               | rewrite Hgs; simpl; lia | rewrite Hgs; simpl; lia
               | rewrite Hk; lia].
  rewrite Hk, Hgs. simpl frameCounter.
  set (k := skipFrames (gameState s)) in *.
  set (c := frameCounter (gameState s)) in *.
  pose proof (skipFrames_pos (gameState s)) as Hkpos. fold k in Hkpos.
  pose proof (Z.mod_pos_bound c k ltac:(lia)) as Hr.
  pose proof (succ_mod k c Hkpos) as Hnext.
  assert (tick_due s = true <-> (c + 1) mod k = 0) as Hdue.
  { rewrite tick_due_iff by (done || lia). fold k c. apply Z.rem_mod_eq_0. lia. }
  destruct (tick_due s).
  - assert ((c + 1) mod k = 0) as Hz by (by apply Hdue).
    rewrite Hz. rewrite Hz in Hnext. case_decide as Hlast; [|lia].
    rewrite decide_False by lia. rewrite decide_True; [done | lia].
  - assert ((c + 1) mod k <> 0) as Hnz by (intros Hz; by apply Hdue in Hz).
    case_decide as Hlast; [by rewrite Hnext in Hnz|].
    rewrite Hnext. simpl. repeat case_decide; lia.
Qed.

(** C5 (as amended).  With the pause off, [Update] performs its tick
    exactly when the incremented frame counter is a multiple of
    [skipFrames = max (1, (int)(1.0f / timeSpeed))], the binary32 quotient
    truncated toward zero (not rounded up): of any [skipFrames]
    consecutive calls during which the frame counter stays in the range
    of [int] exactly one performs the tick.  That call copies the current
    buffer, stamps the border, runs the rules, diffuses the temperatures
    and swaps the buffers, so that the old current buffer is the new next
    one; a call that does not perform the tick only counts the frame and
    leaves both cell buffers and the temperature field unchanged. *)
Theorem frame_gate (s : ParticleGrid) (n : nat) :
  wf s -> isPaused (gameState s) = false ->
  INT_MIN <= frameCounter (gameState s) ->
  frameCounter (gameState s) + Z.of_nat n + skipFrames (gameState s) <= INT_MAX ->
  let k := skipFrames (gameState s) in
  let sn := Nat.iter n Update s in
  1 <= k
  /\ k = Z.max 1 (float_to_int
                   (SFdiv f32_prec f32_emax f32_one (timeSpeed (gameState s))))
  /\ (tick_due sn = true
      <-> Z.rem (frameCounter (gameState s) + Z.of_nat n + 1) k = 0)
  /\ ticks_in (Z.to_nat k) sn = 1%nat
  /\ (tick_due sn = true ->
      Update sn
      = swap_buffers
          (UpdateTemperature
             (scan_loops (width sn) (height sn)
                (CreateGroundNext (copy_grid (count_frame sn)))))
      /\ Update sn = swap_buffers (UpdateTemperature (scan (count_frame sn)))
      /\ (forall i j, Get (Update sn) i j = GetNext (scan (count_frame sn)) i j)
      /\ (forall i j, GetNext (Update sn) i j = Get sn i j)
      /\ (forall i j,
            GetTemperature (Update sn) i j
            = GetTemperature (UpdateTemperature (scan (count_frame sn))) i j))
  /\ (tick_due sn = false ->
      Update sn = count_frame sn
      /\ grid (Update sn) = grid sn /\ nextGrid (Update sn) = nextGrid sn
      /\ temperature (Update sn) = temperature sn).
Proof.
  intros Hwf Hp Hlo Hhi. cbv zeta.
  pose proof (skipFrames_pos (gameState s)) as Hk.
  destruct (iter_Update_clock s n Hwf Hp Hlo) as [Hwfn Hgsn]; [lia|].
  assert (skipFrames (gameState (Nat.iter n Update s)) = skipFrames (gameState s))
    as Hkn by (by rewrite Hgsn).
  assert (isPaused (gameState (Nat.iter n Update s)) = false) as Hpn
    by (by rewrite Hgsn).
  split; [done|]. split; [done|]. split; [|split; [|split]].
  - rewrite tick_due_iff by (done || rewrite Hgsn; simpl; lia).
    by rewrite Hkn, Hgsn.
  - rewrite ticks_in_window;
      [|done | done | rewrite Hgsn; simpl; lia | rewrite Hgsn; simpl; lia
       | rewrite Hkn; lia].
    rewrite Hkn.
    pose proof (Z.mod_pos_bound (frameCounter (gameState (Nat.iter n Update s)))
                  (skipFrames (gameState s)) ltac:(lia)).
    rewrite decide_True; [done | lia].
  - intros Hd. rewrite Update_eq, Hpn, Hd.
    pose proof (count_frame_wf _ Hwfn) as Hwfc.
    destruct (tick_buffers _ Hwfc) as (_ & HG & HN).
    split; [exact (tick_phases (count_frame (Nat.iter n Update s)))|].
    split; [by apply tick_unfold|]. split; [exact HG|]. split; [exact HN|].
    intros i j. by rewrite tick_unfold.
  - intros Hd. split; [by rewrite Update_eq, Hpn, Hd|]. by apply Update_gated.
Qed.

(** ** Coordinates outside the grid *)

(** C9.  For coordinates outside [0, width) x [0, height): [Get] returns
    Stone, [GetTemperature] returns the ambient 20, and [Set] and
    [SetTemperature] return the state unchanged; the four accessors are
    total functions, no access fails. *)
Theorem out_of_range_policy (s : ParticleGrid) (x y : Z) :
  ~ (0 <= x < width s /\ 0 <= y < height s) ->
  Get s x y = Stone
  /\ GetTemperature s x y = 20
  /\ (forall p, Set_ x y p s = s)
  /\ (forall t, SetTemperature x y t s = s).
Proof.
  intros Hout. apply (out_of_range_true s x y) in Hout.
  unfold Get, GetTemperature, Set_, SetTemperature. by rewrite Hout.
Qed.

(** ** Painting *)


(** ** The diffusion pass *)

(** C4 (as amended).  [UpdateTemperature] visits the cells with
    [1 <= x <= width - 2] and [1 <= y <= height - 2] in row-major order
    and updates the field in place.  A visited cell that is not Empty gets
    the mean (integer division truncating toward zero, divisor 1 plus the
    number of non-Empty neighbours) of its own temperature and the
    temperatures of its non-Empty neighbours among the 8 surrounding
    cells, where a neighbour visited earlier in the pass contributes its
    new value, relaxed one unit toward 20.  The sum is formed in [int]:
    the mean is the arithmetic mean whenever that sum stays in the range
    of [int], as it does when every temperature lies in a range around 20
    whose ninefold stays in the range of [int] (a range that the pass
    preserves); a sum that leaves the range wraps modulo [2 ^ 32] before
    the division.  Every other cell (Empty, or in row 0, row [height - 1]
    or an outer column) keeps its temperature, and no cell type changes. *)
Theorem UpdateTemperature_diffuses (s : ParticleGrid) (x y : Z) :
  wf s -> temperatures_within INT_MIN INT_MAX s ->
  let s' := UpdateTemperature s in
  let reading := reading_at_visit (GetTemperature s) (GetTemperature s') x y in
  (diffused s x y ->
     GetTemperature s' x y = relax (int_mean_temperature s reading x y))
  /\ (diffused s x y ->
      INT_MIN <= temperature_sum s reading x y <= INT_MAX ->
      GetTemperature s' x y = relax (mean_temperature s reading x y))
  /\ (forall lo hi,
        lo <= 20 <= hi -> INT_MIN <= 9 * lo -> 9 * hi <= INT_MAX ->
        temperatures_within lo hi s ->
        temperatures_within lo hi s'
        /\ (diffused s x y ->
            GetTemperature s' x y = relax (mean_temperature s reading x y)))
  /\ (~ diffused s x y -> GetTemperature s' x y = GetTemperature s x y)
  /\ (forall i j, Get s' i j = Get s i j)
  /\ temperatures_within INT_MIN INT_MAX s'
  /\ 1 <= 1 + Z.of_nat (length (occupied_neighbours s x y))
  /\ (forall t, relax t = if decide (20 < t) then Z.max 20 (t - 1)
                          else if decide (t < 20) then Z.min 20 (t + 1)
                          else t).
Proof.
  intros Hwf Hint. cbv zeta.
  destruct (UpdateTemperature_cells s Hwf Hint) as (_ & HG & HT).
  destruct (HT x y) as [Hvisit Hskip].
  split; [exact Hvisit|]. split; [|split].
  - intros Hd Hsum. rewrite (Hvisit Hd), mean_temperature_sum.
    unfold int_mean_temperature. by rewrite wrap_int_id.
  - intros lo hi Hamb Hlo Hhi Hall.
    pose proof (UpdateTemperature_within lo hi s Hwf Hamb Hlo Hhi Hall) as Hall'.
    split; [exact Hall'|]. intros Hd. rewrite (Hvisit Hd).
    rewrite (int_mean_temperature_exact lo hi); [done | lia | done | done |].
    intros i j. unfold reading_at_visit. case_decide; [apply Hall' | apply Hall].
  - split; [exact Hskip|]. split; [exact HG|].
    split; [by apply UpdateTemperature_int|]. split; [lia|].
    intros t. unfold relax. destruct (Z.ltb_spec 20 t).
    + rewrite decide_True by done.
      destruct (Z.ltb_spec (Z.max 20 (t - 1)) 20); [lia | done].
    + rewrite decide_False by lia.
      destruct (Z.ltb_spec t 20);
        [by rewrite decide_True | by rewrite decide_False by lia].
Qed.

(** ** Neighbour scans *)

Lemma CheckNeighbor_first s x y target :
  CheckNeighbor s x y target
  = match first_neighbour s x y target with Some _ => true | None => false end.
Proof.
  unfold CheckNeighbor, first_neighbour. generalize neighbour_offsets as l.
  induction l as [|[dx dy] l IH]; [done|]. simpl. by case_bool_decide.
Qed.

Lemma ReplaceNeighbor_first s s' x y target replacement :
  (forall i j, Get s' i j = Get s i j) ->
  ReplaceNeighbor x y target replacement s'
  = match first_neighbour s x y target with
    | Some c => SetNext (x + fst c) (y + snd c) replacement s'
    | None => s'
    end.
Proof.
  intros HG. unfold ReplaceNeighbor, first_neighbour.
  generalize neighbour_offsets as l.
  induction l as [|[dx dy] l IH]; [done|]. simpl. rewrite HG.
  by case_bool_decide.
Qed.

Lemma first_neighbour_ext s s' x y target :
  (forall i j, Get s' i j = Get s i j) ->
  first_neighbour s' x y target = first_neighbour s x y target.
Proof.
  intros HG. unfold first_neighbour. generalize neighbour_offsets as l.
  induction l as [|c l IH]; [done|]. simpl. by rewrite HG, IH.
Qed.

Lemma first_neighbour_Some s x y target c :
  first_neighbour s x y target = Some c ->
  c ∈ neighbour_offsets /\ Get s (x + fst c) (y + snd c) = target.
Proof.
  intros H. apply find_some in H as [Hin Hc].
  split; [by apply list_elem_of_In|]. by apply bool_decide_eq_true in Hc.
Qed.

Lemma first_neighbour_exists s x y target c :
  c ∈ neighbour_offsets -> Get s (x + fst c) (y + snd c) = target ->
  exists c', first_neighbour s x y target = Some c'.
Proof.
  intros Hin Hc. destruct (first_neighbour s x y target) as [c'|] eqn:Hf; [eauto|].
  apply list_elem_of_In in Hin.
  pose proof (find_none _ _ Hf c Hin) as Hn. simpl in Hn.
  by apply bool_decide_eq_false in Hn.
Qed.

Lemma CheckNeighbor_true s x y target :
  CheckNeighbor s x y target = true
  <-> exists c, c ∈ neighbour_offsets /\ Get s (x + fst c) (y + snd c) = target.
Proof.
  rewrite CheckNeighbor_first. split.
  - destruct (first_neighbour s x y target) as [c|] eqn:Hf; [|done].
    intros _. exists c. by apply first_neighbour_Some.
  - intros (c & Hin & Hc).
    by destruct (first_neighbour_exists s x y target c Hin Hc) as [c' ->].
Qed.

Lemma neighbour_offsets_cases c :
  c ∈ neighbour_offsets ->
  (-1 <= fst c <= 1 /\ -1 <= snd c <= 1) /\ (fst c <> 0 \/ snd c <> 0).
Proof.
  change neighbour_offsets
    with [(-1, -1); (0, -1); (1, -1); (-1, 0); (1, 0); (-1, 1); (0, 1); (1, 1)].
  intros Hin. repeat (apply elem_of_cons in Hin as [->|Hin]; [simpl; lia|]).
  by apply elem_of_nil in Hin.
Qed.

Lemma neighbour_offsets_elem dx dy :
  -1 <= dx <= 1 -> -1 <= dy <= 1 -> dx <> 0 \/ dy <> 0 ->
  (dx, dy) ∈ neighbour_offsets.
Proof.
  intros Hx Hy Hne.
  change neighbour_offsets
    with [(-1, -1); (0, -1); (1, -1); (-1, 0); (1, 0); (-1, 1); (0, 1); (1, 1)].
  assert (dx = -1 \/ dx = 0 \/ dx = 1) as [-> | [-> | ->]] by lia;
  assert (dy = -1 \/ dy = 0 \/ dy = 1) as [-> | [-> | ->]] by lia;
    try lia; repeat first [apply list_elem_of_here | apply list_elem_of_further].
Qed.

(** ** Lava meets Water *)

Lemma lava_water_reaction s x y c :
  Get s x y = Lava -> first_neighbour s x y Water = Some c ->
  ProcessReactions x y s
  = (true, SetNext (x + fst c) (y + snd c) Steam (SetNext x y Obsidian s))
  /\ update_cell x y s
     = SetNext (x + fst c) (y + snd c) Steam (SetNext x y Obsidian s).
Proof.
  intros Hlava Hfirst.
  assert (ProcessReactions x y s
          = (true, SetNext (x + fst c) (y + snd c) Steam (SetNext x y Obsidian s)))
    as Hr.
  { unfold ProcessReactions. rewrite Hlava, CheckNeighbor_first, Hfirst.
    rewrite (ReplaceNeighbor_first s) by (intros; apply Get_SetNext).
    by rewrite Hfirst. }
  split; [done|]. unfold update_cell. cbv zeta. rewrite Hlava, Hr.
  by rewrite bool_decide_eq_false_2.
Qed.

Lemma water_near_lava_reaction s x y :
  Get s x y = Water -> CheckNeighbor s x y Lava = true ->
  update_cell x y s = SetNext x y Steam s.
Proof.
  intros Hwater Hlava. unfold update_cell, ProcessReactions. cbv zeta.
  rewrite Hwater, Hlava. by rewrite bool_decide_eq_false_2.
Qed.

(** A value that one visited cell writes into the next buffer, and that
    no visit overwrites, is there at the end of the scan. *)
Lemma scan_settles s c0 i j v :
  wf s -> c0 ∈ scan_cells s ->
  (forall c s', c ∈ scan_cells s -> wf s' ->
     (forall a b, Get s' a b = Get s a b) ->
     c = c0 \/ GetNext s' i j = v ->
     GetNext (update_cell (fst c) (snd c) s') i j = v) ->
  GetNext (scan s) i j = v.
Proof.
  intros Hwf Hc0 Hstep. unfold scan.
  enough (Hinv :
    (fun done s' => wf s' /\ (forall a b, Get s' a b = Get s a b)
                    /\ (c0 ∈ done -> GetNext s' i j = v))
      (scan_cells s)
      (foldl (fun acc c => update_cell (fst c) (snd c) acc) (snapshot s)
             (scan_cells s))).
  { by apply Hinv. }
  apply foldl_invariant.
  { split; [apply (same_shape_wf s); [by apply snapshot_shape | done]|].
    split; [done|]. intros Hin. by apply elem_of_nil in Hin. }
  intros done c rest s' Hsplit (Hwf' & HG & Hv).
  pose proof (update_cell_writes (fst c) (snd c) s') as Hw.
  split; [apply (same_shape_wf s'); [apply (writes_shape _ _ _ Hw) | done]|].
  split; [intros a b; by rewrite (writes_Get _ _ _ Hw)|].
  intros Hin. apply Hstep; [|done..|].
  - rewrite Hsplit. apply elem_of_app. right. apply list_elem_of_here.
  - apply elem_of_app in Hin as [Hin|Hin]; [right; auto|].
    left. by apply list_elem_of_singleton in Hin.
Qed.

Lemma SetNext_wf x y p s : wf s -> wf (SetNext x y p s).
Proof. apply same_shape_wf, same_shape_SetNext. Qed.

Lemma GetNext_lava_water s x y c i j :
  wf s -> Get s x y = Lava -> c ∈ neighbour_offsets ->
  Get s (x + fst c) (y + snd c) = Water ->
  let s1 := SetNext (x + fst c) (y + snd c) Steam (SetNext x y Obsidian s) in
  GetNext s1 i j
  = if decide (i = x + fst c /\ j = y + snd c) then Steam
    else if decide (i = x /\ j = y) then Obsidian
    else GetNext s i j.
Proof.
  intros Hwf Hlava Hc Hwater. cbv zeta.
  assert (in_range s x y) as Hin
    by (apply Get_not_Stone_in_range; by rewrite Hlava).
  assert (in_range s (x + fst c) (y + snd c)) as Hin'
    by (apply Get_not_Stone_in_range; by rewrite Hwater).
  pose proof (SetNext_wf x y Obsidian s Hwf) as Hwf1.
  pose proof (same_shape_SetNext x y Obsidian s) as Hsh.
  rewrite GetNext_SetNext by (by destruct Hwf1).
  rewrite GetNext_SetNext by (by destruct Hwf).
  destruct (decide (i = x + fst c /\ j = y + snd c)) as [[-> ->]|Hne].
  - rewrite decide_True; [done|]. split; [done|]. split; [done|].
    by apply (same_shape_in_range _ _ _ _ Hsh).
  - rewrite decide_False by tauto.
    destruct (decide (i = x /\ j = y)) as [[-> ->]|Hne'].
    + by rewrite decide_True.
    + rewrite decide_False; [done | tauto].
Qed.

Lemma lava_water_settles s x y c :
  wf s -> Get s x y = Lava -> first_neighbour s x y Water = Some c ->
  (x, y) ∈ scan_cells s ->
  GetNext (scan s) x y = Obsidian
  /\ GetNext (scan s) (x + fst c) (y + snd c) = Steam.
Proof.
  intros Hwf Hlava Hfirst Hscan.
  destruct (first_neighbour_Some _ _ _ _ _ Hfirst) as [Hc Hwater].
  destruct (neighbour_offsets_cases c Hc) as [Hbound Hnz].
  assert (forall s', wf s' -> (forall a b, Get s' a b = Get s a b) ->
    forall i j,
      GetNext (update_cell x y s') i j
      = if decide (i = x + fst c /\ j = y + snd c) then Steam
        else if decide (i = x /\ j = y) then Obsidian
        else GetNext s' i j) as Hvisit.
  { intros s' Hwf' HG i j.
    destruct (lava_water_reaction s' x y c) as [_ ->];
      [by rewrite HG | by rewrite (first_neighbour_ext s) |].
    apply GetNext_lava_water; rewrite ?HG; done. }
  split.
  - apply (scan_settles s (x, y)); [done..|].
    intros c' s' Hc' Hwf' HG Hor.
    destruct (decide (c' = (x, y))) as [->|Hne].
    + simpl. rewrite Hvisit by done.
      rewrite decide_False by lia. by rewrite decide_True.
    + destruct Hor as [?|Hv]; [done|].
      destruct (writes_GetNext _ _ _ Hwf' (update_cell_writes (fst c') (snd c') s')
                  x y) as [->|Hm]; [done|].
      unfold may_write in Hm. rewrite HG, Hlava in Hm.
      destruct Hm as [[-> ->]|Hm]; [by destruct c'|]. intuition congruence.
  - apply (scan_settles s (x, y)); [done..|].
    intros c' s' Hc' Hwf' HG Hor.
    destruct (decide (c' = (x, y))) as [->|Hne].
    { simpl. rewrite Hvisit by done. by rewrite decide_True. }
    destruct Hor as [?|Hv]; [done|].
    destruct (decide (c' = (x + fst c, y + snd c))) as [->|Hne'].
    { (* the Water cell itself: it boils next to the Lava *)
      simpl. rewrite water_near_lava_reaction.
      - rewrite GetNext_SetNext by (by destruct Hwf').
        rewrite decide_True; [done|]. split; [done|]. split; [done|].
        apply Get_not_Stone_in_range. by rewrite HG, Hwater.
      - by rewrite HG.
      - apply CheckNeighbor_true. exists (- fst c, - snd c). simpl. split.
        + apply neighbour_offsets_elem; lia.
        + rewrite HG. replace (x + fst c + - fst c) with x by lia.
          by replace (y + snd c + - snd c) with y by lia. }
    destruct (writes_GetNext _ _ _ Hwf' (update_cell_writes (fst c') (snd c') s')
                (x + fst c) (y + snd c)) as [->|Hm]; [done|].
    unfold may_write in Hm. rewrite HG, Hwater in Hm.
    destruct Hm as [[Hx Hy]|Hm].
    { exfalso. apply Hne'. destruct c'. simpl in *. by subst. }
    intuition congruence.
Qed.

(** C6.  A Lava cell with a Water cell among its 8 neighbours: the
    reaction rule turns the Lava cell into Obsidian and the first Water
    neighbour in the scan order of the offsets into Steam, in the next
    buffer; no other cell of the next buffer, no cell of the current
    buffer and no temperature is altered by this rule instance; the rule
    reports a reaction, so no movement rule runs for the cell.  After the
    tick, for a Lava cell in the scanned interior (every Lava cell, in a
    state with the Stone border), the cell is Obsidian and that Water
    neighbour is Steam in the current buffer. *)
Theorem lava_water (s : ParticleGrid) (x y : Z) :
  wf s -> Get s x y = Lava ->
  (exists c, c ∈ neighbour_offsets /\ Get s (x + fst c) (y + snd c) = Water) ->
  exists c,
    first_neighbour s x y Water = Some c
    /\ c ∈ neighbour_offsets
    /\ Get s (x + fst c) (y + snd c) = Water
    /\ fst (ProcessReactions x y s) = true
    /\ update_cell x y s = snd (ProcessReactions x y s)
    /\ (let s1 := snd (ProcessReactions x y s) in
        GetNext s1 x y = Obsidian
        /\ GetNext s1 (x + fst c) (y + snd c) = Steam
        /\ (forall i j, ~ (i = x /\ j = y) ->
              ~ (i = x + fst c /\ j = y + snd c) ->
              GetNext s1 i j = GetNext s i j)
        /\ (forall i j, Get s1 i j = Get s i j
                        /\ GetTemperature s1 i j = GetTemperature s i j))
    /\ ((x, y) ∈ scan_cells s ->
        Get (tick s) x y = Obsidian
        /\ Get (tick s) (x + fst c) (y + snd c) = Steam)
    /\ (border_stone s -> tick_due s = true ->
        Get (Update s) x y = Obsidian
        /\ Get (Update s) (x + fst c) (y + snd c) = Steam).
Proof.
  intros Hwf Hlava (c0 & Hc0 & Hw0).
  destruct (first_neighbour_exists s x y Water c0 Hc0 Hw0) as [c Hfirst].
  exists c. destruct (first_neighbour_Some _ _ _ _ _ Hfirst) as [Hc Hwater].
  destruct (neighbour_offsets_cases c Hc) as [Hbound Hnz].
  destruct (lava_water_reaction s x y c Hlava Hfirst) as [Hr Hu].
  rewrite Hr, Hu. simpl fst. simpl snd.
  split; [done|]. split; [done|]. split; [done|]. split; [done|].
  split; [done|]. split; [|split].
  - cbv zeta.
    pose proof (GetNext_lava_water s x y c) as HN. cbv zeta in HN.
    split; [|split; [|split]].
    + rewrite HN by done. rewrite decide_False by lia. by rewrite decide_True.
    + rewrite HN by done. by rewrite decide_True.
    + intros i j Hne Hne'. rewrite HN by done. by rewrite !decide_False.
    + intros i j. by rewrite !Get_SetNext, !GetTemperature_SetNext.
  - intros Hscan. destruct (tick_buffers s Hwf) as (_ & HG & _).
    rewrite !HG. by apply lava_water_settles.
  - intros Hb Hdue.
    assert ((x, y) ∈ scan_cells s) as Hscan.
    { assert (in_range s x y) as Hin
        by (apply Get_not_Stone_in_range; by rewrite Hlava).
      assert (~ protected s x y) as Hnp
        by (intros Hp; by rewrite (Hb x y Hin Hp) in Hlava).
      apply elem_of_scan_cells. unfold in_range, protected in *. lia. }
    rewrite Update_eq, Hdue. unfold tick_due in Hdue.
    destruct (isPaused (gameState s)); [done|].
    pose proof (count_frame_wf s Hwf) as Hwf'.
    destruct (tick_buffers (count_frame s) Hwf') as (_ & HG & _).
    rewrite !HG. by apply (lava_water_settles (count_frame s)).
Qed.

(** ** Acid *)

Lemma acid_run_spec draws pos n :
  let m := fst (acid_run draws pos n) in
  (forall i, (i + 1 < m)%nat -> Z.rem (draws (pos + i)%nat) 8 <> 0)
  /\ (snd (acid_run draws pos n) = true ->
        (1 <= m <= n)%nat /\ Z.rem (draws (pos + m - 1)%nat) 8 = 0)
  /\ (snd (acid_run draws pos n) = false ->
        m = n /\ forall i, (i < n)%nat -> Z.rem (draws (pos + i)%nat) 8 <> 0).
Proof.
  cbv zeta. revert pos. induction n as [|n IH]; intros pos; simpl.
  { split; [lia|]. split; [done|]. intros _. split; [done | lia]. }
  destruct (Z.eqb_spec (Z.rem (draws pos) 8) 0) as [Hz|Hnz]; simpl.
  - split; [lia|]. split; [|done]. intros _. split; [lia|].
    by replace (pos + 1 - 1)%nat with pos by lia.
  - destruct (IH (S pos)) as (IH1 & IH2 & IH3). split; [|split].
    + intros [|i] Hi; [by rewrite Nat.add_0_r|].
      replace (pos + S i)%nat with (S pos + i)%nat by lia. apply IH1. lia.
    + intros Hc. destruct (IH2 Hc) as [Hm Hd]. split; [lia|].
      by replace (pos + S (fst (acid_run draws (S pos) n)) - 1)%nat
        with (S pos + fst (acid_run draws (S pos) n) - 1)%nat by lia.
    + intros Hc. destruct (IH3 Hc) as [Hm Hd]. split; [lia|].
      intros [|i] Hi; [by rewrite Nat.add_0_r|].
      replace (pos + S i)%nat with (S pos + i)%nat by lia. apply Hd. lia.
Qed.

Lemma randSeq_SetNext x y p s : randSeq (SetNext x y p s) = randSeq s.
Proof. unfold SetNext. by destruct (out_of_range s x y). Qed.

Lemma randCalls_SetNext x y p s : randCalls (SetNext x y p s) = randCalls s.
Proof. unfold SetNext. by destruct (out_of_range s x y). Qed.

Lemma Acid_scan_spec offs x y s0 s :
  wf s -> same_shape s0 s -> (forall a b, Get s a b = Get s0 a b) ->
  in_range s0 x y ->
  let ts := filter (acid_target s0 x y) offs in
  let run := acid_run (randSeq s) (randCalls s) (length ts) in
  let s' := snd (Acid_scan offs x y s) in
  fst (Acid_scan offs x y s) = snd run
  /\ randSeq s' = randSeq s
  /\ randCalls s' = (randCalls s + fst run)%nat
  /\ (forall i j,
        GetNext s' i j
        = if decide ((i - x, j - y) ∈ take (fst run) ts
                     \/ (snd run = true /\ i = x /\ j = y))
          then Empty else GetNext s i j)
  /\ (forall i j, Get s' i j = Get s i j
                  /\ GetTemperature s' i j = GetTemperature s i j).
Proof.
  intros Hwf Hsh HG Hin. cbv zeta. revert s Hwf Hsh HG.
  induction offs as [|[dx dy] offs IH]; intros s Hwf Hsh HG.
  { simpl. split; [done|]. split; [done|]. split; [lia|]. done. }
  simpl Acid_scan. rewrite filter_cons.
  assert (acid_window s0 (x + dx) (y + dy)
          <-> (0 <? x + dx) && (x + dx <? width s - 1) && (0 <? y + dy)
              && (y + dy <? height s - 2) = true) as Hwin.
  { unfold acid_window. destruct Hsh as [-> -> _ _ _]. lia. }
  destruct ((0 <? x + dx) && (x + dx <? width s - 1) && (0 <? y + dy)
            && (y + dy <? height s - 2)) eqn:Hguard.
  2: { rewrite decide_False; [by apply IH|].
       intros [Hw _]. apply Hwin in Hw. done. }
  assert (acid_window s0 (x + dx) (y + dy)) as Hw by (by apply Hwin).
  destruct (bool_decide (Get s (x + dx) (y + dy) = Sand)
            || bool_decide (Get s (x + dx) (y + dy) = Ice)) eqn:Hmatch.
  2: { rewrite decide_False; [by apply IH|].
       intros [_ Hm]. simpl in Hm. rewrite <- !HG in Hm.
       apply orb_false_iff in Hmatch as [H1 H2].
       apply bool_decide_eq_false in H1, H2. tauto. }
  rewrite decide_True.
  2: { split; [done|]. simpl. rewrite <- !HG.
       apply orb_true_iff in Hmatch as [H1|H1];
         apply bool_decide_eq_true in H1; tauto. }
  simpl length. simpl acid_run. unfold rand. cbv beta iota zeta.
  change (next_draw (SetNext (x + dx) (y + dy) Empty s))
    with (randSeq (SetNext (x + dx) (y + dy) Empty s)
            (randCalls (SetNext (x + dx) (y + dy) Empty s))).
  rewrite randSeq_SetNext, randCalls_SetNext.
  set (s1 := SetNext (x + dx) (y + dy) Empty s).
  assert (in_range s (x + dx) (y + dy)) as Hin1.
  { apply (same_shape_in_range _ _ _ _ Hsh).
    unfold acid_window, in_range in *. lia. }
  assert (forall i j, GetNext s1 i j
            = if decide (i = x + dx /\ j = y + dy) then Empty else GetNext s i j)
    as HN1.
  { intros i j. unfold s1. rewrite GetNext_SetNext by (by destruct Hwf).
    destruct (decide (i = x + dx /\ j = y + dy)) as [[-> ->]|Hne].
    - by rewrite decide_True.
    - rewrite decide_False; [done | tauto]. }
  pose proof (SetNext_wf (x + dx) (y + dy) Empty s Hwf) as Hwf1. fold s1 in Hwf1.
  assert (forall i j, (i - x, j - y) = (dx, dy) <-> i = x + dx /\ j = y + dy)
    as Hoff.
  { intros i j. split; [intros Heq; inversion Heq; lia|].
    intros [-> ->]. f_equal; lia. }
  destruct (Z.rem (randSeq s (randCalls s)) 8 =? 0) eqn:Hdraw; simpl fst; simpl snd.
  - (* the draw consumes the acid: the scan stops *)
    split; [done|]. split; [|split; [|split]].
    + rewrite randSeq_SetNext. unfold s1.
      change (randSeq (advance ?a)) with (randSeq a).
      apply randSeq_SetNext.
    + rewrite randCalls_SetNext. unfold s1.
      change (randCalls (advance ?a)) with (S (randCalls a)).
      rewrite randCalls_SetNext. lia.
    + intros i j. rewrite GetNext_SetNext by (by destruct Hwf1).
      change (GetNext (advance s1) i j) with (GetNext s1 i j).
      change (in_range (advance s1) x y) with (in_range s1 x y).
      assert (in_range s1 x y) as Hin0.
      { apply (same_shape_in_range s s1); [apply same_shape_SetNext|].
        by apply (same_shape_in_range _ _ _ _ Hsh). }
      rewrite HN1. simpl take.
      destruct (decide (i = x /\ j = y)) as [[-> ->]|Hne].
      * rewrite decide_True by done. rewrite decide_True; [done | tauto].
      * rewrite decide_False by tauto.
        destruct (decide (i = x + dx /\ j = y + dy)) as [Heq|Hne'].
        -- rewrite decide_True; [done|]. left.
           apply list_elem_of_singleton. by apply Hoff.
        -- rewrite decide_False; [done|].
           intros [Hel|(_ & ? & ?)]; [|tauto].
           apply list_elem_of_singleton in Hel. by apply Hoff in Hel.
    + intros i j. unfold s1. split; [by rewrite Get_SetNext, Get_advance, Get_SetNext|].
      by rewrite GetTemperature_SetNext, GetTemperature_advance,
                 GetTemperature_SetNext.
  - (* the scan goes on with the next offset *)
    destruct (IH (advance s1)) as (IHb & IHseq & IHcalls & IHnext & IHget).
    { by destruct Hwf1. }
    { eapply same_shape_trans; [exact Hsh|].
      eapply same_shape_trans; [apply same_shape_SetNext|].
      apply same_shape_advance. }
    { intros a b. unfold s1. by rewrite Get_advance, Get_SetNext. }
    change (randSeq (advance s1)) with (randSeq s1) in *.
    change (randCalls (advance s1)) with (S (randCalls s1)) in *.
    assert (randSeq s1 = randSeq s /\ randCalls s1 = randCalls s) as [Hseq Hcalls]
      by (split; [apply randSeq_SetNext | apply randCalls_SetNext]).
    rewrite Hseq, Hcalls in *.
    split; [done|]. split; [done|]. split; [lia|]. split.
    + intros i j. rewrite IHnext.
      change (GetNext (advance s1) i j) with (GetNext s1 i j). rewrite HN1.
      simpl take.
      match goal with |- context [decide (?A \/ ?B)] =>
        destruct (decide (A \/ B)) as [HA|HA] end.
      * rewrite decide_True; [done|].
        destruct HA as [HA|HA]; [left; by apply list_elem_of_further | by right].
      * destruct (decide (i = x + dx /\ j = y + dy)) as [Heq|Hne].
        -- rewrite decide_True; [done|]. left. apply elem_of_cons. left.
           by apply Hoff.
        -- rewrite decide_False; [done|]. intros [Hel|Hc]; [|tauto].
           apply elem_of_cons in Hel as [Hel|Hel]; [by apply Hoff in Hel | tauto].
    + intros i j. destruct (IHget i j) as [-> ->].
      unfold s1. by rewrite Get_advance, Get_SetNext, GetTemperature_advance,
                            GetTemperature_SetNext.
Qed.

(** C7 (as amended).  The reaction rule of an Acid cell scans the 8
    neighbours in offset order.  The neighbours it dissolves (turns to
    Empty in the next buffer) are those that are Sand or Ice and lie in the
    window [0 < nx < width - 1], [0 < ny < height - 2]; after each
    dissolution it makes one draw, and the first draw that is 0 modulo 8
    turns the Acid cell to Empty and ends the rule at once with a reaction
    reported (movement skipped), the later targets being left alone.  With
    no such draw, all targets are dissolved and the rule reports no
    reaction.  Nothing else changes. *)
Theorem acid_dissolves (s : ParticleGrid) (x y : Z) :
  wf s -> Get s x y = Acid ->
  let ts := acid_targets s x y in
  let run := acid_run (randSeq s) (randCalls s) (length ts) in
  let s' := snd (ProcessReactions x y s) in
  fst (ProcessReactions x y s) = snd run
  /\ randCalls s' = (randCalls s + fst run)%nat
  /\ (forall i j,
        GetNext s' i j
        = if decide ((i - x, j - y) ∈ take (fst run) ts
                     \/ (snd run = true /\ i = x /\ j = y))
          then Empty else GetNext s i j)
  /\ (forall i j, Get s' i j = Get s i j
                  /\ GetTemperature s' i j = GetTemperature s i j)
  /\ (snd run = true -> update_cell x y s = s')
  /\ (snd run = true ->
        (1 <= fst run <= length ts)%nat
        /\ Z.rem (randSeq s (randCalls s + fst run - 1)%nat) 8 = 0)
  /\ (snd run = false -> fst run = length ts)
  /\ (forall i, (i + 1 < fst run)%nat ->
        Z.rem (randSeq s (randCalls s + i)%nat) 8 <> 0).
Proof.
  intros Hwf Hacid. cbv zeta.
  assert (in_range s x y) as Hin
    by (apply Get_not_Stone_in_range; by rewrite Hacid).
  assert (ProcessReactions x y s = Acid_scan neighbour_offsets x y s) as HPR
    by (unfold ProcessReactions; by rewrite Hacid).
  destruct (Acid_scan_spec neighbour_offsets x y s s Hwf (same_shape_refl s)
              ltac:(done) Hin) as (Hb & _ & Hcalls & Hnext & Hget).
  fold (acid_targets s x y) in Hb, Hcalls, Hnext.
  destruct (acid_run_spec (randSeq s) (randCalls s) (length (acid_targets s x y)))
    as (Hearly & Hyes & Hno).
  rewrite HPR.
  split; [done|]. split; [done|]. split; [done|]. split; [done|].
  split; [|split; [|split]].
  - intros Hc. unfold update_cell. cbv zeta. rewrite Hacid, HPR.
    rewrite bool_decide_eq_false_2 by done.
    destruct (Acid_scan neighbour_offsets x y s) as [b s']. simpl in *.
    by rewrite Hb, Hc.
  - exact Hyes.
  - intros Hc. by apply Hno.
  - exact Hearly.
Qed.

(** ** Counting cells *)

Lemma count_of_app p a b : count_of p (a ++ b) = (count_of p a + count_of p b)%nat.
Proof. unfold count_of. by rewrite filter_app, length_app. Qed.

Lemma count_of_cons p q a :
  count_of p (q :: a) = (indicator (q = p) + count_of p a)%nat.
Proof. unfold count_of, indicator. rewrite filter_cons. by case_decide. Qed.

Lemma count_of_store p a i v :
  0 <= i < Z.of_nat (length a) ->
  (count_of p (store a i v) + indicator (load a i = p)
   = count_of p a + indicator (v = p))%nat.
Proof.
  intros Hi. unfold store, load. destruct (Z.leb_spec 0 i); [|lia].
  assert (Z.to_nat i < length a)%nat as Hlt by lia.
  destruct (lookup_lt_is_Some_2 a (Z.to_nat i) Hlt) as [q Hq].
  rewrite (list_lookup_total_correct _ _ _ Hq).
  rewrite insert_take_drop by done.
  rewrite <- (take_drop_middle a (Z.to_nat i) q Hq) at 3.
  rewrite !count_of_app, !count_of_cons. lia.
Qed.

Lemma count_of_store_le p a i v :
  v <> p -> (count_of p (store a i v) <= count_of p a)%nat.
Proof.
  intros Hv. destruct (decide (0 <= i < Z.of_nat (length a))) as [Hi|Hi].
  - pose proof (count_of_store p a i v Hi) as Hc. unfold indicator in Hc.
    rewrite (decide_False (P := v = p)) in Hc by done.
    case_decide; lia.
  - unfold store. destruct (Z.leb_spec 0 i); [|done].
    rewrite list_insert_ge by lia. done.
Qed.

(** ** Liquids and Steam *)

Lemma flow_side_unit s x y d : flow_side s x y = Some d -> d = 1 \/ d = -1.
Proof.
  unfold flow_side. cbv zeta. destruct (Z.rem (next_draw s) 2 =? 0);
    repeat case_match; intros [=]; lia.
Qed.

Lemma SetNext_in x y p s :
  in_range s x y ->
  SetNext x y p s = with_nextGrid (store (nextGrid s) (y * width s + x) p) s.
Proof. intros H. unfold SetNext. by rewrite (proj2 (out_of_range_false s x y) H). Qed.

Lemma nextGrid_SetTemperature x y t s :
  nextGrid (SetTemperature x y t s) = nextGrid s.
Proof. unfold SetTemperature. by destruct (out_of_range s x y). Qed.

Lemma SetNext_SetTemperature_nextGrid x y p a b t s :
  nextGrid (SetNext x y p (SetTemperature a b t s)) = nextGrid (SetNext x y p s).
Proof.
  unfold SetNext, SetTemperature.
  destruct (out_of_range s a b); [done|].
  change (out_of_range (with_temperature _ s) x y) with (out_of_range s x y).
  by destruct (out_of_range s x y).
Qed.

(** The effect on the next buffer of moving [L] from [(x, y)] to
    [(tx, ty)] and leaving [q] behind. *)
Lemma move_effect s x y tx ty L q :
  wf s -> in_range s x y -> in_range s tx ty -> ~ (tx = x /\ ty = y) ->
  let s' := SetNext x y q (SetNext tx ty L s) in
  (forall i j,
     GetNext s' i j
     = if decide (i = x /\ j = y) then q
       else if decide (i = tx /\ j = ty) then L
       else GetNext s i j)
  /\ forall p,
       (count_of p (nextGrid s') + indicator (GetNext s x y = p)
        + indicator (GetNext s tx ty = p)
        = count_of p (nextGrid s) + indicator (q = p) + indicator (L = p))%nat.
Proof.
  intros Hwf Hin Hin' Hne. cbv zeta.
  pose proof (SetNext_wf tx ty L s Hwf) as Hwf1.
  pose proof (same_shape_SetNext tx ty L s) as Hsh.
  assert (in_range (SetNext tx ty L s) x y) as Hin1
    by (by apply (same_shape_in_range _ _ _ _ Hsh)).
  split.
  - intros i j. rewrite GetNext_SetNext by (by destruct Hwf1).
    rewrite GetNext_SetNext by (by destruct Hwf).
    destruct (decide (i = x /\ j = y)) as [[-> ->]|H1].
    + by rewrite decide_True.
    + rewrite decide_False by tauto.
      destruct (decide (i = tx /\ j = ty)) as [[-> ->]|H2].
      * by rewrite decide_True.
      * rewrite decide_False; [done | tauto].
  - intros p. rewrite (SetNext_in x y) by done. rewrite (SetNext_in tx ty) by done.
    simpl. destruct Hwf as [? ? _ Hn _], Hin as [Hx Hy], Hin' as [Hx' Hy'].
    pose proof (index_bound _ _ _ _ Hx Hy).
    pose proof (index_bound _ _ _ _ Hx' Hy').
    pose proof (count_of_store p (nextGrid s) (ty * width s + tx) L ltac:(lia))
      as H1.
    pose proof (count_of_store p (store (nextGrid s) (ty * width s + tx) L)
                  (y * width s + x) q ltac:(rewrite store_length; lia)) as H2.
    rewrite load_store_ne in H2.
    2: lia.
    2: { intros Heq. apply (index_inj (width s)) in Heq; [tauto | done..]. }
    unfold GetNext.
    rewrite (proj2 (out_of_range_false s x y)) by done.
    rewrite (proj2 (out_of_range_false s tx ty)) by done.
    lia.
Qed.

Lemma CanMoveSide_Steam s x y d :
  Get s (x + d) y = Steam -> in_range s (x + d) y.
Proof. intros H. apply Get_not_Stone_in_range. by rewrite H. Qed.

Lemma UpdateWater_side s x y d :
  CanMoveDown s x y = false -> flow_side s x y = Some d ->
  UpdateWater x y s = SetNext x y Empty (SetNext (x + d) y Water (advance s)).
Proof.
  intros Hdown. unfold UpdateWater, flow_side, rand_dir, rand. rewrite Hdown.
  cbv beta iota zeta.
  change (CanMoveSide (advance s)) with (CanMoveSide s).
  repeat case_match; intros [= <-]; try done.
  all: by replace (x - 1) with (x + -1) by lia.
Qed.

Lemma UpdateAcid_side s x y d :
  CanMoveDown s x y = false -> flow_side s x y = Some d ->
  UpdateAcid x y s = SetNext x y Empty (SetNext (x + d) y Acid (advance s)).
Proof.
  intros Hdown. unfold UpdateAcid, flow_side, rand_dir, rand. rewrite Hdown.
  cbv beta iota zeta.
  change (CanMoveSide (advance s)) with (CanMoveSide s).
  repeat case_match; intros [= <-]; try done.
  all: by replace (x - 1) with (x + -1) by lia.
Qed.

Lemma UpdateOil_side s x y d :
  Z.rem (next_draw s) 2 = 0 ->
  CanMoveDown s x y = false -> flow_side (advance s) x y = Some d ->
  UpdateOil x y s
  = SetNext x y Empty (SetNext (x + d) y Oil (advance (advance s))).
Proof.
  intros Hgate Hdown. unfold UpdateOil, flow_side, rand_dir, rand.
  cbv beta iota zeta. rewrite Hgate. simpl (0 =? 0).  cbv beta iota.
  change (CanMoveDown (advance s) x y) with (CanMoveDown s x y). rewrite Hdown.
  change (CanMoveSide (advance (advance s))) with (CanMoveSide (advance s)).
  repeat case_match; intros [= <-]; try done.
  all: by replace (x - 1) with (x + -1) by lia.
Qed.

Lemma UpdateLava_side s x y d :
  CanMoveDown s x y = false -> flow_side s x y = Some d ->
  UpdateLava x y s
  = SetTemperature x y 1000
      (SetNext x y Empty
         (SetTemperature (x + d) y 1000 (SetNext (x + d) y Lava (advance s)))).
Proof.
  intros Hdown. unfold UpdateLava, flow_side, rand_dir, rand. rewrite Hdown.
  cbv beta iota zeta.
  change (CanMoveSide (advance s)) with (CanMoveSide s).
  repeat case_match; intros [= <-]; try done.
  all: by replace (x - 1) with (x + -1) by lia.
Qed.

(** Shape goals over a chain of primitive writes. *)
Ltac shape_chain :=
  repeat first
    [ apply same_shape_refl
    | eapply same_shape_trans;
      [|first [ apply same_shape_SetNext | apply same_shape_SetTemperature
              | apply same_shape_advance ]] ].

Lemma overwrites_side_intro s s1 s' x y d L :
  wf s1 -> in_range s1 x y -> in_range s1 (x + d) y -> d <> 0 -> L <> Steam ->
  (forall i j, GetNext s1 i j = GetNext s i j) -> nextGrid s1 = nextGrid s ->
  same_shape s1 s' ->
  nextGrid s' = nextGrid (SetNext x y Empty (SetNext (x + d) y L s1)) ->
  overwrites_side s x y d L s'.
Proof.
  intros Hwf Hin Hin' Hd HL HN Hnext Hsh Hs'.
  destruct (move_effect s1 x y (x + d) y L Empty Hwf Hin Hin' ltac:(lia))
    as [Hget Hcount].
  assert (same_shape s1 (SetNext x y Empty (SetNext (x + d) y L s1))) as Hsh'
    by shape_chain.
  assert (forall i j, GetNext s' i j
            = GetNext (SetNext x y Empty (SetNext (x + d) y L s1)) i j) as Heq.
  { intros i j. apply GetNext_eq; [done | |].
    - destruct Hsh, Hsh'. congruence.
    - destruct Hsh, Hsh'. congruence. }
  unfold overwrites_side. rewrite !Heq, !Hget, Hs'. split; [|split; [|split]].
  - rewrite decide_False by lia. by rewrite decide_True.
  - by rewrite decide_True.
  - intros i j H1 H2. rewrite Heq, Hget, !decide_False by done. apply HN.
  - intros Hsteam. specialize (Hcount Steam). rewrite !HN, Hsteam in Hcount.
    rewrite <- Hnext. unfold indicator in Hcount.
    rewrite (decide_True (P := Steam = Steam)) in Hcount by done.
    rewrite (decide_False (P := Empty = Steam)) in Hcount by done.
    rewrite (decide_False (P := L = Steam)) in Hcount by done.
    case_decide; lia.
Qed.

(** C10 (as amended).  A liquid that cannot fall and flows to a side cell
    that is Steam in the snapshot writes itself over that cell of the next
    buffer and Empty over its own cell: nothing is written back for the
    Steam, whereas a fall onto Steam writes the Steam into the cell left.
    The number of Steam cells of the next buffer strictly decreases
    by this rule instance when the side cell of the next buffer still
    holds the Steam. *)
Theorem sideways_flow_overwrites_steam (s : ParticleGrid) (x y d : Z) :
  wf s -> in_range s x y ->
  (CanMoveDown s x y = false -> Get s (x + d) y = Steam ->
     (flow_side s x y = Some d ->
        overwrites_side s x y d Water (UpdateWater x y s)
        /\ overwrites_side s x y d Acid (UpdateAcid x y s)
        /\ overwrites_side s x y d Lava (UpdateLava x y s))
     /\ (Z.rem (next_draw s) 2 = 0 -> flow_side (advance s) x y = Some d ->
           overwrites_side s x y d Oil (UpdateOil x y s)))
  /\ (Get s x (y + 1) = Steam ->
        (Get s x y = Water ->
           GetNext (UpdateWater x y s) x (y + 1) = Water
           /\ GetNext (UpdateWater x y s) x y = Steam)
        /\ (Get s x y = Acid ->
           GetNext (UpdateAcid x y s) x (y + 1) = Acid
           /\ GetNext (UpdateAcid x y s) x y = Steam)
        /\ (Get s x y = Lava ->
           GetNext (UpdateLava x y s) x (y + 1) = Lava
           /\ GetNext (UpdateLava x y s) x y = Steam)
        /\ (Get s x y = Oil -> Z.rem (next_draw s) 2 = 0 ->
           GetNext (UpdateOil x y s) x (y + 1) = Oil
           /\ GetNext (UpdateOil x y s) x y = Steam)).
Proof.
  intros Hwf Hin. split.
  - intros Hdown Hsteam.
    pose proof (CanMoveSide_Steam s x y d Hsteam) as Hin'.
    assert (wf (advance s)) as Hwf1 by (destruct Hwf; by constructor).
    split.
    + intros Hflow. pose proof (flow_side_unit _ _ _ _ Hflow) as Hunit.
      split; [|split].
      * rewrite (UpdateWater_side s x y d) by done.
        apply (overwrites_side_intro s (advance s));
          [done | done | done | lia | done | done | done | shape_chain | done].
      * rewrite (UpdateAcid_side s x y d) by done.
        apply (overwrites_side_intro s (advance s));
          [done | done | done | lia | done | done | done | shape_chain | done].
      * rewrite (UpdateLava_side s x y d) by done.
        apply (overwrites_side_intro s (advance s));
          [done | done | done | lia | done | done | done | shape_chain |].
        by rewrite nextGrid_SetTemperature, SetNext_SetTemperature_nextGrid.
    + intros Hgate Hflow. pose proof (flow_side_unit _ _ _ _ Hflow) as Hunit.
      rewrite (UpdateOil_side s x y d) by done.
      apply (overwrites_side_intro s (advance (advance s)));
        [destruct Hwf; by constructor | done | done | lia | done | done | done
        | shape_chain | done].
  - intros Hbelow.
    assert (in_range s x (y + 1)) as Hin'
      by (apply Get_not_Stone_in_range; by rewrite Hbelow).
    assert (forall L s1 s', wf s1 -> in_range s1 x y -> in_range s1 x (y + 1) ->
      same_shape s1 s' ->
      nextGrid s' = nextGrid (SetNext x y Steam (SetNext x (y + 1) L s1)) ->
      GetNext s' x (y + 1) = L /\ GetNext s' x y = Steam) as Hswap.
    { intros L s1 s' Hwf1 Hi Hi' Hsh Hn.
      destruct (move_effect s1 x y x (y + 1) L Steam Hwf1 Hi Hi' ltac:(lia))
        as [Hget _].
      assert (same_shape s1 (SetNext x y Steam (SetNext x (y + 1) L s1))) as Hsh'
        by shape_chain.
      assert (forall i j, GetNext s' i j
                = GetNext (SetNext x y Steam (SetNext x (y + 1) L s1)) i j) as Heq.
      { intros i j. apply GetNext_eq; [done | |]; destruct Hsh, Hsh'; congruence. }
      rewrite !Heq, !Hget. split.
      - rewrite decide_False by lia. by rewrite decide_True.
      - by rewrite decide_True. }
    split; [|split; [|split]].
    + intros Hcur. unfold UpdateWater, CanMoveDown. cbv zeta.
      rewrite Hbelow, Hcur. simpl. rewrite Get_SetNext, Hbelow. simpl.
      apply (Hswap Water s); [done.. | shape_chain | done].
    + intros Hcur. unfold UpdateAcid, CanMoveDown. cbv zeta.
      rewrite Hbelow, Hcur. simpl. rewrite Get_SetNext, Hbelow. simpl.
      apply (Hswap Acid s); [done.. | shape_chain | done].
    + intros Hcur. unfold UpdateLava, CanMoveDown. cbv zeta.
      rewrite Hbelow, Hcur. simpl.
      rewrite Get_SetTemperature, Get_SetNext, Hbelow. simpl.
      apply (Hswap Lava s); [done.. | shape_chain |].
      by rewrite nextGrid_SetTemperature, SetNext_SetTemperature_nextGrid.
    + intros Hcur Hgate. unfold UpdateOil, CanMoveDown, rand. cbv zeta beta iota.
      rewrite Hgate. simpl (0 =? 0). cbv iota.
      rewrite !Get_advance, Hbelow, Hcur. simpl.
      rewrite Get_SetNext, Get_advance, Hbelow. simpl.
      apply (Hswap Oil (advance s));
        [destruct Hwf; by constructor | done.. | shape_chain | done].
Qed.

(** ** Sand *)

Lemma sand_only_cells s x y :
  border_stone s -> sand_only s ->
  Get s x y = Sand \/ Get s x y = Empty \/ Get s x y = Stone.
Proof.
  intros Hb Hs. destruct (decide (in_range s x y)) as [Hin|Hout].
  - destruct (decide (protected s x y)) as [Hp|Hnp].
    + right. right. by apply Hb.
    + destruct (Hs x y Hin Hnp); tauto.
  - right. right. by apply Get_out.
Qed.

Lemma ProcessReactions_Sand s x y :
  Get s x y = Sand -> ProcessReactions x y s = (false, s).
Proof. intros H. unfold ProcessReactions. by rewrite H. Qed.

Lemma remove_dups_length_le {A} `{EqDecision A} (l : list A) :
  (length (remove_dups l) <= length l)%nat.
Proof.
  induction l as [|a l IH]; [done|]. simpl. case_decide; simpl; lia.
Qed.

Lemma remove_dups_snoc_length {A} `{EqDecision A} (l : list A) (d : A) :
  length (remove_dups (l ++ [d]))
  = (length (remove_dups l) + if decide (d ∈ l) then 0 else 1)%nat.
Proof.
  induction l as [|a l IH].
  - simpl. repeat case_decide; try done; by apply elem_of_nil in H0.
  - cbn [app remove_dups]. unfold decide_rel.
    assert (a ∈ l ++ [d] <-> a ∈ l \/ a = d) as Hin
      by (rewrite elem_of_app, list_elem_of_singleton; done).
    assert (d ∈ a :: l <-> a = d \/ d ∈ l) as Hin'
      by (rewrite elem_of_cons; intuition congruence).
    destruct (list_elem_of_dec a (l ++ [d])) as [H1|H1];
      destruct (list_elem_of_dec a l) as [H2|H2];
      destruct (decide (d ∈ a :: l)) as [H3|H3];
      destruct (decide (d ∈ l)) as [H4|H4];
      rewrite ?length_cons, ?IH;
      try rewrite (decide_True (P := d ∈ l)) by done;
      try rewrite (decide_False (P := d ∈ l)) by done;
      try lia; exfalso; destruct (decide (a = d)) as [->|?]; tauto.
Qed.

Lemma merges_snoc l d :
  merges (l ++ [d]) = (merges l + if decide (d ∈ l) then 1 else 0)%nat.
Proof.
  unfold merges. rewrite length_app, remove_dups_snoc_length. simpl.
  pose proof (remove_dups_length_le l). case_decide; lia.
Qed.

Lemma NoDup_remove_dups_length {A} `{EqDecision A} (l : list A) :
  NoDup l <-> length (remove_dups l) = length l.
Proof.
  induction l as [|a l IH]; [split; [done | constructor]|].
  pose proof (remove_dups_length_le l) as Hle.
  rewrite NoDup_cons, IH. cbn [remove_dups]. unfold decide_rel.
  destruct (list_elem_of_dec a l) as [Ha|Ha]; rewrite !length_cons.
  - split; [tauto | lia].
  - split; [intros [_ ->]; done | intros [= ->]; done].
Qed.

Lemma merges_NoDup l : NoDup l <-> merges l = 0%nat.
Proof.
  rewrite NoDup_remove_dups_length. unfold merges.
  pose proof (remove_dups_length_le l). lia.
Qed.

Lemma sand_target_ext s1 s2 r x y :
  (forall i j, Get s1 i j = Get s2 i j) ->
  sand_target s1 r x y = sand_target s2 r x y.
Proof. intros H. unfold sand_target. by rewrite !H. Qed.

(** A grain stays, or goes to an Empty cell of the row below. *)
Lemma sand_target_cases s r x y :
  sand_target s r x y = (x, y)
  \/ (Get s (fst (sand_target s r x y)) (snd (sand_target s r x y)) = Empty
      /\ snd (sand_target s r x y) = y + 1).
Proof.
  unfold sand_target. cbv zeta.
  repeat case_bool_decide; simpl; auto.
Qed.

Lemma UpdateSand_target s x y :
  (forall tx, Get s tx (y + 1) <> Steam) ->
  let d := sand_target s (next_draw s) x y in
  let s1 := if bool_decide (Get s x (y + 1) = Empty) then s else advance s in
  UpdateSand x y s
  = if bool_decide (d = (x, y)) then s1
    else SetNext x y Empty (SetNext (fst d) (snd d) Sand s1).
Proof.
  intros Hns. cbv zeta.
  unfold UpdateSand, CanMoveDown, rand_dir, rand, sand_target.
  cbv beta iota zeta. norm_Get.
  destruct (bool_decide (Get s x (y + 1) = Empty)) eqn:Hdown.
  { rewrite bool_decide_eq_false_2 by apply Hns.
    rewrite bool_decide_eq_false_2 by (intros [=]; lia). done. }
  rewrite (bool_decide_eq_false_2 (Get s x (y + 1) = Steam)) by apply Hns.
  simpl.
  set (dir := if Z.rem (next_draw s) 2 =? 0 then -1 else 1).
  rewrite (bool_decide_eq_false_2 (Get s (x + dir) (y + 1) = Steam)) by apply Hns.
  rewrite (bool_decide_eq_false_2 (Get s (x - dir) (y + 1) = Steam)) by apply Hns.
  rewrite !orb_false_r.
  destruct (bool_decide (Get s (x + dir) (y + 1) = Empty)) eqn:H1.
  { rewrite bool_decide_eq_false_2 by (intros [=]; lia). done. }
  destruct (bool_decide (Get s (x - dir) (y + 1) = Empty)) eqn:H2.
  { rewrite bool_decide_eq_false_2 by (intros [=]; lia). done. }
  by rewrite bool_decide_eq_true_2.
Qed.

Lemma stone_border_id s :
  wf s -> border_stone s -> stone_border (width s) (height s) (grid s) = grid s.
Proof.
  intros Hwf Hb. destruct Hwf as [Hw Hh Hg Hn Ht].
  apply (array_ext (width s) (height s)); [done | | done |].
  - by rewrite stone_border_length.
  - intros x y Hx Hy. rewrite stone_border_load by done.
    case_decide as Hp; [|done].
    rewrite <- (Get_in s x y) by done. symmetry. by apply Hb.
Qed.

Lemma scan_sand_account s :
  wf s -> border_stone s -> sand_only s ->
  (forall i j, in_range s i j -> ~ protected s i j ->
     (GetNext (scan s) i j = Sand \/ GetNext (scan s) i j = Empty)
     /\ (GetNext (scan s) i j = Sand <-> (i, j) ∈ sand_destinations s))
  /\ (count_of Sand (nextGrid (scan s)) + merges (sand_destinations s)
      = sand_count s)%nat
  /\ randCalls (scan s)
     = fst (foldl (sand_step s) (randCalls s, []) (scan_cells s)).
Proof.
  intros Hwf Hb Hs.
  pose proof (NoDup_scan_cells s) as Hnd.
  pose (P := fun (done : list (Z * Z)) s' =>
       let acc := foldl (sand_step s) (randCalls s, []) done in
       wf s' /\ same_shape s s' /\ (forall a b, Get s' a b = Get s a b)
       /\ randSeq s' = randSeq s /\ randCalls s' = fst acc
       /\ (forall e, e ∈ snd acc ->
             (e ∈ done /\ Get s (fst e) (snd e) = Sand)
             \/ Get s (fst e) (snd e) = Empty)
       /\ (forall i j, in_range s i j -> ~ protected s i j ->
             (GetNext s' i j = Sand \/ GetNext s' i j = Empty)
             /\ (GetNext s' i j = Sand
                 <-> ((i, j) ∈ snd acc) \/ (((i, j) ∉ done) /\ Get s i j = Sand)))
       /\ (count_of Sand (nextGrid s') + merges (snd acc) = sand_count s)%nat).
  enough (Hinv : P (scan_cells s) (scan s)).
  { destruct Hinv as (_ & _ & _ & _ & Hcalls & _ & Hcells & Hcount).
    split; [|split; [exact Hcount | exact Hcalls]].
    intros i j Hin Hnp. destruct (Hcells i j Hin Hnp) as [Hse Hiff].
    split; [exact Hse|]. rewrite Hiff. unfold sand_destinations.
    split; [|by left]. intros [?|[Hout _]]; [done|]. exfalso. apply Hout.
    apply elem_of_scan_cells. unfold in_range, protected in *. lia. }
  unfold scan. apply (foldl_invariant P); unfold P; cbv zeta.
  { pose proof (snapshot_shape s Hwf) as Hsh.
    split; [by apply (same_shape_wf s)|]. split; [done|]. split; [done|].
    split; [done|]. split; [done|]. split; [|split].
    - intros e He. by apply elem_of_nil in He.
    - intros i j Hin Hnp. rewrite snapshot_GetNext by done.
      rewrite decide_False by done. split; [by apply Hs|].
      split; [intros ?; right; split; [apply not_elem_of_nil | done]|].
      intros [He|[_ ?]]; [by apply elem_of_nil in He | done].
    - simpl. unfold merges. simpl. unfold sand_count.
      rewrite stone_border_id by done. lia. }
  intros done [cx cy] rest s' Hsplit
    (Hwf' & Hsh & HG & Hseq & Hcalls & HD & Hcells & Hcount).
  rewrite foldl_app. cbn [foldl fst snd].
  set (acc := foldl (sand_step s) (randCalls s, []) done) in *.
  assert ((cx, cy) ∈ scan_cells s) as Hc.
  { rewrite Hsplit. apply elem_of_app. right. apply list_elem_of_here. }
  assert ((cx, cy) ∉ done) as Hfresh.
  { rewrite Hsplit in Hnd. apply NoDup_app in Hnd as (_ & Hnd & _).
    intros Hin. apply (Hnd _ Hin). apply list_elem_of_here. }
  assert (in_range s cx cy /\ ~ protected s cx cy) as [Hin Hnp].
  { apply elem_of_scan_cells in Hc. unfold in_range, protected. lia. }
  assert (forall i j, (i, j) ∈ done ++ [(cx, cy)]
            <-> (i, j) ∈ done \/ (i = cx /\ j = cy)) as Hdone.
  { intros i j. rewrite elem_of_app, list_elem_of_singleton.
    split; (intros [?|Heq]; [by left | right]); [by inversion Heq | ].
    by destruct Heq as [-> ->]. }
  unfold sand_step at 1 2 3 4. cbn [fst snd].
  destruct (Hs cx cy Hin Hnp) as [Hsand|Hempty].
  2: { (* an Empty cell is skipped *)
       unfold update_cell. cbv zeta. rewrite HG, Hempty.
       rewrite bool_decide_eq_true_2 by done.
       rewrite (bool_decide_eq_false_2 (Empty = Sand)) by done.
       split; [done|]. split; [done|]. split; [done|]. split; [done|].
       split; [done|]. split; [|split; [|done]].
       - intros e He. destruct (HD e He) as [[? ?]|?]; [left|by right].
         split; [|done]. destruct e. apply Hdone. by left.
       - intros i j Hi Hp. destruct (Hcells i j Hi Hp) as [Hse Hiff].
         split; [exact Hse|]. rewrite Hiff, Hdone.
         split; (intros [?|[Hnd' Hsd]]; [by left | right; split; [|done]]).
         + intros [?|[-> ->]]; [done | congruence].
         + tauto. }
  (* a grain of sand *)
  rewrite (bool_decide_eq_true_2 (Get s cx cy = Sand)) by done.
  cbn [fst snd].
  unfold update_cell. cbv zeta. rewrite HG, Hsand.
  rewrite bool_decide_eq_false_2 by done.
  rewrite ProcessReactions_Sand by (by rewrite HG).
  rewrite UpdateSand_target.
  2: { intros tx. rewrite HG.
       destruct (sand_only_cells s tx (cy + 1) Hb Hs) as [->|[->| ->]]; done. }
  cbv zeta. rewrite (sand_target_ext s' s) by done.
  unfold next_draw. rewrite Hseq, Hcalls, HG.
  set (d := sand_target s (randSeq s (fst acc)) cx cy).
  set (s1 := if bool_decide (Get s cx (cy + 1) = Empty) then s' else advance s').
  assert (wf s1 /\ same_shape s' s1 /\ nextGrid s1 = nextGrid s'
          /\ randSeq s1 = randSeq s'
          /\ randCalls s1 = (if bool_decide (Get s cx (cy + 1) = Empty)
                             then fst acc else S (fst acc))
          /\ (forall a b, Get s1 a b = Get s' a b)
          /\ forall i j, GetNext s1 i j = GetNext s' i j)
    as (Hwf1 & Hsh1 & Hn1 & Hseq1 & Hcalls1 & HG1 & HN1).
  { unfold s1. destruct (bool_decide (Get s cx (cy + 1) = Empty)).
    - by auto with shape.
    - split; [destruct Hwf'; by constructor|].
      split; [auto with shape|]. simpl. by rewrite Hcalls. }
  assert ((cx, cy) ∉ snd acc) as HcD.
  { intros He. destruct (HD _ He) as [[? _]|Hemp]; [done|].
    simpl in Hemp. congruence. }
  assert (forall i j, d = (i, j) <-> fst d = i /\ snd d = j) as Hpair.
  { intros i j. rewrite (surjective_pairing d) at 1.
    split; [by intros [= -> ->] | by intros [-> ->]]. }
  destruct (sand_target_cases s (randSeq s (fst acc)) cx cy) as [Hstay|[Hto Hrow]];
    fold d in Hstay || fold d in Hto, Hrow.
  - (* the grain stays *)
    rewrite Hstay. rewrite bool_decide_eq_true_2 by done.
    split; [done|]. split; [by apply (same_shape_trans _ s')|].
    split; [intros a b; by rewrite HG1|].
    split; [by rewrite Hseq1|]. split; [done|]. split; [|split].
    + intros e He. apply elem_of_app in He as [He|He].
      * destruct (HD e He) as [[? ?]|?]; [left|by right].
        split; [|done]. destruct e. apply Hdone. by left.
      * apply list_elem_of_singleton in He. subst e. left.
        split; [|done]. apply Hdone. by right.
    + intros i j Hi Hp. rewrite HN1.
      destruct (Hcells i j Hi Hp) as [Hse Hiff].
      split; [exact Hse|]. rewrite Hiff, elem_of_app, list_elem_of_singleton, Hdone.
      split.
      * intros [?|[Hnd' Hsd]]; [by left; left|].
        destruct (decide (i = cx /\ j = cy)) as [[-> ->]|Hne];
          [by left; right | right; tauto].
      * intros [[?|Heq]|[Hnd' Hsd]]; [by left | | right; tauto].
        inversion Heq; subst. by right.
    + rewrite Hn1, merges_snoc, decide_False by done. lia.
  - (* the grain moves to an Empty cell of the row below *)
    assert (d <> (cx, cy)) as Hne by (intros Heq; rewrite Heq in Hrow; simpl in Hrow; lia).
    rewrite bool_decide_eq_false_2 by done.
    assert (in_range s (fst d) (snd d)) as HinT
      by (apply Get_not_Stone_in_range; by rewrite Hto).
    assert (~ protected s (fst d) (snd d)) as HnpT.
    { intros Hp. by rewrite (Hb _ _ HinT Hp) in Hto. }
    assert (in_range s1 cx cy) as Hin1.
    { apply (same_shape_in_range _ _ _ _ Hsh1).
      by apply (same_shape_in_range _ _ _ _ Hsh). }
    assert (in_range s1 (fst d) (snd d)) as HinT1.
    { apply (same_shape_in_range _ _ _ _ Hsh1).
      by apply (same_shape_in_range _ _ _ _ Hsh). }
    destruct (move_effect s1 cx cy (fst d) (snd d) Sand Empty Hwf1 Hin1 HinT1)
      as [Hget Hcnt].
    { intros [H1 H2]. apply Hne. by apply Hpair. }
    pose proof (same_shape_SetNext cx cy Empty (SetNext (fst d) (snd d) Sand s1))
      as Hsh3.
    pose proof (same_shape_SetNext (fst d) (snd d) Sand s1) as Hsh2.
    split; [apply (same_shape_wf s1); [by eapply same_shape_trans | done]|].
    split; [eapply same_shape_trans; [exact Hsh|];
            eapply same_shape_trans; [exact Hsh1|];
            by eapply same_shape_trans|].
    split; [intros a b; by rewrite !Get_SetNext, HG1|].
    split; [by rewrite !randSeq_SetNext, Hseq1|].
    split; [by rewrite !randCalls_SetNext|].
    split; [|split].
    + intros e He. apply elem_of_app in He as [He|He].
      * destruct (HD e He) as [[? ?]|?]; [left|by right].
        split; [|done]. destruct e. apply Hdone. by left.
      * apply list_elem_of_singleton in He. subst e. by right.
    + intros i j Hi Hp. rewrite Hget.
      destruct (Hcells i j Hi Hp) as [Hse Hiff].
      rewrite elem_of_app, list_elem_of_singleton, Hdone.
      destruct (decide (i = cx /\ j = cy)) as [[-> ->]|Hne1].
      { split; [by right|]. split; [done|].
        intros [[?|?]|[Hnd' _]]; [done | done | tauto]. }
      destruct (decide (i = fst d /\ j = snd d)) as [[-> ->]|Hne2].
      { split; [by left|]. split; [|done]. intros _. left. right.
        symmetry. by apply Hpair. }
      rewrite HN1. split; [exact Hse|]. rewrite Hiff.
      split.
      * intros [?|[? ?]]; [by left; left | right; tauto].
      * intros [[?|Heq]|[? ?]]; [by left | | right; tauto].
        exfalso. apply Hne2. symmetry in Heq. by apply Hpair in Heq as [<- <-].
    + specialize (Hcnt Sand). rewrite !HN1, Hn1 in Hcnt.
      destruct (Hcells cx cy Hin Hnp) as [_ Horigin].
      assert (GetNext s' cx cy = Sand) as Ho by (apply Horigin; right; done).
      rewrite Ho in Hcnt.
      destruct (Hcells (fst d) (snd d) HinT HnpT) as [_ Htarget].
      unfold indicator in Hcnt.
      rewrite (decide_True (P := Sand = Sand)) in Hcnt by done.
      rewrite (decide_False (P := Empty = Sand)) in Hcnt by done.
      rewrite merges_snoc.
      destruct (decide (d ∈ snd acc)) as [HdD|HdD].
      * rewrite decide_True in Hcnt; [lia|]. apply Htarget. left.
        by rewrite <- surjective_pairing.
      * rewrite decide_False in Hcnt; [lia|]. rewrite Htarget.
        rewrite <- surjective_pairing. intros [?|[_ ?]]; [done | congruence].
Qed.

Lemma tick_grid s : wf s -> grid (tick s) = nextGrid (scan s).
Proof.
  intros Hwf. rewrite tick_unfold by done. simpl.
  apply writes_nothing_nextGrid, UpdateTemperature_writes.
Qed.

Lemma tick_sand_account s :
  wf s -> border_stone s -> sand_only s ->
  sand_only (tick s)
  /\ (forall i j, in_range s i j -> ~ protected s i j ->
        (Get (tick s) i j = Sand <-> (i, j) ∈ sand_destinations s))
  /\ (sand_count (tick s) + merges (sand_destinations s) = sand_count s)%nat.
Proof.
  intros Hwf Hb Hs.
  destruct (scan_sand_account s Hwf Hb Hs) as (Hcells & Hcount & _).
  destruct (tick_buffers s Hwf) as (Hsh & HG & _).
  split; [|split].
  - intros x y Hin Hnp. rewrite HG. apply Hcells.
    + by apply (same_shape_in_range _ _ _ _ Hsh).
    + intros Hp. apply Hnp. by apply (same_shape_protected _ _ _ _ Hsh).
  - intros i j Hin Hnp. rewrite HG. by apply Hcells.
  - unfold sand_count at 1. by rewrite tick_grid.
Qed.

Lemma Update_sand_account s :
  wf s -> border_stone s -> sand_only s ->
  wf (Update s) /\ border_stone (Update s) /\ sand_only (Update s)
  /\ (sand_count (Update s) <= sand_count s)%nat
  /\ (tick_due s = false -> sand_count (Update s) = sand_count s)
  /\ (tick_due s = true ->
      (forall i j, in_range s i j -> ~ protected s i j ->
         (Get (Update s) i j = Sand <-> (i, j) ∈ sand_destinations s))
      /\ (sand_count (Update s) + merges (sand_destinations s)
          = sand_count s)%nat).
Proof.
  intros Hwf Hb Hs. rewrite Update_eq.
  destruct (isPaused (gameState s)) eqn:Hp.
  { unfold tick_due. rewrite Hp. simpl.
    split; [done|]. split; [done|]. split; [done|]. split; [done|].
    split; [done | intros [=]]. }
  destruct (tick_due s) eqn:Hd.
  2: { split; [by apply count_frame_wf|]. split; [exact Hb|]. split; [exact Hs|].
       split; [done|]. split; [done | intros [=]]. }
  destruct (tick_border (count_frame s)) as (? & ? & _);
    [by apply count_frame_wf | exact Hb |].
  destruct (tick_sand_account (count_frame s)) as (? & Hcells & Hcount);
    [by apply count_frame_wf | exact Hb | exact Hs |].
  change (sand_destinations (count_frame s)) with (sand_destinations s) in *.
  change (sand_count (count_frame s)) with (sand_count s) in *.
  split; [assumption|]. split; [assumption|]. split; [assumption|].
  split; [lia|]. split; [intros [=]|]. intros _. exact (conj Hcells Hcount).
Qed.

(** C2 (as amended).  From a grid that holds only Sand and Empty inside
    the Stone border, for every sequence of draws and any number of
    [Update] calls, the grid still holds only Sand and Empty.  A call
    that does not perform its tick keeps the number of Sand cells.  A
    call that performs it sends each grain to one destination (its own
    cell, the cell below, or a diagonal cell below chosen by a draw); the
    Sand cells afterwards are exactly these destinations, and the number
    of Sand cells drops by the number of grains whose destination was
    already taken by a grain visited before them: it is unchanged exactly
    when no two grains share a destination, and it never increases. *)
Theorem sand_conserved_up_to_merges (s : ParticleGrid) (n : nat) :
  wf s -> border_stone s -> sand_only s ->
  let sn := Nat.iter n Update s in
  sand_only sn
  /\ (sand_count sn <= sand_count s)%nat
  /\ (sand_count (Update sn) <= sand_count sn)%nat
  /\ (tick_due sn = false -> sand_count (Update sn) = sand_count sn)
  /\ (tick_due sn = true ->
      (forall i j, in_range sn i j -> ~ protected sn i j ->
         (Get (Update sn) i j = Sand <-> (i, j) ∈ sand_destinations sn))
      /\ (sand_count (Update sn) + merges (sand_destinations sn)
          = sand_count sn)%nat
      /\ (NoDup (sand_destinations sn)
          <-> sand_count (Update sn) = sand_count sn)).
Proof.
  intros Hwf Hb Hs. cbv zeta.
  assert (wf (Nat.iter n Update s) /\ border_stone (Nat.iter n Update s)
          /\ sand_only (Nat.iter n Update s)
          /\ (sand_count (Nat.iter n Update s) <= sand_count s)%nat)
    as (Hwfn & Hbn & Hsn & Hcn).
  { induction n as [|n (IHwf & IHb & IHs & IHc)]; [done|]. simpl.
    destruct (Update_sand_account _ IHwf IHb IHs) as (? & ? & ? & ? & _).
    split; [done|]. split; [done|]. split; [done|]. lia. }
  destruct (Update_sand_account _ Hwfn Hbn Hsn)
    as (_ & _ & _ & Hle & Hgated & Hdue).
  split; [exact Hsn|]. split; [exact Hcn|]. split; [exact Hle|].
  split; [exact Hgated|].
  intros Hd. destruct (Hdue Hd) as [Hcells Hcount].
  split; [exact Hcells|]. split; [exact Hcount|]. rewrite merges_NoDup. lia.
Qed.

(** ** Persistence *)

Lemma string_app_assoc (a b c : string) :
  ((a ++ b) ++ c = a ++ (b ++ c))%string.
Proof. induction a as [|ch a IH]; [done|]. simpl. by rewrite IH. Qed.

Lemma string_app_nil_r (a : string) : (a ++ "")%string = a.
Proof. induction a as [|ch a IH]; [done|]. simpl. by rewrite IH. Qed.

Lemma no_newline_app a b :
  no_newline a -> no_newline b -> no_newline (a ++ b)%string.
Proof. induction a as [|ch a IH]; [done|]. simpl. intros [? ?] ?. auto. Qed.

Lemma getlines_line line rest :
  no_newline line ->
  getlines (line ++ String newline rest)%string = line :: getlines rest.
Proof.
  induction line as [|c line IH]; intros Hn.
  - reflexivity.
  - destruct Hn as [Hc Hn]. simpl.
    destruct (Ascii.eqb_spec c newline) as [?|_]; [done|].
    by rewrite IH.
Qed.

Lemma print_uint_no_newline d : no_newline (NilEmpty.string_of_uint d).
Proof. induction d; simpl; auto; split; auto; discriminate. Qed.

Lemma print_int_no_newline n : no_newline (print_int n).
Proof.
  unfold print_int, NilZero.string_of_int, NilZero.string_of_uint.
  destruct (Z.to_int n) as [d|d].
  - destruct d; try apply print_uint_no_newline. simpl. split; [discriminate|done].
  - split; [discriminate|].
    destruct d; try apply print_uint_no_newline. simpl. split; [discriminate|done].
Qed.

Lemma symbol_not_newline p : GetSymbolForParticle p <> newline.
Proof. by destruct p. Qed.

Lemma row_text_no_newline s y : no_newline (row_text s y).
Proof.
  unfold row_text. induction (seqZ 0 (width s)) as [|x l IH]; [done|].
  simpl. split; [apply symbol_not_newline | exact IH].
Qed.

Lemma row_loop_text s y l out :
  for_each l (fun x out =>
      (out ++ String (GetSymbolForParticle (Get s x y)) "")%string) out
  = (out ++ string_of_list_ascii
              (map (fun x => GetSymbolForParticle (Get s x y)) l))%string.
Proof.
  revert out. induction l as [|x l IH]; intros out.
  - simpl. by rewrite string_app_nil_r.
  - rewrite for_each_cons, IH. simpl. by rewrite string_app_assoc.
Qed.

Lemma SaveToFile_text s :
  SaveToFile s
  = (header1 ++ String newline
       (header2 s ++ String newline (rows_text s (seqZ 0 (height s)))))%string.
Proof.
  unfold SaveToFile. cbv zeta.
  assert (forall ys out,
    for_each ys (fun y out =>
      (for_each (seqZ 0 (width s)) (fun x out =>
         (out ++ String (GetSymbolForParticle (Get s x y)) "")%string) out
       ++ String newline "")%string) out
    = (out ++ rows_text s ys)%string) as Hrows.
  { induction ys as [|y ys IH]; intros out.
    - simpl. by rewrite string_app_nil_r.
    - rewrite for_each_cons, IH, row_loop_text. fold (row_text s y).
      simpl. by rewrite !string_app_assoc. }
  rewrite Hrows. unfold header1, header2.
  rewrite !string_app_assoc. reflexivity.
Qed.

Lemma getlines_rows s ys :
  getlines (rows_text s ys) = map (row_text s) ys.
Proof.
  induction ys as [|y ys IH]; [done|]. simpl.
  rewrite getlines_line by apply row_text_no_newline. by rewrite IH.
Qed.

Lemma getlines_SaveToFile s :
  getlines (SaveToFile s)
  = header1 :: header2 s :: map (row_text s) (seqZ 0 (height s)).
Proof.
  rewrite SaveToFile_text.
  rewrite getlines_line by (unfold header1; simpl; repeat split; discriminate).
  rewrite getlines_line.
  - by rewrite getlines_rows.
  - unfold header2.
    apply no_newline_app; [simpl; repeat split; discriminate|].
    apply no_newline_app; [apply print_int_no_newline|].
    apply no_newline_app; [simpl; repeat split; discriminate|].
    apply print_int_no_newline.
Qed.

Lemma load_lines_skipped lines y s :
  Forall (fun line => skipped_line line = true) lines ->
  load_lines lines y s = s.
Proof.
  induction 1 as [|line lines Hline _ IH]; [done|]. simpl.
  destruct (negb (y <? height s)); [done|].
  unfold skipped_line in Hline. by rewrite Hline.
Qed.

(** When column 0 is Stone, every line of the saved file begins with the
    comment character. *)
Lemma saved_lines_skipped s :
  1 <= width s -> (forall y, 0 <= y < height s -> Get s 0 y = Stone) ->
  Forall (fun line => skipped_line line = true) (getlines (SaveToFile s)).
Proof.
  intros Hw Hcol. rewrite getlines_SaveToFile.
  constructor; [done|]. constructor; [done|].
  apply Forall_forall. intros line Hin.
  apply list_elem_of_fmap in Hin as (y & -> & Hy). apply elem_of_seqZ in Hy.
  unfold row_text. rewrite seqZ_cons by lia. simpl.
  rewrite Hcol by lia. done.
Qed.

(** C1 (the code does not do this).  In any state with the Stone border,
    column 0 is Stone, whose symbol is the comment character of the file
    format: every row that [SaveToFile] writes is skipped by
    [LoadFromFile] as a comment, and loading the saved file into any grid
    only clears it.  The cell types inside the border are therefore not
    reproduced; the border itself is Stone after the load. *)
Theorem save_load_only_clears (s t : ParticleGrid) :
  wf s -> border_stone s -> wf t ->
  LoadFromFile (Some (SaveToFile s)) t = Clear t
  /\ (forall x y, in_range t x y ->
        Get (LoadFromFile (Some (SaveToFile s)) t) x y
        = if decide (protected t x y) then Stone else Empty)
  /\ border_stone (LoadFromFile (Some (SaveToFile s)) t).
Proof.
  intros Hwf Hb Hwft.
  assert (LoadFromFile (Some (SaveToFile s)) t = Clear t) as Heq.
  { simpl. apply load_lines_skipped, saved_lines_skipped; [by destruct Hwf|].
    intros y Hy. apply Hb.
    - destruct Hwf. unfold in_range. lia.
    - unfold protected. auto. }
  rewrite Heq. split; [done|]. split.
  - intros x y Hin. by apply Clear_Get.
  - by apply Clear_border.
Qed.

(** * Further properties *)

(** ** The symbol table *)

Lemma ParticleFromSymbol_cases (c : ascii) :
  GetSymbolForParticle (ParticleFromSymbol c) = c
  \/ (ParticleFromSymbol c = Empty /\ forall p, GetSymbolForParticle p <> c).
Proof.
  destruct c as [[] [] [] [] [] [] [] []];
    first [ by left
          | right; split; [reflexivity | intros p; by destruct p] ].
Qed.

(** X1.  Decoding the symbol of a particle gives the particle back, two
    particles never share a symbol, and a character that is the symbol of
    no particle decodes to Empty. *)
Theorem symbol_round_trip :
  (forall p, ParticleFromSymbol (GetSymbolForParticle p) = p)
  /\ (forall p q, GetSymbolForParticle p = GetSymbolForParticle q -> p = q)
  /\ (forall c, (forall p, GetSymbolForParticle p <> c) ->
        ParticleFromSymbol c = Empty)
  /\ (forall c, ParticleFromSymbol c <> Empty ->
        GetSymbolForParticle (ParticleFromSymbol c) = c).
Proof.
  assert (forall p, ParticleFromSymbol (GetSymbolForParticle p) = p) as Hrt
    by (intros p; by destruct p).
  split; [exact Hrt|]. split; [|split].
  - intros p q Heq. rewrite <- (Hrt p), <- (Hrt q). by rewrite Heq.
  - intros c Hc. destruct (ParticleFromSymbol_cases c) as [Hs|[He _]]; [|done].
    by apply Hc in Hs.
  - intros c Hc. destruct (ParticleFromSymbol_cases c) as [Hs|[He _]]; done.
Qed.

(** X2.  Every particle has a row in the table: its symbol, its name and its
    colour are those of the row, never the fallbacks, and two particles
    never share a name or a colour. *)
Theorem particle_table_total :
  (forall p, exists i cm,
     colors !! i = Some cm /\ cm_type cm = p
     /\ GetSymbolForParticle p = cm_symbol cm
     /\ GetParticleName p = cm_name cm
     /\ color_column !! i = Some (GetColorForParticle p))
  /\ (forall p, GetParticleName p <> "Unknown"%string)
  /\ (forall p q, GetParticleName p = GetParticleName q -> p = q)
  /\ (forall p q, GetColorForParticle p = GetColorForParticle q -> p = q).
Proof.
  split; [|split; [|split]].
  - intros p.
    exists (match p with
            | Empty => 0 | Sand => 1 | Water => 2 | Lava => 3 | Stone => 4
            | Steam => 5 | Ice => 6 | Acid => 7 | Oil => 8 | Fire => 9
            | Smoke => 10 | Obsidian => 11
            end)%nat.
    exists (mkColorMap p (GetSymbolForParticle p) (GetParticleName p)).
    by destruct p.
  - intros p. by destruct p.
  - intros p q. destruct p, q; (done || discriminate).
  - intros p q. destruct p, q; (done || discriminate).
Qed.

(** ** Writing and reading one cell *)

Lemma store_store {A} (a : list A) i v v' :
  store (store a i v) i v' = store a i v'.
Proof. unfold store. destruct (0 <=? i); [apply list_insert_insert_eq | done]. Qed.

(** X3.  [Set] followed by [Get]: the written cell reads back the new value
    when it lies inside the grid and off the protected border, every other
    cell reads as before; [Set] touches neither the temperature field nor
    the next buffer, and a second [Set] of the same cell replaces the
    first. *)
Theorem Set_then_Get (s : ParticleGrid) (x y : Z) (p : Particle) :
  wf s ->
  (forall i j,
     Get (Set_ x y p s) i j
     = if decide (i = x /\ j = y /\ in_range s x y /\ ~ protected s x y)
       then p else Get s i j)
  /\ (forall i j, GetTemperature (Set_ x y p s) i j = GetTemperature s i j)
  /\ (forall i j, GetNext (Set_ x y p s) i j = GetNext s i j)
  /\ (forall q, Set_ x y q (Set_ x y p s) = Set_ x y q s).
Proof.
  intros Hwf. split; [|split; [|split]].
  - intros i j. apply Get_Set_. by destruct Hwf.
  - intros i j. apply GetTemperature_Set_.
  - intros i j. apply GetNext_Set_.
  - intros q. unfold Set_.
    destruct (out_of_range s x y) eqn:Hr; [by rewrite Hr|].
    destruct (on_border s x y) eqn:Hb; [by rewrite Hr, Hb|].
    change (out_of_range (with_grid _ s) x y) with (out_of_range s x y).
    change (on_border (with_grid _ s) x y) with (on_border s x y).
    rewrite Hr, Hb. unfold with_grid. simpl. by rewrite store_store.
Qed.

(** X4.  [SetTemperature] followed by [GetTemperature]: the written cell reads
    back the new value whenever it lies inside the grid, protected border
    included; every other cell reads as before, and no cell type
    changes. *)
Theorem SetTemperature_then_GetTemperature (s : ParticleGrid) (x y t : Z) :
  wf s ->
  (forall i j,
     GetTemperature (SetTemperature x y t s) i j
     = if decide (i = x /\ j = y /\ in_range s x y) then t
       else GetTemperature s i j)
  /\ (forall i j, Get (SetTemperature x y t s) i j = Get s i j)
  /\ (forall i j, GetNext (SetTemperature x y t s) i j = GetNext s i j)
  /\ (forall t', SetTemperature x y t' (SetTemperature x y t s)
                 = SetTemperature x y t' s).
Proof.
  intros Hwf. split; [|split; [|split]].
  - intros i j. apply GetTemperature_SetTemperature. by destruct Hwf.
  - intros i j. apply Get_SetTemperature.
  - intros i j. apply GetNext_SetTemperature.
  - intros t'. unfold SetTemperature.
    destruct (out_of_range s x y) eqn:Hr; [by rewrite Hr|].
    change (out_of_range (with_temperature _ s) x y) with (out_of_range s x y).
    rewrite Hr. unfold with_temperature. simpl. by rewrite store_store.
Qed.

(** ** [Clear] and the constructor *)

(** Two arrays of [w * h] cells that agree at every coordinate are equal. *)
Lemma stone_border_idem w h a :
  1 <= w -> 2 <= h -> Z.of_nat (length a) = w * h ->
  stone_border w h (stone_border w h a) = stone_border w h a.
Proof.
  intros Hw Hh Hlen. apply (array_ext w h); [done | | |].
  - by rewrite !stone_border_length.
  - by rewrite stone_border_length.
  - intros x y Hx Hy.
    rewrite stone_border_load by (rewrite ?stone_border_length; done).
    case_decide as Hp; [|done].
    rewrite stone_border_load by done. by rewrite decide_True.
Qed.

Lemma CreateGround_Clear s : wf s -> CreateGround (Clear s) = Clear s.
Proof.
  intros Hwf. rewrite CreateGround_eq, Clear_eq by done.
  unfold with_grid. simpl. destruct Hwf as [Hw Hh Hg _ _].
  by rewrite stone_border_idem by (rewrite ?length_replicate; done).
Qed.

(** X5.  [Clear] resets the whole state: inside the grid the protected cells
    are Stone and every other cell is Empty, the next buffer is Empty,
    every temperature is 20; the dimensions, the clock and the position in
    the stream of draws are kept.  Clearing twice is clearing once, and
    stamping the border again after [Clear] changes nothing. *)
Theorem Clear_resets (s : ParticleGrid) :
  wf s ->
  let s' := Clear s in
  wf s'
  /\ (width s' = width s /\ height s' = height s
      /\ gameState s' = gameState s /\ randCalls s' = randCalls s)
  /\ (forall x y, in_range s x y ->
        Get s' x y = (if decide (protected s x y) then Stone else Empty)
        /\ GetNext s' x y = Empty
        /\ GetTemperature s' x y = 20)
  /\ Clear s' = s'
  /\ CreateGround s' = s'.
Proof.
  intros Hwf. cbv zeta. pose proof (Clear_wf s Hwf) as Hwf'.
  split; [done|]. split; [by rewrite Clear_eq|]. split; [|split].
  - intros x y Hin.
    by rewrite Clear_Get, Clear_GetNext, Clear_GetTemperature.
  - rewrite (Clear_eq (Clear s)) by done. rewrite (Clear_eq s) by done. simpl.
    rewrite stone_border_length, !length_replicate. reflexivity.
  - by apply CreateGround_Clear.
Qed.


(** ** The effects of one rule *)

Lemma effects_mono (A A' : Z -> Z -> Particle -> Prop)
    (B B' : Z -> Z -> Z -> Prop) s s' :
  (forall x y p, A x y p -> A' x y p) -> (forall x y t, B x y t -> B' x y t) ->
  effects A B s s' -> effects A' B' s s'.
Proof. intros HA HB H. induction H; econstructor; eauto. Qed.

Lemma effects_trans A B s1 s2 s3 :
  effects A B s1 s2 -> effects A B s2 s3 -> effects A B s1 s3.
Proof. intros H12 H23. induction H23; [done | by constructor..]. Qed.

Lemma effects_writes A B s s' : effects A B s s' -> writes A s s'.
Proof. induction 1; by constructor. Qed.

Lemma effects_Get A B s s' :
  effects A B s s' -> forall i j, Get s' i j = Get s i j.
Proof. intros H. by apply (writes_Get A), (effects_writes A B). Qed.

Lemma effects_shape A B s s' : effects A B s s' -> same_shape s s'.
Proof. intros H. by apply (writes_shape A), (effects_writes A B). Qed.

(** Every temperature is either as before or holds a value written under
    [B]. *)
Lemma effects_GetTemperature A B s s' :
  wf s -> effects A B s s' ->
  forall i j, GetTemperature s' i j = GetTemperature s i j
              \/ B i j (GetTemperature s' i j).
Proof.
  intros Hwf H. induction H as [|x y p s' H IH HA|x y t s' H IH HB|s' H IH];
    intros i j.
  - by left.
  - rewrite GetTemperature_SetNext. apply IH.
  - pose proof (same_shape_wf _ _ (effects_shape _ _ _ _ H) Hwf) as [_ _ _ _ Ht].
    rewrite GetTemperature_SetTemperature by done. case_decide as Hc; [|apply IH].
    destruct Hc as (-> & -> & _). by right.
  - apply IH.
Qed.

Lemma rule_write_ext s1 s2 x0 y0 x y p :
  (forall i j, Get s1 i j = Get s2 i j) ->
  rule_write s1 x0 y0 x y p -> rule_write s2 x0 y0 x y p.
Proof. intros H. unfold rule_write. by rewrite !H. Qed.

Lemma rule_heat_ext s1 s2 x0 y0 x y t :
  (forall i j, Get s1 i j = Get s2 i j) ->
  rule_heat s1 x0 y0 x y t -> rule_heat s2 x0 y0 x y t.
Proof. intros H. unfold rule_heat. by rewrite !H. Qed.

Lemma rule_write_may_write s x0 y0 x y p :
  rule_write s x0 y0 x y p -> may_write s x0 y0 x y p.
Proof. unfold rule_write, may_write. tauto. Qed.

Ltac effects_steps :=
  repeat first
    [ apply effects_refl
    | apply effects_rand
    | apply effects_temp
    | apply effects_next ].

Ltac movement_effects :=
  cbv beta iota zeta; norm_Get;
  repeat (case_condition; cbv beta iota zeta; norm_Get); bool_hyps; try done;
  effects_steps; unfold rule_write, rule_heat; norm_Get;
  first [done | tauto | intuition congruence].

Lemma UpdateWater_effects x y s :
  effects (rule_write s x y) (rule_heat s x y) s (UpdateWater x y s).
Proof. unfold UpdateWater, CanMoveDown, CanMoveSide, rand_dir, rand. movement_effects. Qed.

Lemma UpdateSand_effects x y s :
  effects (rule_write s x y) (rule_heat s x y) s (UpdateSand x y s).
Proof. unfold UpdateSand, CanMoveDown, rand_dir, rand. movement_effects. Qed.

Lemma UpdateLava_effects x y s :
  Get s x y = Lava ->
  effects (rule_write s x y) (rule_heat s x y) s (UpdateLava x y s).
Proof.
  intros Hp. unfold UpdateLava, CanMoveDown, CanMoveSide, rand_dir, rand.
  movement_effects.
Qed.

Lemma UpdateSteam_effects x y s :
  effects (rule_write s x y) (rule_heat s x y) s (UpdateSteam x y s).
Proof. unfold UpdateSteam, rand_dir, rand. movement_effects. Qed.

Lemma UpdateAcid_effects x y s :
  effects (rule_write s x y) (rule_heat s x y) s (UpdateAcid x y s).
Proof. unfold UpdateAcid, CanMoveDown, CanMoveSide, rand_dir, rand. movement_effects. Qed.

Lemma UpdateOil_effects x y s :
  effects (rule_write s x y) (rule_heat s x y) s (UpdateOil x y s).
Proof. unfold UpdateOil, CanMoveDown, CanMoveSide, rand_dir, rand. movement_effects. Qed.

Lemma UpdateFire_effects x y s :
  Get s x y = Fire ->
  effects (rule_write s x y) (rule_heat s x y) s (UpdateFire x y s).
Proof. intros Hp. unfold UpdateFire, rand_dir, rand. movement_effects. Qed.

Lemma UpdateSmoke_effects x y s :
  effects (rule_write s x y) (rule_heat s x y) s (UpdateSmoke x y s).
Proof. unfold UpdateSmoke, rand_dir, rand. movement_effects. Qed.

Lemma adjacent_offset x y c :
  c ∈ neighbour_offsets -> adjacent x y (x + fst c) (y + snd c).
Proof.
  intros Hc. apply neighbour_offsets_cases in Hc. unfold adjacent. lia.
Qed.

Lemma ReplaceNeighbor_effects A B x y target replacement s s' :
  (forall c, c ∈ neighbour_offsets ->
     Get s' (x + fst c) (y + snd c) = target ->
     A (x + fst c) (y + snd c) replacement) ->
  effects A B s s' ->
  effects A B s (ReplaceNeighbor x y target replacement s').
Proof.
  intros HA Hw. unfold ReplaceNeighbor. revert HA.
  generalize neighbour_offsets as offs.
  induction offs as [|[dx dy] offs IH]; intros HA; simpl; [done|].
  case_bool_decide as Hc.
  - constructor; [done|]. apply (HA (dx, dy)); [apply list_elem_of_here | done].
  - apply IH. intros c Hin. apply HA. by apply list_elem_of_further.
Qed.

Lemma Acid_scan_effects offs x y s0 s :
  Get s0 x y = Acid ->
  (forall c, c ∈ offs -> c ∈ neighbour_offsets) ->
  (forall i j, Get s i j = Get s0 i j) ->
  effects (rule_write s0 x y) (rule_heat s0 x y) s0 s ->
  effects (rule_write s0 x y) (rule_heat s0 x y) s0 (snd (Acid_scan offs x y s)).
Proof.
  intros Hacid. revert s.
  induction offs as [|[dx dy] offs IH]; intros s Hoffs HG Hw; simpl; [done|].
  assert (forall c, c ∈ offs -> c ∈ neighbour_offsets) as Hoffs'
    by (intros c Hc; apply Hoffs; by apply list_elem_of_further).
  destruct ((0 <? x + dx) && (x + dx <? width s - 1) && (0 <? y + dy)
            && (y + dy <? height s - 2)); [|by apply IH].
  destruct (bool_decide (Get s (x + dx) (y + dy) = Sand)
            || bool_decide (Get s (x + dx) (y + dy) = Ice)) eqn:Hm;
    [|by apply IH].
  assert (rule_write s0 x y (x + dx) (y + dy) Empty) as Hrule.
  { unfold rule_write. right. right. right. split.
    - apply (adjacent_offset x y (dx, dy)). apply Hoffs, list_elem_of_here.
    - right. right. rewrite <- (HG (x + dx) (y + dy)). bool_hyps; tauto. }
  destruct (Z.rem _ 8 =? 0); simpl.
  - effects_steps; first [done | unfold rule_write; tauto].
  - apply IH; [done | intros; norm_Get; apply HG | by effects_steps].
Qed.

Lemma ProcessReactions_effects x y s :
  effects (rule_write s x y) (rule_heat s x y) s (snd (ProcessReactions x y s)).
Proof.
  unfold ProcessReactions, rand.
  destruct (Get s x y) eqn:Hcur; cbv beta iota zeta;
    try apply effects_refl;
    try (apply Acid_scan_effects; [done.. | apply effects_refl]);
    repeat (case_condition; cbv beta iota zeta); cbn [snd];
    repeat first
      [ apply effects_refl
      | apply effects_rand
      | apply effects_next
      | apply ReplaceNeighbor_effects;
        [intros c Hc Hij; norm_Get; unfold rule_write;
         pose proof (adjacent_offset x y c Hc); tauto|] ];
    unfold rule_write; tauto.
Qed.

Lemma update_cell_effects x y s :
  effects (rule_write s x y) (rule_heat s x y) s (update_cell x y s).
Proof.
  unfold update_cell. cbv zeta. case_bool_decide; [apply effects_refl|].
  pose proof (ProcessReactions_effects x y s) as Hr.
  destruct (ProcessReactions x y s) as [reacted s1]. simpl in Hr.
  destruct reacted; [done|].
  pose proof (effects_Get _ _ _ _ Hr) as HG.
  assert (forall s2, effects (rule_write s1 x y) (rule_heat s1 x y) s1 s2 ->
                     effects (rule_write s x y) (rule_heat s x y) s s2) as Hlift.
  { intros s2 H2. eapply effects_trans; [exact Hr|].
    eapply effects_mono; [| |exact H2].
    - intros i j p. by apply rule_write_ext.
    - intros i j t. by apply rule_heat_ext. }
  destruct (Get s x y) eqn:Hp; try done; apply Hlift.
  - apply UpdateSand_effects.
  - apply UpdateWater_effects.
  - apply UpdateLava_effects. by rewrite HG.
  - apply UpdateSteam_effects.
  - apply UpdateAcid_effects.
  - apply UpdateOil_effects.
  - apply UpdateFire_effects. by rewrite HG.
  - apply UpdateSmoke_effects.
Qed.

(** ** Invariants of the scan *)

(** Invariant rule for the scan of a tick: at every visit the state is
    well formed and its current buffer is the one of the snapshot. *)
Lemma scan_invariant s (P : list (Z * Z) -> ParticleGrid -> Prop) :
  wf s -> P [] (snapshot s) ->
  (forall done c rest s', scan_cells s = done ++ c :: rest ->
     wf s' -> (forall a b, Get s' a b = Get s a b) ->
     P done s' -> P (done ++ [c]) (update_cell (fst c) (snd c) s')) ->
  P (scan_cells s) (scan s).
Proof.
  intros Hwf H0 Hstep. unfold scan.
  enough (Hinv :
    (fun done s' => wf s' /\ (forall a b, Get s' a b = Get s a b) /\ P done s')
      (scan_cells s)
      (foldl (fun acc c => update_cell (fst c) (snd c) acc) (snapshot s)
             (scan_cells s))).
  { by apply Hinv. }
  apply foldl_invariant.
  { split; [apply (same_shape_wf s); [by apply snapshot_shape | done]|]. done. }
  intros done c rest s' Hsplit (Hwf' & HG & HP).
  pose proof (update_cell_writes (fst c) (snd c) s') as Hw.
  split; [apply (same_shape_wf s'); [apply (writes_shape _ _ _ Hw) | done]|].
  split; [intros a b; by rewrite (writes_Get _ _ _ Hw)|].
  by apply (Hstep done c rest).
Qed.

(** A cell of the next buffer that no visit changes holds at the end of
    the scan what the snapshot holds. *)
Lemma scan_keeps s i j :
  wf s ->
  (forall c s', c ∈ scan_cells s -> wf s' ->
     (forall a b, Get s' a b = Get s a b) ->
     GetNext (update_cell (fst c) (snd c) s') i j = GetNext s' i j) ->
  GetNext (scan s) i j = GetNext (snapshot s) i j.
Proof.
  intros Hwf Hstep.
  apply (scan_invariant s (fun _ s' => GetNext s' i j = GetNext (snapshot s) i j));
    [done..|].
  intros done c rest s' Hsplit Hwf' HG HP. rewrite <- HP. apply Hstep; [|done..].
  rewrite Hsplit. apply elem_of_app. right. apply list_elem_of_here.
Qed.

(** The next buffer of the snapshot is the current buffer, when the
    border is Stone. *)
Lemma snapshot_GetNext_border s i j :
  wf s -> border_stone s -> GetNext (snapshot s) i j = Get s i j.
Proof.
  intros Hwf Hb. destruct (decide (in_range s i j)) as [Hin|Hout].
  - rewrite snapshot_GetNext by done. case_decide; [|done].
    symmetry. by apply Hb.
  - rewrite (Get_out s i j Hout). unfold GetNext.
    change (out_of_range (snapshot s) i j) with (out_of_range s i j).
    apply out_of_range_true in Hout. by rewrite Hout.
Qed.

(** The rule of a cell that holds Empty, Stone or Obsidian does nothing. *)
Lemma update_cell_inert x y s :
  Get s x y = Empty \/ Get s x y = Stone \/ Get s x y = Obsidian ->
  update_cell x y s = s.
Proof.
  intros H. unfold update_cell, ProcessReactions. cbv zeta.
  destruct H as [->|[->| ->]]; done.
Qed.

(** No rule of another cell writes over Stone or Obsidian, nor over Lava,
    Acid, Fire or Smoke. *)
Lemma update_cell_GetNext_solid x y s i j :
  wf s -> ~ (i = x /\ j = y) ->
  Get s i j <> Empty -> Get s i j <> Steam -> Get s i j <> Water ->
  Get s i j <> Oil -> Get s i j <> Sand -> Get s i j <> Ice ->
  GetNext (update_cell x y s) i j = GetNext s i j.
Proof.
  intros Hwf Hne H1 H2 H3 H4 H5 H6.
  destruct (writes_GetNext _ _ _ Hwf (update_cell_writes x y s) i j) as [H|H];
    [done|].
  unfold may_write in H. tauto.
Qed.

Lemma Update_cases s :
  Update s = s \/ Update s = count_frame s
  \/ (tick_due s = true /\ Update s = tick (count_frame s)).
Proof.
  rewrite Update_eq. destruct (isPaused (gameState s)); [by left|].
  destruct (tick_due s); auto.
Qed.

Lemma Update_Stone_Obsidian s x y :
  wf s -> border_stone s ->
  Get s x y = Stone \/ Get s x y = Obsidian ->
  Get (Update s) x y = Get s x y.
Proof.
  intros Hwf Hb Hp.
  destruct (Update_cases s) as [->|[->|[_ ->]]]; [done..|].
  pose proof (count_frame_wf s Hwf) as Hwf1.
  destruct (tick_buffers (count_frame s) Hwf1) as (_ & HG & _).
  rewrite HG, scan_keeps, snapshot_GetNext_border; [done..|].
  intros c s' Hc Hwf' HG'.
  destruct (decide (x = fst c /\ y = snd c)) as [[-> ->]|Hne].
  - rewrite update_cell_inert; [done|]. rewrite HG', count_frame_Get. tauto.
  - apply update_cell_GetNext_solid; [done..| | | | | |];
      rewrite HG', count_frame_Get; destruct Hp as [-> | ->]; done.
Qed.

(** X7.  Stone and Obsidian are permanent under [Update]: in a reachable
    state, a cell that holds one of them holds it after any number of
    calls, whatever surrounds it and whatever is drawn. *)
Theorem Stone_and_Obsidian_stay (s : ParticleGrid) (x y : Z) (n : nat) :
  reachable s ->
  Get s x y = Stone \/ Get s x y = Obsidian ->
  Get (Nat.iter n Update s) x y = Get s x y.
Proof.
  intros Hr Hp. induction n as [|n IH]; [done|]. simpl.
  assert (reachable (Nat.iter n Update s)) as Hrn.
  { clear IH. induction n; [done|]. simpl. by constructor. }
  destruct (reachable_inv _ Hrn) as (Hwf & Hb & _).
  rewrite Update_Stone_Obsidian; [done..|]. by rewrite IH.
Qed.

Lemma randCalls_UpdateTemperature s :
  randCalls (UpdateTemperature s) = randCalls s.
Proof.
  rewrite UpdateTemperature_unfold.
  apply (foldl_invariant (fun _ s' => randCalls s' = randCalls s)); [done|].
  intros done c rest s' _ Hs.
  destruct (diffuse_cell_cases (fst c) (snd c) s') as [->|[v ->]]; [done|].
  unfold SetTemperature. by destruct (out_of_range s' (fst c) (snd c)).
Qed.

Lemma scan_still s :
  wf s ->
  (forall x y, Get s x y = Empty \/ Get s x y = Stone \/ Get s x y = Obsidian) ->
  scan s = snapshot s.
Proof.
  intros Hwf Hall.
  apply (scan_invariant s (fun _ s' => s' = snapshot s)); [done..|].
  intros done c rest s' _ _ HG ->. apply update_cell_inert.
  rewrite snapshot_Get. apply Hall.
Qed.

Lemma Update_still s :
  wf s -> border_stone s ->
  (forall x y, Get s x y = Empty \/ Get s x y = Stone \/ Get s x y = Obsidian) ->
  (forall i j, Get (Update s) i j = Get s i j)
  /\ randCalls (Update s) = randCalls s.
Proof.
  intros Hwf Hb Hall.
  destruct (Update_cases s) as [->|[->|[_ ->]]]; [done..|].
  pose proof (count_frame_wf s Hwf) as Hwf1. split.
  - intros i j. destruct (tick_buffers (count_frame s) Hwf1) as (_ & HG & _).
    rewrite HG, scan_still by done. by rewrite snapshot_GetNext_border.
  - rewrite tick_unfold, scan_still by done. simpl.
    by rewrite randCalls_UpdateTemperature.
Qed.

(** X8.  A grid whose cells hold only Empty, Stone and Obsidian is still: any
    number of calls of [Update] changes no cell and consumes no draw. *)
Theorem inert_grid_is_still (s : ParticleGrid) (n : nat) :
  reachable s ->
  (forall x y, Get s x y = Empty \/ Get s x y = Stone \/ Get s x y = Obsidian) ->
  (forall i j, Get (Nat.iter n Update s) i j = Get s i j)
  /\ randCalls (Nat.iter n Update s) = randCalls s.
Proof.
  intros Hr Hall. induction n as [|n [IHG IHr]]; [done|]. simpl.
  assert (reachable (Nat.iter n Update s)) as Hrn.
  { clear IHG IHr. induction n; [done|]. simpl. by constructor. }
  destruct (reachable_inv _ Hrn) as (Hwf & Hb & _).
  destruct (Update_still (Nat.iter n Update s) Hwf Hb) as [HG Hrand].
  { intros x y. rewrite IHG. apply Hall. }
  split; [intros i j; by rewrite HG | by rewrite Hrand].
Qed.

(** ** Bounds of the temperature field *)

(** X9.  The diffusion pass obeys a maximum principle: if every temperature
    lies in a range that contains the ambient 20, and nine temperatures of
    that range cannot overflow an [int], so does every temperature after
    the pass.  In particular a field at 20 everywhere stays at 20
    everywhere. *)
Theorem UpdateTemperature_maximum_principle (s : ParticleGrid) (lo hi : Z) :
  wf s -> lo <= 20 <= hi -> INT_MIN <= 9 * lo -> 9 * hi <= INT_MAX ->
  (forall x y, lo <= GetTemperature s x y <= hi) ->
  forall x y, lo <= GetTemperature (UpdateTemperature s) x y <= hi.
Proof. apply UpdateTemperature_within. Qed.

(** *** Over a run *)

Lemma effects_within A B lo hi s s' :
  wf s -> effects A B s s' -> (forall x y t, B x y t -> lo <= t <= hi) ->
  temperatures_within lo hi s -> temperatures_within lo hi s'.
Proof.
  intros Hwf He HB Hall i j.
  destruct (effects_GetTemperature _ _ _ _ Hwf He i j) as [->|Hw];
    [apply Hall | by apply HB in Hw].
Qed.

Lemma GetTemperature_snapshot s i j :
  GetTemperature (snapshot s) i j = GetTemperature s i j.
Proof. reflexivity. Qed.

Lemma scan_within lo hi s :
  wf s -> lo <= 800 -> 1000 <= hi ->
  temperatures_within lo hi s -> temperatures_within lo hi (scan s).
Proof.
  intros Hwf Hlo Hhi Hall.
  apply (scan_invariant s (fun _ s' => temperatures_within lo hi s')); [done..|].
  intros done c rest s' _ Hwf' _ Hall'.
  apply (effects_within _ _ lo hi s' _ Hwf' (update_cell_effects (fst c) (snd c) s'));
    [|done].
  intros x y t [[[_ ->]|[_ ->]] _]; lia.
Qed.

Lemma tick_within lo hi s :
  wf s -> lo <= 20 -> 1000 <= hi -> INT_MIN <= 9 * lo -> 9 * hi <= INT_MAX ->
  temperatures_within lo hi s -> temperatures_within lo hi (tick s).
Proof.
  intros Hwf Hlo Hhi Hlo9 Hhi9 Hall. rewrite tick_unfold by done.
  assert (wf (scan s)) as Hwfs.
  { apply (same_shape_wf (snapshot s)); [apply (writes_shape _ _ _ (scan_writes s))|].
    apply (same_shape_wf s); [by apply snapshot_shape | done]. }
  pose proof (UpdateTemperature_within lo hi (scan s) Hwfs ltac:(lia) Hlo9 Hhi9
                (scan_within lo hi s Hwf ltac:(lia) Hhi Hall)) as H.
  intros i j. apply (H i j).
Qed.

Lemma Update_within lo hi s :
  wf s -> lo <= 20 -> 1000 <= hi -> INT_MIN <= 9 * lo -> 9 * hi <= INT_MAX ->
  temperatures_within lo hi s -> temperatures_within lo hi (Update s).
Proof.
  intros Hwf Hlo Hhi Hlo9 Hhi9 Hall.
  destruct (Update_cases s) as [->|[->|[_ ->]]]; [done..|].
  apply tick_within; [by apply count_frame_wf | done..].
Qed.

Lemma AddParticle_within lo hi x y p brush s :
  wf s -> lo <= -10 -> 1000 <= hi ->
  temperatures_within lo hi s ->
  temperatures_within lo hi (AddParticle x y p brush s).
Proof.
  intros Hwf Hlo Hhi Hall i j.
  destruct (decide (painted s x y p brush i j)) as [Hp|Hp].
  - destruct (proj1 (AddParticle_cells x y p brush s i j Hwf) Hp) as [_ ->].
    destruct p; simpl; lia.
  - destruct (proj2 (AddParticle_cells x y p brush s i j Hwf) Hp) as [_ ->].
    apply Hall.
Qed.

Lemma Clear_within lo hi s :
  wf s -> lo <= 20 <= hi -> temperatures_within lo hi (Clear s).
Proof.
  intros Hwf Hamb i j. destruct (decide (in_range s i j)) as [Hin|Hout].
  - by rewrite Clear_GetTemperature.
  - unfold GetTemperature.
    replace (out_of_range (Clear s) i j) with true; [done|]. symmetry.
    apply out_of_range_true. intros Hin. apply Hout.
    by apply (same_shape_in_range s (Clear s)); [apply Clear_shape|].
Qed.

Lemma load_row_GetTemperature line y s i j :
  GetTemperature (load_row line y s) i j = GetTemperature s i j.
Proof.
  unfold load_row.
  apply (for_each_preserves (fun s' =>
           GetTemperature s' i j = GetTemperature s i j)); [done|].
  intros x s' _ <-. destruct (on_border s' x y); apply GetTemperature_Set_.
Qed.

Lemma load_lines_GetTemperature lines y s i j :
  GetTemperature (load_lines lines y s) i j = GetTemperature s i j.
Proof.
  revert y s. induction lines as [|line lines IH]; intros y s; [done|]. simpl.
  destruct (negb (y <? height s)); [done|].
  destruct ((String.length line =? 0)%nat || Ascii.eqb (char_at line 0) "#");
    [apply IH|].
  by rewrite IH, load_row_GetTemperature.
Qed.

Lemma LoadFromFile_within lo hi file s :
  wf s -> lo <= 20 <= hi ->
  temperatures_within lo hi s -> temperatures_within lo hi (LoadFromFile file s).
Proof.
  intros Hwf Hamb Hall. destruct file as [contents|]; [|done]. simpl.
  intros i j. rewrite load_lines_GetTemperature. by apply Clear_within.
Qed.

Lemma simulated_reachable s : simulated s -> reachable s.
Proof. induction 1; by constructor. Qed.

(** X10.  In every state of a run every temperature lies between -10 and 1000:
    the brush stamps -10, 20, 100 or 1000, the rules of Lava and Fire
    stamp 1000 and 800, and diffusion stays within the range.  The sum
    of nine temperatures formed by the diffusion pass is therefore at
    most 9000 in absolute value. *)
Theorem temperature_range (s : ParticleGrid) :
  simulated s ->
  (forall x y, -10 <= GetTemperature s x y <= 1000)
  /\ (forall x y,
        -90 <= fst (neighbour_sum s x y (GetTemperature s x y, 1)) <= 9000).
Proof.
  intros Hs.
  assert (temperatures_within (-10) 1000 s) as Hall.
  { induction Hs as [w h gs draws Hw Hh|s Hs IH|x y p brush s Hs IH|s Hs IH
                    |file s Hs IH|paused speed s Hs IH].
    - unfold ParticleGrid_new. cbv zeta.
      pose proof (raw_arrays_wf w h gs draws Hw Hh) as Hraw.
      rewrite CreateGround_Clear by done. by apply Clear_within.
    - destruct (reachable_inv s (simulated_reachable s Hs)) as (Hwf & _).
      apply Update_within; [done | lia | lia | by vm_compute | by vm_compute | done].
    - destruct (reachable_inv s (simulated_reachable s Hs)) as (Hwf & _).
      by apply AddParticle_within.
    - destruct (reachable_inv s (simulated_reachable s Hs)) as (Hwf & _).
      by apply Clear_within.
    - destruct (reachable_inv s (simulated_reachable s Hs)) as (Hwf & _).
      by apply LoadFromFile_within.
    - exact IH. }
  split; [exact Hall|].
  intros x y. pose proof (Hall x y) as Hxy.
  rewrite neighbour_sum_spec by (unfold INT_MIN, INT_MAX; lia).
  cbn [fst].
  pose proof (temperature_sum_bounds (-10) 1000 s (GetTemperature s) x y Hall)
    as Hsum.
  cbv zeta in Hsum. unfold temperature_sum in Hsum.
  pose proof (occupied_neighbours_length s x y) as Hlen.
  rewrite wrap_int_id by (unfold INT_MIN, INT_MAX; lia). lia.
Qed.

(** ** Reactions, seen after the tick *)

Lemma Update_due s : tick_due s = true -> Update s = tick (count_frame s).
Proof.
  intros Hd. rewrite Update_eq, Hd. unfold tick_due in Hd.
  by destruct (isPaused (gameState s)).
Qed.

Lemma interior_scan_cell s x y :
  wf s -> border_stone s -> Get s x y <> Stone -> (x, y) ∈ scan_cells s.
Proof.
  intros Hwf Hb Hp. pose proof (Get_not_Stone_in_range s x y Hp) as Hin.
  apply elem_of_scan_cells.
  destruct (decide (protected s x y)) as [Hprot|Hfree].
  - by apply Hb in Hprot.
  - unfold protected in Hfree. destruct Hin. lia.
Qed.

Lemma CheckNeighbor_ext s s' x y target :
  (forall i j, Get s' i j = Get s i j) ->
  CheckNeighbor s' x y target = CheckNeighbor s x y target.
Proof.
  intros HG. by rewrite !CheckNeighbor_first, (first_neighbour_ext s s').
Qed.

Lemma CheckNeighbor_adjacent s x y target :
  CheckNeighbor s x y target = true
  <-> exists i j, adjacent x y i j /\ Get s i j = target.
Proof.
  rewrite CheckNeighbor_true. split.
  - intros (c & Hc & Hg). exists (x + fst c), (y + snd c).
    split; [by apply adjacent_offset | done].
  - intros (i & j & [Hb Hne] & Hg). exists (i - x, j - y). split.
    + apply neighbour_offsets_elem; lia.
    + simpl. by replace (x + (i - x)) with i by lia;
        replace (y + (j - y)) with j by lia.
Qed.

Lemma CheckNeighbor_none s x y target :
  CheckNeighbor s x y target = false
  <-> forall i j, adjacent x y i j -> Get s i j <> target.
Proof.
  split.
  - intros Hf i j Ha Hg.
    assert (CheckNeighbor s x y target = true) as Ht
      by (apply CheckNeighbor_adjacent; eauto).
    congruence.
  - intros Hall. destruct (CheckNeighbor s x y target) eqn:Hc; [|done].
    apply CheckNeighbor_adjacent in Hc as (i & j & Ha & Hg).
    by apply Hall in Hg.
Qed.

Lemma adjacent_sym x0 y0 x y : adjacent x0 y0 x y -> adjacent x y x0 y0.
Proof. unfold adjacent. lia. Qed.

(** A property of the value that the rule of a cell writes into its own
    cell of the next buffer holds there at the end of the scan, when it
    holds of anything that the rule of another cell can write there.  The
    cell holds neither Empty nor Steam, so that its temperature at its
    visit is the one at the start of the tick. *)
Lemma scan_own_rule s x y (V : Particle -> Prop) :
  wf s -> (x, y) ∈ scan_cells s -> Get s x y <> Empty -> Get s x y <> Steam ->
  (forall s', wf s' -> (forall a b, Get s' a b = Get s a b) ->
     GetTemperature s' x y = GetTemperature s x y ->
     V (GetNext (update_cell x y s') x y)) ->
  (forall x0 y0 p, (x0, y0) ∈ scan_cells s -> (x0, y0) <> (x, y) ->
     rule_write s x0 y0 x y p -> V p) ->
  V (GetNext (scan s) x y).
Proof.
  intros Hwf Hcell Hne Hns Hown Hothers.
  pose proof (NoDup_scan_cells s) as Hnd.
  enough ((fun done s' =>
             (((x, y) ∉ done) -> GetTemperature s' x y = GetTemperature s x y)
             /\ (((x, y) ∈ done) -> V (GetNext s' x y)))
            (scan_cells s) (scan s)) as [_ H] by (by apply H).
  apply scan_invariant; [done | |].
  { split; [done|]. intros Hin. by apply elem_of_nil in Hin. }
  intros done [cx cy] rest s' Hsplit Hwf' HG [Htemp Hnext]. simpl.
  assert ((cx, cy) ∈ scan_cells s) as Hc.
  { rewrite Hsplit. apply elem_of_app. right. apply list_elem_of_here. }
  assert ((cx, cy) ∉ done) as Hfresh.
  { rewrite Hsplit in Hnd. apply NoDup_app in Hnd as (_ & Hdis & _).
    intros Hin. apply (Hdis _ Hin). apply list_elem_of_here. }
  destruct (decide ((cx, cy) = (x, y))) as [Heq|Hdiff].
  - inversion Heq; subst cx cy. split.
    + intros Hn. exfalso. apply Hn. apply elem_of_app. right. apply list_elem_of_here.
    + intros _. apply Hown; [done..|]. by apply Htemp.
  - pose proof (update_cell_effects cx cy s') as He. split.
    + intros Hn.
      destruct (effects_GetTemperature _ _ _ _ Hwf' He x y) as [->|Hh].
      * apply Htemp. intros Hin. apply Hn. apply elem_of_app. by left.
      * destruct Hh as [_ [[-> ->]|Hh]]; [done|]. rewrite !HG in Hh. tauto.
    + intros Hin. apply elem_of_app in Hin as [Hin|Hin].
      2: { apply list_elem_of_singleton in Hin. congruence. }
      destruct (writes_GetNext _ _ _ Hwf' (effects_writes _ _ _ _ He) x y) as [->|Hw].
      * by apply Hnext.
      * apply (Hothers cx cy); [done..|]. by apply (rule_write_ext s').
Qed.

(** The same at the level of [Update], for a call that performs its
    tick. *)
Lemma Update_own_rule s x y (V : Particle -> Prop) :
  wf s -> border_stone s -> tick_due s = true ->
  Get s x y <> Empty -> Get s x y <> Steam -> Get s x y <> Stone ->
  (forall s', wf s' -> (forall a b, Get s' a b = Get s a b) ->
     GetTemperature s' x y = GetTemperature s x y ->
     V (GetNext (update_cell x y s') x y)) ->
  (forall x0 y0 p, adjacent x0 y0 x y ->
     (Get s x y = Water /\ p = Steam /\ (Get s x0 y0 = Lava \/ Get s x0 y0 = Fire))
     \/ (Get s x y = Oil /\ p = Fire /\ Get s x0 y0 = Fire)
     \/ ((Get s x y = Sand \/ Get s x y = Ice) /\ p = Empty /\ Get s x0 y0 = Acid) ->
     V p) ->
  V (Get (Update s) x y).
Proof.
  intros Hwf Hb Hd Hne Hns Hnst Hown Hothers.
  rewrite Update_due by done.
  pose proof (count_frame_wf s Hwf) as Hwf1.
  destruct (tick_buffers (count_frame s) Hwf1) as (_ & HG & _). rewrite HG.
  apply scan_own_rule; [done | by apply (interior_scan_cell s) | done..| |].
  - intros s' Hwf' HG' Ht. by apply Hown.
  - intros x0 y0 p _ Hdiff Hw. unfold rule_write in Hw.
    change (Get (count_frame s)) with (Get s) in Hw.
    destruct Hw as [[-> ->]|[?|[?|[Ha Hw]]]]; [done..|].
    by apply (Hothers x0 y0).
Qed.

Lemma GetNext_SetNext_same x y p s :
  wf s -> in_range s x y -> GetNext (SetNext x y p s) x y = p.
Proof.
  intros Hwf Hin. rewrite GetNext_SetNext by (by destruct Hwf).
  by rewrite decide_True.
Qed.

Lemma in_range_ext s s' x y :
  (forall a b, Get s' a b = Get s a b) -> Get s x y <> Stone -> in_range s' x y.
Proof. intros HG Hp. apply Get_not_Stone_in_range. by rewrite HG. Qed.

(** X11.  The Water rule.  In a reachable state, at a call of [Update] that
    performs its tick, a Water cell that has Lava or Fire among its 8
    neighbours, or whose temperature is above 100, is Steam afterwards; a
    Water cell with none of these and a temperature below 0 is Ice
    afterwards. *)
Theorem water_boils_or_freezes (s : ParticleGrid) (x y : Z) :
  reachable s -> tick_due s = true -> Get s x y = Water ->
  ((exists i j, adjacent x y i j /\ (Get s i j = Lava \/ Get s i j = Fire))
   \/ 100 < GetTemperature s x y ->
   Get (Update s) x y = Steam)
  /\ ((forall i j, adjacent x y i j -> Get s i j <> Lava /\ Get s i j <> Fire) ->
      GetTemperature s x y < 0 ->
      Get (Update s) x y = Ice).
Proof.
  intros Hr Hd Hwater. destruct (reachable_inv s Hr) as (Hwf & Hb & _). split.
  - intros Hboil.
    apply (Update_own_rule s x y (fun p => p = Steam));
      [done..|by rewrite Hwater|by rewrite Hwater|by rewrite Hwater| |].
    + intros s' Hwf' HG Ht.
      assert (update_cell x y s' = SetNext x y Steam s') as ->.
      { unfold update_cell, ProcessReactions. cbv zeta. rewrite HG, Hwater.
        rewrite !(CheckNeighbor_ext s s') by done. rewrite Ht.
        replace (CheckNeighbor s x y Lava || CheckNeighbor s x y Fire
                 || (100 <? GetTemperature s x y)) with true; [done|].
        symmetry. destruct Hboil as [(i & j & Ha & [Hl|Hf])|Hhot].
        - assert (CheckNeighbor s x y Lava = true) as ->
            by (apply CheckNeighbor_adjacent; eauto). done.
        - assert (CheckNeighbor s x y Fire = true) as ->
            by (apply CheckNeighbor_adjacent; eauto). by rewrite orb_true_r.
        - apply orb_true_iff. right. by apply Z.ltb_lt. }
      apply GetNext_SetNext_same; [done|].
      apply (in_range_ext s); [done | by rewrite Hwater].
    + intros x0 y0 p _ [(_ & -> & _)|[(Ho & _)|([Hs|Hi] & _)]]; congruence.
  - intros Hcalm Hcold.
    assert (CheckNeighbor s x y Lava = false) as HnoL
      by (apply CheckNeighbor_none; intros i j Ha; by apply Hcalm).
    assert (CheckNeighbor s x y Fire = false) as HnoF
      by (apply CheckNeighbor_none; intros i j Ha; by apply Hcalm).
    apply (Update_own_rule s x y (fun p => p = Ice));
      [done..|by rewrite Hwater|by rewrite Hwater|by rewrite Hwater| |].
    + intros s' Hwf' HG Ht.
      assert (update_cell x y s' = SetNext x y Ice s') as ->.
      { unfold update_cell, ProcessReactions. cbv zeta. rewrite HG, Hwater.
        rewrite !(CheckNeighbor_ext s s') by done. rewrite Ht, HnoL, HnoF.
        replace (100 <? GetTemperature s x y) with false
          by (symmetry; apply Z.ltb_ge; lia).
        replace (GetTemperature s x y <? 0) with true
          by (symmetry; by apply Z.ltb_lt).
        done. }
      apply GetNext_SetNext_same; [done|].
      apply (in_range_ext s); [done | by rewrite Hwater].
    + intros x0 y0 p Ha [(_ & _ & Hheat)|[(Ho & _)|([Hs|Hi] & _)]];
        [|congruence..].
      apply adjacent_sym in Ha. destruct (Hcalm x0 y0 Ha). tauto.
Qed.

(** X12.  The Ice rule.  At a call of [Update] that performs its tick, an Ice
    cell whose temperature is above 0, or that has Lava or Fire among its
    8 neighbours, is Water afterwards when no neighbour is Acid; with an
    Acid neighbour it is Water or Empty. *)
Theorem ice_melts (s : ParticleGrid) (x y : Z) :
  reachable s -> tick_due s = true -> Get s x y = Ice ->
  0 < GetTemperature s x y
  \/ (exists i j, adjacent x y i j /\ (Get s i j = Lava \/ Get s i j = Fire)) ->
  (Get (Update s) x y = Water \/ Get (Update s) x y = Empty)
  /\ ((forall i j, adjacent x y i j -> Get s i j <> Acid) ->
      Get (Update s) x y = Water).
Proof.
  intros Hr Hd Hice Hmelt. destruct (reachable_inv s Hr) as (Hwf & Hb & _).
  assert (forall s', wf s' -> (forall a b, Get s' a b = Get s a b) ->
            GetTemperature s' x y = GetTemperature s x y ->
            GetNext (update_cell x y s') x y = Water) as Hrule.
  { intros s' Hwf' HG Ht.
    assert (update_cell x y s' = SetNext x y Water s') as ->.
    { unfold update_cell, ProcessReactions. cbv zeta. rewrite HG, Hice.
      rewrite !(CheckNeighbor_ext s s') by done. rewrite Ht.
      replace ((0 <? GetTemperature s x y) || CheckNeighbor s x y Lava
               || CheckNeighbor s x y Fire) with true; [done|].
      symmetry. destruct Hmelt as [Hwarm|(i & j & Ha & [Hl|Hf])].
      - assert ((0 <? GetTemperature s x y) = true) as -> by (by apply Z.ltb_lt). done.
      - assert (CheckNeighbor s x y Lava = true) as ->
          by (apply CheckNeighbor_adjacent; eauto). by rewrite orb_true_r.
      - assert (CheckNeighbor s x y Fire = true) as ->
          by (apply CheckNeighbor_adjacent; eauto). by rewrite orb_true_r. }
    apply GetNext_SetNext_same; [done|].
    apply (in_range_ext s); [done | by rewrite Hice]. }
  split.
  - apply (Update_own_rule s x y (fun p => p = Water \/ p = Empty));
      [done..|by rewrite Hice|by rewrite Hice|by rewrite Hice| |].
    + intros s' Hwf' HG Ht. left. by apply Hrule.
    + intros x0 y0 p _ [(Hw & _)|[(Ho & _)|(_ & -> & _)]];
        [congruence.. | by right].
  - intros Hnoacid.
    apply (Update_own_rule s x y (fun p => p = Water));
      [done..|by rewrite Hice|by rewrite Hice|by rewrite Hice|done|].
    intros x0 y0 p Ha [(Hw & _)|[(Ho & _)|(_ & _ & Hacid)]]; [congruence..|].
    apply adjacent_sym in Ha. by apply Hnoacid in Hacid.
Qed.

Lemma Update_lava_cools s x y :
  wf s -> border_stone s -> tick_due s = true -> Get s x y = Lava ->
  (forall i j, adjacent x y i j -> Get s i j <> Water) ->
  GetTemperature s x y < 500 ->
  Get (Update s) x y = Stone.
Proof.
  intros Hwf Hb Hd Hlava Hdry Hcool.
  assert (CheckNeighbor s x y Water = false) as Hno
    by (by apply CheckNeighbor_none).
  apply (Update_own_rule s x y (fun p => p = Stone));
    [done..|by rewrite Hlava|by rewrite Hlava|by rewrite Hlava| |].
  - intros s' Hwf' HG Ht.
    assert (update_cell x y s' = SetNext x y Stone s') as ->.
    { unfold update_cell, ProcessReactions. cbv zeta. rewrite HG, Hlava.
      rewrite !(CheckNeighbor_ext s s') by done. rewrite Ht, Hno.
      replace (GetTemperature s x y <? 500) with true
        by (symmetry; by apply Z.ltb_lt).
      done. }
    apply GetNext_SetNext_same; [done|].
    apply (in_range_ext s); [done | by rewrite Hlava].
  - intros x0 y0 p _ [(Hw & _)|[(Ho & _)|([Hs|Hi] & _)]]; congruence.
Qed.

(** X13.  The cooling of Lava.  At a call of [Update] that performs its tick,
    a Lava cell with no Water among its 8 neighbours and a temperature
    below 500 is Stone afterwards. *)
Theorem lava_cools_to_stone (s : ParticleGrid) (x y : Z) :
  reachable s -> tick_due s = true -> Get s x y = Lava ->
  (forall i j, adjacent x y i j -> Get s i j <> Water) ->
  GetTemperature s x y < 500 ->
  Get (Update s) x y = Stone.
Proof.
  intros Hr Hd Hlava Hdry Hcool. destruct (reachable_inv s Hr) as (Hwf & Hb & _).
  by apply Update_lava_cools.
Qed.

(** X14.  The ignition of Oil.  At a call of [Update] that performs its tick,
    an Oil cell with Fire or Lava among its 8 neighbours is Fire
    afterwards. *)
Theorem oil_ignites (s : ParticleGrid) (x y : Z) :
  reachable s -> tick_due s = true -> Get s x y = Oil ->
  (exists i j, adjacent x y i j /\ (Get s i j = Fire \/ Get s i j = Lava)) ->
  Get (Update s) x y = Fire.
Proof.
  intros Hr Hd Hoil Hheat. destruct (reachable_inv s Hr) as (Hwf & Hb & _).
  apply (Update_own_rule s x y (fun p => p = Fire));
    [done..|by rewrite Hoil|by rewrite Hoil|by rewrite Hoil| |].
  - intros s' Hwf' HG Ht.
    assert (update_cell x y s' = SetNext x y Fire s') as ->.
    { unfold update_cell, ProcessReactions. cbv zeta. rewrite HG, Hoil.
      rewrite !(CheckNeighbor_ext s s') by done.
      replace (CheckNeighbor s x y Fire || CheckNeighbor s x y Lava) with true;
        [done|].
      symmetry. destruct Hheat as (i & j & Ha & [Hf|Hl]).
      - assert (CheckNeighbor s x y Fire = true) as ->
          by (apply CheckNeighbor_adjacent; eauto). done.
      - assert (CheckNeighbor s x y Lava = true) as ->
          by (apply CheckNeighbor_adjacent; eauto). by rewrite orb_true_r. }
    apply GetNext_SetNext_same; [done|].
    apply (in_range_ext s); [done | by rewrite Hoil].
  - intros x0 y0 p _ [(Hw & _)|[(_ & -> & _)|([Hs|Hi] & _)]];
      [congruence | done | congruence..].
Qed.

(** X15.  Fire meets Water.  At a call of [Update] that performs its tick, a
    Fire cell with Water but no Oil among its 8 neighbours is Smoke
    afterwards, and every Water cell among its neighbours is Steam. *)
Theorem fire_quenched_by_water (s : ParticleGrid) (x y : Z) :
  reachable s -> tick_due s = true -> Get s x y = Fire ->
  (forall i j, adjacent x y i j -> Get s i j <> Oil) ->
  (exists i j, adjacent x y i j /\ Get s i j = Water) ->
  Get (Update s) x y = Smoke
  /\ (forall i j, adjacent x y i j -> Get s i j = Water ->
        Get (Update s) i j = Steam).
Proof.
  intros Hr Hd Hfire Hnooil Hwet. destruct (reachable_inv s Hr) as (Hwf & Hb & _).
  assert (CheckNeighbor s x y Oil = false) as Hno
    by (by apply CheckNeighbor_none).
  assert (CheckNeighbor s x y Water = true) as Hyes
    by (by apply CheckNeighbor_adjacent).
  split.
  - apply (Update_own_rule s x y (fun p => p = Smoke));
      [done..|by rewrite Hfire|by rewrite Hfire|by rewrite Hfire| |].
    + intros s' Hwf' HG Ht.
      assert (in_range s' x y) as Hin
        by (apply (in_range_ext s); [done | by rewrite Hfire]).
      assert (update_cell x y s'
              = ReplaceNeighbor x y Water Steam (SetNext x y Smoke s')) as ->.
      { unfold update_cell, ProcessReactions. cbv zeta. rewrite HG, Hfire.
        rewrite !(CheckNeighbor_ext s s') by done. by rewrite Hno, Hyes. }
      rewrite (ReplaceNeighbor_first s)
        by (intros i j; by rewrite Get_SetNext, HG).
      destruct (first_neighbour s x y Water) as [c|] eqn:Hfirst.
      * apply first_neighbour_Some in Hfirst as [Hc Hw].
        pose proof (adjacent_offset x y c Hc) as [_ Hne].
        rewrite GetNext_SetNext
          by (by destruct (SetNext_wf x y Smoke s' Hwf')).
        rewrite decide_False by (intros (? & ? & _); apply Hne; split; lia).
        by apply GetNext_SetNext_same.
      * by apply GetNext_SetNext_same.
    + intros x0 y0 p _ [(Hw & _)|[(Ho & _)|([Hs|Hi] & _)]]; congruence.
  - intros i j Ha Hwater.
    apply (Update_own_rule s i j (fun p => p = Steam));
      [done..|by rewrite Hwater|by rewrite Hwater|by rewrite Hwater| |].
    + intros s' Hwf' HG Ht.
      assert (update_cell i j s' = SetNext i j Steam s') as ->.
      { unfold update_cell, ProcessReactions. cbv zeta. rewrite HG, Hwater.
        rewrite !(CheckNeighbor_ext s s') by done.
        assert (CheckNeighbor s i j Fire = true) as ->.
        { apply CheckNeighbor_adjacent. exists x, y.
          split; [by apply adjacent_sym | done]. }
        by rewrite orb_true_r. }
      apply GetNext_SetNext_same; [done|].
      apply (in_range_ext s); [done | by rewrite Hwater].
    + intros x0 y0 p _ [(_ & -> & _)|[(Ho & _)|([Hs|Hi] & _)]]; congruence.
Qed.

(** ** What the saved file holds *)

Lemma get_string_of_list_ascii (l : list ascii) (n : nat) :
  String.get n (string_of_list_ascii l) = l !! n.
Proof.
  revert n. induction l as [|c l IH]; intros n; [by destruct n|].
  destruct n; [done|]. simpl. apply IH.
Qed.

Lemma length_string_of_list_ascii (l : list ascii) :
  String.length (string_of_list_ascii l) = length l.
Proof. induction l as [|c l IH]; [done|]. simpl. by rewrite IH. Qed.

Lemma row_text_length s y :
  String.length (row_text s y) = Z.to_nat (width s).
Proof.
  unfold row_text. by rewrite length_string_of_list_ascii, length_map, length_seqZ.
Qed.

Lemma row_text_char s x y :
  0 <= x < width s -> char_at (row_text s y) x = GetSymbolForParticle (Get s x y).
Proof.
  intros Hx. unfold char_at, row_text.
  rewrite get_string_of_list_ascii, list_lookup_fmap.
  rewrite (lookup_seqZ_lt 0 (width s) (Z.to_nat x)) by lia.
  simpl. do 2 f_equal. lia.
Qed.

(** X16.  The file written by [SaveToFile] holds the whole current buffer: two
    comment lines, then one line for each row, of [width] characters,
    whose character at column [x] decodes to the cell at [(x, y)]. *)
Theorem SaveToFile_encodes (s : ParticleGrid) :
  let lines := getlines (SaveToFile s) in
  length lines = (2 + Z.to_nat (height s))%nat
  /\ (exists c1 c2, lines !! 0%nat = Some c1 /\ lines !! 1%nat = Some c2
                    /\ skipped_line c1 = true /\ skipped_line c2 = true)
  /\ forall y, 0 <= y < height s ->
       exists line,
         lines !! (2 + Z.to_nat y)%nat = Some line
         /\ String.length line = Z.to_nat (width s)
         /\ forall x, 0 <= x < width s ->
              ParticleFromSymbol (char_at line x) = Get s x y.
Proof.
  cbv zeta. rewrite getlines_SaveToFile. split; [|split].
  - simpl. by rewrite length_map, length_seqZ.
  - exists header1, (header2 s). done.
  - intros y Hy. exists (row_text s y). split; [|split].
    + simpl. rewrite list_lookup_fmap.
      rewrite (lookup_seqZ_lt 0 (height s) (Z.to_nat y)) by lia.
      simpl. do 2 f_equal. lia.
    + apply row_text_length.
    + intros x Hx. rewrite row_text_char by done. by destruct (Get s x y).
Qed.

(** ** What [LoadFromFile] reads *)

Lemma load_row_shape line y s : same_shape s (load_row line y s).
Proof.
  unfold load_row. apply (for_each_preserves (fun s' => same_shape s s'));
    [auto with shape|].
  intros x s' _ Hsh. eapply same_shape_trans; [exact Hsh|].
  destruct (on_border s' x y); apply same_shape_Set_.
Qed.

Lemma load_lines_shape lines y s : same_shape s (load_lines lines y s).
Proof.
  revert y s. induction lines as [|line lines IH]; intros y s;
    [auto with shape|]. simpl.
  destruct (negb (y <? height s)); [auto with shape|].
  destruct ((String.length line =? 0)%nat || Ascii.eqb (char_at line 0) "#");
    [apply IH|].
  eapply same_shape_trans; [apply load_row_shape | apply IH].
Qed.

(** The row loop writes the decoded characters of the line into the
    unprotected cells of row [y0], as far as the line and the grid go. *)
Lemma load_row_Get line y0 s x y :
  wf s ->
  Get (load_row line y0 s) x y
  = if decide (y = y0 /\ in_range s x y /\ ~ protected s x y)
    then default (Get s x y) (cell_of_line line x)
    else Get s x y.
Proof.
  intros Hwf. unfold load_row.
  set (n := Z.min (Z.of_nat (String.length line)) (width s)).
  enough ((fun done s' =>
             same_shape s s'
             /\ Get s' x y
                = if decide (y = y0 /\ x ∈ done /\ in_range s x y
                             /\ ~ protected s x y)
                  then ParticleFromSymbol (char_at line x) else Get s x y)
            (seqZ 0 n)
            (for_each (seqZ 0 n) (fun x s =>
               if on_border s x y0 then Set_ x y0 Stone s
               else Set_ x y0 (ParticleFromSymbol (char_at line x)) s) s))
    as [_ H].
  { rewrite H. unfold cell_of_line.
    destruct (decide (y = y0 /\ in_range s x y /\ ~ protected s x y))
      as [(-> & Hin & Hfree)|Hno].
    - destruct (decide (0 <= x < Z.of_nat (String.length line))) as [Hx|Hx].
      + rewrite decide_True; [done|]. rewrite elem_of_seqZ.
        destruct Hin. unfold n. split; [done|]. split; [lia | done].
      + rewrite decide_False; [done|]. rewrite elem_of_seqZ. unfold n. lia.
    - rewrite decide_False; [done | tauto]. }
  apply for_each_invariant.
  { split; [auto with shape|]. rewrite decide_False; [done|].
    intros (_ & Hin & _). by apply elem_of_nil in Hin. }
  intros done i rest s' Hsplit [Hsh IH].
  pose proof (same_shape_wf _ _ Hsh Hwf) as Hwf'.
  assert (i ∉ done) as Hfresh.
  { pose proof (NoDup_seqZ 0 n) as Hnd. rewrite Hsplit in Hnd.
    apply NoDup_app in Hnd as (_ & Hdis & _).
    intros Hin. apply (Hdis _ Hin). apply list_elem_of_here. }
  assert (forall q, Get (Set_ i y0 q s') x y
            = if decide (x = i /\ y = y0 /\ in_range s x y /\ ~ protected s x y)
              then q else Get s' x y) as Hset.
  { intros q. rewrite Get_Set_ by (by destruct Hwf').
    destruct (decide (x = i /\ y = y0)) as [[-> ->]|Hne].
    - destruct (decide (in_range s i y0 /\ ~ protected s i y0)) as [[? ?]|Hno].
      + rewrite !decide_True; [done | tauto |].
        split; [done|]. split; [done|].
        split; [by apply (same_shape_in_range s s')|].
        intros Hp. by apply (same_shape_protected s s') in Hp.
      + rewrite !decide_False; [done | tauto |].
        intros (_ & _ & Hin & Hfree). apply Hno.
        split; [by apply (same_shape_in_range s s') in Hin|].
        intros Hp. apply Hfree. by apply (same_shape_protected s s').
    - rewrite !decide_False; [done | tauto..]. }
  destruct (on_border s' i y0) eqn:Hb.
  - split; [eapply same_shape_trans; [exact Hsh | apply same_shape_Set_]|].
    apply on_border_true in Hb. rewrite Set__protected by done. rewrite IH.
    destruct (decide (x = i /\ y = y0)) as [[-> ->]|Hne].
    + apply (same_shape_protected s s') in Hb; [|done].
      rewrite !decide_False; [done | tauto..].
    + apply decide_ext. rewrite elem_of_app, list_elem_of_singleton. tauto.
  - split; [eapply same_shape_trans; [exact Hsh | apply same_shape_Set_]|].
    rewrite Hset, IH.
    destruct (decide (x = i /\ y = y0 /\ in_range s x y /\ ~ protected s x y))
      as [(-> & -> & Hin & Hfree)|Hno].
    + rewrite decide_True; [done|]. split; [done|].
      split; [|done]. apply elem_of_app. right. apply list_elem_of_here.
    + apply decide_ext. rewrite elem_of_app, list_elem_of_singleton.
      split; [tauto|]. intros (Hy & [Hd| ->] & Hin & Hp); tauto.
Qed.

Lemma load_lines_Get lines y0 s x y :
  wf s -> in_range s x y -> ~ protected s x y ->
  Get (load_lines lines y0 s) x y
  = default (Get s x y)
      (if decide (y0 <= y)
       then filter (fun line => skipped_line line = false) lines
              !! Z.to_nat (y - y0)
            ≫= (fun line => cell_of_line line x)
       else None).
Proof.
  revert y0 s. induction lines as [|line lines IH]; intros y0 s Hwf Hin Hfree.
  { simpl. by case_decide. }
  simpl load_lines. destruct Hin as [Hx Hy].
  destruct (Z.ltb_spec y0 (height s)) as [Hlt|Hge]; simpl negb; cbv iota.
  2: { rewrite decide_False by lia. done. }
  rewrite filter_cons. fold (skipped_line line).
  destruct (skipped_line line) eqn:Hskip.
  { rewrite (decide_False (P := true = false)) by done. by apply IH. }
  rewrite (decide_True (P := false = false)) by done.
  pose proof (load_row_shape line y0 s) as Hsh.
  rewrite IH;
    [|by apply (same_shape_wf s) | by apply (same_shape_in_range s)
     |intros Hp; by apply (same_shape_protected s) in Hp].
  rewrite load_row_Get by done.
  destruct (decide (y0 <= y)) as [Hle|Hgt].
  - destruct (decide (y = y0)) as [->|Hne].
    + rewrite decide_True by done. rewrite decide_False by lia.
      replace (y0 - y0) with 0 by lia. done.
    + rewrite decide_False by tauto. rewrite decide_True by lia.
      replace (Z.to_nat (y - y0)) with (S (Z.to_nat (y - (y0 + 1)))) by lia.
      done.
  - rewrite decide_False by (intros [? _]; lia). by rewrite decide_False by lia.
Qed.

(** X17.  [LoadFromFile] on a file that can be opened: the grid is cleared,
    then the lines that are neither empty nor begin with the comment
    character are read as the rows 0, 1, ... : an unprotected cell
    [(x, y)] holds the decoding of character [x] of the line of row [y]
    when the file has that line and the line has that character, and is
    Empty otherwise.  The protected border is Stone, every temperature is
    20, and the next buffer is Empty. *)
Theorem LoadFromFile_rows (contents : string) (s : ParticleGrid) (x y : Z) :
  wf s -> in_range s x y ->
  let s' := LoadFromFile (Some contents) s in
  Get s' x y
  = (if decide (protected s x y) then Stone
     else default Empty
            (data_lines contents !! Z.to_nat y
             ≫= (fun line => cell_of_line line x)))
  /\ GetTemperature s' x y = 20
  /\ GetNext s' x y = Empty.
Proof.
  intros Hwf Hin. cbv zeta. simpl LoadFromFile.
  pose proof (Clear_wf s Hwf) as Hwfc.
  pose proof (Clear_shape s Hwf) as Hshc.
  pose proof (Clear_border s Hwf) as Hbc.
  destruct (load_lines_inv (getlines contents) 0 (Clear s) Hwfc Hbc)
    as (Hsh & Hb & Hn).
  split; [|split].
  - destruct (decide (protected s x y)) as [Hp|Hfree].
    + apply Hb.
      * apply (same_shape_in_range (Clear s)); [done|].
        by apply (same_shape_in_range s).
      * apply (same_shape_protected (Clear s)); [done|].
        by apply (same_shape_protected s).
    + rewrite load_lines_Get;
        [|done | by apply (same_shape_in_range s)
         |intros Hp; by apply (same_shape_protected s) in Hp].
      rewrite Clear_Get by done. rewrite decide_False by done.
      destruct Hin as [_ Hy]. rewrite decide_True by lia.
      by replace (y - 0) with y by lia.
  - rewrite load_lines_GetTemperature. by apply Clear_GetTemperature.
  - rewrite Hn. by apply Clear_GetNext.
Qed.

Lemma LoadFromFile_GetTemperature contents s x y :
  wf s -> GetTemperature (LoadFromFile (Some contents) s) x y = 20.
Proof.
  intros Hwf. simpl. rewrite load_lines_GetTemperature.
  pose proof (Clear_within 20 20 s Hwf ltac:(lia) x y). lia.
Qed.

(** X18.  Temperatures are not saved, and [LoadFromFile] leaves every cell at
    20 degrees: a Lava cell read from a file, with no Water among its 8
    neighbours, is below the 500 degrees of the cooling rule and is Stone
    after the first call of [Update] that performs its tick. *)
Theorem loaded_lava_turns_to_stone (contents : string) (s : ParticleGrid)
    (x y : Z) :
  reachable s ->
  let s' := LoadFromFile (Some contents) s in
  tick_due s' = true -> Get s' x y = Lava ->
  (forall i j, adjacent x y i j -> Get s' i j <> Water) ->
  GetTemperature s' x y = 20 /\ Get (Update s') x y = Stone.
Proof.
  intros Hr. cbv zeta. intros Hd Hlava Hdry.
  destruct (reachable_inv s Hr) as (Hwf & _).
  destruct (reachable_inv _ (reach_LoadFromFile (Some contents) s Hr))
    as (Hwf' & Hb' & _).
  pose proof (LoadFromFile_GetTemperature contents s x y Hwf) as Ht.
  split; [done|]. apply Update_lava_cools; [done..|lia].
Qed.

(** ** Rendering *)

Lemma Draw_unfold s :
  Draw s = foldl (fun acc c => draw_cell (fst c) (snd c) acc) ([], s) (all_cells s).
Proof. unfold Draw, all_cells. by rewrite for_each_nested. Qed.

Lemma skip_draws_advance k s : advance (skip_draws k s) = skip_draws (S k) s.
Proof. unfold advance, skip_draws. simpl. f_equal. lia. Qed.

(** One step of [Draw], on a state that differs from [s] by draws only. *)
Lemma draw_cell_spec x y out k s :
  draw_cell x y (out, skip_draws k s)
  = if decide (Get s x y = Empty) then (out, skip_draws k s)
    else
      (out ++ [mkRectangle (x * CELL_SIZE) (y * CELL_SIZE) CELL_SIZE CELL_SIZE
                 (drawn_color (Get s x y) (randSeq s (randCalls s + k)))],
       skip_draws (if decide (flickers (Get s x y)) then S k else k) s).
Proof.
  unfold draw_cell. change (Get (skip_draws k s) x y) with (Get s x y).
  case_bool_decide as He; [by rewrite decide_True|]. rewrite decide_False by done.
  unfold rand, flickers, next_draw.
  destruct (Get s x y); try done; cbv beta iota zeta;
    rewrite ?skip_draws_advance;
    (rewrite decide_True by tauto) || (rewrite decide_False by intuition discriminate);
    reflexivity.
Qed.

Lemma Draw_spec s :
  snd (Draw s)
  = skip_draws (length (filter (fun c => flickers (Get s (fst c) (snd c)))
                          (all_cells s))) s
  /\ Forall2 (fun c rect =>
       exists n, rect = mkRectangle (fst c * CELL_SIZE) (snd c * CELL_SIZE)
                          CELL_SIZE CELL_SIZE
                          (drawn_color (Get s (fst c) (snd c)) (randSeq s n)))
       (drawn_cells s) (fst (Draw s)).
Proof.
  rewrite Draw_unfold. unfold drawn_cells.
  enough ((fun done acc =>
     snd acc = skip_draws (length (filter (fun c => flickers (Get s (fst c) (snd c)))
                                     done)) s
     /\ Forall2 (fun c rect =>
          exists n, rect = mkRectangle (fst c * CELL_SIZE) (snd c * CELL_SIZE)
                             CELL_SIZE CELL_SIZE
                             (drawn_color (Get s (fst c) (snd c)) (randSeq s n)))
          (filter (fun c => Get s (fst c) (snd c) <> Empty) done) (fst acc))
    (all_cells s)
    (foldl (fun acc c => draw_cell (fst c) (snd c) acc) ([], s) (all_cells s)))
    as H by exact H.
  apply foldl_invariant.
  { split; [|constructor]. unfold skip_draws. destruct s. simpl. f_equal. lia. }
  intros done [x y] rest [out s'] _ [Hs Hout]. simpl in Hs, Hout. subst s'.
  cbn [fst snd]. rewrite draw_cell_spec, !filter_app, !filter_cons, !filter_nil.
  cbn [fst snd]. rewrite length_app.
  destruct (decide (Get s x y = Empty)) as [He|Hne].
  - rewrite decide_False by (rewrite He; unfold flickers; intuition discriminate).
    rewrite decide_False by tauto. simpl. rewrite !app_nil_r, Nat.add_0_r. done.
  - rewrite (decide_True (P := Get s x y <> Empty)) by done. simpl. split.
    + case_decide; simpl; f_equal; lia.
    + apply Forall2_app; [done|]. constructor; [|constructor]. eauto.
Qed.

Lemma to_uchar_small v : 0 <= v < 256 -> to_uchar v = v.
Proof. apply Z.mod_small. Qed.

Lemma drawn_color_shade p r : 0 <= r -> shade_of p (drawn_color p r).
Proof.
  intros Hr.
  pose proof (Z.rem_bound_pos r 50 Hr ltac:(lia)) as H50.
  pose proof (Z.rem_bound_pos r 30 Hr ltac:(lia)) as H30.
  pose proof (Z.rem_bound_pos r 80 Hr ltac:(lia)) as H80.
  pose proof (Z.quot_pos (Z.rem r 50) 2 ltac:(lia) ltac:(lia)) as Hq0.
  pose proof (Z.quot_lt_upper_bound (Z.rem r 50) 2 25 ltac:(lia) ltac:(lia)
                ltac:(lia)) as Hq1.
  destruct p; try reflexivity; unfold shade_of, drawn_color; simpl;
    rewrite ?to_uchar_small by lia; lia.
Qed.

(** X19.  [Draw] changes nothing in the grid but consumes one draw of the
    stream shared with the simulation for each cell that holds Fire,
    Lava, Steam or Smoke; it makes one call of [DrawRectangle] for each
    cell that is not Empty. *)
Theorem Draw_consumes_draws (s : ParticleGrid) :
  let flickering :=
    filter (fun c => flickers (Get s (fst c) (snd c))) (all_cells s) in
  snd (Draw s) = skip_draws (length flickering) s
  /\ (forall x y, Get (snd (Draw s)) x y = Get s x y
                  /\ GetTemperature (snd (Draw s)) x y = GetTemperature s x y)
  /\ randCalls (snd (Draw s)) = (randCalls s + length flickering)%nat
  /\ length (fst (Draw s)) = length (drawn_cells s).
Proof.
  cbv zeta. destruct (Draw_spec s) as [Hs Hout].
  split; [done|]. rewrite Hs. split; [done|]. split; [done|].
  symmetry. by apply Forall2_length in Hout.
Qed.

(** X20.  With draws that are not negative, as those of [rand()], [Draw] paints
    the cells that are not Empty, in row-major order, each as the square
    of side [CELL_SIZE] at its place and in a shade of its particle: the
    colour of the table for the steady kinds; for Fire red 255 and green
    from 116 to 140, for Lava red from 226 to 255, for Steam alpha from
    100 to 179, for Smoke alpha from 150 to 199.  No channel wraps
    around, and every square lies inside the area of the grid. *)
Theorem Draw_paints (s : ParticleGrid) :
  draws_nonnegative s ->
  Forall2 (paints s) (drawn_cells s) (fst (Draw s))
  /\ Forall (fun rect =>
        0 <= rect_x rect /\ rect_x rect + rect_w rect <= width s * CELL_SIZE
        /\ 0 <= rect_y rect /\ rect_y rect + rect_h rect <= height s * CELL_SIZE)
       (fst (Draw s)).
Proof.
  intros Hpos. destruct (Draw_spec s) as [_ Hout]. split.
  - eapply Forall2_impl; [exact Hout|].
    intros c rect [n ->]. unfold paints. simpl.
    split; [done|]. split; [done|]. split; [done|]. split; [done|].
    apply drawn_color_shade, Hpos.
  - eapply Forall2_Forall_r; [exact Hout|].
    apply Forall_forall. intros [x y] Hc rect [n ->].
    unfold drawn_cells in Hc. apply list_elem_of_filter in Hc as [_ Hc].
    unfold all_cells in Hc. apply elem_of_cells in Hc as [Hx Hy].
    apply elem_of_seqZ in Hx, Hy. unfold CELL_SIZE. simpl. lia.
Qed.

(** ** The controls of the main loop *)

Lemma key_speeds_closed :
  Forall (fun ts => speed_up ts ∈ key_speeds /\ speed_down ts ∈ key_speeds)
         key_speeds.
Proof. apply (bool_decide_unpack _). by vm_compute. Qed.

Lemma speed_reachable_key_speeds ts : speed_reachable ts -> ts ∈ key_speeds.
Proof.
  pose proof key_speeds_closed as Hclosed. rewrite Forall_forall in Hclosed.
  induction 1 as [|ts _ IH|ts _ IH].
  - apply (bool_decide_unpack _). by vm_compute.
  - by apply Hclosed.
  - by apply Hclosed.
Qed.

(** X21.  Whatever the sequence of presses of the speed keys, the time scale
    stays between [0.1f] and [4.0f], and the number of frames per tick is
    1, 2, 4, 9 or 10; it is 1 for every time scale from 1.0 up: raising
    the time scale above 1.0 does not make the simulation faster. *)
Theorem speed_keys_bounded (gs : GameState) :
  speed_reachable (timeSpeed gs) ->
  SFleb f32_tenth (timeSpeed gs) = true
  /\ SFleb (timeSpeed gs) f32_four = true
  /\ (skipFrames gs = 1 \/ skipFrames gs = 2 \/ skipFrames gs = 4
      \/ skipFrames gs = 9 \/ skipFrames gs = 10)
  /\ (SFleb f32_one (timeSpeed gs) = true -> skipFrames gs = 1).
Proof.
  intros Hr. apply speed_reachable_key_speeds in Hr.
  destruct gs as [paused ts fc]. unfold skipFrames. simpl in *.
  revert ts Hr. apply Forall_forall.
  apply (bool_decide_unpack _). by vm_compute.
Qed.

(** X22.  Whatever the mouse wheel reports, the brush size stays one of the
    values 1, 3, 5 and 7 of the enumerators of [BrushSize], so that the
    radius of the brush of [AddParticle] is 0, 1, 2 or 3. *)
Theorem brush_stays_named (b : Z) :
  brush_reachable b ->
  named_brush b /\ 0 <= Z.quot b 2 <= 3.
Proof.
  intros Hr. assert (named_brush b) as Hn.
  { induction Hr as [|wheelMove showMenu b _ IH]; [by left|].
    unfold wheel_brush, named_brush in *.
    destruct (negb (SFeqb wheelMove (S754_zero false)) && negb showMenu);
      [|done].
    cbv zeta. rewrite wrap_int_add_r.
    set (c := wrap_int (b + float_to_int wheelMove * 2)).
    assert (Z.odd c = true) as Hodd.
    { unfold c. rewrite <- Z.negb_even, wrap_int_even.
      rewrite (Z.mul_comm _ 2), Z.even_add_mul_2.
      by destruct IH as [->|[->|[->| ->]]]. }
    apply Z.odd_spec in Hodd as [m Hm]. lia. }
  split; [done|].
  destruct Hn as [->|[->|[->| ->]]]; by vm_compute.
Qed.

(** ** Frames under pause *)

Lemma skip_draws_skip_draws a b s :
  skip_draws a (skip_draws b s) = skip_draws (b + a) s.
Proof. unfold skip_draws. simpl. f_equal. lia. Qed.

Lemma flickering_cells_skip_draws k s :
  flickering_cells (skip_draws k s) = flickering_cells s.
Proof. reflexivity. Qed.

(** X23.  While the simulation is paused a frame changes nothing in the state
    but the position in the stream of draws, which [Draw] advances by one
    for each cell that holds Fire, Lava, Steam or Smoke: after [n] paused
    frames the cells, the temperatures and the frame counter are as
    before, and [n] times that many draws are gone. *)
Theorem paused_frames_consume_draws (s : ParticleGrid) (n : nat) :
  isPaused (gameState s) = true ->
  Nat.iter n idle_frame s = skip_draws (n * length (flickering_cells s)) s.
Proof.
  intros Hp. induction n as [|n IH].
  - simpl. unfold skip_draws. destruct s. simpl. f_equal. lia.
  - simpl Nat.iter. rewrite IH. unfold idle_frame.
    assert (Update (skip_draws (n * length (flickering_cells s)) s)
            = skip_draws (n * length (flickering_cells s)) s) as ->.
    { unfold Update. simpl. by rewrite Hp. }
    destruct (Draw_spec (skip_draws (n * length (flickering_cells s)) s))
      as [-> _].
    fold (flickering_cells (skip_draws (n * length (flickering_cells s)) s)).
    rewrite flickering_cells_skip_draws, skip_draws_skip_draws.
    f_equal. lia.
Qed.

(** ** Locality of the rules *)

Ltac effects_local :=
  cbv beta iota zeta; norm_Get;
  repeat (case_condition; cbv beta iota zeta; norm_Get); bool_hyps; try done;
  effects_steps; unfold within_reach; try done; try lia.

Lemma UpdateWater_local x y s :
  effects (fun i j _ => within_reach x y i j) (fun i j _ => within_reach x y i j)
    s (UpdateWater x y s).
Proof. unfold UpdateWater, CanMoveDown, CanMoveSide, rand_dir, rand. effects_local. Qed.

Lemma UpdateSand_local x y s :
  effects (fun i j _ => within_reach x y i j) (fun i j _ => within_reach x y i j)
    s (UpdateSand x y s).
Proof. unfold UpdateSand, CanMoveDown, rand_dir, rand. effects_local. Qed.

Lemma UpdateLava_local x y s :
  effects (fun i j _ => within_reach x y i j) (fun i j _ => within_reach x y i j)
    s (UpdateLava x y s).
Proof. unfold UpdateLava, CanMoveDown, CanMoveSide, rand_dir, rand. effects_local. Qed.

Lemma UpdateSteam_local x y s :
  effects (fun i j _ => within_reach x y i j) (fun i j _ => within_reach x y i j)
    s (UpdateSteam x y s).
Proof. unfold UpdateSteam, rand_dir, rand. effects_local. Qed.

Lemma UpdateAcid_local x y s :
  effects (fun i j _ => within_reach x y i j) (fun i j _ => within_reach x y i j)
    s (UpdateAcid x y s).
Proof. unfold UpdateAcid, CanMoveDown, CanMoveSide, rand_dir, rand. effects_local. Qed.

Lemma UpdateOil_local x y s :
  effects (fun i j _ => within_reach x y i j) (fun i j _ => within_reach x y i j)
    s (UpdateOil x y s).
Proof. unfold UpdateOil, CanMoveDown, CanMoveSide, rand_dir, rand. effects_local. Qed.

Lemma UpdateFire_local x y s :
  effects (fun i j _ => within_reach x y i j) (fun i j _ => within_reach x y i j)
    s (UpdateFire x y s).
Proof. unfold UpdateFire, rand_dir, rand. effects_local. Qed.

Lemma UpdateSmoke_local x y s :
  draws_nonnegative s ->
  effects (fun i j _ => within_reach x y i j) (fun i j _ => within_reach x y i j)
    s (UpdateSmoke x y s).
Proof.
  intros Hpos. unfold UpdateSmoke, rand_dir, rand, next_draw.
  cbv beta iota zeta; norm_Get.
  repeat (case_condition; cbv beta iota zeta; norm_Get); bool_hyps; try done;
  effects_steps; unfold within_reach; try done; try lia.
  all: match goal with
       | |- context [Z.rem (randSeq ?a ?n) 3] =>
           pose proof (Z.rem_bound_pos (randSeq a n) 3 (Hpos n) ltac:(lia))
       end; lia.
Qed.

Lemma within_reach_offset x y c :
  c ∈ neighbour_offsets -> within_reach x y (x + fst c) (y + snd c).
Proof.
  intros Hc. apply neighbour_offsets_cases in Hc. unfold within_reach. lia.
Qed.

Lemma within_reach_self x y : within_reach x y x y.
Proof. unfold within_reach. lia. Qed.

Lemma within_reach_sym x0 y0 x y : within_reach x0 y0 x y -> within_reach x y x0 y0.
Proof. unfold within_reach. lia. Qed.

Lemma Acid_scan_local offs x y s0 s :
  (forall c, c ∈ offs -> c ∈ neighbour_offsets) ->
  effects (fun i j _ => within_reach x y i j) (fun i j _ => within_reach x y i j)
    s0 s ->
  effects (fun i j _ => within_reach x y i j) (fun i j _ => within_reach x y i j)
    s0 (snd (Acid_scan offs x y s)).
Proof.
  revert s. induction offs as [|[dx dy] offs IH]; intros s Hoffs Hw; simpl; [done|].
  assert (forall c, c ∈ offs -> c ∈ neighbour_offsets) as Hoffs'
    by (intros c Hc; apply Hoffs; by apply list_elem_of_further).
  destruct ((0 <? x + dx) && (x + dx <? width s - 1) && (0 <? y + dy)
            && (y + dy <? height s - 2)); [|by apply IH].
  destruct (bool_decide (Get s (x + dx) (y + dy) = Sand)
            || bool_decide (Get s (x + dx) (y + dy) = Ice)); [|by apply IH].
  pose proof (within_reach_offset x y (dx, dy) (Hoffs _ (list_elem_of_here _ _)))
    as Hnear.
  pose proof (within_reach_self x y) as Hself.
  destruct (Z.rem _ 8 =? 0); simpl.
  - by effects_steps.
  - apply IH; [done | by effects_steps].
Qed.

Lemma ProcessReactions_local x y s :
  effects (fun i j _ => within_reach x y i j) (fun i j _ => within_reach x y i j)
    s (snd (ProcessReactions x y s)).
Proof.
  pose proof (within_reach_self x y) as Hself.
  unfold ProcessReactions, rand.
  destruct (Get s x y) eqn:Hcur; cbv beta iota zeta;
    try apply effects_refl;
    try (apply Acid_scan_local; [done | apply effects_refl]);
    repeat (case_condition; cbv beta iota zeta); cbn [snd];
    repeat first
      [ apply effects_refl
      | apply effects_rand
      | apply effects_next
      | apply ReplaceNeighbor_effects;
        [intros c Hc _; by apply within_reach_offset|] ];
    done.
Qed.

(** With draws that are not negative, the rule of a cell writes within
    its 3 by 3 neighbourhood only. *)
Lemma update_cell_local x y s :
  draws_nonnegative s ->
  effects (fun i j _ => within_reach x y i j) (fun i j _ => within_reach x y i j)
    s (update_cell x y s).
Proof.
  intros Hpos. unfold update_cell. cbv zeta.
  case_bool_decide; [apply effects_refl|].
  pose proof (ProcessReactions_local x y s) as Hr.
  destruct (ProcessReactions x y s) as [reacted s1]. simpl in Hr.
  destruct reacted; [done|].
  assert (draws_nonnegative s1) as Hpos1.
  { destruct (writes_grid _ _ _ (effects_writes _ _ _ _ Hr)) as (_ & _ & Hseq).
    intros n. rewrite Hseq. apply Hpos. }
  destruct (Get s x y) eqn:Hp; try done; (eapply effects_trans; [exact Hr|]).
  - apply UpdateSand_local.
  - apply UpdateWater_local.
  - apply UpdateLava_local.
  - apply UpdateSteam_local.
  - apply UpdateAcid_local.
  - apply UpdateOil_local.
  - apply UpdateFire_local.
  - by apply UpdateSmoke_local.
Qed.

Lemma scan_local s i j :
  wf s -> draws_nonnegative s ->
  (forall a b, within_reach i j a b -> inert (Get s a b)) ->
  randSeq (scan s) = randSeq s
  /\ GetNext (scan s) i j = GetNext (snapshot s) i j.
Proof.
  intros Hwf Hpos Hinert.
  apply (scan_invariant s
           (fun _ s' => randSeq s' = randSeq s
                        /\ GetNext s' i j = GetNext (snapshot s) i j));
    [done..|].
  intros done [cx cy] rest s' _ Hwf' HG [Hseq Hnext]. simpl.
  pose proof (update_cell_writes cx cy s') as Hw. split.
  - destruct (writes_grid _ _ _ Hw) as (_ & _ & ->). exact Hseq.
  - destruct (decide (within_reach i j cx cy)) as [Hnear|Hfar].
    + rewrite update_cell_inert; [done|]. rewrite HG. by apply Hinert.
    + assert (draws_nonnegative s') as Hpos'
        by (intros n; rewrite Hseq; apply Hpos).
      destruct (writes_GetNext _ _ _ Hwf'
                  (effects_writes _ _ _ _ (update_cell_local cx cy s' Hpos')) i j)
        as [->|Hreach]; [done|].
      by apply within_reach_sym in Hreach.
Qed.

(** X24.  The rules act at distance 1 at most.  With draws that are not
    negative, as those of [rand()], a cell whose 3 by 3 neighbourhood
    holds only Empty, Stone and Obsidian is unchanged by [Update],
    whatever the rest of the grid holds. *)
Theorem Update_is_local (s : ParticleGrid) (i j : Z) :
  reachable s -> draws_nonnegative s ->
  (forall a b, within_reach i j a b -> inert (Get s a b)) ->
  Get (Update s) i j = Get s i j.
Proof.
  intros Hr Hpos Hinert. destruct (reachable_inv s Hr) as (Hwf & Hb & _).
  destruct (Update_cases s) as [->|[->|[_ ->]]]; [done..|].
  pose proof (count_frame_wf s Hwf) as Hwf1.
  destruct (tick_buffers (count_frame s) Hwf1) as (_ & HG & _).
  rewrite HG. destruct (scan_local (count_frame s) i j Hwf1 Hpos Hinert) as [_ ->].
  by rewrite snapshot_GetNext_border.
Qed.

(** ** The next buffer between ticks *)

(** X25.  The next buffer is scratch space: a call of [Update] that performs
    its tick overwrites it before reading it, so that the state after the
    call does not depend on what the next buffer held. *)
Theorem next_buffer_is_scratch (s : ParticleGrid) (g : list Particle) :
  wf s -> length g = length (nextGrid s) -> tick_due s = true ->
  Update (with_nextGrid g s) = Update s.
Proof.
  intros Hwf Hlen Hd.
  assert (wf (with_nextGrid g s)) as Hwf'.
  { destruct Hwf as [? ? ? Hn ?]. constructor; simpl; try done. by rewrite Hlen. }
  rewrite (Update_due s Hd), (Update_due (with_nextGrid g s) Hd).
  rewrite !tick_unfold by (by apply count_frame_wf). reflexivity.
Qed.

(** ** Sand falls and rests *)

Ltac effects_enter Hp :=
  cbv beta iota zeta; norm_Get;
  repeat (case_condition; cbv beta iota zeta; norm_Get); bool_hyps; try done;
  effects_steps; try done; unfold rule_enter; norm_Get; rewrite ?Hp;
  simpl moves_to;
  first [ tauto
        | left; split; lia
        | right; left; congruence
        | right; right; split; [reflexivity | lia] ].

Lemma UpdateSand_enter x y s :
  Get s x y = Sand ->
  effects (rule_enter s x y) (fun _ _ _ => True) s (UpdateSand x y s).
Proof. intros Hp. unfold UpdateSand, CanMoveDown, rand_dir, rand. effects_enter Hp. Qed.

Lemma UpdateWater_enter x y s :
  Get s x y = Water ->
  effects (rule_enter s x y) (fun _ _ _ => True) s (UpdateWater x y s).
Proof.
  intros Hp. unfold UpdateWater, CanMoveDown, CanMoveSide, rand_dir, rand.
  effects_enter Hp.
Qed.

Lemma UpdateLava_enter x y s :
  Get s x y = Lava ->
  effects (rule_enter s x y) (fun _ _ _ => True) s (UpdateLava x y s).
Proof.
  intros Hp. unfold UpdateLava, CanMoveDown, CanMoveSide, rand_dir, rand.
  effects_enter Hp.
Qed.

Lemma UpdateSteam_enter x y s :
  Get s x y = Steam ->
  effects (rule_enter s x y) (fun _ _ _ => True) s (UpdateSteam x y s).
Proof. intros Hp. unfold UpdateSteam, rand_dir, rand. effects_enter Hp. Qed.

Lemma UpdateAcid_enter x y s :
  Get s x y = Acid ->
  effects (rule_enter s x y) (fun _ _ _ => True) s (UpdateAcid x y s).
Proof.
  intros Hp. unfold UpdateAcid, CanMoveDown, CanMoveSide, rand_dir, rand.
  effects_enter Hp.
Qed.

Lemma UpdateOil_enter x y s :
  Get s x y = Oil ->
  effects (rule_enter s x y) (fun _ _ _ => True) s (UpdateOil x y s).
Proof.
  intros Hp. unfold UpdateOil, CanMoveDown, CanMoveSide, rand_dir, rand.
  effects_enter Hp.
Qed.

Lemma UpdateFire_enter x y s :
  Get s x y = Fire ->
  effects (rule_enter s x y) (fun _ _ _ => True) s (UpdateFire x y s).
Proof. intros Hp. unfold UpdateFire, rand_dir, rand. effects_enter Hp. Qed.

Lemma UpdateSmoke_enter x y s :
  Get s x y = Smoke ->
  effects (rule_enter s x y) (fun _ _ _ => True) s (UpdateSmoke x y s).
Proof. intros Hp. unfold UpdateSmoke, rand_dir, rand. effects_enter Hp. Qed.

Lemma rule_enter_ext s1 s2 x0 y0 x y p :
  (forall i j, Get s1 i j = Get s2 i j) ->
  rule_enter s1 x0 y0 x y p -> rule_enter s2 x0 y0 x y p.
Proof. intros H. unfold rule_enter. by rewrite !H. Qed.

Lemma Acid_scan_enter offs x y s0 s :
  (forall i j, Get s i j = Get s0 i j) ->
  effects (rule_enter s0 x y) (fun _ _ _ => True) s0 s ->
  effects (rule_enter s0 x y) (fun _ _ _ => True) s0 (snd (Acid_scan offs x y s)).
Proof.
  revert s. induction offs as [|[dx dy] offs IH]; intros s HG Hw; simpl; [done|].
  destruct ((0 <? x + dx) && (x + dx <? width s - 1) && (0 <? y + dy)
            && (y + dy <? height s - 2)); [|by apply IH].
  destruct (bool_decide (Get s (x + dx) (y + dy) = Sand)
            || bool_decide (Get s (x + dx) (y + dy) = Ice)) eqn:Hm;
    [|by apply IH].
  assert (rule_enter s0 x y (x + dx) (y + dy) Empty) as Hrule.
  { unfold rule_enter. right. left. rewrite <- (HG (x + dx) (y + dy)).
    bool_hyps; congruence. }
  assert (rule_enter s0 x y x y Empty) as Hown by (by left).
  destruct (Z.rem _ 8 =? 0); simpl.
  - by effects_steps.
  - apply IH; [intros; norm_Get; apply HG | by effects_steps].
Qed.

Lemma ProcessReactions_enter x y s :
  effects (rule_enter s x y) (fun _ _ _ => True) s (snd (ProcessReactions x y s)).
Proof.
  assert (forall p, rule_enter s x y x y p) as Hown by (by left).
  unfold ProcessReactions, rand.
  destruct (Get s x y) eqn:Hcur; cbv beta iota zeta;
    try apply effects_refl;
    try (apply Acid_scan_enter; [done | apply effects_refl]);
    repeat (case_condition; cbv beta iota zeta); cbn [snd];
    repeat first
      [ apply effects_refl
      | apply effects_rand
      | apply effects_next
      | apply ReplaceNeighbor_effects;
        [intros c Hc Hij; norm_Get; unfold rule_enter; right; left; congruence|] ];
    done.
Qed.

(** The rule of a cell writes into an Empty cell only its own particle,
    moving there. *)
Lemma update_cell_enter x y s :
  effects (rule_enter s x y) (fun _ _ _ => True) s (update_cell x y s).
Proof.
  unfold update_cell. cbv zeta. case_bool_decide; [apply effects_refl|].
  pose proof (ProcessReactions_enter x y s) as Hr.
  destruct (ProcessReactions x y s) as [reacted s1]. simpl in Hr.
  destruct reacted; [done|].
  pose proof (effects_Get _ _ _ _ Hr) as HG.
  assert (forall s2, effects (rule_enter s1 x y) (fun _ _ _ => True) s1 s2 ->
                     effects (rule_enter s x y) (fun _ _ _ => True) s s2) as Hlift.
  { intros s2 H2. eapply effects_trans; [exact Hr|].
    apply (effects_mono (rule_enter s1 x y) (rule_enter s x y)
             (fun _ _ _ => True) (fun _ _ _ => True)); [|done|exact H2].
    intros i j p. by apply rule_enter_ext. }
  destruct (Get s x y) eqn:Hp; try done; apply Hlift.
  - apply UpdateSand_enter. by rewrite HG.
  - apply UpdateWater_enter. by rewrite HG.
  - apply UpdateLava_enter. by rewrite HG.
  - apply UpdateSteam_enter. by rewrite HG.
  - apply UpdateAcid_enter. by rewrite HG.
  - apply UpdateOil_enter. by rewrite HG.
  - apply UpdateFire_enter. by rewrite HG.
  - apply UpdateSmoke_enter. by rewrite HG.
Qed.

(** *** The order of the scan *)

Lemma StronglySorted_reverse {A} (R : relation A) (l : list A) :
  StronglySorted R l -> StronglySorted (flip R) (reverse l).
Proof.
  induction 1 as [|x l Hl IH Hx]; [constructor|].
  rewrite reverse_cons. apply StronglySorted_app_2; [|exact IH|].
  - intros a b Ha Hb. apply list_elem_of_singleton in Hb. subst b.
    rewrite elem_of_reverse in Ha. rewrite Forall_forall in Hx.
    unfold flip. by apply Hx.
  - repeat constructor.
Qed.

Lemma cells_scan_sorted ys xs :
  StronglySorted (flip Z.lt) ys -> StronglySorted Z.lt xs ->
  StronglySorted scanned_before (cells ys xs).
Proof.
  intros Hys Hxs. induction Hys as [|y ys Hys IH Hy]; [constructor|].
  change (cells (y :: ys) xs) with (map (fun x => (x, y)) xs ++ cells ys xs).
  apply StronglySorted_app_2; [| |exact IH].
  - intros [a b] [c d] Hin1 Hin2.
    apply list_elem_of_fmap in Hin1 as (x0 & Heq & _). inversion Heq; subst.
    apply elem_of_cells in Hin2 as [_ Hd].
    left. simpl. rewrite Forall_forall in Hy. by apply Hy.
  - clear -Hxs. induction Hxs as [|x xs Hxs IH Hx]; [constructor|].
    simpl. constructor; [exact IH|].
    apply Forall_forall. intros [a b] Hin.
    apply list_elem_of_fmap in Hin as (x0 & Heq & Hx0). inversion Heq; subst.
    right. simpl. split; [done|]. rewrite Forall_forall in Hx. by apply Hx.
Qed.

Lemma scan_cells_sorted s : StronglySorted scanned_before (scan_cells s).
Proof.
  apply cells_scan_sorted; [|apply seqZ_sorted].
  apply StronglySorted_reverse, seqZ_sorted.
Qed.

(** What the scan has visited was visited before the cell at hand. *)
Lemma scan_visited_before s done c rest d :
  scan_cells s = done ++ c :: rest -> d ∈ done -> scanned_before d c.
Proof.
  intros Hsplit Hd. pose proof (scan_cells_sorted s) as Hs. rewrite Hsplit in Hs.
  eapply StronglySorted_app_1_elem_of; [exact Hs | exact Hd |].
  apply list_elem_of_here.
Qed.

Lemma update_cell_sand_falls x y s :
  Get s x y = Sand -> Get s x (y + 1) = Empty ->
  update_cell x y s = SetNext x y Empty (SetNext x (y + 1) Sand s).
Proof.
  intros Hsand Hbelow. unfold update_cell. cbv zeta.
  rewrite Hsand, ProcessReactions_Sand by done. simpl.
  unfold UpdateSand, CanMoveDown. cbv zeta. rewrite Hbelow. simpl.
  rewrite Get_SetNext, Hbelow. done.
Qed.

Lemma update_cell_sand_rests x y s :
  Get s x y = Sand -> Get s x (y + 1) <> Empty ->
  (forall d, d = -1 \/ d = 1 ->
     Get s (x + d) (y + 1) <> Empty /\ Get s (x + d) (y + 1) <> Steam) ->
  update_cell x y s = advance s.
Proof.
  intros Hsand Hbelow Hdiag. unfold update_cell. cbv zeta.
  rewrite Hsand, ProcessReactions_Sand by done. simpl.
  unfold UpdateSand, CanMoveDown, rand_dir, rand. cbv zeta.
  rewrite bool_decide_eq_false_2 by done.
  rewrite Hsand. simpl. rewrite andb_false_r.
  destruct (Hdiag (-1)) as [? ?]; [by left|].
  destruct (Hdiag 1) as [? ?]; [by right|].
  replace (x - 1) with (x + -1) by lia. replace (x - -1) with (x + 1) by lia.
  destruct (Z.rem (next_draw s) 2 =? 0); norm_Get;
    by rewrite !bool_decide_eq_false_2.
Qed.

(** X26.  A grain of sand falls.  At a call of [Update] that performs its
    tick, a Sand cell over an Empty cell is Empty afterwards and the cell
    below it holds Sand, whatever surrounds them and whatever is drawn. *)
Theorem sand_falls (s : ParticleGrid) (x y : Z) :
  reachable s -> tick_due s = true ->
  Get s x y = Sand -> Get s x (y + 1) = Empty ->
  Get (Update s) x y = Empty /\ Get (Update s) x (y + 1) = Sand.
Proof.
  intros Hr Hd Hsand Hbelow. destruct (reachable_inv s Hr) as (Hwf & Hb & _).
  split.
  - apply (Update_own_rule s x y (fun p => p = Empty));
      [done..|by rewrite Hsand|by rewrite Hsand|by rewrite Hsand| |].
    + intros s' Hwf' HG _.
      rewrite update_cell_sand_falls by (by rewrite HG).
      apply GetNext_SetNext_same; [by apply SetNext_wf|].
      apply (same_shape_in_range s'); [apply same_shape_SetNext|].
      apply (in_range_ext s); [done | by rewrite Hsand].
    + intros x0 y0 p _ [(Hw & _)|[(Ho & _)|(_ & -> & _)]]; [congruence..|done].
  - rewrite Update_due by done.
    pose proof (count_frame_wf s Hwf) as Hwf1.
    destruct (tick_buffers (count_frame s) Hwf1) as (_ & HG1 & _). rewrite HG1.
    assert ((x, y) ∈ scan_cells (count_frame s)) as Hcell
      by (apply (interior_scan_cell s); [done..|by rewrite Hsand]).
    enough ((fun done s' => ((x, y) ∈ done) -> GetNext s' x (y + 1) = Sand)
              (scan_cells (count_frame s)) (scan (count_frame s))) as H
      by (by apply H).
    apply scan_invariant; [done | |].
    { intros Hin. by apply elem_of_nil in Hin. }
    intros done [cx cy] rest s' Hsplit Hwf' HG IH Hin. simpl.
    change (Get (count_frame s)) with (Get s) in HG.
    destruct (decide ((cx, cy) = (x, y))) as [Heq|Hdiff].
    + inversion Heq; subst cx cy.
      rewrite update_cell_sand_falls by (by rewrite HG).
      rewrite GetNext_SetNext by (by destruct (SetNext_wf x (y + 1) Sand s' Hwf')).
      rewrite decide_False by lia.
      apply GetNext_SetNext_same; [done|].
      apply (in_range_ext s); [done | by rewrite Hbelow].
    + apply elem_of_app in Hin as [Hin|Hin].
      2: { apply list_elem_of_singleton in Hin. congruence. }
      pose proof (scan_visited_before _ _ _ _ _ Hsplit Hin) as Horder.
      unfold scanned_before in Horder. simpl in Horder.
      destruct (writes_GetNext _ _ _ Hwf'
                  (effects_writes _ _ _ _ (update_cell_enter cx cy s')) x (y + 1))
        as [->|Hw]; [by apply IH|].
      unfold rule_enter in Hw. rewrite !HG in Hw.
      destruct Hw as [[? ?]|[?|[Hp Hm]]]; [lia | done |].
      rewrite Hp. destruct (Get s cx cy); simpl in Hm; try done; try lia.
      all: destruct Hm as [[? ?]|?]; [|lia]; exfalso; apply Hdiff; f_equal; lia.
Qed.

(** X27.  A grain of sand rests.  At a call of [Update] that performs its
    tick, a Sand cell is still Sand afterwards when the cell below it is
    not Empty, the two cells diagonally below it are neither Empty nor
    Steam, and none of its 8 neighbours is Acid.  The cell below may be
    Steam: a grain does not sink into Steam straight down. *)
Theorem sand_rests (s : ParticleGrid) (x y : Z) :
  reachable s -> tick_due s = true ->
  Get s x y = Sand -> Get s x (y + 1) <> Empty ->
  (forall d, d = -1 \/ d = 1 ->
     Get s (x + d) (y + 1) <> Empty /\ Get s (x + d) (y + 1) <> Steam) ->
  (forall i j, adjacent x y i j -> Get s i j <> Acid) ->
  Get (Update s) x y = Sand.
Proof.
  intros Hr Hd Hsand Hbelow Hdiag Hnoacid.
  destruct (reachable_inv s Hr) as (Hwf & Hb & _).
  rewrite Update_due by done.
  pose proof (count_frame_wf s Hwf) as Hwf1.
  destruct (tick_buffers (count_frame s) Hwf1) as (_ & HG1 & _).
  rewrite HG1, scan_keeps, snapshot_GetNext_border; [done..|].
  intros [cx cy] s' _ Hwf' HG. simpl.
  change (Get (count_frame s)) with (Get s) in HG.
  destruct (decide ((cx, cy) = (x, y))) as [Heq|Hdiff].
  - inversion Heq; subst cx cy.
    rewrite update_cell_sand_rests; [done | by rewrite HG..|].
    intros d Hd'. rewrite !HG. by apply Hdiag.
  - destruct (writes_GetNext _ _ _ Hwf'
                (effects_writes _ _ _ _ (update_cell_effects cx cy s')) x y)
      as [->|Hw]; [done|].
    unfold rule_write in Hw. rewrite !HG in Hw.
    destruct Hw as [[-> ->]|[?|[?|[Ha [(Hw & _)|[(Ho & _)|(_ & _ & Hacid)]]]]]];
      [done | congruence.. |].
    apply adjacent_sym in Ha. by apply Hnoacid in Hacid.
Qed.

(** ** Painting twice *)

(** X28.  Painting is idempotent: a second [AddParticle] with the same
    arguments, with no [Update] in between, changes no cell and no
    temperature.  Holding the mouse button over a still grid paints
    once. *)
Theorem AddParticle_idempotent (s : ParticleGrid) (x y : Z) (p : Particle)
    (brush : Z) :
  wf s ->
  let s1 := AddParticle x y p brush s in
  forall i j,
    Get (AddParticle x y p brush s1) i j = Get s1 i j
    /\ GetTemperature (AddParticle x y p brush s1) i j = GetTemperature s1 i j.
Proof.
  intros Hwf. cbv zeta. intros i j.
  pose proof (AddParticle_shape x y p brush s) as Hsh.
  pose proof (same_shape_wf _ _ Hsh Hwf) as Hwf1.
  destruct (AddParticle_cells x y p brush s i j Hwf) as [Hin Hout].
  destruct (AddParticle_cells x y p brush (AddParticle x y p brush s) i j Hwf1)
    as [Hin1 Hout1].
  destruct (decide (painted (AddParticle x y p brush s) x y p brush i j))
    as [Hp1|Hn1]; [|by apply Hout1].
  destruct (Hin1 Hp1) as [-> ->].
  destruct (decide (painted s x y p brush i j)) as [Hp|Hn].
  - destruct (Hin Hp) as [-> ->]. done.
  - exfalso. apply Hn. destruct (Hout Hn) as [HG _].
    destruct Hp1 as (Hbrush & Hpaint & Hfree). split; [done|]. split.
    + unfold paintable in *. destruct Hsh as [Hw Hh _ _ _]. by rewrite <- Hw, <- Hh.
    + by rewrite <- HG.
Qed.

(** * The saved game of [builds.h] *)

Lemma SaveGame_text score builds :
  SaveGame score builds
  = (print_int score ++ String newline (counts_text builds))%string.
Proof.
  unfold SaveGame.
  assert (forall out,
    foldl (fun out b => (out ++ print_int (count b) ++ String newline "")%string)
          out builds
    = (out ++ counts_text builds)%string) as H.
  { induction builds as [|b builds IH]; intros out.
    - simpl. by rewrite string_app_nil_r.
    - simpl. rewrite IH. by rewrite !string_app_assoc. }
  rewrite H. by rewrite string_app_assoc.
Qed.

Lemma read_digits_acc d acc rest :
  starts_with_digit rest = false ->
  read_digits (NilEmpty.string_of_uint d ++ rest) (Z.pos acc)
  = (Z.pos (Pos.of_uint_acc d acc), rest).
Proof.
  intros Hrest. revert acc.
  induction d as [|d IH|d IH|d IH|d IH|d IH|d IH|d IH|d IH|d IH|d IH];
    intros acc; cbn [NilEmpty.string_of_uint String.append read_digits Pos.of_uint_acc].
  { destruct rest as [|c rest]; [done|]. simpl in *. by destruct (digit_value c). }
  all: match goal with
       | |- context [digit_value ?c] =>
           let v := eval vm_compute in (digit_value c) in
           change (digit_value c) with v; cbv iota beta
       end.
  all: match goal with
       | |- read_digits _ ?a = (Z.pos (Pos.of_uint_acc _ ?b), _) =>
           replace a with (Z.pos b) by lia; apply IH
       end.
Qed.

Lemma read_digits_uint d rest :
  starts_with_digit rest = false ->
  read_digits (NilEmpty.string_of_uint d ++ rest) 0 = (Z.of_uint d, rest).
Proof.
  intros Hrest. unfold Z.of_uint.
  induction d as [|d IH|d IH|d IH|d IH|d IH|d IH|d IH|d IH|d IH|d IH];
    cbn [NilEmpty.string_of_uint String.append read_digits Pos.of_uint Z.of_N].
  { destruct rest as [|c rest]; [done|]. simpl in *. by destruct (digit_value c). }
  all: match goal with
       | |- context [digit_value ?c] =>
           let v := eval vm_compute in (digit_value c) in
           change (digit_value c) with v; cbv iota beta
       end.
  { exact IH. }
  all: match goal with
       | |- read_digits _ ?a = (Z.pos (Pos.of_uint_acc _ ?b), _) =>
           replace a with (Z.pos b) by lia; by apply read_digits_acc
       end.
Qed.

Lemma uint_text_head d :
  d <> Decimal.Nil ->
  exists c tail, NilEmpty.string_of_uint d = String c tail
                 /\ isspace c = false /\ Ascii.eqb c "-" = false
                 /\ Ascii.eqb c "+" = false
                 /\ starts_with_digit (String c tail) = true.
Proof. destruct d; [done|..]; intros _; eexists _, _; by repeat split. Qed.

Lemma to_uint_not_Nil p : Pos.to_uint p <> Decimal.Nil.
Proof.
  intros H. pose proof (DecimalPos.Unsigned.of_to p) as Hp.
  rewrite H in Hp. done.
Qed.

Lemma NilZero_to_uint p :
  NilZero.string_of_uint (Pos.to_uint p) = NilEmpty.string_of_uint (Pos.to_uint p).
Proof.
  pose proof (to_uint_not_Nil p). by destruct (Pos.to_uint p).
Qed.

Lemma of_uint_to_uint p : Z.of_uint (Pos.to_uint p) = Z.pos p.
Proof. exact (DecimalZ.of_to (Z.pos p)). Qed.

Lemma starts_with_digit_app a b :
  starts_with_digit a = true -> starts_with_digit (a ++ b)%string = true.
Proof. by destruct a. Qed.

Lemma in_int_range m (rest : string) :
  INT_MIN <= m <= INT_MAX ->
  (if m <? INT_MIN then (INT_MIN, None)
   else if INT_MAX <? m then (INT_MAX, None) else (m, Some rest))
  = (m, Some rest).
Proof.
  intros Hm. destruct (Z.ltb_spec m INT_MIN); [lia|].
  destruct (Z.ltb_spec INT_MAX m); [lia | done].
Qed.

Lemma extract_uint d rest v :
  d <> Decimal.Nil -> starts_with_digit rest = false ->
  INT_MIN <= Z.of_uint d <= INT_MAX ->
  extract_int (Some (NilEmpty.string_of_uint d ++ rest)%string) v
  = (Z.of_uint d, Some rest).
Proof.
  intros Hd Hrest Hrange.
  destruct (uint_text_head d Hd)
    as (c & tail & Htext & Hsp & Hminus & Hplus & Hdigit).
  unfold extract_int. rewrite Htext. cbn [String.append skipws].
  rewrite Hsp, Hminus, Hplus.
  change (String c (tail ++ rest)) with (String c tail ++ rest)%string.
  rewrite starts_with_digit_app by done.
  rewrite <- Htext, read_digits_uint by done.
  by apply in_int_range.
Qed.

Lemma extract_minus_uint d rest v :
  d <> Decimal.Nil -> starts_with_digit rest = false ->
  INT_MIN <= - Z.of_uint d <= INT_MAX ->
  extract_int (Some (String "-" (NilEmpty.string_of_uint d ++ rest))) v
  = (- Z.of_uint d, Some rest).
Proof.
  intros Hd Hrest Hrange.
  destruct (uint_text_head d Hd)
    as (c & tail & Htext & Hsp & Hminus & Hplus & Hdigit).
  unfold extract_int. cbn [skipws].
  change (isspace "-") with false. cbv iota.
  change (Ascii.eqb "-" "-") with true. cbv iota.
  rewrite starts_with_digit_app by (by rewrite Htext).
  rewrite read_digits_uint by done.
  by apply in_int_range.
Qed.

(** Reading back a printed number that is followed by something other
    than a digit. *)
Lemma extract_print n rest v :
  INT_MIN <= n <= INT_MAX -> starts_with_digit rest = false ->
  extract_int (Some (print_int n ++ rest)%string) v = (n, Some rest).
Proof.
  intros Hrange Hrest. unfold print_int.
  destruct n as [|p|p]; cbn [Z.to_int NilZero.string_of_int].
  - by apply (extract_uint (Decimal.D0 Decimal.Nil)).
  - rewrite NilZero_to_uint.
    replace (Z.pos p) with (Z.of_uint (Pos.to_uint p))
      by apply of_uint_to_uint.
    apply extract_uint; [apply to_uint_not_Nil | done |].
    by rewrite of_uint_to_uint.
  - rewrite NilZero_to_uint.
    replace (Z.neg p) with (- Z.of_uint (Pos.to_uint p))
      by (by rewrite of_uint_to_uint).
    apply extract_minus_uint; [apply to_uint_not_Nil | done |].
    by rewrite of_uint_to_uint.
Qed.

Lemma extract_print_line n rest v :
  INT_MIN <= n <= INT_MAX ->
  extract_int (Some (String newline (print_int n ++ String newline rest))) v
  = (n, Some (String newline rest)).
Proof.
  intros Hrange. rewrite <- (extract_print n (String newline rest) v) by done.
  reflexivity.
Qed.

Lemma load_counts_failed builds : load_counts None builds = builds.
Proof.
  induction builds as [|b builds IH]; [done|]. simpl. rewrite IH. by destruct b.
Qed.

Lemma load_counts_saved saved current :
  Forall (fun b => INT_MIN <= count b <= INT_MAX) saved ->
  load_counts (Some (String newline (counts_text saved))) current
  = restore_counts saved current.
Proof.
  intros Hsaved. revert current.
  induction Hsaved as [|sb saved Hsb _ IH]; intros current.
  - destruct current as [|b current]; [done|]. simpl.
    rewrite load_counts_failed. by destruct b.
  - destruct current as [|b current]; [done|].
    cbn [load_counts counts_text restore_counts].
    rewrite extract_print_line by done. by rewrite IH.
Qed.

(** X29.  A game saved and loaded.  When the score and the counts are in the
    range of [int], [LoadGame] reads from the text written by [SaveGame]
    the saved score and, build by build, the saved counts; the other
    fields of the builds are kept, and so are the counts of the builds
    beyond those saved. *)
Theorem SaveGame_LoadGame (score score0 : Z) (saved current : list Build) :
  INT_MIN <= score <= INT_MAX ->
  Forall (fun b => INT_MIN <= count b <= INT_MAX) saved ->
  LoadGame score0 current (Some (SaveGame score saved))
  = (score, restore_counts saved current)
  /\ (length saved = length current ->
      map count (restore_counts saved current) = map count saved)
  /\ map name (restore_counts saved current) = map name current.
Proof.
  intros Hscore Hsaved. split; [|split].
  - unfold LoadGame. rewrite SaveGame_text.
    rewrite extract_print by done. by rewrite load_counts_saved.
  - clear. revert current. induction saved as [|sb saved IH];
      intros [|b current] Hlen; try done.
    simpl. f_equal. apply IH. by inversion Hlen.
  - clear. revert current. induction saved as [|sb saved IH];
      intros [|b current]; try done.
    simpl. f_equal. apply IH.
Qed.

(** X30.  Files that [LoadGame] cannot read.  A file that cannot be opened, and
    a file that is empty or holds only white space, leave the score and
    the builds as they are.  A file whose first field is not a number
    sets the score to 0 and leaves the builds as they are. *)
Theorem LoadGame_unreadable (score : Z) (builds : list Build) :
  LoadGame score builds None = (score, builds)
  /\ (forall contents, skipws contents = EmptyString ->
        LoadGame score builds (Some contents) = (score, builds))
  /\ (forall contents c rest, skipws contents = String c rest ->
        c <> "-"%char -> c <> "+"%char -> digit_value c = None ->
        LoadGame score builds (Some contents) = (0, builds)).
Proof.
  split; [done|]. split.
  - intros contents Hws. unfold LoadGame, extract_int. rewrite Hws.
    by rewrite load_counts_failed.
  - intros contents c rest Hws Hminus Hplus Hdigit.
    unfold LoadGame, extract_int. rewrite Hws.
    apply Ascii.eqb_neq in Hminus, Hplus. rewrite Hminus, Hplus.
    cbn [starts_with_digit]. rewrite Hdigit.
    by rewrite load_counts_failed.
Qed.

(** * Concrete runs *)

Lemma small_grid_reachable : reachable small_grid.
Proof. apply reach_new; lia. Qed.

Lemma tall_grid_reachable : reachable tall_grid.
Proof. apply reach_new; lia. Qed.

Lemma one_grain_reachable : reachable one_grain.
Proof. apply reach_AddParticle, small_grid_reachable. Qed.

Lemma three_grains_reachable : reachable three_grains.
Proof. repeat apply reach_AddParticle. apply small_grid_reachable. Qed.

Lemma steam_beside_water_reachable : reachable steam_beside_water.
Proof. repeat apply reach_AddParticle. apply small_grid_reachable. Qed.

(** Well-formedness of a concrete state, by evaluation. *)
Ltac wf_by_evaluation := constructor; by vm_compute.

(** A decidable statement about a concrete state, by evaluation. *)
Ltac by_evaluation :=
  refine (bool_decide_eq_true_1 _ _); vm_compute; reflexivity.

(** The cells of a 5 by 4 grid, one by one. *)
Ltac each_cell_5x4 s x y Hx Hy :=
  change (width s) with 5 in *; change (height s) with 4 in *;
  assert (x = 0 \/ x = 1 \/ x = 2 \/ x = 3 \/ x = 4) as Hxs by lia;
  assert (y = 0 \/ y = 1 \/ y = 2 \/ y = 3) as Hys by lia;
  destruct Hxs as [->|[->|[->|[->| ->]]]], Hys as [->|[->|[->| ->]]].

Lemma three_grains_border : border_stone three_grains.
Proof.
  intros x y [Hx Hy] Hp. unfold protected in Hp.
  each_cell_5x4 three_grains x y Hx Hy; first [reflexivity | lia].
Qed.

Lemma three_grains_sand_only : sand_only three_grains.
Proof.
  intros x y [Hx Hy] Hp. unfold protected in Hp.
  each_cell_5x4 three_grains x y Hx Hy; first [by left | by right | lia].
Qed.

Lemma one_grain_border : border_stone one_grain.
Proof.
  intros x y [Hx Hy] Hp. unfold protected in Hp.
  each_cell_5x4 one_grain x y Hx Hy; first [reflexivity | lia].
Qed.

Lemma hot_floor_temperatures : temperatures_within 20 1000 hot_floor.
Proof.
  intros x y. unfold GetTemperature.
  destruct (out_of_range hot_floor x y) eqn:Hr; [lia|].
  apply out_of_range_false in Hr. destruct Hr as [Hx Hy].
  each_cell_5x4 hot_floor x y Hx Hy; vm_compute; split; discriminate.
Qed.

(** ** Instances of the theorems *)

(** C9 at the coordinates (-1, 0) of the small grid. *)
Lemma out_of_range_policy_witness :
  ~ (0 <= -1 < width small_grid /\ 0 <= 0 < height small_grid)
  /\ Get small_grid (-1) 0 = Stone
  /\ GetTemperature small_grid (-1) 0 = 20
  /\ Set_ (-1) 0 Sand small_grid = small_grid
  /\ SetTemperature (-1) 0 500 small_grid = small_grid.
Proof.
  assert (~ (0 <= -1 < width small_grid /\ 0 <= 0 < height small_grid)) as H
    by lia.
  split; [exact H|].
  destruct (out_of_range_policy small_grid (-1) 0 H) as (HG & HT & HS & HST).
  split; [exact HG|]. split; [exact HT|]. split; [apply HS | apply HST].
Defined.


(** C4 for Lava at 1000 degrees on the Stone floor: (1000 + 3 * 20) / 4
    is 265, relaxed to 264. *)
Lemma UpdateTemperature_diffuses_witness :
  wf hot_floor /\ temperatures_within INT_MIN INT_MAX hot_floor
  /\ diffused hot_floor 2 1
  /\ GetTemperature (UpdateTemperature hot_floor) 2 1
     = relax (mean_temperature hot_floor
                (reading_at_visit (GetTemperature hot_floor)
                   (GetTemperature (UpdateTemperature hot_floor)) 2 1) 2 1)
  /\ GetTemperature (UpdateTemperature hot_floor) 2 1 = 264.
Proof.
  assert (wf hot_floor) as Hwf by wf_by_evaluation.
  assert (temperatures_within INT_MIN INT_MAX hot_floor) as Hint.
  { intros x y. pose proof (hot_floor_temperatures x y).
    unfold INT_MIN, INT_MAX. lia. }
  assert (diffused hot_floor 2 1) as Hd.
  { unfold diffused. change (width hot_floor) with 5.
    change (height hot_floor) with 4. split; [lia|].
    change (Get hot_floor 2 1) with Lava. discriminate. }
  destruct (UpdateTemperature_diffuses hot_floor 2 1 Hwf Hint)
    as (_ & _ & Hexact & _).
  destruct (Hexact 20 1000) as [_ Hmean];
    [lia | unfold INT_MIN; lia | unfold INT_MAX; lia
    | exact hot_floor_temperatures |].
  split; [exact Hwf|]. split; [exact Hint|]. split; [exact Hd|].
  split; [exact (Hmean Hd) | reflexivity].
Defined.

(** C5 at time scale 0.25, where a tick is due every fourth call: the
    grain stays during three calls and falls at the fourth. *)
Lemma frame_gate_witness :
  wf quarter_grain /\ isPaused (gameState quarter_grain) = false
  /\ INT_MIN <= frameCounter (gameState quarter_grain)
  /\ frameCounter (gameState quarter_grain) + Z.of_nat 3
     + skipFrames (gameState quarter_grain) <= INT_MAX
  /\ skipFrames (gameState quarter_grain) = 4
  /\ ticks_in (Z.to_nat (skipFrames (gameState quarter_grain)))
       (Nat.iter 2 Update quarter_grain) = 1%nat
  /\ tick_due (Nat.iter 2 Update quarter_grain) = false
  /\ tick_due (Nat.iter 3 Update quarter_grain) = true
  /\ Nat.iter 3 Update quarter_grain = Nat.iter 3 count_frame quarter_grain
  /\ Get (Update (Nat.iter 3 Update quarter_grain)) 1 0 = Empty
  /\ Get (Update (Nat.iter 3 Update quarter_grain)) 1 1 = Sand
  /\ GetNext (Update (Nat.iter 3 Update quarter_grain)) 1 0 = Sand.
Proof.
  assert (wf quarter_grain) as Hwf by wf_by_evaluation.
  assert (isPaused (gameState quarter_grain) = false) as Hp by reflexivity.
  assert (INT_MIN <= frameCounter (gameState quarter_grain)) as Hlo
    by (by vm_compute).
  assert (frameCounter (gameState quarter_grain) + Z.of_nat 2
          + skipFrames (gameState quarter_grain) <= INT_MAX) as Hhi2
    by (by vm_compute).
  assert (frameCounter (gameState quarter_grain) + Z.of_nat 3
          + skipFrames (gameState quarter_grain) <= INT_MAX) as Hhi3
    by (by vm_compute).
  pose proof (frame_gate quarter_grain 2 Hwf Hp Hlo Hhi2) as H2. cbv zeta in H2.
  destruct H2 as (_ & _ & _ & Hone & _ & _).
  pose proof (frame_gate quarter_grain 3 Hwf Hp Hlo Hhi3) as H3. cbv zeta in H3.
  destruct H3 as (_ & _ & _ & _ & Hdue & _).
  assert (tick_due (Nat.iter 3 Update quarter_grain) = true) as Hd
    by (by vm_compute).
  destruct (Hdue Hd) as (_ & _ & _ & Hnext & _).
  split; [exact Hwf|]. split; [exact Hp|]. split; [exact Hlo|].
  split; [exact Hhi3|]. split; [by vm_compute|].
  split; [exact Hone|]. split; [by vm_compute|]. split; [exact Hd|].
  split; [by vm_compute|]. split; [by vm_compute|]. split; [by vm_compute|].
  rewrite Hnext. by vm_compute.
Defined.

(** The gate at time scales whose inverse is no [int]: at [1e-10f] the
    quotient is about [1e10], at 0 it is infinite; the conversion gives
    [INT_MIN] and a tick is due at every call. *)
Lemma skipFrames_out_of_range :
  skipFrames (mkGameState false (S754_finite false 14411519 (-57)) 0) = 1
  /\ skipFrames (mkGameState false (S754_zero false) 0) = 1.
Proof. split; reflexivity. Qed.

(** The frame counter at the end of the range of [int]: the increment
    wraps, and at time scale 0.1 none of the next ten calls performs a
    tick. *)
Lemma frame_counter_wraps :
  skipFrames (gameState late_grid) = 10
  /\ frameCounter (gameState (Nat.iter 7 Update late_grid)) = INT_MAX
  /\ frameCounter (gameState (Nat.iter 8 Update late_grid)) = INT_MIN
  /\ ticks_in 10 late_grid = 0%nat.
Proof. repeat split; by vm_compute. Qed.

(** C3 for the grid with three painted grains and for the state one
    tick later: the border is Stone in the current buffer of both; the
    next buffer is Empty at a wall cell before the tick and holds the
    Stone border after it. *)
Lemma border_invariant_witness :
  reachable three_grains /\ reachable (Update three_grains)
  /\ border_stone three_grains /\ border_stone (Update three_grains)
  /\ border_stone (Update (Update three_grains))
  /\ GetNext three_grains 0 0 = Empty
  /\ next_border_stone (Update three_grains)
  /\ GetNext (Update three_grains) 1 0 = Sand.
Proof.
  pose proof three_grains_reachable as Hr.
  assert (reachable (Update three_grains)) as Hr' by (by apply reach_Update).
  pose proof (border_invariant three_grains Hr) as H1.
  destruct H1 as (Hb & Hb1 & _ & Hdue & _).
  pose proof (border_invariant (Update three_grains) Hr') as H2.
  destruct H2 as (_ & Hb2 & _).
  assert (tick_due three_grains = true) as Hd by (by vm_compute).
  destruct (Hdue Hd) as [Hnb Hnext].
  split; [exact Hr|]. split; [exact Hr'|]. split; [exact Hb|].
  split; [exact Hb1|]. split; [exact Hb2|]. split; [by vm_compute|].
  split; [exact Hnb|]. rewrite Hnext. by vm_compute.
Defined.

(** C6 for Lava between two Water cells. *)
Lemma lava_water_witness :
  wf lava_between_water /\ Get lava_between_water 2 0 = Lava
  /\ (exists c, c ∈ neighbour_offsets
        /\ Get lava_between_water (2 + fst c) (0 + snd c) = Water)
  /\ exists c, first_neighbour lava_between_water 2 0 Water = Some c
        /\ fst (ProcessReactions 2 0 lava_between_water) = true.
Proof.
  assert (wf lava_between_water) as Hwf by wf_by_evaluation.
  assert (Get lava_between_water 2 0 = Lava) as Hl by reflexivity.
  assert (exists c, c ∈ neighbour_offsets
            /\ Get lava_between_water (2 + fst c) (0 + snd c) = Water) as Hw.
  { exists (1, 0). split; [by_evaluation | reflexivity]. }
  split; [exact Hwf|]. split; [exact Hl|]. split; [exact Hw|].
  destruct (lava_water lava_between_water 2 0 Hwf Hl Hw)
    as (c & Hc & _ & _ & Hr & _).
  exists c. split; [exact Hc | exact Hr].
Defined.

(** C7 for Acid among Sand, at the start of the scan. *)
Lemma acid_dissolves_witness :
  wf (snapshot acid_among_sand) /\ Get (snapshot acid_among_sand) 2 1 = Acid
  /\ fst (ProcessReactions 2 1 (snapshot acid_among_sand))
     = snd (acid_run zero_draws 0
              (length (acid_targets (snapshot acid_among_sand) 2 1))).
Proof.
  assert (wf (snapshot acid_among_sand)) as Hwf by wf_by_evaluation.
  assert (Get (snapshot acid_among_sand) 2 1 = Acid) as Ha by reflexivity.
  split; [exact Hwf|]. split; [exact Ha|].
  apply (acid_dissolves (snapshot acid_among_sand) 2 1 Hwf Ha).
Defined.

(** C2 for the three grains: the grain at (1, 1) stays, the grains at
    (1, 0) and (2, 0) both go to (2, 1) and merge; at the next tick the
    two grains left stay where they are. *)
Lemma sand_conserved_up_to_merges_witness :
  wf three_grains /\ border_stone three_grains /\ sand_only three_grains
  /\ sand_destinations three_grains = [(1, 1); (2, 1); (2, 1)]
  /\ merges (sand_destinations three_grains) = 1%nat
  /\ (sand_count (Update three_grains) + merges (sand_destinations three_grains)
      = sand_count three_grains)%nat
  /\ tick_due (Update three_grains) = true
  /\ NoDup (sand_destinations (Update three_grains))
  /\ sand_count (Update (Update three_grains)) = sand_count (Update three_grains).
Proof.
  assert (wf three_grains) as Hwf by wf_by_evaluation.
  pose proof three_grains_border as Hb.
  pose proof three_grains_sand_only as Hs.
  pose proof (sand_conserved_up_to_merges three_grains 0 Hwf Hb Hs) as H0.
  cbv zeta in H0. cbn [Nat.iter nat_rect] in H0.
  destruct H0 as (_ & _ & _ & _ & Hdue0).
  pose proof (sand_conserved_up_to_merges three_grains 1 Hwf Hb Hs) as H1.
  cbv zeta in H1. cbn [Nat.iter nat_rect] in H1.
  destruct H1 as (_ & _ & _ & _ & Hdue1).
  assert (tick_due three_grains = true) as Hd0 by (by vm_compute).
  assert (tick_due (Update three_grains) = true) as Hd1 by (by vm_compute).
  destruct (Hdue0 Hd0) as (_ & Hcount & _).
  destruct (Hdue1 Hd1) as (_ & _ & Hnodup).
  assert (NoDup (sand_destinations (Update three_grains))) as Hnd.
  { apply (bool_decide_unpack _). by vm_compute. }
  split; [exact Hwf|]. split; [exact Hb|]. split; [exact Hs|].
  split; [by vm_compute|]. split; [by vm_compute|].
  split; [exact Hcount|]. split; [exact Hd1|].
  split; [exact Hnd|]. apply Hnodup, Hnd.
Defined.

(** C10 for Water beside Steam, at the start of the scan. *)
Lemma sideways_flow_overwrites_steam_witness :
  wf (snapshot steam_beside_water) /\ in_range (snapshot steam_beside_water) 2 1
  /\ CanMoveDown (snapshot steam_beside_water) 2 1 = false
  /\ Get (snapshot steam_beside_water) (2 + -1) 1 = Steam
  /\ flow_side (snapshot steam_beside_water) 2 1 = Some (-1)
  /\ overwrites_side (snapshot steam_beside_water) 2 1 (-1) Water
       (UpdateWater 2 1 (snapshot steam_beside_water)).
Proof.
  assert (wf (snapshot steam_beside_water)) as Hwf by wf_by_evaluation.
  assert (in_range (snapshot steam_beside_water) 2 1) as Hin
    by (unfold in_range; change (width _) with 5; change (height _) with 4; lia).
  assert (CanMoveDown (snapshot steam_beside_water) 2 1 = false) as Hd
    by reflexivity.
  assert (Get (snapshot steam_beside_water) (2 + -1) 1 = Steam) as Hs
    by reflexivity.
  assert (flow_side (snapshot steam_beside_water) 2 1 = Some (-1)) as Hf
    by reflexivity.
  split; [exact Hwf|]. split; [exact Hin|]. split; [exact Hd|].
  split; [exact Hs|]. split; [exact Hf|].
  apply (sideways_flow_overwrites_steam (snapshot steam_beside_water) 2 1 (-1)
           Hwf Hin); [exact Hd | exact Hs | exact Hf].
Defined.

(** C1 for one grain saved and loaded into the fresh small grid. *)
Lemma save_load_only_clears_witness :
  wf one_grain /\ border_stone one_grain /\ wf small_grid
  /\ Get one_grain 1 0 = Sand
  /\ Get (LoadFromFile (Some (SaveToFile one_grain)) small_grid) 1 0 = Empty.
Proof.
  assert (wf one_grain) as Hwf by wf_by_evaluation.
  assert (wf small_grid) as Hwft by wf_by_evaluation.
  pose proof one_grain_border as Hb.
  split; [exact Hwf|]. split; [exact Hb|]. split; [exact Hwft|].
  split; [reflexivity|].
  destruct (save_load_only_clears one_grain small_grid Hwf Hb Hwft) as (_ & HG & _).
  rewrite HG; [reflexivity|].
  unfold in_range. change (width small_grid) with 5.
  change (height small_grid) with 4. lia.
Defined.

(** ** Runs that contradict the specification *)

(** C1: a grain of sand saved and loaded into a fresh grid of the same
    dimensions is lost. *)
Lemma save_load_failing_input :
  Get one_grain 1 0 = Sand
  /\ getlines (SaveToFile one_grain)
     = ["# Particle Simulator Save File"; "# Width: 5 Height: 4";
        "#S  #"; "#   #"; "#####"; "#####"]%string
  /\ Get (LoadFromFile (Some (SaveToFile one_grain)) small_grid) 1 0 = Empty.
Proof. repeat split; reflexivity. Qed.

(** C2: three grains become two in one tick, whatever is drawn for the
    direction (the wall is on the other side). *)
Lemma sand_conservation_counterexample :
  sand_only three_grains
  /\ sand_count three_grains = 3%nat
  /\ sand_count (Update three_grains) = 2%nat.
Proof. split; [apply three_grains_sand_only|]. split; reflexivity. Qed.

(** C3: after construction the next buffer is Empty on the border. *)
Lemma next_border_counterexample :
  reachable small_grid /\ in_range small_grid 0 0 /\ protected small_grid 0 0
  /\ GetNext small_grid 0 0 = Empty /\ GetNext small_grid 0 0 <> Stone.
Proof.
  split; [apply small_grid_reachable|].
  split; [unfold in_range; change (width small_grid) with 5;
          change (height small_grid) with 4; lia|].
  split; [unfold protected; lia|]. split; [reflexivity | discriminate].
Qed.

(** C4: Lava in row 0 is not Empty and in bounds, and the pass leaves its
    temperature at 1000, not at the relaxed mean 264. *)
Lemma diffusion_counterexample :
  in_range hot_top 2 0 /\ Get hot_top 2 0 = Lava
  /\ GetTemperature hot_top 2 0 = 1000
  /\ relax (mean_temperature hot_top (GetTemperature hot_top) 2 0) = 264
  /\ GetTemperature (UpdateTemperature hot_top) 2 0 = 1000.
Proof.
  split; [unfold in_range; change (width hot_top) with 5;
          change (height hot_top) with 4; lia|].
  repeat split; reflexivity.
Qed.

(** The sum of the diffusion pass leaves the range of [int]: the cell at
    [INT_MAX] with three Stone neighbours at 20 gets the mean of the
    wrapped sum, relaxed by one. *)
Lemma diffusion_wraps :
  GetTemperature overheated 2 1 = INT_MAX
  /\ temperature_sum overheated (GetTemperature overheated) 2 1 = INT_MAX + 60
  /\ wrap_int (INT_MAX + 60) = -2147483589
  /\ GetTemperature (UpdateTemperature overheated) 2 1 = -536870896.
Proof. repeat split; reflexivity. Qed.

(** C5: at time scale 0.75 the ceiling of 1/scale is 2, and both of two
    consecutive calls perform a tick. *)
Lemma frame_gate_counterexample :
  isPaused (gameState slow_grain) = false
  /\ ceil_inverse (timeSpeed (gameState slow_grain)) = 2
  /\ ticks_in 2 slow_grain = 2%nat
  /\ grid (Update slow_grain) <> grid slow_grain
  /\ grid (Update (Update slow_grain)) <> grid (Update slow_grain).
Proof.
  split; [reflexivity|]. split; [reflexivity|]. split; [reflexivity|].
  split; vm_compute; discriminate.
Qed.

(** C7: the Sand above the Acid is in row 0, outside the window of the
    rule, and the Sand to its right comes after the draw that consumed the
    Acid: neither is dissolved by the rule; after the tick the three
    grains are all still there (the one to the left had moved on before
    the Acid was visited). *)
Lemma acid_counterexample :
  let s := snapshot acid_among_sand in
  Get s 2 1 = Acid /\ Get s 2 0 = Sand /\ Get s 3 1 = Sand
  /\ fst (ProcessReactions 2 1 s) = true
  /\ GetNext (snd (ProcessReactions 2 1 s)) 2 0 = Sand
  /\ GetNext (snd (ProcessReactions 2 1 s)) 3 1 = Sand
  /\ count_of Sand (grid acid_among_sand) = 3%nat
  /\ count_of Sand (grid (Update acid_among_sand)) = 3%nat.
Proof. cbv zeta. repeat split; reflexivity. Qed.

(** C10: the Steam left of the Water rises before the Water is visited;
    the Water then flows into the cell that is Steam in the snapshot, and
    the number of Steam cells is the same before and after, in the next
    buffer across the rule instance and in the grid across the tick. *)
Lemma steam_count_counterexample :
  let s1 := update_cell 1 1 (snapshot (count_frame steam_beside_water)) in
  Get steam_beside_water 1 1 = Steam /\ Get steam_beside_water 2 1 = Water
  /\ CanMoveDown s1 2 1 = false /\ flow_side s1 2 1 = Some (-1)
  /\ Get s1 (2 + -1) 1 = Steam
  /\ count_of Steam (nextGrid (UpdateWater 2 1 s1)) = count_of Steam (nextGrid s1)
  /\ Get (Update steam_beside_water) 1 1 = Water
  /\ Get (Update steam_beside_water) 2 1 = Empty
  /\ count_of Steam (grid (Update steam_beside_water))
     = count_of Steam (grid steam_beside_water).
Proof. cbv zeta. repeat split; reflexivity. Qed.

(** ** Instances of the further properties *)

(** [Set] at the interior cell (1, 0) of the small grid, and at the wall. *)
Lemma Set_then_Get_witness :
  wf small_grid
  /\ Get (Set_ 1 0 Sand small_grid) 1 0 = Sand
  /\ Get (Set_ 0 0 Sand small_grid) 0 0 = Stone.
Proof.
  assert (wf small_grid) as Hwf by wf_by_evaluation.
  destruct (Set_then_Get small_grid 1 0 Sand Hwf) as (H1 & _).
  destruct (Set_then_Get small_grid 0 0 Sand Hwf) as (H2 & _).
  split; [exact Hwf|]. split.
  - rewrite H1. reflexivity.
  - rewrite H2. reflexivity.
Defined.

(** [SetTemperature] at the wall cell (0, 0) of the small grid. *)
Lemma SetTemperature_then_GetTemperature_witness :
  wf small_grid
  /\ GetTemperature (SetTemperature 0 0 500 small_grid) 0 0 = 500.
Proof.
  assert (wf small_grid) as Hwf by wf_by_evaluation.
  destruct (SetTemperature_then_GetTemperature small_grid 0 0 500 Hwf) as (H1 & _).
  split; [exact Hwf|]. rewrite H1. reflexivity.
Defined.

(** [Clear] of the grid with three grains. *)
Lemma Clear_resets_witness :
  wf three_grains /\ Clear (Clear three_grains) = Clear three_grains.
Proof.
  assert (wf three_grains) as Hwf by wf_by_evaluation.
  split; [exact Hwf|]. apply (Clear_resets three_grains Hwf).
Defined.


(** The Stone of the floor of the grid with three grains, two calls later. *)
Lemma Stone_and_Obsidian_stay_witness :
  reachable three_grains
  /\ Get (Nat.iter 2 Update three_grains) 2 2 = Get three_grains 2 2.
Proof.
  split; [exact three_grains_reachable|].
  apply (Stone_and_Obsidian_stay three_grains 2 2 2 three_grains_reachable).
  left. reflexivity.
Defined.

(** The fresh small grid, three calls later. *)
Lemma inert_grid_is_still_witness :
  reachable small_grid
  /\ randCalls (Nat.iter 3 Update small_grid) = randCalls small_grid.
Proof.
  split; [exact small_grid_reachable|].
  apply (inert_grid_is_still small_grid 3 small_grid_reachable).
  intros x y. destruct (decide (in_range small_grid x y)) as [Hin|Hout].
  - destruct Hin as [Hx Hy]. change (width small_grid) with 5 in Hx.
    change (height small_grid) with 4 in Hy.
    assert (x = 0 \/ x = 1 \/ x = 2 \/ x = 3 \/ x = 4) as Hxs by lia.
    assert (y = 0 \/ y = 1 \/ y = 2 \/ y = 3) as Hys by lia.
    destruct Hxs as [->|[->|[->|[->| ->]]]];
      destruct Hys as [->|[->|[->| ->]]]; vm_compute; tauto.
  - right. left. by apply Get_out.
Defined.

(** The diffusion pass on the small grid with Lava on its floor, between
    20 and 1000. *)
Lemma UpdateTemperature_maximum_principle_witness :
  wf hot_floor /\ 20 <= 20 <= 1000
  /\ INT_MIN <= 9 * 20 /\ 9 * 1000 <= INT_MAX
  /\ 20 <= GetTemperature (UpdateTemperature hot_floor) 2 1 <= 1000.
Proof.
  assert (wf hot_floor) as Hwf by wf_by_evaluation.
  assert (INT_MIN <= 9 * 20) as Hlo by (unfold INT_MIN; lia).
  assert (9 * 1000 <= INT_MAX) as Hhi by (unfold INT_MAX; lia).
  split; [exact Hwf|]. split; [lia|]. split; [exact Hlo|]. split; [exact Hhi|].
  apply (UpdateTemperature_maximum_principle hot_floor 20 1000 Hwf);
    [lia | exact Hlo | exact Hhi | exact hot_floor_temperatures].
Defined.

(** The small grid with Lava on its floor, after one call of [Update]. *)
Lemma temperature_range_witness :
  simulated (Update hot_floor)
  /\ -10 <= GetTemperature (Update hot_floor) 2 1 <= 1000.
Proof.
  assert (simulated (Update hot_floor)) as Hs.
  { apply sim_Update, sim_AddParticle, sim_new; lia. }
  split; [exact Hs|].
  destruct (temperature_range (Update hot_floor) Hs) as [H _]. exact (H 2 1).
Defined.

(** Case analysis on the 8 cells around [(x, y)]. *)
Ltac adjacent_cases x y i j Ha :=
  let Hi := fresh in
  let Hj := fresh in
  assert (i = x - 1 \/ i = x \/ i = x + 1) as Hi by (unfold adjacent in Ha; lia);
  assert (j = y - 1 \/ j = y \/ j = y + 1) as Hj by (unfold adjacent in Ha; lia);
  destruct Hi as [->|[->| ->]]; destruct Hj as [->|[->| ->]].

(** Water at (1, 0) beside Lava at (2, 0) boils. *)
Lemma water_boils_or_freezes_witness :
  reachable lava_between_water /\ tick_due lava_between_water = true
  /\ Get lava_between_water 1 0 = Water
  /\ Get (Update lava_between_water) 1 0 = Steam.
Proof.
  assert (reachable lava_between_water) as Hr
    by (do 3 apply reach_AddParticle; exact small_grid_reachable).
  assert (tick_due lava_between_water = true) as Hd by reflexivity.
  assert (Get lava_between_water 1 0 = Water) as Hw by reflexivity.
  split; [exact Hr|]. split; [exact Hd|]. split; [exact Hw|].
  destruct (water_boils_or_freezes lava_between_water 1 0 Hr Hd Hw) as [Hboil _].
  apply Hboil. left. exists 2, 0. split; [unfold adjacent; lia|].
  left. reflexivity.
Defined.

(** Ice at (1, 0) beside Lava at (2, 0) melts. *)
Lemma ice_melts_witness :
  reachable ice_beside_lava /\ tick_due ice_beside_lava = true
  /\ Get ice_beside_lava 1 0 = Ice
  /\ Get (Update ice_beside_lava) 1 0 = Water.
Proof.
  assert (reachable ice_beside_lava) as Hr
    by (do 2 apply reach_AddParticle; exact small_grid_reachable).
  assert (tick_due ice_beside_lava = true) as Hd by reflexivity.
  assert (Get ice_beside_lava 1 0 = Ice) as Hi by reflexivity.
  split; [exact Hr|]. split; [exact Hd|]. split; [exact Hi|].
  destruct (ice_melts ice_beside_lava 1 0 Hr Hd Hi) as [_ Hmelt].
  { right. exists 2, 0. split; [unfold adjacent; lia|]. left. reflexivity. }
  apply Hmelt. intros i j Ha.
  adjacent_cases 1 0 i j Ha; vm_compute; discriminate.
Defined.

(** Lava on the floor at 400 degrees turns to Stone. *)
Lemma lava_cools_to_stone_witness :
  reachable cool_lava /\ tick_due cool_lava = true
  /\ Get cool_lava 2 1 = Lava /\ GetTemperature cool_lava 2 1 < 500
  /\ Get (Update cool_lava) 2 1 = Stone.
Proof.
  assert (reachable cool_lava) as Hr
    by (apply reach_SetTemperature, reach_AddParticle; exact small_grid_reachable).
  assert (tick_due cool_lava = true) as Hd by reflexivity.
  assert (Get cool_lava 2 1 = Lava) as Hl by reflexivity.
  assert (GetTemperature cool_lava 2 1 < 500) as Hc by reflexivity.
  split; [exact Hr|]. split; [exact Hd|]. split; [exact Hl|]. split; [exact Hc|].
  apply (lava_cools_to_stone cool_lava 2 1 Hr Hd Hl); [|exact Hc].
  intros i j Ha. adjacent_cases 2 1 i j Ha; vm_compute; discriminate.
Defined.

(** Oil at (1, 0) beside Fire at (2, 0) ignites. *)
Lemma oil_ignites_witness :
  reachable oil_beside_fire /\ tick_due oil_beside_fire = true
  /\ Get oil_beside_fire 1 0 = Oil
  /\ Get (Update oil_beside_fire) 1 0 = Fire.
Proof.
  assert (reachable oil_beside_fire) as Hr
    by (do 2 apply reach_AddParticle; exact small_grid_reachable).
  assert (tick_due oil_beside_fire = true) as Hd by reflexivity.
  assert (Get oil_beside_fire 1 0 = Oil) as Ho by reflexivity.
  split; [exact Hr|]. split; [exact Hd|]. split; [exact Ho|].
  apply (oil_ignites oil_beside_fire 1 0 Hr Hd Ho).
  exists 2, 0. split; [unfold adjacent; lia|]. left. reflexivity.
Defined.

(** Fire at (2, 0) beside Water at (1, 0) goes out. *)
Lemma fire_quenched_by_water_witness :
  reachable water_beside_fire /\ tick_due water_beside_fire = true
  /\ Get water_beside_fire 2 0 = Fire
  /\ Get (Update water_beside_fire) 2 0 = Smoke
  /\ Get (Update water_beside_fire) 1 0 = Steam.
Proof.
  assert (reachable water_beside_fire) as Hr
    by (do 2 apply reach_AddParticle; exact small_grid_reachable).
  assert (tick_due water_beside_fire = true) as Hd by reflexivity.
  assert (Get water_beside_fire 2 0 = Fire) as Hf by reflexivity.
  split; [exact Hr|]. split; [exact Hd|]. split; [exact Hf|].
  destruct (fire_quenched_by_water water_beside_fire 2 0 Hr Hd Hf) as [Hs Hw].
  - intros i j Ha. adjacent_cases 2 0 i j Ha; vm_compute; discriminate.
  - exists 1, 0. split; [unfold adjacent; lia | reflexivity].
  - split; [exact Hs|]. apply Hw; [unfold adjacent; lia | reflexivity].
Defined.

(** The file with Lava in its first row, read into the small grid. *)
Lemma LoadFromFile_rows_witness :
  wf small_grid /\ in_range small_grid 2 0
  /\ Get (LoadFromFile (Some lava_file) small_grid) 2 0 = Lava
  /\ Get (LoadFromFile (Some lava_file) small_grid) 1 1 = Sand.
Proof.
  assert (wf small_grid) as Hwf by wf_by_evaluation.
  assert (in_range small_grid 2 0) as Hin by (by vm_compute).
  assert (in_range small_grid 1 1) as Hin' by (by vm_compute).
  split; [exact Hwf|]. split; [exact Hin|].
  destruct (LoadFromFile_rows lava_file small_grid 2 0 Hwf Hin) as [-> _].
  destruct (LoadFromFile_rows lava_file small_grid 1 1 Hwf Hin') as [-> _].
  split; reflexivity.
Defined.

(** The same file: the Lava it holds is Stone one call later. *)
Lemma loaded_lava_turns_to_stone_witness :
  reachable small_grid
  /\ Get (LoadFromFile (Some lava_file) small_grid) 2 0 = Lava
  /\ Get (Update (LoadFromFile (Some lava_file) small_grid)) 2 0 = Stone.
Proof.
  assert (Get (LoadFromFile (Some lava_file) small_grid) 2 0 = Lava) as Hl
    by reflexivity.
  split; [exact small_grid_reachable|]. split; [exact Hl|].
  apply (loaded_lava_turns_to_stone lava_file small_grid 2 0
           small_grid_reachable); [reflexivity | exact Hl |].
  intros i j Ha. adjacent_cases 2 0 i j Ha; vm_compute; discriminate.
Defined.

(** The grid with one cell of each flickering kind. *)
Lemma Draw_paints_witness :
  draws_nonnegative fireworks
  /\ Forall2 (paints fireworks) (drawn_cells fireworks) (fst (Draw fireworks)).
Proof.
  assert (draws_nonnegative fireworks) as Hpos by (intros n; by vm_compute).
  split; [exact Hpos|]. apply (Draw_paints fireworks Hpos).
Defined.

(** The time scale after three presses of [-] and one of [+]. *)
Lemma speed_keys_bounded_witness :
  let gs := mkGameState false
              (speed_up (speed_down (speed_down (speed_down f32_one)))) 0 in
  speed_reachable (timeSpeed gs)
  /\ (skipFrames gs = 1 \/ skipFrames gs = 2 \/ skipFrames gs = 4
      \/ skipFrames gs = 9 \/ skipFrames gs = 10).
Proof.
  cbv zeta.
  assert (speed_reachable
            (speed_up (speed_down (speed_down (speed_down f32_one))))) as Hr
    by (apply speed_plus; do 3 apply speed_minus; apply speed_initial).
  split; [exact Hr|].
  apply (speed_keys_bounded
           (mkGameState false
              (speed_up (speed_down (speed_down (speed_down f32_one)))) 0) Hr).
Defined.

(** The brush after two notches of the wheel. *)
Lemma brush_stays_named_witness :
  brush_reachable (wheel_brush f32_one false (wheel_brush f32_one false 1))
  /\ named_brush (wheel_brush f32_one false (wheel_brush f32_one false 1)).
Proof.
  assert (brush_reachable
            (wheel_brush f32_one false (wheel_brush f32_one false 1))) as Hr
    by (do 2 apply brush_wheel; apply brush_initial).
  split; [exact Hr|]. apply (brush_stays_named _ Hr).
Defined.

(** Three paused frames of the grid with four flickering cells. *)
Lemma paused_frames_consume_draws_witness :
  isPaused (gameState paused_fireworks) = true
  /\ randCalls (Nat.iter 3 idle_frame paused_fireworks) = 12%nat.
Proof.
  split; [reflexivity|].
  rewrite (paused_frames_consume_draws paused_fireworks 3); reflexivity.
Defined.

(** The cell (3, 2) of the tall grid, far from the grain at (1, 0). *)
Lemma Update_is_local_witness :
  reachable far_grain /\ draws_nonnegative far_grain
  /\ Get (Update far_grain) 3 2 = Get far_grain 3 2.
Proof.
  assert (reachable far_grain) as Hr
    by (apply reach_AddParticle; exact tall_grid_reachable).
  assert (draws_nonnegative far_grain) as Hpos by (intros n; by vm_compute).
  split; [exact Hr|]. split; [exact Hpos|].
  apply (Update_is_local far_grain 3 2 Hr Hpos).
  intros a b [Ha Hb].
  assert (a = 2 \/ a = 3 \/ a = 4) as Has by lia.
  assert (b = 1 \/ b = 2 \/ b = 3) as Hbs by lia.
  destruct Has as [->|[->| ->]]; destruct Hbs as [->|[->| ->]];
    vm_compute; tauto.
Defined.

(** The grid with one grain, its next buffer filled with Sand. *)
Lemma next_buffer_is_scratch_witness :
  wf one_grain /\ tick_due one_grain = true
  /\ Update (with_nextGrid (replicate 20 Sand) one_grain) = Update one_grain.
Proof.
  assert (wf one_grain) as Hwf by wf_by_evaluation.
  split; [exact Hwf|]. split; [reflexivity|].
  apply (next_buffer_is_scratch one_grain (replicate 20 Sand) Hwf); reflexivity.
Defined.

(** The grain of the small grid falls from (1, 0) to (1, 1). *)
Lemma sand_falls_witness :
  reachable one_grain /\ tick_due one_grain = true
  /\ Get one_grain 1 0 = Sand /\ Get one_grain 1 1 = Empty
  /\ Get (Update one_grain) 1 0 = Empty /\ Get (Update one_grain) 1 1 = Sand.
Proof.
  split; [exact one_grain_reachable|]. split; [reflexivity|].
  split; [reflexivity|]. split; [reflexivity|].
  apply (sand_falls one_grain 1 0 one_grain_reachable); reflexivity.
Defined.

(** The grain on the floor of the small grid stays. *)
Lemma sand_rests_witness :
  reachable resting_grain /\ tick_due resting_grain = true
  /\ Get resting_grain 2 1 = Sand
  /\ Get (Update resting_grain) 2 1 = Sand.
Proof.
  assert (reachable resting_grain) as Hr
    by (apply reach_AddParticle; exact small_grid_reachable).
  split; [exact Hr|]. split; [reflexivity|]. split; [reflexivity|].
  apply (sand_rests resting_grain 2 1 Hr); [reflexivity.. | | |].
  - vm_compute. discriminate.
  - intros d [-> | ->]; vm_compute; split; discriminate.
  - intros i j Ha. adjacent_cases 2 1 i j Ha; vm_compute; discriminate.
Defined.

(** Lava painted twice with the medium brush. *)
Lemma AddParticle_idempotent_witness :
  wf small_grid
  /\ Get (AddParticle 2 0 Lava 3 (AddParticle 2 0 Lava 3 small_grid)) 1 0
     = Get (AddParticle 2 0 Lava 3 small_grid) 1 0.
Proof.
  assert (wf small_grid) as Hwf by wf_by_evaluation.
  split; [exact Hwf|].
  apply (AddParticle_idempotent small_grid 2 0 Lava 3 Hwf 1 0).
Defined.

(** A game of two builds saved with score 42 and loaded over a new game. *)
Lemma SaveGame_LoadGame_witness :
  INT_MIN <= 42 <= INT_MAX
  /\ LoadGame 0 [with_count 0 cursor; farm] (Some (SaveGame 42 [cursor; farm]))
     = (42, [cursor; farm]).
Proof.
  assert (INT_MIN <= 42 <= INT_MAX) as Hscore by (by vm_compute).
  split; [exact Hscore|].
  destruct (SaveGame_LoadGame 42 0 [cursor; farm] [with_count 0 cursor; farm]
              Hscore) as [-> _]; [|reflexivity].
  repeat constructor; by vm_compute.
Defined.
